(** * pdf-rearranger: the page-ordering decision engine

    Shallow embedding of the ordering core of the repository
    (modules/ordering.py, modules/headings.py, modules/page_numbers.py,
    modules/duplicates.py, modules/llm_ordering.py and step 7 of
    processor.py) together with the properties stated about it.

    Modelling conventions.
    - A page dictionary is a record.  Only the keys that the embedded
      functions read or write are fields.  The dictionaries of one document
      are distinct objects (modules/extractor.py builds one per page), so an
      in-place update [page["k"] = v] of the elements of a list is a map over
      that list.
    - Python [int] is [Z] or [nat]; a Python [float] is the rational [Q]
      that it denotes (every finite binary64 value is a rational and float
      comparison is comparison of these rationals).  Where the source
      adds floats, divides integers or writes a decimal literal that a
      result depends on, the model rounds to the nearest binary64 number
      ([Float.nearest]); the range of the exponent is not bounded above,
      so the OverflowError of a numeral of more than 308 digits is not
      modelled.  For the two quotients of integers that the engine only
      compares with 0.7 and 1.5 the exact and the rounded comparison agree
      on every document of fewer than 10^15 pages, and they are kept
      exact.
    - [sorted] and [list.sort] are stable; they are modelled by a stable
      insertion sort on the key the source passes.
    - A Python exception is [None] of an [option] result, or the left
      injection of a sum that carries the message.
    - [str] is [string]; characters are the code points below 256. *)

From Stdlib Require Import String Ascii.
From Stdlib Require Import List Arith ZArith QArith Qround Qpower Bool Lia Lqa.
From Stdlib Require Import Permutation Sorted DecimalString.
Import ListNotations.
Open Scope nat_scope.

Set Implicit Arguments.

(** ** Python built-ins used by the source *)

Module Py.

Definition Qltb (a b : Q) : bool := negb (Qle_bool b a).

Section StableSort.
Variables (A K : Type) (ltb : K -> K -> bool) (key : A -> K).

(** [x] is placed after the elements whose key is strictly smaller and
    before the first element whose key is not: an element never overtakes
    one with an equal key that came before it. *)
Fixpoint insert_by (x : A) (l : list A) : list A :=
  match l with
  | [] => [x]
  | y :: r => if ltb (key y) (key x) then y :: insert_by x r else x :: l
  end.

(** [sorted(l, key=key)] *)
Definition sorted (l : list A) : list A := fold_right insert_by [] l.
End StableSort.

(** [l[i], l[i+1] = l[i+1], l[i]] for [i + 1 < len(l)] *)
Definition swap_at (A : Type) (i : nat) (l : list A) : list A :=
  firstn i l ++
  match skipn i l with
  | a :: b :: r => b :: a :: r
  | r => r
  end.

(** lexicographic [<] of Python tuples, components compared with [==]
    first and with [<] at the first difference *)
Definition pair_ltb (A B : Type) (lta : A -> A -> bool) (ltb : B -> B -> bool)
           (x y : A * B) : bool :=
  if lta (fst x) (fst y) then true
  else if lta (fst y) (fst x) then false
  else ltb (snd x) (snd y).

(** The position that [l[i]] reads in a list of length [n]: a negative
    index counts from the end.  [None]: IndexError. *)
Definition index (n : nat) (i : Z) : option nat :=
  if (i <? 0)%Z then
    if (i + Z.of_nat n <? 0)%Z then None
    else Some (Z.to_nat (i + Z.of_nat n))
  else if (i <? Z.of_nat n)%Z then Some (Z.to_nat i) else None.

(** [sum(l)] on integers *)
Definition sum (l : list Z) : Z := fold_right Z.add 0%Z l.

(** [range(a, b)] on integers; empty when [b <= a] *)
Definition range (a b : Z) : list Z :=
  map (fun k => (a + Z.of_nat k)%Z) (seq 0 (Z.to_nat (b - a))).

End Py.

(** ** Python floats: binary64 numbers as rationals *)

Module Float.

(** [2^e] *)
Definition pow2 (e : Z) : Q := (2 ^ e)%Q.

(** the exponent of a positive rational: [2^e <= x < 2^(e+1)] *)
Definition exponent (x : Q) : Z :=
  let e := (Z.log2 (Qnum x) - Z.log2 (Zpos (Qden x)))%Z in
  if Qle_bool (pow2 e) x then e else (e - 1)%Z.

(** the nearest integer, the even one of two that are equally near *)
Definition round_half_even (x : Q) : Z :=
  let f := Qfloor x in
  let r := (x - inject_Z f)%Q in
  if Py.Qltb r (1 # 2) then f
  else if Py.Qltb (1 # 2) r then (f + 1)%Z
  else if Z.even f then f else (f + 1)%Z.

(** the exponent of the last of the 53 bits of the significand; the
    subnormal numbers end at [2^-1074] *)
Definition last_bit (x : Q) : Z := Z.max (exponent x - 52) (-1074).

Definition nearest_positive (x : Q) : Q :=
  (inject_Z (round_half_even (x / pow2 (last_bit x))) * pow2 (last_bit x))%Q.

(** the binary64 number nearest to [x], ties to even: the value of
    [float(x)] and of a decimal literal that denotes [x] *)
Definition nearest (x : Q) : Q :=
  match (x ?= 0)%Q with
  | Eq => 0%Q
  | Gt => nearest_positive x
  | Lt => (- nearest_positive (- x))%Q
  end.

(** [x + y] when one of the two is a float: an [int] operand is converted
    with [float] first (a float is its own nearest), and the sum is
    rounded *)
Definition add (x y : Q) : Q := nearest (nearest x + nearest y).

(** [a / b] for integers, [b] not zero: the quotient, rounded once *)
Definition div (a b : Z) : Q := nearest (inject_Z a / inject_Z b).

End Float.

Arguments Float.nearest : simpl never.
Arguments Float.add : simpl never.
Arguments Float.div : simpl never.
Arguments Float.pow2 : simpl never.

(** ** Page records and metadata dictionaries *)

Record page := mkPage {
  page_index : nat;
  text : string;
  title : option string;                  (* [None]: no title found *)
  page_number_detected : option Z * Q;    (* (number, confidence) *)
  section_numeric_value : option Q;
  position_hint : option Z;               (* [None]: key absent *)
  is_exact_duplicate : bool;
  is_near_duplicate : bool;
  duplicate_of : list Z;
  duplicate_similarity : option Q;
  new_position : option nat               (* [None]: key absent *)
}.

(** [page["new_position"] = k] *)
Definition set_new_position (k : nat) (p : page) : page :=
  mkPage (page_index p) (text p) (title p) (page_number_detected p)
         (section_numeric_value p) (position_hint p)
         (is_exact_duplicate p) (is_near_duplicate p) (duplicate_of p)
         (duplicate_similarity p) (Some k).

(** [for new_idx, page in enumerate(l, k): page["new_position"] = new_idx] *)
Fixpoint assign_from (k : nat) (l : list page) : list page :=
  match l with
  | [] => []
  | p :: r => set_new_position k p :: assign_from (S k) r
  end.

Definition assign_positions : list page -> list page := assign_from 0.

(** A value that [json.loads] returns. *)
#[warnings="-register-all"]
Inductive json :=
| JNull
| JBool (b : bool)
| JInt (z : Z)
| JFloat (q : Q)
| JNonFinite                  (* NaN, Infinity, -Infinity *)
| JString (s : string)
| JArray (l : list json)
| JObject (l : list (string * json)).

(** Values stored in the metadata dictionaries; [MJson] is a value taken
    over from a parsed answer. *)
Inductive meta_value :=
| MInt (z : Z)
| MFloat (q : Q)
| MStr (s : string)
| MStrs (l : list string)
| MJson (j : json).

(** A metadata dictionary, keys in insertion order. *)
Definition metadata := list (string * meta_value).

Fixpoint dict_get (k : string) (d : metadata) : option meta_value :=
  match d with
  | [] => None
  | (k', v) :: r => if String.eqb k k' then Some v else dict_get k r
  end.

Definition BLANK_PAGE : string := "[BLANK PAGE]".

(** ** modules/ordering.py *)

Module Ordering.

(** [p.get("title") == "[BLANK PAGE]"] *)
Definition is_blank (p : page) : bool :=
  match title p with
  | Some t => String.eqb t BLANK_PAGE
  | None => false
  end.

Definition blank_pages (pages : list page) : list page :=
  filter is_blank pages.

Definition content_pages (pages : list page) : list page :=
  filter (fun p => negb (is_blank p)) pages.

(** [p.get("page_number_detected", (None, 0.0))[0] is not None] *)
Definition has_number (p : page) : bool :=
  match fst (page_number_detected p) with
  | Some _ => true
  | None => false
  end.

(** [p["page_number_detected"][0]]; the source evaluates it only on pages
    that passed [has_number]. *)
Definition number_of (p : page) : Z :=
  match fst (page_number_detected p) with
  | Some z => z
  | None => 0%Z
  end.

Definition confidence (p : page) : Q := snd (page_number_detected p).

(** [page_num is not None and confidence > 0.5] *)
Definition high_confidence_number (p : page) : bool :=
  has_number p && Py.Qltb (5 # 10) (confidence p).

(** [section_sort_key]: [(0, section_val)] or [(1, page_index)] *)
Definition section_sort_key (p : page) : Z * Q :=
  match section_numeric_value p with
  | Some v => (0%Z, v)
  | None => (1%Z, inject_Z (Z.of_nat (page_index p)))
  end.

Definition section_key_ltb : Z * Q -> Z * Q -> bool :=
  Py.pair_ltb Z.ltb Py.Qltb.

Definition order_pages_by_page_numbers (pages : list page) : list page :=
  let pages_with_numbers := filter high_confidence_number pages in
  let pages_without_numbers :=
    filter (fun p => negb (high_confidence_number p)) pages in
  let pages_with_numbers := Py.sorted Z.ltb number_of pages_with_numbers in
  let pages_without_numbers :=
    Py.sorted section_key_ltb section_sort_key pages_without_numbers in
  assign_positions (pages_with_numbers ++ pages_without_numbers).

(** [content_sort_key]: [(0, section_val, 0, page_idx)] or
    [(1, 0, position_hint, page_idx)], with
    [position_hint = p.get("position_hint", 500)] *)
Definition content_sort_key (p : page) : Z * (Q * (Z * nat)) :=
  match section_numeric_value p with
  | Some v => (0%Z, (v, (0%Z, page_index p)))
  | None =>
      (1%Z, (0%Q, (match position_hint p with Some h => h | None => 500%Z end,
                   page_index p)))
  end.

Definition content_key_ltb : Z * (Q * (Z * nat)) -> Z * (Q * (Z * nat)) -> bool :=
  Py.pair_ltb Z.ltb (Py.pair_ltb Py.Qltb (Py.pair_ltb Z.ltb Nat.ltb)).

(** The structure-order path prints a listing before it sorts: when some
    content page has a truthy [section_numeric_value] and there are at most
    20 content pages, it reads [p.get('title', '')[:50]] of the first ten
    such pages in the order of their value, which raises TypeError on a
    title that is [None]. *)
Definition has_section_value (p : page) : bool :=
  match section_numeric_value p with
  | Some v => negb (Qeq_bool v 0)
  | None => false
  end.

Definition section_value_or_default (p : page) : Q :=
  match section_numeric_value p with
  | Some v => v
  | None => 999999
  end.

Definition untitled (p : page) : bool :=
  match title p with
  | None => true
  | Some _ => false
  end.

Definition section_listing_raises (content : list page) : bool :=
  let pages_with_section_nums := filter has_section_value content in
  match pages_with_section_nums with
  | [] => false
  | _ :: _ =>
      (length content <=? 20)
      && existsb untitled
                 (firstn 10 (Py.sorted Py.Qltb section_value_or_default
                                       pages_with_section_nums))
  end.

(** the gaps between consecutive numbers of the sorted numbered pages *)
Fixpoint gaps (nums : list Z) : list Z :=
  match nums with
  | curr_num :: ((next_num :: _) as rest) =>
      Z.abs (next_num - curr_num) :: gaps rest
  | _ => []
  end.

Definition pages_with_numbers (pages : list page) : nat :=
  length (filter has_number (content_pages pages)).

(** [pages_with_numbers / len(content_pages) if content_pages else 0] *)
Definition page_number_coverage (pages : list page) : Q :=
  match content_pages pages with
  | [] => 0
  | _ :: _ =>
      Z.of_nat (pages_with_numbers pages)
      # Pos.of_nat (length (content_pages pages))
  end.

Definition numbered_pages (pages : list page) : list page :=
  Py.sorted Z.ltb number_of (filter has_number (content_pages pages)).

Definition sequential_score (pages : list page) : Q :=
  let numbered := numbered_pages pages in
  if 2 <? length numbered then
    let gs := gaps (map number_of numbered) in
    let avg_gap := Py.sum gs # Pos.of_nat (length gs) in
    if Py.Qltb (15 # 10) avg_gap then 5 # 10 else 1
  else 1.

(** [page_number_coverage >= 0.7 and sequential_score > 0.7] *)
Definition use_page_numbers (pages : list page) : bool :=
  Qle_bool (7 # 10) (page_number_coverage pages)
  && Py.Qltb (7 # 10) (sequential_score pages).

Section WithEmbeddings.

(** An embedding vector, and the similarity of two of them as
    [compute_similarity] of modules/embeddings.py obtains it: the cosine
    similarity computed by an external library, or 0 when that library is
    absent. *)
Variable embedding : Type.
Variable cosine_similarity : embedding -> embedding -> Q.
(** Python's [round(x, 2)], used for two metadata values only. *)
Variable round2 : Q -> Q.

(** [compute_similarity(embedding1, embedding2)], which returns
    [float(similarity)] *)
Definition compute_similarity (embedding1 embedding2 : embedding) : Q :=
  Float.nearest (cosine_similarity embedding1 embedding2).

(** [continuity_scores]: similarity of each adjacent pair, computed once
    before the pass *)
Fixpoint continuity_scores (embeddings : list embedding) : list Q :=
  match embeddings with
  | a :: ((b :: _) as rest) =>
      compute_similarity a b :: continuity_scores rest
  | _ => []
  end.

(** [threshold = 0.3]: the float that the literal denotes *)
Definition threshold : Q := Float.nearest (3 # 10).

(** One iteration of the loop body at index [i];
    [alt_sim > continuity_scores[i] + 0.2] compares with the float sum of
    the score and the float that the literal [0.2] denotes. *)
Definition continuity_step (scores : list Q)
           (st : list page * list embedding) (i : nat)
  : list page * list embedding :=
  let '(pages, embeddings) := st in
  match nth_error scores i with
  | Some score =>
      if Py.Qltb score threshold && (i + 2 <? length pages) then
        if i + 3 <? length pages then
          match nth_error embeddings i, nth_error embeddings (i + 2) with
          | Some e_i, Some e_i2 =>
              let alt_sim := compute_similarity e_i e_i2 in
              if Py.Qltb (Float.add score (Float.nearest (2 # 10)))
                         alt_sim then
                (Py.swap_at (i + 1) pages, Py.swap_at (i + 1) embeddings)
              else st
          | _, _ => st  (* not reached: both indices are in range *)
          end
        else st
      else st
  | None => st
  end.

(** The loop [for i in range(len(continuity_scores))]. *)
Definition continuity_pass (pages : list page) (embeddings : list embedding)
  : list page * list embedding :=
  let scores := continuity_scores embeddings in
  fold_left (continuity_step scores) (seq 0 (length scores))
            (pages, embeddings).

Definition optimize_continuity (pages : list page)
           (embeddings : list embedding) : list page :=
  if negb (length embeddings =? length pages) then pages
  else assign_positions (fst (continuity_pass pages embeddings)).

(** [[embeddings[p["page_index"]] for p in ordered]]; [None] when an
    index is out of range (IndexError). *)
Fixpoint embeddings_of (embeddings : list embedding) (ordered : list page)
  : option (list embedding) :=
  match ordered with
  | [] => Some []
  | p :: r =>
      match nth_error embeddings (page_index p), embeddings_of embeddings r with
      | Some e, Some es => Some (e :: es)
      | _, _ => None
      end
  end.

Definition hybrid_metadata (pages : list page) (method : string) : metadata :=
  [ ("total_pages", MInt (Z.of_nat (length pages)));
    ("content_pages", MInt (Z.of_nat (length (content_pages pages))));
    ("blank_pages", MInt (Z.of_nat (length (blank_pages pages))));
    ("pages_with_numbers", MInt (Z.of_nat (pages_with_numbers pages)));
    ("page_number_coverage", MFloat (round2 (page_number_coverage pages)));
    ("sequential_score", MFloat (round2 (sequential_score pages)));
    ("ordering_method", MStr method) ]%string.

(** The order of the content pages before the blank pages are appended;
    [None] when the listing raises TypeError or reading an embedding
    raises IndexError. *)
Definition order_content (pages : list page) (embeddings : list embedding)
  : option (list page) :=
  let content := content_pages pages in
  if use_page_numbers pages then
    Some (order_pages_by_page_numbers content)
  else if section_listing_raises content then None
  else
    let content_pages_sorted :=
      assign_positions (Py.sorted content_key_ltb content_sort_key content) in
    if 3 <? length content then
      match embeddings_of embeddings content_pages_sorted with
      | Some content_embeddings_ordered =>
          Some (optimize_continuity content_pages_sorted
                                    content_embeddings_ordered)
      | None => None
      end
    else Some content_pages_sorted.

Definition ordering_method (pages : list page) : string :=
  if use_page_numbers pages then "page_numbers_primary"%string
  else "section_numbers_primary"%string.

Definition order_pages_hybrid (pages : list page)
           (embeddings : list embedding)
  : option (list page * metadata) :=
  match content_pages pages with
  | [] =>
      Some (blank_pages pages,
            [ ("total_pages", MInt (Z.of_nat (length pages)));
              ("ordering_method", MStr "blank_only") ]%string)
  | _ :: _ =>
      match order_content pages embeddings with
      | Some ordered =>
          let final_ordered := ordered ++ blank_pages pages in
          Some (assign_positions final_ordered,
                hybrid_metadata pages (ordering_method pages))
      | None => None
      end
  end.

End WithEmbeddings.

End Ordering.

(** ** Characters and strings as the source uses them *)

Module Str.

Definition code (c : ascii) : nat := nat_of_ascii c.

(** [c.isspace()], which is also the class [\s] of [re] on [str] *)
Definition is_space (c : ascii) : bool :=
  let n := code c in
  ((9 <=? n) && (n <=? 13)) || ((28 <=? n) && (n <=? 32))
  || (n =? 133) || (n =? 160).

(** the class [\d] *)
Definition is_digit (c : ascii) : bool :=
  let n := code c in (48 <=? n) && (n <=? 57).

(** the class [[A-Z]] *)
Definition is_upper (c : ascii) : bool :=
  let n := code c in (65 <=? n) && (n <=? 90).

Definition is_lower (c : ascii) : bool :=
  let n := code c in (97 <=? n) && (n <=? 122).

(** [c.upper()] on letters of the basic alphabet, the only letters it is
    applied to in the embedded functions *)
Definition upper_char (c : ascii) : ascii :=
  if is_lower c then ascii_of_nat (code c - 32) else c.

(** [c.lower()] on the code points below 256 *)
Definition lower_char (c : ascii) : ascii :=
  let n := code c in
  if is_upper c then ascii_of_nat (n + 32)
  else if (192 <=? n) && (n <=? 222) && negb (n =? 215)
       then ascii_of_nat (n + 32)
       else c.

Definition chars : string -> list ascii := list_ascii_of_string.
Definition of_chars : list ascii -> string := string_of_list_ascii.

Fixpoint drop_while (f : ascii -> bool) (l : list ascii) : list ascii :=
  match l with
  | [] => []
  | c :: r => if f c then drop_while f r else l
  end.

(** the longest prefix whose characters satisfy [f], and the rest *)
Fixpoint span (f : ascii -> bool) (l : list ascii)
  : list ascii * list ascii :=
  match l with
  | [] => ([], [])
  | c :: r =>
      if f c then let '(run, rest) := span f r in (c :: run, rest)
      else ([], l)
  end.

(** [s.strip()] *)
Definition strip_chars (l : list ascii) : list ascii :=
  rev (drop_while is_space (rev (drop_while is_space l))).

Definition strip (s : string) : string := of_chars (strip_chars (chars s)).
Definition lower (s : string) : string := of_chars (map lower_char (chars s)).

(** [s.split('.')] on the characters of [s]: never empty *)
Fixpoint split_dot (l : list ascii) : list (list ascii) :=
  match l with
  | [] => [[]]
  | c :: r =>
      if Ascii.eqb c "."
      then [] :: split_dot r
      else match split_dot r with
           | w :: ws => (c :: w) :: ws
           | [] => [[c]]
           end
  end.

Definition digit_value (c : ascii) : Z := Z.of_nat (code c - 48).

(** [int(x)] for [x] a non-empty run of decimal digits; [None] on any
    other string, where Python raises ValueError or accepts a signed,
    padded or underscored literal that no embedded caller produces *)
Definition int_of_chars (l : list ascii) : option Z :=
  match l with
  | [] => None
  | _ :: _ =>
      if forallb is_digit l
      then Some (fold_left (fun acc c => (10 * acc + digit_value c)%Z) l 0%Z)
      else None
  end.

(** [[int(x) for x in ws]] *)
Fixpoint ints_of (ws : list (list ascii)) : option (list Z) :=
  match ws with
  | [] => Some []
  | w :: r =>
      match int_of_chars w, ints_of r with
      | Some z, Some zs => Some (z :: zs)
      | _, _ => None
      end
  end.

(** [[int(x) for x in s.split('.')]] *)
Definition section_parts (s : string) : option (list Z) :=
  ints_of (split_dot (chars s)).

(** a case-insensitive literal at the start of [l]; returns what follows *)
Fixpoint literal_ci (kw l : list ascii) : option (list ascii) :=
  match kw, l with
  | [], _ => Some l
  | k :: kw', c :: r =>
      if Ascii.eqb (lower_char k) (lower_char c) && (code c <? 128)
      then literal_ci kw' r else None
  | _ :: _, [] => None
  end.

End Str.

(** ** modules/headings.py *)

Module Headings.
Import Str.

(** The loop over [range(min(len(parts1), len(parts2)))]: [Some r] when an
    iteration returns [r], [None] when the loop runs to its end. *)
Fixpoint compare_common (parts1 parts2 : list Z) : option Z :=
  match parts1, parts2 with
  | a :: r1, b :: r2 =>
      if (a <? b)%Z then Some (-1)%Z
      else if (b <? a)%Z then Some 1%Z
      else compare_common r1 r2
  | _, _ => None
  end.

Definition compare_parts (parts1 parts2 : list Z) : Z :=
  match compare_common parts1 parts2 with
  | Some r => r
  | None =>
      if length parts1 <? length parts2 then (-1)%Z
      else if length parts2 <? length parts1 then 1%Z
      else 0%Z
  end.

(** [compare_section_numbers(num1, num2)]; an empty string stands for any
    falsy argument.  [None]: [int] raised ValueError. *)
Definition compare_section_numbers (num1 num2 : string) : option Z :=
  match num1, num2 with
  | EmptyString, EmptyString => Some 0%Z
  | EmptyString, _ => Some 1%Z
  | _, EmptyString => Some (-1)%Z
  | _, _ =>
      match section_parts num1, section_parts num2 with
      | Some parts1, Some parts2 => Some (compare_parts parts1 parts2)
      | _, _ => None
      end
  end.

Definition roman_map (c : ascii) : option Z :=
  match c with
  | "I" => Some 1 | "V" => Some 5 | "X" => Some 10 | "L" => Some 50
  | "C" => Some 100 | "D" => Some 500 | "M" => Some 1000
  | _ => None
  end%char%Z.

Definition in_roman_map (c : ascii) : bool :=
  match roman_map c with Some _ => true | None => false end.

(** the loop over [reversed(s)], state [(result, prev_value)] *)
Definition roman_step (st : Z * Z) (c : ascii) : Z * Z :=
  let '(result, prev_value) := st in
  match roman_map c with
  | Some value =>
      (if (value <? prev_value)%Z then result - value else result + value,
       value)%Z
  | None => st
  end.

Definition parse_roman_numeral (s : list ascii) : option Z :=
  let s := strip_chars (map upper_char s) in
  match s with
  | [] => None
  | _ :: _ =>
      if forallb in_roman_map s then
        let result := fst (fold_left roman_step (rev s) (0, 0)%Z) in
        if (0 <? result)%Z then Some result else None
      else None
  end.

(** The numeric part [\d+(?:\.\d+){0,k}] matched greedily: the digit runs
    are maximal and a group is taken whenever a dot and a digit follow.
    Both patterns that use it continue with a character that is neither a
    digit nor a dot, so no shorter match of this part can succeed. *)
Fixpoint dot_groups (k : nat) (l : list ascii) : list ascii * list ascii :=
  match k with
  | O => ([], l)
  | S k' =>
      match l with
      | "."%char :: r =>
          match span is_digit r with
          | ([], _) => ([], l)
          | (ds, rest) =>
              let '(more, rest') := dot_groups k' rest in
              ("."%char :: ds ++ more, rest')
          end
      | _ => ([], l)
      end
  end.

Definition numeric_hierarchy (l : list ascii)
  : option (list ascii * list ascii) :=
  match span is_digit l with
  | ([], _) => None
  | (ds, rest) =>
      let '(more, rest') := dot_groups 3 rest in Some (ds ++ more, rest')
  end.

(** [re.match(r'^(\d+(?:\.\d+){0,3})\s+[A-Z]', t)]: group 1 *)
Definition match_spaced_number (t : list ascii) : option (list ascii) :=
  match numeric_hierarchy t with
  | Some (num, c :: rest) =>
      if is_space c then
        match drop_while is_space rest with
        | d :: _ => if is_upper d then Some num else None
        | [] => None
        end
      else None
  | _ => None
  end.

(** [re.match(r'^(\d+(?:\.\d+){0,3})[A-Z]', t)]: group 1 *)
Definition match_unspaced_number (t : list ascii) : option (list ascii) :=
  match numeric_hierarchy t with
  | Some (num, c :: _) => if is_upper c then Some num else None
  | _ => None
  end.

(** [numeric_val += part / (1000 ** i)] for the sub-levels from level
    [i]: the quotient of the two integers is a float, and so is the sum;
    [numeric_val] is an integer before the first sub-level and a float
    after it *)
Fixpoint add_levels (i : nat) (sub : list Z) (numeric_val : Q) : Q :=
  match sub with
  | [] => numeric_val
  | part :: r =>
      add_levels (S i) r
                 (Float.add numeric_val
                            (Float.div part (1000 ^ Z.of_nat i)))
  end.

(** the hierarchical value of [parts]: the main number, to which
    [part / 1000^i] is added for each level [i >= 1] in turn *)
Definition hierarchical_value (parts : list Z) : Q :=
  match parts with
  | [] => 0
  | main :: sub => add_levels 1 sub (inject_Z main)
  end.

(** the result of patterns 1 and 2 for a matched number string *)
Definition numeric_result (num : list ascii) : option string * option Q :=
  match ints_of (split_dot num) with
  | Some parts => (Some (of_chars num), Some (hierarchical_value parts))
  | None => (None, None)  (* not reached: [num] is digits and dots *)
  end.

Definition is_roman_ci (c : ascii) : bool :=
  in_roman_map (upper_char c) && (code c <? 128).

Definition is_roman_or_digit_ci (c : ascii) : bool :=
  is_roman_ci c || is_digit c.

Definition is_alnum_ci (c : ascii) : bool :=
  is_upper c || is_lower c || is_digit c.

(** [re.match(r'^([IVXLCDM]+)[\s.)]', t, re.IGNORECASE)]: group 1 *)
Definition match_roman (t : list ascii) : option (list ascii) :=
  match span is_roman_ci t with
  | ([], _) => None
  | (run, c :: _) =>
      if is_space c || Ascii.eqb c "." || Ascii.eqb c ")"
      then Some run else None
  | (_, []) => None
  end.

(** [re.match(r'^(?:kw1|kw2|...)\s+([IVXLCDM\d]+)', t, re.IGNORECASE)]:
    group 1.  The alternatives are tried in order, each with the rest of
    the pattern. *)
Fixpoint match_keyword_number (kws : list string) (t : list ascii)
  : option (list ascii) :=
  match kws with
  | [] => None
  | kw :: more =>
      let attempt :=
        match literal_ci (chars kw) t with
        | Some (c :: rest) =>
            if is_space c then
              match span is_roman_or_digit_ci (drop_while is_space rest) with
              | ([], _) => None
              | (run, _) => Some run
              end
            else None
        | _ => None
        end in
      match attempt with
      | Some run => Some run
      | None => match_keyword_number more t
      end
  end.

(** [re.match(r'^\(([a-z0-9]+)\)', t, re.IGNORECASE)]: group 1 *)
Definition match_parenthetical (t : list ascii) : option (list ascii) :=
  match t with
  | "("%char :: r =>
      match span is_alnum_ci r with
      | ([], _) => None
      | (run, ")"%char :: _) => Some run
      | _ => None
      end
  | _ => None
  end.

(** Patterns 4 and 6 share their body; [offset] is 0 or 1000. *)
Definition keyword_result (num_str : list ascii) (offset : Z)
  : option (option string * option Q) :=
  match parse_roman_numeral num_str with
  | Some numeric_val =>
      Some (Some (of_chars (map upper_char num_str)),
            Some (inject_Z (numeric_val + offset)))
  | None =>
      match int_of_chars num_str with
      | Some n => Some (Some (of_chars num_str), Some (inject_Z (n + offset)))
      | None => None
      end
  end.

Definition parenthetical_result (sub_num : list ascii)
  : option (option string * option Q) :=
  let shown := of_chars ("("%char :: sub_num ++ [")"%char]) in
  match int_of_chars sub_num with
  | Some n => Some (Some shown, Some (inject_Z n))
  | None =>
      match sub_num with
      | [c] =>
          if is_upper c || is_lower c
          then Some (Some shown,
                     Some (inject_Z (Z.of_nat (code (lower_char c)) - 97 + 1)))
          else None
      | _ => None
      end
  end.

(** falling through the pattern families in the order of the source *)
Definition or_else (A : Type) (x : option A) (y : A) : A :=
  match x with Some a => a | None => y end.

Definition extract_section_number (title : option string)
  : option string * option Q :=
  match title with
  | None => (None, None)
  | Some title =>
      if String.eqb title "" || String.eqb title BLANK_PAGE then (None, None)
      else
        let title_clean := strip_chars (chars title) in
        match match_spaced_number title_clean with
        | Some num => numeric_result num
        | None =>
        match match_unspaced_number title_clean with
        | Some num => numeric_result num
        | None =>
        let pattern6 :=
          match match_keyword_number
                  ["schedule"; "annexure"; "annex"; "appendix"]%string
                  title_clean with
          | Some num_str => or_else (keyword_result num_str 1000) (None, None)
          | None => (None, None)
          end in
        let pattern5 :=
          match match_parenthetical title_clean with
          | Some sub_num => or_else (parenthetical_result sub_num) pattern6
          | None => pattern6
          end in
        let pattern4 :=
          match match_keyword_number
                  ["article"; "section"; "chapter"; "part"]%string
                  title_clean with
          | Some num_str => or_else (keyword_result num_str 0) pattern5
          | None => pattern5
          end in
        match match_roman title_clean with
        | Some roman =>
            match parse_roman_numeral roman with
            | Some numeric_val =>
                (Some (of_chars (map upper_char roman)),
                 Some (inject_Z numeric_val))
            | None => pattern4
            end
        | None => pattern4
        end
        end
        end
  end.

End Headings.

(** ** modules/page_numbers.py *)

Module PageNumbers.

(** the loop over consecutive entries of [page_numbers] *)
Fixpoint missing_between (page_numbers : list Z) : list Z :=
  match page_numbers with
  | current :: ((next_num :: _) as rest) =>
      (if (1 <? next_num - current)%Z
       then Py.range (current + 1) next_num
       else [])
      ++ missing_between rest
  | _ => []
  end.

(** [pages_with_numbers]: the list of [(page_index, page_number)] *)
Definition detect_missing_pages (pages_with_numbers : list (nat * Z))
  : list Z :=
  if length pages_with_numbers <? 2 then []
  else
    let sorted_pages := Py.sorted Z.ltb (@snd nat Z) pages_with_numbers in
    let page_numbers := map (@snd nat Z) sorted_pages in
    missing_between page_numbers.

End PageNumbers.

(** ** modules/duplicates.py *)

Module Duplicates.

Section WithHash.

(** [hashlib.sha256(b).hexdigest()] of the UTF-8 encoding of a string *)
Variable sha256_hexdigest : string -> string.

Definition compute_page_hash (text : string) : string :=
  let normalized := Str.lower (Str.strip text) in
  sha256_hexdigest normalized.

(** [hash_map]: a dictionary from hash to the list of page indices, keys
    in insertion order *)
Definition hash_map := list (string * list nat).

(** [if h not in hash_map: hash_map[h] = []] followed by
    [hash_map[h].append(idx)] *)
Fixpoint hash_map_append (h : string) (idx : nat) (m : hash_map)
  : hash_map :=
  match m with
  | [] => [(h, [idx])]
  | (h', indices) :: r =>
      if String.eqb h h' then (h', indices ++ [idx]) :: r
      else (h', indices) :: hash_map_append h idx r
  end.

(** the loop [for idx, page in enumerate(pages, idx0)] *)
Fixpoint fill_hash_map (idx : nat) (pages : list page) (m : hash_map)
  : hash_map :=
  match pages with
  | [] => m
  | page :: r =>
      fill_hash_map (S idx) r
                    (hash_map_append (compute_page_hash (text page)) idx m)
  end.

Definition find_exact_duplicates (pages : list page) : list (list nat) :=
  let m := fill_hash_map 0 pages [] in
  filter (fun indices => 1 <? length indices) (map snd m).

End WithHash.

Definition init_flags (p : page) : page :=
  mkPage (page_index p) (text p) (title p) (page_number_detected p)
         (section_numeric_value p) (position_hint p)
         false false [] (duplicate_similarity p) (new_position p).

(** [page["is_exact_duplicate"] = True] and
    [page["duplicate_of"].append(original_idx)] *)
Definition flag_exact (original_idx : Z) (p : page) : page :=
  mkPage (page_index p) (text p) (title p) (page_number_detected p)
         (section_numeric_value p) (position_hint p)
         true (is_near_duplicate p) (duplicate_of p ++ [original_idx])
         (duplicate_similarity p) (new_position p).

Definition flag_near (idx1 : Z) (similarity : Q) (p : page) : page :=
  mkPage (page_index p) (text p) (title p) (page_number_detected p)
         (section_numeric_value p) (position_hint p)
         (is_exact_duplicate p) true (duplicate_of p ++ [idx1])
         (Some similarity) (new_position p).

(** an update in place of the dictionary at position [k] of the list;
    [None] when there is no such position *)
Fixpoint update_position (k : nat) (f : page -> page) (pages : list page)
  : option (list page) :=
  match pages, k with
  | [], _ => None
  | p :: r, O => Some (f p :: r)
  | p :: r, S k' =>
      match update_position k' f r with
      | Some r' => Some (p :: r')
      | None => None
      end
  end.

(** an update in place of [pages[i]] for a Python integer [i]; [None]:
    IndexError *)
Definition update_at (i : Z) (f : page -> page) (pages : list page)
  : option (list page) :=
  match Py.index (length pages) i with
  | Some k => update_position k f pages
  | None => None
  end.

(** [for dup_idx in dups: ...] *)
Fixpoint mark_group (original_idx : Z) (dups : list Z)
         (pages : list page) : option (list page) :=
  match dups with
  | [] => Some pages
  | dup_idx :: r =>
      match update_at dup_idx (flag_exact original_idx) pages with
      | Some pages' => mark_group original_idx r pages'
      | None => None
      end
  end.

Fixpoint mark_exact (exact_duplicates : list (list Z)) (pages : list page)
  : option (list page) :=
  match exact_duplicates with
  | [] => Some pages
  | group :: r =>
      let marked :=
        match group with
        | original_idx :: ((_ :: _) as dups) =>
            mark_group original_idx dups pages
        | _ => Some pages      (* [len(group) > 1] is false *)
        end in
      match marked with
      | Some pages' => mark_exact r pages'
      | None => None
      end
  end.

Fixpoint mark_near (near_duplicates : list (Z * Z * Q))
         (pages : list page) : option (list page) :=
  match near_duplicates with
  | [] => Some pages
  | (idx1, idx2, similarity) :: r =>
      match update_at idx2 (flag_near idx1 similarity) pages with
      | Some pages' => mark_near r pages'
      | None => None
      end
  end.

(** The page list after [mark_duplicates(pages, exact_duplicates,
    near_duplicates)] for any lists of integers; [None]: IndexError. *)
Definition mark_duplicates (pages : list page)
           (exact_duplicates : list (list Z))
           (near_duplicates : list (Z * Z * Q)) : option (list page) :=
  match mark_exact exact_duplicates (map init_flags pages) with
  | Some pages' => mark_near near_duplicates pages'
  | None => None
  end.

(** The indices that the two detectors return count the pages from 0;
    as the Python integers that [mark_duplicates] is given: *)
Definition group_indices (exact_duplicates : list (list nat))
  : list (list Z) :=
  map (map Z.of_nat) exact_duplicates.

Definition pair_indices (near_duplicates : list (nat * nat * Q))
  : list (Z * Z * Q) :=
  map (fun t => (Z.of_nat (fst (fst t)), Z.of_nat (snd (fst t)), snd t))
      near_duplicates.

End Duplicates.

(** ** modules/llm_ordering.py *)

Module LlmOrdering.

(** The JSON object parsed from the model's answer; a field is [None]
    when the key is absent.  The four descriptive fields hold any JSON
    value; [correct_order], when present, is a list of integers. *)
Record response := mkResponse {
  document_type : option json;
  resp_confidence : option json;
  reasoning : option json;
  detected_sections : option json;
  correct_order : option (list Z)
}.

(** What the external service does inside the [try] block: an exception
    with message [message] raised before the answer is validated (a
    timeout, an answer that is not a JSON object), an answer that
    [json.loads] rejects, or a parsed object. *)
Inductive reply :=
| Raises (message : string)
| MalformedJson
| Parsed (result : response).

Definition error (reason : string) : metadata := [("error"%string, MStr reason)].

Definition show_nat (n : nat) : string :=
  DecimalString.NilZero.string_of_uint (Nat.to_uint n).

(** [set(order_indices) != set(range(n))] is false *)
Definition same_index_set (order_indices : list Z) (n : nat) : bool :=
  let all := map Z.of_nat (seq 0 n) in
  forallb (fun i => existsb (Z.eqb i) all) order_indices
  && forallb (fun k => existsb (Z.eqb k) order_indices) all.

(** [[pages[idx] for idx in order_indices]]; [None]: IndexError.  A
    negative index counts from the end, as in Python. *)
Fixpoint reorder (pages : list page) (order_indices : list Z)
  : option (list page) :=
  match order_indices with
  | [] => Some []
  | idx :: r =>
      let i := if (idx <? 0)%Z then (Z.of_nat (length pages) + idx)%Z else idx in
      match (if (i <? 0)%Z then None else nth_error pages (Z.to_nat i)),
            reorder pages r with
      | Some p, Some ps => Some (p :: ps)
      | _, _ => None
      end
  end.

(** The caller's list [pages] after the loop
    [for new_idx, page in enumerate(reordered_pages, new_idx):
    page["new_position"] = new_idx], [reordered_pages] being
    [[pages[idx] for idx in order_indices]]: the dictionaries are those of
    [pages], updated in place. *)
Fixpoint place (new_idx : nat) (order_indices : list Z) (pages : list page)
  : list page :=
  match order_indices with
  | [] => pages
  | idx :: r =>
      place (S new_idx) r
            (match Duplicates.update_at idx (set_new_position new_idx)
                                        pages with
             | Some pages' => pages'
             | None => pages   (* not reached: [pages[idx]] was read *)
             end)
  end.

Definition total_chars (pages : list page) : nat :=
  fold_right (fun p acc => String.length (text p) + acc) 0 pages.

(** The three formatted values of the report printed before the result is
    returned; each is [Some message] when formatting raises.  The messages
    are those of CPython 3.11. *)

(** [f"{v:.0%}"]: a number is converted to [float], which raises
    OverflowError on an integer that rounds to [2^1024] or more *)
Definition percent_error (v : json) : option string :=
  match v with
  | JInt z =>
      if (Z.abs z <? 2 ^ 1024 - 2 ^ 970)%Z then None
      else Some "int too large to convert to float"
  | JBool _ | JFloat _ | JNonFinite => None
  | JString _ => Some "Unknown format code '%' for object of type 'str'"
  | JNull => Some "unsupported format string passed to NoneType.__format__"
  | JArray _ => Some "unsupported format string passed to list.__format__"
  | JObject _ => Some "unsupported format string passed to dict.__format__"
  end%string.

(** [len(v)] *)
Definition len_error (v : json) : option string :=
  match v with
  | JString _ | JArray _ | JObject _ => None
  | JNull => Some "object of type 'NoneType' has no len()"
  | JBool _ => Some "object of type 'bool' has no len()"
  | JInt _ => Some "object of type 'int' has no len()"
  | JFloat _ | JNonFinite => Some "object of type 'float' has no len()"
  end%string.

(** [v[:120]] *)
Definition slice_error (v : json) : option string :=
  match v with
  | JString _ | JArray _ => None
  | JNull => Some "'NoneType' object is not subscriptable"
  | JBool _ => Some "'bool' object is not subscriptable"
  | JInt _ => Some "'int' object is not subscriptable"
  | JFloat _ | JNonFinite => Some "'float' object is not subscriptable"
  | JObject _ => Some "unhashable type: 'slice'"
  end%string.

(** The four [print] calls after the metadata is built: the document type
    is shown with [str], which is defined on every value; then
    [metadata['confidence']:.0%], [len(metadata.get('detected_sections',
    []))] and [metadata['reasoning'][:120]], in this order. *)
Definition report_error (confidence sections reasoning : json)
  : option string :=
  match percent_error confidence with
  | Some message => Some message
  | None =>
      match len_error sections with
      | Some message => Some message
      | None => slice_error reasoning
      end
  end.

(** The body of the [try] block after the answer was parsed, with the
    caller's list [pages] as it is when the block is left.  [inl msg]: an
    exception with message [msg] was raised.  The indices of a validated
    order are distinct, so the dictionaries of [reordered_pages] are
    distinct objects. *)
Definition validate_and_reorder (pages : list page) (result : response)
  : (string + (list page * metadata)) * list page :=
  match correct_order result with
  | None => (inl "Response missing 'correct_order' field"%string, pages)
  | Some order_indices =>
      if negb (length order_indices =? length pages) then
        (inl ("Order has " ++ show_nat (length order_indices)
              ++ " pages but document has " ++ show_nat (length pages))%string,
         pages)
      else if negb (same_index_set order_indices (length pages)) then
        (inl "Invalid page indices in order"%string, pages)
      else
        match reorder pages order_indices with
        | None => (inl "list index out of range"%string, pages)
        | Some reordered_pages =>
            let pages' := place 0 order_indices pages in
            let confidence :=
              match resp_confidence result with
              | Some v => v | None => JFloat 0 end in
            let sections :=
              match detected_sections result with
              | Some v => v | None => JArray [] end in
            let analysis :=
              match reasoning result with
              | Some v => v | None => JString "" end in
            let metadata :=
              [ ("ordering_method", MStr "gemini_ai_structured");
                ("document_type",
                 MJson (match document_type result with
                        | Some v => v | None => JString "unknown" end));
                ("confidence", MJson confidence);
                ("reasoning", MJson analysis);
                ("detected_sections", MJson sections);
                ("total_pages", MInt (Z.of_nat (length pages)));
                ("total_characters", MInt (Z.of_nat (total_chars pages)));
                ("page_number_coverage", MFloat 0);
                ("content_pages", MInt (Z.of_nat (length pages)));
                ("blank_pages", MInt 0) ]%string in
            match report_error confidence sections analysis with
            | Some message => (inl message, pages')
            | None =>
                (inr (assign_positions reordered_pages, metadata), pages')
            end
        end
  end.

(** The call [order_pages_with_gemini(pages, api_key)]: what it returns,
    and the caller's list [pages] when it returns.  The service is given
    by [gemini_available] (the import succeeded), [configured] (the result
    of [configure_gemini]) and the [reply] to the request.  Building the
    request reads [page.get("title", "").strip()], which raises when a
    title is [None]. *)
Definition call_gemini (gemini_available configured : bool)
           (answer : reply) (pages : list page) (api_key : option string)
  : (option (list page) * metadata) * list page :=
  if negb gemini_available then ((None, error "gemini_not_available"), pages)
  else if (match api_key with
           | Some k => negb (String.eqb k "") && negb configured
           | None => false
           end)
  then ((None, error "configuration_failed"), pages)
  else if existsb (fun p => match title p with None => true | Some _ => false end)
                  pages
  then ((None, error "'NoneType' object has no attribute 'strip'"), pages)
  else
    match answer with
    | Raises message => ((None, error message), pages)
    | MalformedJson => ((None, error "invalid_json_response"), pages)
    | Parsed result =>
        match validate_and_reorder pages result with
        | (inl message, pages') => ((None, error message), pages')
        | (inr (reordered_pages, meta), pages') =>
            ((Some reordered_pages, meta), pages')
        end
    end.

(** the value that [order_pages_with_gemini(pages, api_key)] returns *)
Definition order_pages_with_gemini (gemini_available configured : bool)
           (answer : reply) (pages : list page) (api_key : option string)
  : option (list page) * metadata :=
  fst (call_gemini gemini_available configured answer pages api_key).

(** the caller's list [pages] after the call *)
Definition pages_after_gemini (gemini_available configured : bool)
           (answer : reply) (pages : list page) (api_key : option string)
  : list page :=
  snd (call_gemini gemini_available configured answer pages api_key).

End LlmOrdering.

(** ** processor.py, step 7 of [process_pdf_complete] *)

Module Processor.

Section WithEmbeddings.
Variable embedding : Type.
Variable cosine_similarity : embedding -> embedding -> Q.
Variable round2 : Q -> Q.

(** [(ordered_pages, ordering_metadata)] after step 7; [None] when the
    hybrid engine raises.  The page dictionaries are shared: the engine is
    given the list as the adapter has left it. *)
Definition reorder_pages (use_gemini gemini_available configured : bool)
           (gemini_api_key : option string) (answer : LlmOrdering.reply)
           (pages : list page) (embeddings : list embedding)
  : option (list page * metadata) :=
  if use_gemini && gemini_available
     && (match gemini_api_key with
         | Some k => negb (String.eqb k "")
         | None => false
         end)
  then
    match LlmOrdering.order_pages_with_gemini
            gemini_available configured answer pages gemini_api_key with
    | (Some ordered_pages, ordering_metadata) =>
        Some (ordered_pages, ordering_metadata)
    | (None, _) =>
        (* [pages] is the list that the adapter was given and has updated *)
        Ordering.order_pages_hybrid
          cosine_similarity round2
          (LlmOrdering.pages_after_gemini
             gemini_available configured answer pages gemini_api_key)
          embeddings
    end
  else Ordering.order_pages_hybrid cosine_similarity round2 pages embeddings.

End WithEmbeddings.

End Processor.

(** ** modules/duplicates.py: near duplicates and the report *)

Module NearDuplicates.

Section WithEmbeddings.
Variable embedding : Type.
Variable compute_similarity : embedding -> embedding -> Q.

(** the body of the inner loop for the pair [(i, j)] *)
Definition compare_pair (embeddings : list embedding) (threshold : Q)
           (i j : nat) : list (nat * nat * Q) :=
  match nth_error embeddings i, nth_error embeddings j with
  | Some e_i, Some e_j =>
      let similarity := compute_similarity e_i e_j in
      if Qle_bool threshold similarity then [(i, j, similarity)] else []
  | _, _ => []   (* not reached: both indices are below [n] *)
  end.

(** [find_near_duplicates(pages, embeddings, threshold)]; the source does
    not read [pages]. *)
Definition find_near_duplicates (pages : list page)
           (embeddings : list embedding) (threshold : Q)
  : list (nat * nat * Q) :=
  let n := length embeddings in
  flat_map (fun i =>
              flat_map (compare_pair embeddings threshold i)
                       (seq (i + 1) (n - (i + 1))))
           (seq 0 n).

End WithEmbeddings.

(** One entry of [report["exact_duplicates"]]. *)
Record exact_entry := mkExactEntry {
  page_indices : list nat;
  page_numbers : list nat;
  entry_title : option string;
  text_preview : string
}.

(** One entry of [report["near_duplicates"]]. *)
Record near_entry := mkNearEntry {
  page_1_index : nat;
  page_2_index : nat;
  page_1_number : nat;
  page_2_number : nat;
  similarity : Q;
  page_1_title : option string;
  page_2_title : option string;
  page_1_preview : string;
  page_2_preview : string
}.

Record duplicate_report := mkReport {
  total_pages : nat;
  exact_duplicates : list exact_entry;
  near_duplicates : list near_entry;
  exact_duplicate_count : Z;
  near_duplicate_count : nat
}.

(** [s[:n]] *)
Definition take (n : nat) (s : string) : string :=
  Str.of_chars (firstn n (Str.chars s)).

(** [sum(len(group) - 1 for group in exact_duplicates)] *)
Definition count_exact (exact : list (list nat)) : Z :=
  Py.sum (map (fun group => (Z.of_nat (length group) - 1)%Z) exact).

(** The entries of the exact groups; [None] when [pages[group[0]]] raises
    IndexError. *)
Fixpoint exact_entries (pages : list page) (exact : list (list nat))
  : option (list exact_entry) :=
  match exact with
  | [] => Some []
  | group :: more =>
      match match group with
            | first :: _ => nth_error pages first
            | [] => None
            end,
            exact_entries pages more with
      | Some first_page, Some entries =>
          Some (mkExactEntry group (map (fun i => i + 1) group)
                             (title first_page)
                             (take 100 (text first_page))
                  :: entries)
      | _, _ => None
      end
  end.

Section WithRound.
(** Python's [round(x, 3)] *)
Variable round3 : Q -> Q.

Fixpoint near_entries (pages : list page) (near : list (nat * nat * Q))
  : option (list near_entry) :=
  match near with
  | [] => Some []
  | (idx1, idx2, sim) :: more =>
      match nth_error pages idx1, nth_error pages idx2,
            near_entries pages more with
      | Some page1, Some page2, Some entries =>
          Some (mkNearEntry idx1 idx2 (idx1 + 1) (idx2 + 1) (round3 sim)
                            (title page1) (title page2)
                            (take 100 (text page1)) (take 100 (text page2))
                  :: entries)
      | _, _, _ => None
      end
  end.

(** [generate_duplicate_report]; [None]: IndexError. *)
Definition generate_duplicate_report (pages : list page)
           (exact : list (list nat)) (near : list (nat * nat * Q))
  : option duplicate_report :=
  match exact_entries pages exact, near_entries pages near with
  | Some ex, Some ne =>
      Some (mkReport (length pages) ex ne (count_exact exact) (length near))
  | _, _ => None
  end.

End WithRound.

End NearDuplicates.

(** ** modules/headings.py: blank pages and section keywords *)

Module Keywords.
Import Str.

(** [re.sub(r'[\s\n\r\t]+', '', s)]: every whitespace character removed *)
Definition remove_spaces (l : list ascii) : list ascii :=
  filter (fun c => negb (is_space c)) l.

Definition is_blank_page (text : string) : bool :=
  match text with
  | EmptyString => true
  | _ =>
      let clean_text := strip_chars (chars text) in
      let meaningful_chars := length (remove_spaces clean_text) in
      meaningful_chars <? 20
  end.

(** [SECTION_KEYWORDS], in the order of the dictionary literal:
    keyword, priority, position *)
Definition SECTION_KEYWORDS : list (string * (Z * Z)) :=
  [ ("table of contents", (10, 10)); ("index", (10, 20));
    ("abstract", (9, 30)); ("executive summary", (10, 40));
    ("summary", (9, 50)); ("introduction", (8, 100));
    ("background", (7, 110)); ("overview", (7, 120)); ("scope", (7, 130));
    ("definitions", (10, 200)); ("whereas", (8, 210));
    ("witnesseth", (8, 220)); ("recitals", (8, 230)); ("parties", (7, 240));
    ("agreement", (7, 300)); ("terms and conditions", (8, 350));
    ("representations and warranties", (7, 400)); ("covenants", (7, 410));
    ("indemnification", (7, 420)); ("termination", (7, 430));
    ("dispute resolution", (7, 440)); ("governing law", (7, 450));
    ("loan amount", (8, 500)); ("principal amount", (7, 510));
    ("interest rate", (7, 520)); ("payment terms", (8, 530));
    ("disbursement", (7, 540)); ("repayment schedule", (9, 550));
    ("collateral", (7, 600)); ("security", (7, 610));
    ("annexure", (9, 800)); ("annex", (9, 800)); ("appendix", (9, 850));
    ("exhibit", (9, 850)); ("schedule", (8, 800)); ("attachment", (8, 850));
    ("miscellaneous", (6, 700));
    ("signatures", (9, 900)); ("witness", (8, 910)); ("executed", (7, 920));
    ("conclusion", (7, 950)); ("references", (7, 960));
    ("bibliography", (7, 970)); ("glossary", (8, 980));
    ("abbreviations", (7, 990)) ]%string%Z.

(** [kw] is a prefix of [l] *)
Fixpoint starts_with (kw l : list ascii) : bool :=
  match kw, l with
  | [], _ => true
  | k :: kw', c :: r => Ascii.eqb k c && starts_with kw' r
  | _ :: _, [] => false
  end.

(** [kw in l] on strings *)
Fixpoint contains (kw l : list ascii) : bool :=
  starts_with kw l
  || match l with
     | [] => false
     | _ :: r => contains kw r
     end.

(** the state of the loop: [(best_match, best_score, best_position)] *)
Definition best := (option string * Z * Z)%type.

Definition keyword_step (search_text : list ascii)
           (title_lower : option (list ascii))
           (st : best) (entry : string * (Z * Z)) : best :=
  let '(keyword, (priority, position)) := entry in
  let '(best_match, best_score, best_position) := st in
  if contains (chars keyword) search_text then
    let title_boost :=
      match title_lower with
      | Some t => if contains (chars keyword) t then 2%Z else 1%Z
      | None => 1%Z
      end in
    let weighted_score := (priority * title_boost)%Z in
    if (best_score <? weighted_score)%Z
    then (Some keyword, priority, position)
    else st
  else st.

(** [classify_section(text, title)].  [title_lower] is [title.lower()] when
    the title is truthy. *)
Definition classify_section (text : string) (title : option string)
  : string * Z * Z :=
  let title_text := match title with Some t => t | None => ""%string end in
  let search_text :=
    map lower_char (chars title_text) ++ " "%char
        :: map lower_char (firstn 500 (chars text)) in
  let title_lower :=
    match title with
    | Some EmptyString => None
    | Some t => Some (map lower_char (chars t))
    | None => None
    end in
  let '(best_match, best_score, best_position) :=
    fold_left (keyword_step search_text title_lower)
              SECTION_KEYWORDS (None, 0%Z, 500%Z) in
  match title with
  | Some t =>
      if String.eqb t BLANK_PAGE then ("blank"%string, 0%Z, 9999%Z)
      else (match best_match with Some k => k | None => "unknown"%string end,
            best_score, best_position)
  | None =>
      (match best_match with Some k => k | None => "unknown"%string end,
       best_score, best_position)
  end.

End Keywords.

(** ** modules/export_pdf.py: page ranges, table of contents *)

Module ExportPdf.

(** [str(n)] *)
Definition str (n : Z) : string :=
  DecimalString.NilZero.string_of_int (Z.to_int n).

(** The loop over [sorted_pages[1:]] with its state [start], [end]: the
    ranges it appends, and the last range added after it, as pairs. *)
Fixpoint ranges_from (start stop : Z) (rest : list Z) : list (Z * Z) :=
  match rest with
  | [] => [(start, stop)]
  | p :: r =>
      if (p =? stop + 1)%Z then ranges_from start p r
      else (start, stop) :: ranges_from p p r
  end.

(** [str(start)] or [f"{start}-{end}"] *)
Definition show_range (r : Z * Z) : string :=
  let '(start, stop) := r in
  if (start =? stop)%Z then str start
  else (str start ++ "-" ++ str stop)%string.

(** the ranges of [_format_page_ranges] before they are joined *)
Definition page_ranges (pages : list Z) : list (Z * Z) :=
  match Py.sorted Z.ltb (fun p => p) pages with
  | [] => []
  | first :: rest => ranges_from first first rest
  end.

(** [", ".join(l)] *)
Fixpoint join_comma (l : list string) : string :=
  match l with
  | [] => ""
  | [s] => s
  | s :: r => (s ++ ", " ++ join_comma r)%string
  end.

(** [_format_page_ranges(pages)] *)
Definition format_page_ranges (pages : list Z) : string :=
  join_comma (map show_range (page_ranges pages)).

(** The keys of a page dictionary that [create_toc] reads. *)
Record toc_page := mkTocPage {
  toc_title : option string;            (* [None]: no title *)
  toc_section_number : option string;   (* [None]: absent or None *)
  toc_section_type : option string      (* [None]: key absent *)
}.

Definition level_1_types : list string :=
  [ "definitions"; "table of contents"; "summary"; "executive summary";
    "introduction"; "conclusion"; "signatures"; "annexure"; "annex" ]%string.

Definition level_2_types : list string :=
  [ "appendix"; "schedule"; "repayment schedule";
    "terms and conditions" ]%string.

Definition mem_string (s : string) (l : list string) : bool :=
  existsb (String.eqb s) l.

(** [s.count('.')] *)
Definition count_dots (s : string) : nat :=
  length (filter (fun c => Ascii.eqb c ".") (Str.chars s)).

(** the loop body of [create_toc] for the page at index [idx]: the entry
    it appends, if any *)
Definition toc_entry (idx : nat) (p : toc_page) : option (nat * string * nat) :=
  let title :=
    match toc_title p with
    | Some EmptyString | None =>
        ("Page " ++ LlmOrdering.show_nat (idx + 1))%string
    | Some t => t
    end in
  let page_number := idx + 1 in
  if String.eqb title BLANK_PAGE then None
  else
    match toc_section_number p with
    | Some (String c s as section_num) =>
        let level := Nat.min (count_dots section_num + 1) 4 in
        let title :=
          if Keywords.starts_with (Str.chars section_num) (Str.chars title)
          then title
          else (section_num ++ " " ++ title)%string in
        Some (level, title, page_number)
    | _ =>
        let section_type :=
          match toc_section_type p with
          | Some t => t
          | None => "unknown"%string
          end in
        let level :=
          if mem_string section_type level_1_types then 1
          else if mem_string section_type level_2_types then 2
          else 1 in
        Some (level, title, page_number)
    end.

(** [for idx, page in enumerate(pages, idx0)] *)
Fixpoint toc_from (idx : nat) (pages : list toc_page)
  : list (nat * string * nat) :=
  match pages with
  | [] => []
  | p :: r =>
      match toc_entry idx p with
      | Some e => e :: toc_from (S idx) r
      | None => toc_from (S idx) r
      end
  end.

Definition create_toc (pages : list toc_page) : list (nat * string * nat) :=
  toc_from 0 pages.

(** The loop of [add_toc_to_pdf] that builds [outline] from the table of
    contents, with its state [prev_level]; levels and page numbers are
    Python integers. *)
Fixpoint outline_from (prev_level : Z) (toc : list (Z * string * Z))
  : list (Z * string * Z) :=
  match toc with
  | [] => []
  | (level, title, page_num) :: r =>
      let title :=
        if String.eqb title "" || String.eqb title BLANK_PAGE
        then "(Untitled Page)"%string else title in
      let level := if (prev_level + 1 <? level)%Z then (prev_level + 1)%Z
                   else level in
      let level := Z.max 1 level in
      (level, title, (page_num - 1)%Z) :: outline_from level r
  end.

Definition outline (toc : list (Z * string * Z)) : list (Z * string * Z) :=
  outline_from 1%Z toc.

End ExportPdf.

(** ** processor.py, the loops of steps 2 and 3 of [process_pdf_complete] *)

Module Pipeline.

(** [page["section_numeric_value"] = numeric_val] *)
Definition set_section_value (v : option Q) (p : page) : page :=
  mkPage (page_index p) (text p) (title p) (page_number_detected p)
         v (position_hint p)
         (is_exact_duplicate p) (is_near_duplicate p) (duplicate_of p)
         (duplicate_similarity p) (new_position p).

(** [page["position_hint"] = position_hint] *)
Definition set_position_hint (h : Z) (p : page) : page :=
  mkPage (page_index p) (text p) (title p) (page_number_detected p)
         (section_numeric_value p) (Some h)
         (is_exact_duplicate p) (is_near_duplicate p) (duplicate_of p)
         (duplicate_similarity p) (new_position p).

(** the loop "Extract section numbers from titles" *)
Definition extract_sections (pages : list page) : list page :=
  map (fun p => set_section_value
                  (snd (Headings.extract_section_number (title p))) p)
      pages.

(** the loop of step 3, "Classify sections" *)
Definition classify_sections (pages : list page) : list page :=
  map (fun p => set_position_hint
                  (snd (Keywords.classify_section (text p) (title p))) p)
      pages.

End Pipeline.

(** ** modules/ordering.py: the explanation of an ordering *)

Module Explanation.

(** An exception of the explanation: a missing key, [None[:50]], or the
    exception of a format specification applied to a value it does not
    accept. *)
Inductive failure :=
| KeyError (key : string)
| TypeError
| FormatError.

Definition newline : string := String (ascii_of_nat 10) EmptyString.

(** the arrow U+2192 of the move lines, in UTF-8 *)
Definition arrow : string :=
  String (ascii_of_nat 226)
         (String (ascii_of_nat 134) (String (ascii_of_nat 146) EmptyString)).

(** ["\n".join(parts)] *)
Fixpoint join_lines (parts : list string) : string :=
  match parts with
  | [] => ""
  | [s] => s
  | s :: r => (s ++ newline ++ join_lines r)%string
  end.

(** [d.get(k, default)] *)
Definition get (k : string) (d : metadata) (default : meta_value)
  : meta_value :=
  match dict_get k d with
  | Some v => v
  | None => default
  end.

(** [v == s] for a string [s] *)
Definition is_string (v : meta_value) (s : string) : bool :=
  match v with
  | MStr t => String.eqb t s
  | _ => false
  end.

(** [abs(new_pos - original_pos) > 3] *)
Definition moved_far (original_pos new_pos : nat) : bool :=
  (3 <? Z.abs (Z.of_nat new_pos - Z.of_nat original_pos))%Z.

(** The loop that collects [major_moves]; [None] when a page has no
    [new_position] (KeyError). *)
Fixpoint major_moves (pages : list page)
  : option (list (nat * nat * option string)) :=
  match pages with
  | [] => Some []
  | page :: r =>
      match new_position page with
      | None => None
      | Some new_pos =>
          let original_pos := page_index page in
          match major_moves r with
          | None => None
          | Some moves =>
              if moved_far original_pos new_pos
              then Some ((original_pos, new_pos, title page) :: moves)
              else Some moves
          end
      end
  end.

(** the lines of the first moves; [None] when a title is [None]
    (TypeError at [title[:50]]) *)
Fixpoint move_lines (moves : list (nat * nat * option string))
  : option (list string) :=
  match moves with
  | [] => Some []
  | (orig, new, title) :: r =>
      match title with
      | None => None
      | Some t =>
          match move_lines r with
          | None => None
          | Some lines =>
              Some (("  Page " ++ LlmOrdering.show_nat (orig + 1) ++ " "
                     ++ arrow ++ " Position " ++ LlmOrdering.show_nat (new + 1)
                     ++ ": " ++ NearDuplicates.take 50 t)%string
                      :: lines)
          end
      end
  end.

Section WithFormat.

(** [f"{v}"] for a metadata value *)
Variable show : meta_value -> string.
(** [f"{v*100:.0f}"]; [None] when the format raises *)
Variable percent : meta_value -> option string.

(** the first lines, up to the coverage or the reasoning *)
Definition method_lines (ordering_metadata : metadata)
  : failure + list string :=
  let method := get "ordering_method" ordering_metadata (MStr "unknown") in
  if is_string method "gemini_ai" then
    match percent (get "confidence" ordering_metadata (MInt 0)) with
    | None => inl FormatError
    | Some confidence =>
        inr [ "Ordering Method: Gemini AI";
              "Document Type: "
              ++ show (get "document_type" ordering_metadata (MStr "unknown"));
              "Confidence: " ++ confidence ++ "%";
              newline ++ "Reasoning: "
              ++ show (get "reasoning" ordering_metadata (MStr "N/A")) ]%string
    end
  else
    match dict_get "ordering_method" ordering_metadata with
    | None => inl (KeyError "ordering_method")
    | Some m =>
        match dict_get "total_pages" ordering_metadata with
        | None => inl (KeyError "total_pages")
        | Some n =>
            match percent (get "page_number_coverage" ordering_metadata
                               (MInt 0)) with
            | None => inl FormatError
            | Some coverage =>
                inr [ "Ordering Method: " ++ show m;
                      "Total Pages: " ++ show n;
                      "Page Number Coverage: " ++ coverage ++ "%" ]%string
            end
        end
    end.

(** the paragraph on how the pages were ordered *)
Definition strategy_lines (ordering_metadata : metadata)
  : failure + list string :=
  match dict_get "ordering_method" ordering_metadata with
  | None => inl (KeyError "ordering_method")
  | Some m =>
      if is_string m "page_numbers_primary" then
        inr [ newline
              ++ "Pages were ordered primarily by detected page numbers. "
              ++ "Pages without numbers were placed at the end." ]%string
      else
        inr [ newline
              ++ "Pages were ordered using hybrid scoring combining:"
              ++ newline ++ "- Page numbers (40% weight)"
              ++ newline ++ "- Section keywords (30% weight)"
              ++ newline ++ "- Semantic continuity (30% weight)" ]%string
  end.

(** [generate_ordering_explanation(pages, ordering_metadata)] *)
Definition generate_ordering_explanation (pages : list page)
           (ordering_metadata : metadata) : failure + string :=
  match method_lines ordering_metadata with
  | inl e => inl e
  | inr first =>
      match strategy_lines ordering_metadata with
      | inl e => inl e
      | inr strategy =>
          match major_moves pages with
          | None => inl (KeyError "new_position")
          | Some [] => inr (join_lines (first ++ strategy))
          | Some moves =>
              match move_lines (firstn 5 moves) with
              | None => inl TypeError
              | Some lines =>
                  inr (join_lines
                         (first ++ strategy
                          ++ (newline ++ "Major reorderings ("
                              ++ LlmOrdering.show_nat (length moves)
                              ++ " pages):")%string
                          :: lines))
              end
          end
      end
  end.

End WithFormat.

(** processor.py:
    [sum(1 for p in ordered_pages if p["page_index"] != p["new_position"])];
    [None]: KeyError *)
Fixpoint reordered_count (ordered_pages : list page) : option nat :=
  match ordered_pages with
  | [] => Some 0
  | p :: r =>
      match new_position p, reordered_count r with
      | Some new_pos, Some k =>
          Some (if page_index p =? new_pos then k else 1 + k)
      | _, _ => None
      end
  end.

End Explanation.

(** ** modules/page_numbers.py: detect_page_number *)

Module PageNumberDetection.
Import Str.

(** [s.split("\n")] on the characters of [s]: never empty *)
Fixpoint split_lines (l : list ascii) : list (list ascii) :=
  match l with
  | [] => [[]]
  | c :: r =>
      if code c =? 10
      then [] :: split_lines r
      else match split_lines r with
           | w :: ws => (c :: w) :: ws
           | [] => [[c]]
           end
  end.

(** ["\n".join(lines)] *)
Fixpoint join_lines (lines : list (list ascii)) : list ascii :=
  match lines with
  | [] => []
  | [w] => w
  | w :: r => w ++ ascii_of_nat 10 :: join_lines r
  end.

(** [lines[-3:]] *)
Definition last_three (A : Type) (l : list A) : list A :=
  skipn (length l - 3) l.

(** the header and footer regions that are searched *)
Definition scope (text header footer : string) : list ascii :=
  let lines := split_lines (strip_chars (chars text)) in
  let header_lines :=
    match header with
    | EmptyString => join_lines (firstn 3 lines)
    | _ => chars header
    end in
  let footer_lines :=
    match footer with
    | EmptyString => join_lines (last_three lines)
    | _ => chars footer
    end in
  header_lines ++ ascii_of_nat 10 :: footer_lines.

(** the patterns with their confidence, in the order of the source *)
Definition patterns : list (string * Q) :=
  [ ("-\s*(\d+)\s*-", 1);
    ("page\s+(\d+)\s+of\s+\d+", 1);
    ("page\s+(\d+)", 9 # 10);
    ("(\d+)\s*/\s*\d+", 9 # 10);
    ("p\.\s*(\d+)", 8 # 10);
    ("^[\s\-]*(\d{1,3})[\s\-]*$", 5 # 10) ]%string%Q.

Section WithRegex.

(** [re.search(pattern, scope, re.IGNORECASE | re.MULTILINE)]: group 1 of
    the match, if there is one *)
Variable re_search : string -> list ascii -> option (list ascii).

(** The loop over the patterns; [None]: [int] raised ValueError. *)
Fixpoint first_page_number (scope : list ascii) (patterns : list (string * Q))
  : option (option Z * Q) :=
  match patterns with
  | [] => Some (None, 0%Q)
  | (pattern, confidence) :: r =>
      match re_search pattern scope with
      | Some group =>
          match int_of_chars group with
          | Some page_num =>
              if (1 <=? page_num)%Z && (page_num <=? 9999)%Z
              then Some (Some page_num, confidence)
              else first_page_number scope r
          | None => None
          end
      | None => first_page_number scope r
      end
  end.

Definition detect_page_number (text header footer : string)
  : option (option Z * Q) :=
  first_page_number (scope text header footer) patterns.

End WithRegex.

End PageNumberDetection.

(** * Vocabulary of the properties *)

Module Spec.

(** [a] and [b] are neighbours in [l], [a] first *)
Definition adjacent (A : Type) (a b : A) (l : list A) : Prop :=
  exists l1 l2, l = l1 ++ a :: b :: l2.

(** A boolean strict comparison that is a strict weak order: asymmetric,
    and [not (b < a)] is transitive. *)
Record strict_weak (K : Type) (ltb : K -> K -> bool) : Prop := {
  sw_asym : forall a b, ltb a b = true -> ltb b a = false;
  sw_negtrans : forall a b c,
      ltb b a = false -> ltb c b = false -> ltb c a = false
}.

(** [x] comes before [y] in a list sorted stably on [key] from a list in
    which [R] relates every element to the later ones *)
Definition stable_le (A K : Type) (ltb : K -> K -> bool) (key : A -> K)
           (R : A -> A -> Prop) (x y : A) : Prop :=
  ltb (key x) (key y) = true \/ (ltb (key y) (key x) = false /\ R x y).

(** the page record without its position: two records with the same
    erasure are the same page, placed or not *)
Definition erase_position (p : page) : page :=
  mkPage (page_index p) (text p) (title p) (page_number_detected p)
         (section_numeric_value p) (position_hint p)
         (is_exact_duplicate p) (is_near_duplicate p) (duplicate_of p)
         (duplicate_similarity p) None.

(** A property of pages that does not look at the position. *)
Definition position_blind (A : Type) (f : page -> A) : Prop :=
  forall p, f (erase_position p) = f p.

(** [l'] is obtained from [l] by exchanging neighbours, any number of
    times *)
Inductive neighbour_swaps (A : Type) : list A -> list A -> Prop :=
| ns_refl : forall l, neighbour_swaps l l
| ns_step : forall l1 a b l2 l',
    neighbour_swaps (l1 ++ b :: a :: l2) l' ->
    neighbour_swaps (l1 ++ a :: b :: l2) l'.

(** ordered by detected number, equal numbers by original index *)
Definition by_number_then_index (p q : page) : Prop :=
  (Ordering.number_of p < Ordering.number_of q)%Z
  \/ (Ordering.number_of p = Ordering.number_of q
      /\ page_index p < page_index q).

(** ordered by section value where both pages have one, pages with a
    section value before pages without, the latter by original index *)
Definition by_section_then_index (p q : page) : Prop :=
  match section_numeric_value p, section_numeric_value q with
  | Some v, Some w =>
      (v < w)%Q \/ ((v == w)%Q /\ page_index p < page_index q)
  | Some _, None => True
  | None, Some _ => False
  | None, None => page_index p < page_index q
  end.

(** The order that the number-order path is said to produce on the content
    pages: a page with a detected number is never preceded by a page
    without one, and the pages with a detected number are in the order of
    their numbers, equal numbers by original index. *)
Definition detected_number_order (content : list page) : Prop :=
  StronglySorted
    (fun p q => Ordering.has_number q = true ->
                Ordering.has_number p = true /\ by_number_then_index p q)
    content.

(** a page that has a section value has a title, as every page that the
    feature extractor produces *)
Definition titled_sections (pages : list page) : Prop :=
  Forall (fun p => section_numeric_value p <> None -> title p <> None)
         pages.

(** the input in the order of extraction *)
Definition in_original_order (pages : list page) : Prop :=
  StronglySorted (fun p q => page_index p < page_index q) pages.

Section Refinement.
Variable embedding : Type.
Variable cosine_similarity : embedding -> embedding -> Q.

(** the similarity of two embeddings as the engine obtains it, a float *)
Local Abbreviation similarity :=
  (Ordering.compute_similarity cosine_similarity).

(** [scores] lists the similarities of the adjacent pairs of [es]: that of
    the pair [(i, i+1)] at index [i] *)
Definition adjacent_similarities (es : list embedding) (scores : list Q)
  : Prop :=
  length scores = length es - 1
  /\ forall i a b,
      nth_error es i = Some a -> nth_error es (S i) = Some b ->
      nth_error scores i = Some (similarity a b).

(** The test that decides a swap at index [i] of the pass: the
    similarity of the pair [(i, i+1)] measured before the pass is below
    the float 0.3, there is a page at index [i + 3], and the similarity of
    the embeddings now at [i] and [i + 2] exceeds the float sum of that
    earlier similarity and the float 0.2. *)
Definition swap_test (scores : list Q)
           (st : list page * list embedding) (i : nat) : Prop :=
  exists score e e2,
    nth_error scores i = Some score
    /\ (score < Float.nearest (3 # 10))%Q
    /\ i + 3 < length (fst st)
    /\ nth_error (snd st) i = Some e
    /\ nth_error (snd st) (i + 2) = Some e2
    /\ (Float.add score (Float.nearest (2 # 10)) < similarity e e2)%Q.

(** One left-to-right pass from index [i] to the last adjacent pair:
    at each index the pages at [i + 1] and [i + 2] (and their embeddings)
    are exchanged when the test holds and left alone when it does not. *)
Inductive pass_from (scores : list Q)
  : nat -> list page * list embedding -> list page * list embedding -> Prop :=
| pass_done : forall i st,
    length scores <= i -> pass_from scores i st st
| pass_swap : forall i st st',
    i < length scores ->
    swap_test scores st i ->
    pass_from scores (S i)
              (Py.swap_at (i + 1) (fst st), Py.swap_at (i + 1) (snd st)) st' ->
    pass_from scores i st st'
| pass_keep : forall i st st',
    i < length scores ->
    ~ swap_test scores st i ->
    pass_from scores (S i) st st' ->
    pass_from scores i st st'.

End Refinement.

(** the page indices of an [n]-page document *)
Definition input_indices (n : nat) : list Z := map Z.of_nat (seq 0 n).

(** The adapter's answer is usable: it parsed, it has a [correct_order],
    and that order is a permutation of exactly the input page indices. *)
Definition valid_answer (pages : list page) (answer : LlmOrdering.reply)
  : Prop :=
  exists result order,
    answer = LlmOrdering.Parsed result
    /\ LlmOrdering.correct_order result = Some order
    /\ Permutation order (input_indices (length pages)).

(** The number that the two numeric-hierarchy patterns of
    [extract_section_number] find in a title: the first pattern, and the
    second one when the first does not match. *)
Definition numeric_heading (title : string) : option string :=
  if String.eqb title "" || String.eqb title BLANK_PAGE then None
  else
    let title_clean := Str.strip_chars (Str.chars title) in
    match Headings.match_spaced_number title_clean with
    | Some num => Some (Str.of_chars num)
    | None =>
        match Headings.match_unspaced_number title_clean with
        | Some num => Some (Str.of_chars num)
        | None => None
        end
    end.

(** the main number is at most a million, every level below it is at
    most 999, and the last level, when there is one below the main
    number, is not 0 *)
Definition levels_bounded (parts : list Z) : Prop :=
  match parts with
  | [] => False
  | main :: sub =>
      (0 <= main <= 1000000)%Z
      /\ Forall (fun part => (0 <= part <= 999)%Z) sub
      /\ last sub 1%Z <> 0%Z
  end.

(** the sum of [part / 1000^k] over the levels below the main one, [k]
    being the level of the first of them *)
Fixpoint level_sum (k : nat) (sub : list Z) : Q :=
  match sub with
  | [] => 0
  | part :: r =>
      inject_Z part / inject_Z (1000 ^ Z.of_nat k) + level_sum (S k) r
  end.

(** the number that the encoding stands for: the main number plus
    [part / 1000^k] for level [k] *)
Definition exact_value (parts : list Z) : Q :=
  match parts with
  | [] => 0
  | main :: sub => inject_Z main + level_sum 1 sub
  end.

(** the levels below the main one in units of [1000^-n], for at most [n]
    levels *)
Fixpoint level_code (n : nat) (sub : list Z) : Z :=
  match n, sub with
  | S n', part :: r => (part * 1000 ^ Z.of_nat n' + level_code n' r)%Z
  | _, _ => 0%Z
  end.

(** a sequence of groups, each a dot followed by a non-empty run of
    digits *)
Inductive dot_digit_groups : list ascii -> Prop :=
| ddg_nil : dot_digit_groups []
| ddg_group : forall ds more,
    ds <> [] -> forallb Str.is_digit ds = true -> dot_digit_groups more ->
    dot_digit_groups ("."%char :: ds ++ more).

(** the text as the detection of exact duplicates compares it: without
    the white space at its two ends, in lower case *)
Definition normalized (t : string) : string := Str.lower (Str.strip t).

(** the indices at which [h] occurs in the list of hashes, increasing *)
Definition positions (hs : list string) (h : string) : list nat :=
  filter (fun i => match nth_error hs i with
                   | Some h' => String.eqb h' h
                   | None => false
                   end)
         (seq 0 (length hs)).

(** the hashes of [hs] without repetition, in the order of their first
    occurrence *)
Definition distinct (hs : list string) : list string :=
  fold_left (fun acc x => if existsb (String.eqb x) acc then acc
                          else acc ++ [x])
            hs [].

(** the lowest index that has the hash of index [i] *)
Definition first_occurrence (hs : list string) (i : nat) : nat :=
  match nth_error hs i with
  | Some h => hd i (positions hs h)
  | None => i
  end.

(** the head of the first group that lists [i] after its head *)
Fixpoint duplicate_target (groups : list (list nat)) (i : nat)
  : option nat :=
  match groups with
  | [] => None
  | g :: more =>
      if existsb (Nat.eqb i) (tl g) then hd_error g
      else duplicate_target more i
  end.

(** the pages that the near-duplicate pairs give as targets of page [i],
    in the order of the pairs *)
Definition near_targets (near_duplicates : list (nat * nat * Q)) (i : nat)
  : list nat :=
  map (fun t => fst (fst t))
      (filter (fun t => snd (fst t) =? i) near_duplicates).

(** the tails of two groups share no index *)
Definition disjoint_tails (g g' : list nat) : Prop :=
  forall i, In i (tl g) -> ~ In i (tl g').

End Spec.

(** Pages used in the examples. *)
Module Examples.

Definition blank (i : nat) : page :=
  mkPage i "" (Some BLANK_PAGE) (None, 0%Q) None (Some 9999%Z)
         false false [] None None.

(** a content page with a detected page number *)
Definition numbered (i : nat) (title : string) (n : Z) (confidence : Q)
  : page :=
  mkPage i title (Some title) (Some n, confidence) None (Some 500%Z)
         false false [] None None.

(** a content page without a page number *)
Definition plain (i : nat) (title : string) : page :=
  mkPage i title (Some title) (None, 0%Q) None (Some 500%Z)
         false false [] None None.

Definition no_similarity (a b : unit) : Q := 0%Q.

Definition keep (q : Q) : Q := q.

(** embeddings named by numbers; only the pair 1, 2 is dissimilar *)
Definition gap_between_1_and_2 (a b : nat) : Q :=
  if (a + b =? 3) && (a * b =? 2) then 0%Q else (9 # 10)%Q.

(** embeddings named by numbers; only the pair 0, 1 is dissimilar *)
Definition gap_between_0_and_1 (a b : nat) : Q :=
  if (a + b =? 1) then 0%Q else (9 # 10)%Q.

(** the float that the literal 0.3 denotes, as a similarity *)
Definition at_threshold (a b : nat) : Q :=
  if (a + b =? 1) then 5404319552844595 # 18014398509481984 else 1%Q.

(** an answer that names page 0 only *)
Definition short_answer : LlmOrdering.reply :=
  LlmOrdering.Parsed
    (LlmOrdering.mkResponse (Some (JString "report")) (Some (JFloat 1)) None
                            None
                            (Some [0%Z])).

(** an answer that names page 0 twice *)
Definition repeating_answer : LlmOrdering.reply :=
  LlmOrdering.Parsed
    (LlmOrdering.mkResponse (Some (JString "report")) (Some (JFloat 1)) None
                            None
                            (Some [0%Z; 0%Z])).

(** an answer without the [correct_order] field *)
Definition orderless_answer : LlmOrdering.reply :=
  LlmOrdering.Parsed
    (LlmOrdering.mkResponse (Some (JString "report")) (Some (JFloat 1)) None
                            None None).

(** a page with the given text *)
Definition with_text (i : nat) (t : string) : page :=
  mkPage i t None (None, 0%Q) None None false false [] None None.

(** a stand-in for the digest that keeps the text *)
Definition identity_digest (s : string) : string := s.

(** pages A, B, A, C: the third page repeats the first one up to the case
    of its letters and the white space around it *)
Definition pages_ABAC : list page :=
  [with_text 0 "Annual Report"; with_text 1 "Budget";
   with_text 2 "  ANNUAL report "; with_text 3 "Contents"].

Definition four_pages : list page :=
  [plain 0 "Alpha"; plain 1 "Beta"; plain 2 "Gamma"; plain 3 "Delta"].

End Examples.
(** * Vocabulary of the further properties *)

Module Spec2.

(** the integers from [a] to [b], both included *)
Definition span (r : Z * Z) : list Z := Py.range (fst r) (snd r + 1).

(** the pair of [t] comes before the pair of [t'] in the order of the
    first index, then of the second *)
Definition pair_before (t t' : nat * nat * Q) : Prop :=
  fst (fst t) < fst (fst t')
  \/ (fst (fst t) = fst (fst t') /\ snd (fst t) < snd (fst t')).

(** what a page holds apart from its duplicate annotations *)
Definition content (p : page)
  : nat * string * option string * (option Z * Q) * option Q * option Z
    * option nat :=
  (page_index p, text p, title p, page_number_detected p,
   section_numeric_value p, position_hint p, new_position p).

(** the similarity of the last pair whose second index is [i], [d] when
    there is none *)
Definition last_similarity (near_duplicates : list (nat * nat * Q)) (i : nat)
           (d : option Q) : option Q :=
  fold_left (fun acc t => if snd (fst t) =? i then Some (snd t) else acc)
            near_duplicates d.

(** an integer that a list of length [n] accepts as an index: a position
    counted from the start, or a negative one counted from the end *)
Definition accepted_index (n : nat) (i : Z) : Prop :=
  (- Z.of_nat n <= i < Z.of_nat n)%Z.

(** the position that an accepted index stands for *)
Definition position_of (n : nat) (i : Z) : nat :=
  Z.to_nat (if (i <? 0)%Z then i + Z.of_nat n else i).

(** every index of a group after its head, and every second index of a
    pair, is accepted by a list of [n] pages *)
Definition targets_in_range (n : nat) (exact_duplicates : list (list Z))
           (near_duplicates : list (Z * Z * Q)) : Prop :=
  Forall (fun g => Forall (accepted_index n) (tl g)) exact_duplicates
  /\ Forall (fun t => accepted_index n (snd (fst t))) near_duplicates.

(** the values of the Roman letters *)
Definition roman_values : list Z := [1; 5; 10; 50; 100; 500; 1000]%Z.

(** the sum of the Roman letter values below [v] *)
Definition smaller_values (v : Z) : Z :=
  Py.sum (filter (fun w => (w <? v)%Z) roman_values).

(** the values of the letters of a string of Roman letters *)
Definition letter_values (s : list ascii) : list Z :=
  map (fun c => match Headings.roman_map c with
                | Some v => v
                | None => 0%Z
                end) s.

(** what [extract_section_number] may return for [title]: nothing, or a
    non-empty number with a value that is not negative, and this only for
    a title that is present, not empty and not the blank-page mark *)
Definition section_result_ok (title : option string)
           (r : option string * option Q) : Prop :=
  match r with
  | (None, None) => True
  | (Some n, Some v) =>
      n <> ""%string /\ (0 <= v)%Q
      /\ exists t, title = Some t /\ t <> ""%string /\ t <> BLANK_PAGE
  | _ => False
  end.

(** the string [kw] occurs in [l] *)
Definition occurs (kw : string) (l : list ascii) : Prop :=
  exists pre post, l = pre ++ Str.chars kw ++ post.

(** the text that [classify_section] searches: the title, a space and the
    first 500 characters of the page text, in lower case *)
Definition searched (text : string) (title : option string) : list ascii :=
  map Str.lower_char
      (Str.chars (match title with Some t => t | None => ""%string end))
  ++ " "%char :: map Str.lower_char (firstn 500 (Str.chars text)).

(** the title in lower case, empty when there is none *)
Definition title_text (title : option string) : list ascii :=
  match title with
  | Some t => map Str.lower_char (Str.chars t)
  | None => []
  end.

(** [p.get("position_hint", 500)] *)
Definition hint_of (p : page) : Z :=
  match position_hint p with Some h => h | None => 500%Z end.

(** the order of the structure path: pages with a section value first, by
    that value and then by original index; the other pages after them, by
    position hint and then by original index *)
Definition by_structure_then_index (p q : page) : Prop :=
  match section_numeric_value p, section_numeric_value q with
  | Some v, Some w =>
      (v < w)%Q \/ ((v == w)%Q /\ page_index p < page_index q)
  | Some _, None => True
  | None, Some _ => False
  | None, None =>
      (hint_of p < hint_of q)%Z
      \/ (hint_of p = hint_of q /\ page_index p < page_index q)
  end.

(** [[pages[i]]] for an index of the page list, nothing otherwise *)
Definition page_at (pages : list page) (i : Z) : list page :=
  match nth_error pages (Z.to_nat i) with
  | Some p => [p]
  | None => []
  end.

(** The report that the adapter prints can be formatted: the confidence,
    when the answer has one, is a number that [float] accepts, the
    detected sections have a length and the reasoning can be sliced. *)
Definition printable (result : LlmOrdering.response) : Prop :=
  match LlmOrdering.resp_confidence result with
  | None | Some (JBool _) | Some (JFloat _) | Some JNonFinite => True
  | Some (JInt z) => (Z.abs z < 2 ^ 1024 - 2 ^ 970)%Z
  | Some _ => False
  end
  /\ match LlmOrdering.detected_sections result with
     | None | Some (JString _) | Some (JArray _) | Some (JObject _) => True
     | Some _ => False
     end
  /\ match LlmOrdering.reasoning result with
     | None | Some (JString _) | Some (JArray _) => True
     | Some _ => False
     end.

(** the title is the blank-page mark *)
Definition marked_blank (p : ExportPdf.toc_page) : bool :=
  match ExportPdf.toc_title p with
  | Some t => String.eqb t BLANK_PAGE
  | None => false
  end.

(** the indices, counted from [idx], of the pages that are not marked
    blank *)
Fixpoint content_indices (idx : nat) (pages : list ExportPdf.toc_page)
  : list nat :=
  match pages with
  | [] => []
  | p :: r =>
      if marked_blank p then content_indices (S idx) r
      else idx :: content_indices (S idx) r
  end.

(** each level is at most one more than the level before it, [prev] being
    the level before the first *)
Fixpoint climbs_by_one (prev : Z) (levels : list Z) : Prop :=
  match levels with
  | [] => True
  | level :: r => (level <= prev + 1)%Z /\ climbs_by_one level r
  end.

(** a table of contents with Python integers *)
Definition as_integers (toc : list (nat * string * nat))
  : list (Z * string * Z) :=
  map (fun e => (Z.of_nat (fst (fst e)), snd (fst e), Z.of_nat (snd e))) toc.

(** the page has a position more than 3 places from its original index *)
Definition far_moved (p : page) : bool :=
  match new_position p with
  | Some k => Explanation.moved_far (page_index p) k
  | None => false
  end.

End Spec2.

(** Values used in the examples of the further properties. *)
Module Examples2.

(** an answer that asks for page 1 before page 0 *)
Definition reversed_answer : LlmOrdering.reply :=
  LlmOrdering.Parsed
    (LlmOrdering.mkResponse None None None None (Some [1; 0]%Z)).

(** the same order, with a confidence in words *)
Definition wordy_answer : LlmOrdering.reply :=
  LlmOrdering.Parsed
    (LlmOrdering.mkResponse None (Some (JString "high")) None None
                            (Some [1; 0]%Z)).

(** stand-ins for Python's formatting of metadata values *)
Definition plain_show (v : meta_value) : string :=
  match v with
  | MStr s => s
  | _ => "?"%string
  end.

Definition plain_percent (v : meta_value) : option string :=
  match v with
  | MInt _ | MFloat _ => Some "0"%string
  | _ => None
  end.

(** a page without title that the order moves from index 0 to position 4 *)
Definition displaced_untitled : page :=
  mkPage 0 "body" None (None, 0%Q) None (Some 500%Z)
         false false [] None (Some 4).

(** a stand-in for the regular expression search: only the pattern of
    "page N" matches, with the digits 0, 4 and 2 *)
Definition page_pattern_only (pattern : string) (scope : list ascii)
  : option (list ascii) :=
  if String.eqb pattern "page\s+(\d+)" then Some (Str.chars "042") else None.

End Examples2.

(** * Properties *)

Unset Implicit Arguments.

(** ** Stable sorting *)

Section StableSortFacts.
Variables (A K : Type) (ltb : K -> K -> bool) (key : A -> K).

Lemma insert_by_perm (x : A) (l : list A) :
  Permutation (Py.insert_by ltb key x l) (x :: l).
Proof.
  induction l as [|y r IH]; simpl; [reflexivity|].
  destruct (ltb (key y) (key x)); [|reflexivity].
  rewrite IH. apply perm_swap.
Qed.

Lemma sorted_perm (l : list A) : Permutation (Py.sorted ltb key l) l.
Proof.
  induction l as [|x r IH]; simpl; [constructor|].
  rewrite insert_by_perm. now constructor.
Qed.

Lemma sorted_length (l : list A) : length (Py.sorted ltb key l) = length l.
Proof. apply Permutation_length, sorted_perm. Qed.

Lemma sorted_In (x : A) (l : list A) : In x (Py.sorted ltb key l) <-> In x l.
Proof.
  split; apply Permutation_in; [|symmetry]; apply sorted_perm.
Qed.

Hypothesis ltb_sw : Spec.strict_weak ltb.
Variable R : A -> A -> Prop.

Let before := Spec.stable_le ltb key R.

Lemma insert_by_stable (x : A) (l : list A) :
  Forall (R x) l -> StronglySorted before l ->
  StronglySorted before (Py.insert_by ltb key x l).
Proof.
  induction l as [|y r IH]; intros HR Hs; simpl.
  - repeat constructor.
  - apply StronglySorted_inv in Hs as [Hr Hy].
    inversion HR as [|? ? HRy HRr]; subst.
    destruct (ltb (key y) (key x)) eqn:E.
    + constructor; [now apply IH|].
      apply Forall_forall. intros z Hz.
      apply (Permutation_in _ (insert_by_perm x r)) in Hz.
      destruct Hz as [<-|Hz]; [now left|].
      rewrite Forall_forall in Hy. now apply Hy.
    + constructor; [now constructor|].
      constructor; [right; now split|].
      rewrite Forall_forall in *. intros z Hz.
      right. split; [|now apply HRr].
      apply (Spec.sw_negtrans ltb_sw) with (b := key y); [exact E|].
      destruct (Hy z Hz) as [Hlt|[Hle _]]; [|exact Hle].
      now apply (Spec.sw_asym ltb_sw).
Qed.

(** Sorting stably on [key] a list ordered by [R] gives a list ordered by
    [key] and, among equal keys, by [R]. *)
Lemma sorted_stable (l : list A) :
  StronglySorted R l -> StronglySorted before (Py.sorted ltb key l).
Proof.
  induction l as [|x r IH]; intros Hs; simpl; [constructor|].
  apply StronglySorted_inv in Hs as [Hr Hx].
  apply insert_by_stable; [|now apply IH].
  rewrite Forall_forall in *. intros z Hz. apply Hx.
  exact (proj1 (sorted_In z r) Hz).
Qed.

End StableSortFacts.

Lemma Zltb_strict_weak : Spec.strict_weak Z.ltb.
Proof. split; intros; rewrite ?Z.ltb_lt, ?Z.ltb_ge in *; lia. Qed.

Lemma Natltb_strict_weak : Spec.strict_weak Nat.ltb.
Proof. split; intros; rewrite ?Nat.ltb_lt, ?Nat.ltb_ge in *; lia. Qed.

Lemma Qltb_lt (a b : Q) : Py.Qltb a b = true <-> (a < b)%Q.
Proof.
  unfold Py.Qltb. rewrite negb_true_iff.
  destruct (Qle_bool b a) eqn:E.
  - apply Qle_bool_iff in E. split; [discriminate|].
    intros H. exfalso. now apply (Qlt_not_le a b).
  - split; [intros _|reflexivity].
    apply Qnot_le_lt. intros H. apply Qle_bool_iff in H. congruence.
Qed.

Lemma Qltb_ge (a b : Q) : Py.Qltb a b = false <-> (b <= a)%Q.
Proof.
  unfold Py.Qltb. rewrite negb_false_iff. apply Qle_bool_iff.
Qed.

Lemma Qltb_strict_weak : Spec.strict_weak Py.Qltb.
Proof.
  split.
  - intros a b H. apply Qltb_lt in H. apply Qltb_ge. now apply Qlt_le_weak.
  - intros a b c H1 H2. rewrite Qltb_ge in *. now apply Qle_trans with b.
Qed.

Lemma pair_ltb_strict_weak (A B : Type)
      (lta : A -> A -> bool) (ltb : B -> B -> bool) :
  Spec.strict_weak lta -> Spec.strict_weak ltb ->
  Spec.strict_weak (Py.pair_ltb lta ltb).
Proof.
  intros [asa nta] [asb ntb]. split.
  - intros [a1 b1] [a2 b2]. unfold Py.pair_ltb. simpl.
    destruct (lta a1 a2) eqn:E1.
    + intros _. now rewrite (asa _ _ E1).
    + destruct (lta a2 a1) eqn:E2; [discriminate|]. apply asb.
  - intros [a1 b1] [a2 b2] [a3 b3]. unfold Py.pair_ltb. simpl.
    destruct (lta a2 a1) eqn:E21.
    { destruct (lta a1 a2); discriminate. }
    destruct (lta a3 a2) eqn:E32.
    { destruct (lta a2 a3); discriminate. }
    rewrite (nta _ _ _ E21 E32).
    destruct (lta a1 a3) eqn:E13; [reflexivity|].
    rewrite (nta a2 a3 a1 E32 E13), (nta a3 a1 a2 E13 E21).
    apply ntb.
Qed.

(** ** Binary64 rounding on rationals *)

Section FloatFacts.
Import Float.
Local Open Scope Q_scope.

Lemma pow2_pos (e : Z) : 0 < pow2 e.
Proof. apply Qpower_0_lt. reflexivity. Qed.

Lemma pow2_plus (a b : Z) : pow2 (a + b) == pow2 a * pow2 b.
Proof. apply Qpower_plus. discriminate. Qed.

Lemma pow2_le (a b : Z) : (a <= b)%Z -> pow2 a <= pow2 b.
Proof. intros H. apply Qpower_le_compat_l; [exact H|discriminate]. Qed.

Lemma pow2_lt (a b : Z) : (a < b)%Z -> pow2 a < pow2 b.
Proof. intros H. apply Qpower_lt_compat_l; [exact H|reflexivity]. Qed.

Lemma pow2_lt_inv (a b : Z) : pow2 a < pow2 b -> (a < b)%Z.
Proof. intros H. apply (Qpower_lt_compat_l_inv 2); [exact H|reflexivity]. Qed.

Lemma pow2_Z (e : Z) : (0 <= e)%Z -> pow2 e == inject_Z (2 ^ e).
Proof. intros H. unfold pow2. now rewrite Zpower_Qpower. Qed.

Lemma pow2_succ (e : Z) : pow2 (e + 1) == 2 * pow2 e.
Proof. rewrite pow2_plus. unfold pow2 at 2. rewrite Qpower_1_r. ring. Qed.

(** multiplying and dividing by a power of two *)
Lemma scale_back (x : Q) (q : Z) : x / pow2 q * pow2 q == x.
Proof. field. intros H. pose proof (pow2_pos q). rewrite H in H0. discriminate. Qed.

Lemma scale_le (x y : Q) (q : Z) : x <= y -> x / pow2 q <= y / pow2 q.
Proof.
  intros H. unfold Qdiv. apply Qmult_le_compat_r; [exact H|].
  apply Qlt_le_weak, Qinv_lt_0_compat, pow2_pos.
Qed.

Lemma scale_pow (a q : Z) : pow2 a / pow2 q == pow2 (a - q).
Proof. unfold pow2. rewrite Qpower_minus by discriminate. reflexivity. Qed.

Lemma inject_Z_pos_log2 (n : Z) :
  (0 < n)%Z ->
  pow2 (Z.log2 n) <= inject_Z n /\ inject_Z n < pow2 (Z.log2 n + 1).
Proof.
  intros Hn. destruct (Z.log2_spec n Hn) as [H1 H2].
  pose proof (Z.log2_nonneg n) as H0.
  rewrite !pow2_Z by lia. rewrite <- Zle_Qle, <- Zlt_Qlt.
  replace (Z.log2 n + 1)%Z with (Z.succ (Z.log2 n)) by lia. now split.
Qed.

Lemma exponent_spec (x : Q) :
  0 < x -> pow2 (exponent x) <= x /\ x < pow2 (exponent x + 1).
Proof.
  intros Hx. destruct x as [n d].
  assert (Hn : (0 < n)%Z).
  { unfold Qlt in Hx. simpl in Hx. lia. }
  unfold exponent. cbn [Qnum Qden].
  destruct (inject_Z_pos_log2 n Hn) as [N1 N2].
  destruct (inject_Z_pos_log2 (Zpos d) eq_refl) as [D1 D2].
  assert (Ex : (n # d) * inject_Z (Zpos d) == inject_Z n).
  { rewrite (Qmake_Qdiv n d). field. discriminate. }
  set (X := n # d) in *. set (N := inject_Z n) in *.
  set (D := inject_Z (Z.pos d)) in *.
  set (a := Z.log2 n) in *. set (b := Z.log2 (Z.pos d)) in *.
  pose proof (pow2_pos a) as Pa. pose proof (pow2_pos b) as Pb.
  destruct (Qle_bool (pow2 (a - b)) X) eqn:E.
  - apply Qle_bool_iff in E. split; [exact E|].
    assert (R : pow2 (a - b + 1) * pow2 b == pow2 (a + 1)).
    { rewrite <- pow2_plus. now replace (a - b + 1 + b)%Z with (a + 1)%Z by lia. }
    set (r := pow2 (a - b + 1)) in *. set (pa1 := pow2 (a + 1)) in *.
    set (pb := pow2 b) in *.
    apply Qnot_le_lt. intros Hle.
    assert (H1 : r * pb <= X * pb)
      by (apply Qmult_le_compat_r; [exact Hle|now apply Qlt_le_weak]).
    assert (H2 : X * pb <= X * D)
      by (rewrite !(Qmult_comm X); apply Qmult_le_compat_r;
          [exact D1|now apply Qlt_le_weak]).
    lra.
  - assert (E' : X < pow2 (a - b)).
    { apply Qnot_le_lt. intros Hle. apply Qle_bool_iff in Hle. congruence. }
    split.
    2:{ now replace (a - b - 1 + 1)%Z with (a - b)%Z by lia. }
    assert (R : pow2 (a - b - 1) * pow2 (b + 1) == pow2 a).
    { rewrite <- pow2_plus. now replace (a - b - 1 + (b + 1))%Z with a by lia. }
    set (r := pow2 (a - b - 1)) in *. set (pb1 := pow2 (b + 1)) in *.
    set (pa := pow2 a) in *.
    assert (Hr : 0 < r) by apply pow2_pos.
    apply Qnot_lt_le. intros Hlt.
    assert (H1 : X * D <= r * D).
    { apply Qmult_le_compat_r; [now apply Qlt_le_weak|].
      unfold D. rewrite <- (Zle_Qle 0). lia. }
    assert (H2 : r * D < r * pb1).
    { rewrite !(Qmult_comm r). apply Qmult_lt_compat_r; assumption. }
    lra.
Qed.

Lemma exponent_unique (x : Q) (e : Z) :
  pow2 e <= x -> x < pow2 (e + 1) -> exponent x = e.
Proof.
  intros H1 H2.
  assert (Hx : 0 < x) by (eapply Qlt_le_trans; [apply pow2_pos|exact H1]).
  destruct (exponent_spec x Hx) as [E1 E2].
  assert (exponent x < e + 1)%Z
    by (apply pow2_lt_inv; eapply Qle_lt_trans; [exact E1|exact H2]).
  assert (e < exponent x + 1)%Z
    by (apply pow2_lt_inv; eapply Qle_lt_trans; [exact H1|exact E2]).
  lia.
Qed.

Lemma exponent_comp (x y : Q) : 0 < x -> x == y -> exponent x = exponent y.
Proof.
  intros Hx E. destruct (exponent_spec x Hx) as [E1 E2].
  symmetry. apply exponent_unique; now rewrite <- E.
Qed.

Lemma exponent_mono (x y : Q) :
  0 < x -> x <= y -> (exponent x <= exponent y)%Z.
Proof.
  intros Hx Hxy.
  assert (Hy : 0 < y) by (eapply Qlt_le_trans; eassumption).
  destruct (exponent_spec x Hx) as [X1 X2].
  destruct (exponent_spec y Hy) as [Y1 Y2].
  assert (exponent x < exponent y + 1)%Z; [|lia].
  apply pow2_lt_inv. eapply Qle_lt_trans; [exact X1|].
  eapply Qle_lt_trans; [exact Hxy|exact Y2].
Qed.

(** *** Rounding to the nearest integer *)

Lemma round_half_even_cases (y : Q) :
  let f := Qfloor y in
  (round_half_even y = f /\ y - inject_Z f <= 1 # 2)
  \/ (round_half_even y = (f + 1)%Z /\ 1 # 2 <= y - inject_Z f).
Proof.
  intros f. unfold round_half_even. fold f.
  destruct (Py.Qltb (y - inject_Z f) (1 # 2)) eqn:E1.
  - apply Qltb_lt in E1. left. split; [reflexivity|now apply Qlt_le_weak].
  - apply Qltb_ge in E1.
    destruct (Py.Qltb (1 # 2) (y - inject_Z f)) eqn:E2.
    + right. now split.
    + apply Qltb_ge in E2. destruct (Z.even f).
      * left. now split.
      * right. now split.
Qed.

Lemma round_half_even_error (y : Q) :
  y - (1 # 2) <= inject_Z (round_half_even y)
  /\ inject_Z (round_half_even y) <= y + (1 # 2).
Proof.
  pose proof (Qfloor_le y) as H1. pose proof (Qlt_floor y) as H2.
  rewrite inject_Z_plus in H2. change (inject_Z 1) with 1 in H2.
  destruct (round_half_even_cases y) as [[-> H]|[-> H]].
  - split; lra.
  - rewrite inject_Z_plus. change (inject_Z 1) with 1. split; lra.
Qed.

Lemma round_half_even_comp (x y : Q) :
  x == y -> round_half_even x = round_half_even y.
Proof.
  intros E. unfold round_half_even. rewrite (Qfloor_comp x y E).
  assert (E1 : Py.Qltb (x - inject_Z (Qfloor y)) (1 # 2)
               = Py.Qltb (y - inject_Z (Qfloor y)) (1 # 2)).
  { destruct (Py.Qltb (y - inject_Z (Qfloor y)) (1 # 2)) eqn:H.
    - apply Qltb_lt. apply Qltb_lt in H. now rewrite E.
    - apply Qltb_ge. apply Qltb_ge in H. now rewrite E. }
  assert (E2 : Py.Qltb (1 # 2) (x - inject_Z (Qfloor y))
               = Py.Qltb (1 # 2) (y - inject_Z (Qfloor y))).
  { destruct (Py.Qltb (1 # 2) (y - inject_Z (Qfloor y))) eqn:H.
    - apply Qltb_lt. apply Qltb_lt in H. now rewrite E.
    - apply Qltb_ge. apply Qltb_ge in H. now rewrite E. }
  now rewrite E1, E2.
Qed.

Lemma round_half_even_Z (z : Z) : round_half_even (inject_Z z) = z.
Proof.
  unfold round_half_even. rewrite Qfloor_Z.
  assert (E : Py.Qltb (inject_Z z - inject_Z z) (1 # 2) = true).
  { apply Qltb_lt. setoid_replace (inject_Z z - inject_Z z) with 0 by ring.
    reflexivity. }
  now rewrite E.
Qed.

Lemma round_half_even_mono (x y : Q) :
  x <= y -> (round_half_even x <= round_half_even y)%Z.
Proof.
  intros Hxy. pose proof (Qfloor_resp_le x y Hxy) as Hf.
  destruct (Z.eq_dec (Qfloor x) (Qfloor y)) as [E|N].
  - unfold round_half_even. rewrite E.
    set (f := Qfloor y).
    destruct (Py.Qltb (x - inject_Z f) (1 # 2)) eqn:X1.
    + destruct (Py.Qltb (y - inject_Z f) (1 # 2)); [lia|].
      destruct (Py.Qltb (1 # 2) (y - inject_Z f)); [lia|].
      destruct (Z.even f); lia.
    + apply Qltb_ge in X1.
      assert (Y1 : Py.Qltb (y - inject_Z f) (1 # 2) = false)
        by (apply Qltb_ge; lra).
      rewrite Y1.
      destruct (Py.Qltb (1 # 2) (x - inject_Z f)) eqn:X2.
      * apply Qltb_lt in X2.
        assert (Y2 : Py.Qltb (1 # 2) (y - inject_Z f) = true)
          by (apply Qltb_lt; lra).
        rewrite Y2. lia.
      * destruct (Py.Qltb (1 # 2) (y - inject_Z f)); destruct (Z.even f); lia.
  - destruct (round_half_even_cases x) as [[-> _]|[-> _]];
      destruct (round_half_even_cases y) as [[-> _]|[-> _]]; lia.
Qed.


(** *** Rounding on the grid of the multiples of [2^q] *)

Local Abbreviation grid q x :=
  (inject_Z (round_half_even (x / pow2 q)) * pow2 q).

Lemma grid_error (q : Z) (x : Q) :
  x - (1 # 2) * pow2 q <= grid q x /\ grid q x <= x + (1 # 2) * pow2 q.
Proof.
  destruct (round_half_even_error (x / pow2 q)) as [H1 H2].
  pose proof (pow2_pos q) as P. pose proof (scale_back x q) as E.
  set (m := inject_Z (round_half_even (x / pow2 q))) in *.
  set (y := x / pow2 q) in *. set (p := pow2 q) in *.
  assert (A : (y - (1 # 2)) * p <= m * p)
    by (apply Qmult_le_compat_r; [exact H1|now apply Qlt_le_weak]).
  assert (B : m * p <= (y + (1 # 2)) * p)
    by (apply Qmult_le_compat_r; [exact H2|now apply Qlt_le_weak]).
  split; lra.
Qed.

Lemma grid_mono (q : Z) (x y : Q) : x <= y -> grid q x <= grid q y.
Proof.
  intros H. apply Qmult_le_compat_r; [|apply Qlt_le_weak, pow2_pos].
  rewrite <- Zle_Qle. apply round_half_even_mono. now apply scale_le.
Qed.

Lemma grid_fix (q k : Z) (x : Q) :
  x == inject_Z k * pow2 q -> grid q x == x.
Proof.
  intros E.
  assert (Ey : x / pow2 q == inject_Z k).
  { rewrite E. field. intros H. pose proof (pow2_pos q) as P.
    rewrite H in P. discriminate. }
  rewrite (round_half_even_comp _ _ Ey), round_half_even_Z. now rewrite E.
Qed.

Lemma grid_le_point (q k : Z) (x : Q) :
  x <= inject_Z k * pow2 q -> grid q x <= inject_Z k * pow2 q.
Proof.
  intros H.
  apply Qle_trans with (grid q (inject_Z k * pow2 q)); [now apply grid_mono|].
  apply Qle_lteq. right. now apply (grid_fix q k).
Qed.

Lemma grid_ge_point (q k : Z) (x : Q) :
  inject_Z k * pow2 q <= x -> inject_Z k * pow2 q <= grid q x.
Proof.
  intros H.
  apply Qle_trans with (grid q (inject_Z k * pow2 q)); [|now apply grid_mono].
  apply Qle_lteq. right. symmetry. now apply (grid_fix q k).
Qed.

(** a power of two on a grid that is not coarser *)
Lemma pow2_on_grid (e q : Z) :
  (q <= e)%Z -> pow2 e == inject_Z (2 ^ (e - q)) * pow2 q.
Proof.
  intros H. rewrite <- pow2_Z by lia. rewrite <- pow2_plus.
  now replace (e - q + q)%Z with e by lia.
Qed.

Lemma last_bit_mono (x y : Q) :
  0 < x -> x <= y -> (last_bit x <= last_bit y)%Z.
Proof.
  intros Hx Hxy. unfold last_bit.
  pose proof (exponent_mono x y Hx Hxy). lia.
Qed.

Lemma nearest_positive_mono (x y : Q) :
  0 < x -> x <= y -> nearest_positive x <= nearest_positive y.
Proof.
  intros Hx Hxy. unfold nearest_positive.
  assert (Hy : 0 < y) by (eapply Qlt_le_trans; eassumption).
  pose proof (last_bit_mono x y Hx Hxy) as Hq.
  destruct (Z.eq_dec (last_bit x) (last_bit y)) as [E|N].
  - rewrite E. now apply grid_mono.
  - destruct (exponent_spec x Hx) as [_ X2].
    destruct (exponent_spec y Hy) as [Y1 _].
    assert (Hlt : (last_bit x < last_bit y)%Z) by lia.
    unfold last_bit in Hlt, Hq.
    assert (Hy52 : last_bit y = (exponent y - 52)%Z) by (unfold last_bit; lia).
    assert (Hx52 : (exponent x - 52 <= last_bit x)%Z) by (unfold last_bit; lia).
    assert (Hex : (exponent x + 1 <= exponent y)%Z) by (unfold last_bit in *; lia).
    apply Qle_trans with (pow2 (exponent y)).
    + rewrite (pow2_on_grid (exponent y) (last_bit x)) by (unfold last_bit in *; lia).
      apply grid_le_point.
      rewrite <- pow2_on_grid by (unfold last_bit in *; lia).
      apply Qlt_le_weak. eapply Qlt_le_trans; [exact X2|].
      now apply pow2_le.
    + rewrite (pow2_on_grid (exponent y) (last_bit y)) by lia.
      apply grid_ge_point.
      rewrite <- pow2_on_grid by lia. exact Y1.
Qed.

Lemma nearest_positive_comp (x y : Q) :
  0 < x -> x == y -> nearest_positive x == nearest_positive y.
Proof.
  intros Hx E. unfold nearest_positive, last_bit.
  rewrite (exponent_comp x y Hx E).
  set (q := Z.max (exponent y - 52) (-1074)).
  assert (Ey : x / pow2 q == y / pow2 q) by now rewrite E.
  now rewrite (round_half_even_comp _ _ Ey).
Qed.

Lemma nearest_positive_nonneg (x : Q) : 0 < x -> 0 <= nearest_positive x.
Proof.
  intros Hx. unfold nearest_positive.
  setoid_replace 0 with (inject_Z 0 * pow2 (last_bit x)) by ring.
  apply grid_ge_point. setoid_replace (inject_Z 0 * pow2 (last_bit x)) with 0 by ring.
  now apply Qlt_le_weak.
Qed.

(** the rounded number has at most 53 bits above its last bit *)
Lemma mantissa_bound (x : Q) :
  0 < x ->
  (0 <= round_half_even (x / pow2 (last_bit x)) <= 2 ^ 53)%Z.
Proof.
  intros Hx. destruct (exponent_spec x Hx) as [_ X2].
  set (q := last_bit x).
  assert (Hq : (exponent x - 52 <= q)%Z) by (unfold q, last_bit; lia).
  pose proof (pow2_pos q) as P.
  split.
  - rewrite <- (round_half_even_Z 0). apply round_half_even_mono.
    apply Qlt_le_weak. unfold Qdiv. apply Qmult_lt_0_compat; [exact Hx|].
    now apply Qinv_lt_0_compat.
  - rewrite <- (round_half_even_Z (2 ^ 53)). apply round_half_even_mono.
    rewrite <- pow2_Z by lia.
    apply Qle_trans with (pow2 (exponent x + 1) / pow2 q).
    + apply scale_le. now apply Qlt_le_weak.
    + rewrite scale_pow. apply pow2_le. lia.
Qed.

Lemma nearest_positive_idem (x : Q) :
  0 < x -> 0 < nearest_positive x ->
  nearest_positive (nearest_positive x) == nearest_positive x.
Proof.
  intros Hx Hv. pose proof (mantissa_bound x Hx) as [M0 M53].
  set (v := nearest_positive x) in *.
  set (q := last_bit x) in *.
  set (m := round_half_even (x / pow2 q)) in *.
  assert (Ev : v == inject_Z m * pow2 q) by reflexivity.
  pose proof (pow2_pos q) as P.
  assert (Hgrid : exists k, v == inject_Z k * pow2 (last_bit v)).
  { destruct (Z.eq_dec m (2 ^ 53)) as [Em|Nm].
    - assert (E53 : v == pow2 (53 + q)).
      { rewrite Ev, Em, <- pow2_Z by lia. now rewrite pow2_plus. }
      assert (Ee : exponent v = (53 + q)%Z).
      { apply exponent_unique.
        - rewrite E53. apply Qle_refl.
        - rewrite E53. apply pow2_lt. lia. }
      assert (Eq : last_bit v = (q + 1)%Z).
      { unfold last_bit. rewrite Ee. unfold q, last_bit. lia. }
      exists (2 ^ 52)%Z. rewrite Eq.
      apply Qeq_trans with (pow2 (53 + q)); [exact E53|].
      rewrite <- (pow2_Z 52) by lia. rewrite <- pow2_plus.
      now replace (52 + (q + 1))%Z with (53 + q)%Z by lia.
    - destruct (exponent_spec v Hv) as [V1 _].
      assert (Hlt : v < pow2 (53 + q)).
      { apply Qle_lt_trans with (inject_Z m * pow2 q);
          [apply Qle_lteq; right; exact Ev|].
        rewrite pow2_plus, (pow2_Z 53) by lia.
        apply Qmult_lt_compat_r; [exact P|]. rewrite <- Zlt_Qlt. lia. }
      assert (He : (exponent v < 53 + q)%Z).
      { apply pow2_lt_inv. eapply Qle_lt_trans; [exact V1|exact Hlt]. }
      assert (Hq' : (last_bit v <= q)%Z).
      { unfold last_bit at 1. unfold q, last_bit in *. lia. }
      exists (m * 2 ^ (q - last_bit v))%Z.
      apply Qeq_trans with (inject_Z m * pow2 q); [exact Ev|].
      rewrite inject_Z_mult, <- (pow2_Z (q - last_bit v)) by lia.
      rewrite <- Qmult_assoc, <- pow2_plus.
      now replace (q - last_bit v + last_bit v)%Z with q by lia. }
  destruct Hgrid as [k Ek].
  unfold nearest_positive at 1. now apply (grid_fix _ k).
Qed.

Lemma nearest_positive_error (x : Q) (k : Z) :
  0 < x -> x < pow2 k -> (-1021 <= k)%Z ->
  x - pow2 (k - 54) <= nearest_positive x
  /\ nearest_positive x <= x + pow2 (k - 54).
Proof.
  intros Hx Hk Hmin. destruct (exponent_spec x Hx) as [X1 _].
  assert (He : (exponent x < k)%Z).
  { apply pow2_lt_inv. eapply Qle_lt_trans; eassumption. }
  assert (Hq : (last_bit x <= k - 53)%Z) by (unfold last_bit; lia).
  destruct (grid_error (last_bit x) x) as [G1 G2].
  assert (Hp : (1 # 2) * pow2 (last_bit x) <= pow2 (k - 54)).
  { pose proof (pow2_le _ _ Hq) as Hle.
    replace (k - 53)%Z with (k - 54 + 1)%Z in Hle by lia.
    rewrite pow2_succ in Hle. lra. }
  unfold nearest_positive. split; lra.
Qed.

(** *** The nearest binary64 number *)

Lemma nearest_pos (x : Q) : 0 < x -> nearest x = nearest_positive x.
Proof.
  intros H. unfold nearest.
  destruct (x ?= 0) eqn:E;
    [apply Qeq_alt in E; lra|apply Qlt_alt in E; lra|reflexivity].
Qed.

Lemma nearest_neg (x : Q) : x < 0 -> nearest x = - nearest_positive (- x).
Proof.
  intros H. unfold nearest.
  destruct (x ?= 0) eqn:E;
    [apply Qeq_alt in E; lra|reflexivity|apply Qgt_alt in E; lra].
Qed.

Lemma nearest_zero (x : Q) : x == 0 -> nearest x = 0.
Proof.
  intros H. unfold nearest.
  destruct (x ?= 0) eqn:E;
    [reflexivity|apply Qlt_alt in E; lra|apply Qgt_alt in E; lra].
Qed.

Lemma Qsign_cases (x : Q) : x < 0 \/ x == 0 \/ 0 < x.
Proof.
  destruct (Q_dec x 0) as [[H|H]|H]; [now left|now right; right|now right; left].
Qed.

Lemma nearest_comp (x y : Q) : x == y -> nearest x == nearest y.
Proof.
  intros E. destruct (Qsign_cases x) as [H|[H|H]].
  - rewrite (nearest_neg x H), (nearest_neg y) by now rewrite <- E.
    apply Qopp_comp, nearest_positive_comp; [lra|now rewrite E].
  - rewrite (nearest_zero x H), (nearest_zero y) by now rewrite <- E.
    reflexivity.
  - rewrite (nearest_pos x H), (nearest_pos y) by now rewrite <- E.
    now apply nearest_positive_comp.
Qed.

Lemma nearest_nonneg (x : Q) : 0 <= x -> 0 <= nearest x.
Proof.
  intros Hx. destruct (Qsign_cases x) as [H|[H|H]]; [lra| |].
  - rewrite (nearest_zero x H). apply Qle_refl.
  - rewrite (nearest_pos x H). now apply nearest_positive_nonneg.
Qed.

Lemma nearest_nonpos (x : Q) : x <= 0 -> nearest x <= 0.
Proof.
  intros Hx. destruct (Qsign_cases x) as [H|[H|H]]; [| |lra].
  - rewrite (nearest_neg x H).
    assert (0 <= nearest_positive (- x)) by (apply nearest_positive_nonneg; lra).
    lra.
  - rewrite (nearest_zero x H). apply Qle_refl.
Qed.

(** Rounding keeps the order. *)
Lemma nearest_mono (x y : Q) : x <= y -> nearest x <= nearest y.
Proof.
  intros Hxy. destruct (Qsign_cases x) as [Hx|[Hx|Hx]].
  - destruct (Qsign_cases y) as [Hy|[Hy|Hy]].
    + rewrite (nearest_neg x Hx), (nearest_neg y Hy).
      assert (nearest_positive (- y) <= nearest_positive (- x))
        by (apply nearest_positive_mono; lra).
      lra.
    + apply Qle_trans with 0; [apply nearest_nonpos|apply nearest_nonneg]; lra.
    + apply Qle_trans with 0; [apply nearest_nonpos|apply nearest_nonneg]; lra.
  - rewrite (nearest_zero x Hx). apply nearest_nonneg. lra.
  - rewrite (nearest_pos x Hx), (nearest_pos y) by lra.
    now apply nearest_positive_mono.
Qed.

(** A binary64 number is its own nearest. *)
Lemma nearest_idem (x : Q) : nearest (nearest x) == nearest x.
Proof.
  destruct (Qsign_cases x) as [Hx|[Hx|Hx]].
  - rewrite (nearest_neg x Hx).
    assert (H0 : 0 <= nearest_positive (- x))
      by (apply nearest_positive_nonneg; lra).
    destruct (Qsign_cases (nearest_positive (- x))) as [H|[H|H]]; [lra| |].
    + rewrite nearest_zero by (rewrite H; reflexivity). now rewrite H.
    + rewrite nearest_neg by lra.
      apply Qopp_comp.
      rewrite (nearest_positive_comp (- - nearest_positive (- x))
                                     (nearest_positive (- x)))
        by (try lra; ring).
      apply nearest_positive_idem; [lra|exact H].
  - rewrite (nearest_zero x Hx). reflexivity.
  - rewrite (nearest_pos x Hx).
    assert (H0 : 0 <= nearest_positive x)
      by now apply nearest_positive_nonneg.
    destruct (Qsign_cases (nearest_positive x)) as [H|[H|H]]; [lra| |].
    + rewrite nearest_zero by exact H. now rewrite H.
    + rewrite nearest_pos by exact H. now apply nearest_positive_idem.
Qed.

(** The rounding error below [2^k] is at most [2^(k-54)], half a unit of
    the last of the 53 bits. *)
Lemma nearest_error (x : Q) (k : Z) :
  0 <= x -> x < pow2 k -> (-1021 <= k)%Z ->
  x - pow2 (k - 54) <= nearest x /\ nearest x <= x + pow2 (k - 54).
Proof.
  intros Hx Hk Hmin. pose proof (pow2_pos (k - 54)) as P.
  destruct (Qsign_cases x) as [H|[H|H]]; [lra| |].
  - rewrite (nearest_zero x H). split; lra.
  - rewrite (nearest_pos x H). now apply nearest_positive_error.
Qed.

End FloatFacts.

Lemma StronglySorted_any (A : Type) (l : list A) :
  StronglySorted (fun _ _ => True) l.
Proof.
  induction l; constructor; [assumption|]. now apply Forall_forall.
Qed.

Lemma StronglySorted_map_impl (A B : Type) (R : A -> A -> Prop)
      (S : B -> B -> Prop) (f : A -> B) (l : list A) :
  (forall x y, R x y -> S (f x) (f y)) ->
  StronglySorted R l -> StronglySorted S (map f l).
Proof.
  intros HRS. induction 1 as [|x r Hr IH Hx]; simpl; constructor; [assumption|].
  rewrite Forall_forall in *. intros y Hy.
  apply in_map_iff in Hy as [z [<- Hz]]. auto.
Qed.

(** ** Missing-page detection (modules/page_numbers.py) *)

Section MissingPages.
Import PageNumbers.
Local Open Scope Z_scope.

Lemma In_range (a b x : Z) : In x (Py.range a b) <-> a <= x < b.
Proof.
  unfold Py.range. rewrite in_map_iff. split.
  - intros [k [<- Hk]]. apply in_seq in Hk. lia.
  - intros H. exists (Z.to_nat (x - a)). split; [lia|].
    apply in_seq. lia.
Qed.

Lemma range_sorted (a b : Z) : StronglySorted Z.lt (Py.range a b).
Proof.
  unfold Py.range. generalize (Z.to_nat (b - a)) as n. intros n.
  generalize 0%nat as k. induction n as [|n IH]; intros k; simpl.
  - constructor.
  - constructor; [apply IH|].
    apply Forall_forall. intros x Hx. apply in_map_iff in Hx as [j [<- Hj]].
    apply in_seq in Hj. lia.
Qed.

Lemma In_missing_between (nums : list Z) (x : Z) :
  In x (missing_between nums) <->
  exists a b, Spec.adjacent a b nums /\ a < x < b.
Proof.
  induction nums as [|c [|n rest] IH].
  - simpl. split; [tauto|]. intros (a & b & (l1 & l2 & E) & _).
    destruct l1; discriminate.
  - simpl. split; [tauto|]. intros (a & b & (l1 & l2 & E) & _).
    destruct l1 as [|? [|? ?]]; discriminate.
  - change (missing_between (c :: n :: rest))
      with ((if 1 <? n - c then Py.range (c + 1) n else [])
              ++ missing_between (n :: rest)).
    rewrite in_app_iff, IH. split.
    + intros [H|(a & b & (l1 & l2 & E) & Hab)].
      * exists c, n. split; [now exists [], rest|].
        destruct (1 <? n - c); [|contradiction].
        apply In_range in H. lia.
      * exists a, b. split; [|exact Hab].
        exists (c :: l1), l2. simpl. now rewrite E.
    + intros (a & b & (l1 & l2 & E) & Hab).
      destruct l1 as [|c' l1]; simpl in E.
      * injection E as <- <- _. left.
        destruct (1 <? n - c) eqn:G; [apply In_range; lia|].
        apply Z.ltb_ge in G. lia.
      * injection E as _ E. right. exists a, b. split; [|exact Hab].
        now exists l1, l2.
Qed.

Lemma missing_between_above (nums : list Z) (c : Z) :
  StronglySorted Z.le (c :: nums) ->
  Forall (fun x => c < x) (missing_between (c :: nums)).
Proof.
  intros Hs. apply Forall_forall. intros x Hx.
  apply In_missing_between in Hx as (a & b & (l1 & l2 & E) & Hab).
  apply StronglySorted_inv in Hs as [_ Hc]. rewrite Forall_forall in Hc.
  destruct l1 as [|c' l1]; simpl in E.
  - injection E as -> _. lia.
  - injection E as -> E. assert (c' <= a); [|lia].
    apply Hc. rewrite E. apply in_app_iff. right. now left.
Qed.

Lemma missing_between_sorted (nums : list Z) :
  StronglySorted Z.le nums -> StronglySorted Z.lt (missing_between nums).
Proof.
  induction nums as [|c [|n rest] IH]; intros Hs; try constructor.
  change (missing_between (c :: n :: rest))
    with ((if 1 <? n - c then Py.range (c + 1) n else [])
            ++ missing_between (n :: rest)).
  pose proof (StronglySorted_inv Hs) as [Hs' _].
  pose proof (missing_between_above _ _ Hs') as Habove.
  specialize (IH Hs').
  assert (G : forall l, StronglySorted Z.lt l -> Forall (fun x => x < n) l ->
                        StronglySorted Z.lt (l ++ missing_between (n :: rest))).
  { induction l as [|y l IHl]; intros Hl Hn; [exact IH|].
    simpl. apply StronglySorted_inv in Hl as [Hl Hy].
    inversion Hn as [|? ? Hyn Hln]; subst.
    constructor; [now apply IHl|].
    apply Forall_app. split; [exact Hy|].
    eapply Forall_impl; [|exact Habove]. simpl. intros; lia. }
  destruct (1 <? n - c).
  - apply G; [apply range_sorted|].
    apply Forall_forall. intros x Hx. apply In_range in Hx. lia.
  - apply G; constructor.
Qed.

Lemma sorted_numbers_le (l : list (nat * Z)) :
  StronglySorted Z.le (map snd (Py.sorted Z.ltb snd l)).
Proof.
  apply StronglySorted_map_impl
    with (R := Spec.stable_le Z.ltb (@snd nat Z) (fun _ _ => True)).
  - intros x y [H|[H _]]; [apply Z.ltb_lt in H|apply Z.ltb_ge in H]; lia.
  - apply sorted_stable; [apply Zltb_strict_weak|apply StronglySorted_any].
Qed.

(** C6.  [detect_missing_pages] reports nothing for fewer than two
    numbered pages; otherwise it sorts the detected numbers and reports,
    in increasing order, exactly the integers strictly between two
    neighbouring numbers of the sorted sequence.  Numbers 1,2,3,5,6 give
    [4]; numbers 1,2,4,7 give [3,5,6]; a single numbered page gives
    nothing. *)
Theorem detect_missing_pages_spec (pages_with_numbers : list (nat * Z)) :
  ((length pages_with_numbers < 2)%nat ->
   detect_missing_pages pages_with_numbers = [])
  /\ ((2 <= length pages_with_numbers)%nat ->
      exists page_numbers,
        Permutation page_numbers (map snd pages_with_numbers)
        /\ StronglySorted Z.le page_numbers
        /\ forall x,
            In x (detect_missing_pages pages_with_numbers) <->
            exists a b, Spec.adjacent a b page_numbers /\ a < x < b)
  /\ StronglySorted Z.lt (detect_missing_pages pages_with_numbers)
  /\ detect_missing_pages
       [(0%nat, 1); (1%nat, 2); (2%nat, 3); (3%nat, 5); (4%nat, 6)] = [4]
  /\ detect_missing_pages [(0%nat, 1); (1%nat, 2); (2%nat, 4); (3%nat, 7)]
     = [3; 5; 6]
  /\ forall idx n, detect_missing_pages [(idx, n)] = [].
Proof.
  unfold detect_missing_pages.
  repeat split; try reflexivity.
  - intros H. apply Nat.ltb_lt in H. now rewrite H.
  - intros H. apply Nat.ltb_ge in H. rewrite H.
    exists (map snd (Py.sorted Z.ltb (@snd nat Z) pages_with_numbers)).
    split; [apply Permutation_map, sorted_perm|].
    split; [apply sorted_numbers_le|].
    intros x. apply In_missing_between.
  - destruct (length pages_with_numbers <? 2)%nat; [constructor|].
    apply missing_between_sorted, sorted_numbers_le.
Qed.

Lemma detect_missing_pages_spec_witness :
  (length [(3%nat, 8)] < 2)%nat /\ detect_missing_pages [(3%nat, 8)] = [].
Proof.
  split; [simpl; lia|].
  apply (proj1 (detect_missing_pages_spec [(3%nat, 8)])). simpl; lia.
Defined.

End MissingPages.

(** ** Positions and page identity *)

Section Positions.
Import Spec.

Lemma erase_set_new_position (k : nat) (p : page) :
  erase_position (set_new_position k p) = erase_position p.
Proof. reflexivity. Qed.

Lemma erase_assign_from (k : nat) (l : list page) :
  map erase_position (assign_from k l) = map erase_position l.
Proof.
  revert k. induction l as [|p r IH]; intros k; simpl; [reflexivity|].
  now rewrite IH.
Qed.

Lemma assign_from_length (k : nat) (l : list page) :
  length (assign_from k l) = length l.
Proof.
  rewrite <- (length_map erase_position), erase_assign_from.
  apply length_map.
Qed.

Lemma assign_from_positions (k : nat) (l : list page) :
  map new_position (assign_from k l) = map Some (seq k (length l)).
Proof.
  revert k. induction l as [|p r IH]; intros k; simpl; [reflexivity|].
  now rewrite IH.
Qed.

Lemma assign_from_app (k : nat) (l1 l2 : list page) :
  assign_from k (l1 ++ l2)
  = assign_from k l1 ++ assign_from (k + length l1) l2.
Proof.
  revert k. induction l1 as [|p r IH]; intros k; simpl.
  - now rewrite Nat.add_0_r.
  - rewrite IH. now rewrite Nat.add_succ_r.
Qed.

Lemma assign_from_erased (k : nat) (l l' : list page) :
  map erase_position l = map erase_position l' ->
  assign_from k l = assign_from k l'.
Proof.
  revert k l'. induction l as [|p r IH]; intros k [|p' r'] E;
    try discriminate; [reflexivity|].
  simpl in *.
  assert (Ep : erase_position p = erase_position p') by congruence.
  assert (Er : map erase_position r = map erase_position r') by congruence.
  rewrite (IH _ _ Er). f_equal.
  unfold set_new_position.
  destruct p, p'. unfold erase_position in Ep. simpl in *.
  congruence.
Qed.

Lemma assign_from_twice (k j : nat) (l : list page) :
  assign_from k (assign_from j l) = assign_from k l.
Proof. apply assign_from_erased, erase_assign_from. Qed.

Lemma blind_map (A : Type) (f : page -> A) (l : list page) :
  position_blind f -> map f (map erase_position l) = map f l.
Proof.
  intros Hf. rewrite map_map. apply map_ext. intros p. apply Hf.
Qed.

Lemma blind_assign (A : Type) (f : page -> A) (k : nat) (l : list page) :
  position_blind f -> map f (assign_from k l) = map f l.
Proof.
  intros Hf. rewrite <- (blind_map _ f (assign_from k l) Hf), erase_assign_from.
  now apply blind_map.
Qed.

Lemma blind_Forall_perm (f : page -> bool) (b : bool) (l l' : list page) :
  position_blind f ->
  Permutation (map erase_position l) (map erase_position l') ->
  Forall (fun p => f p = b) l' -> Forall (fun p => f p = b) l.
Proof.
  intros Hf HP H. rewrite Forall_forall in *. intros p Hp.
  assert (Hin : In (erase_position p) (map erase_position l'))
    by (eapply Permutation_in; [exact HP|now apply in_map]).
  apply in_map_iff in Hin as [q [Eq Hq]].
  rewrite <- (Hf p), <- Eq, Hf. now apply H.
Qed.

End Positions.

Lemma filter_split_perm (A : Type) (f : A -> bool) (l : list A) :
  Permutation (filter f l ++ filter (fun x => negb (f x)) l) l.
Proof.
  induction l as [|x r IH]; simpl; [constructor|].
  destruct (f x); simpl.
  - now constructor.
  - rewrite <- Permutation_middle. now constructor.
Qed.

Lemma filter_split_length (A : Type) (f : A -> bool) (l : list A) :
  length (filter f l) + length (filter (fun x => negb (f x)) l) = length l.
Proof.
  rewrite <- length_app. apply Permutation_length, filter_split_perm.
Qed.

(** ** Exchanging neighbours *)

Section Swaps.
Variable A : Type.

Lemma swap_at_shape (i : nat) (l : list A) :
  (exists l1 a b l2, l = l1 ++ a :: b :: l2 /\ length l1 = i
                     /\ Py.swap_at i l = l1 ++ b :: a :: l2)
  \/ (length l <= i + 1 /\ Py.swap_at i l = l).
Proof.
  unfold Py.swap_at.
  destruct (skipn i l) as [|a [|b r]] eqn:E.
  - right. split; [|rewrite <- E; apply firstn_skipn].
    assert (length (skipn i l) = 0) by now rewrite E.
    rewrite length_skipn in H. lia.
  - right. split; [|rewrite <- E; apply firstn_skipn].
    assert (length (skipn i l) = 1) by now rewrite E.
    rewrite length_skipn in H. lia.
  - left. exists (firstn i l), a, b, r. repeat split.
    + rewrite <- E. symmetry. apply firstn_skipn.
    + apply firstn_length_le.
      assert (length (skipn i l) = S (S (length r))) by now rewrite E.
      rewrite length_skipn in H. lia.
Qed.

Lemma swap_at_perm (i : nat) (l : list A) : Permutation (Py.swap_at i l) l.
Proof.
  destruct (swap_at_shape i l) as [(l1 & a & b & l2 & -> & _ & ->)|[_ ->]];
    [|reflexivity].
  apply Permutation_app_head, perm_swap.
Qed.

Lemma swap_at_length (i : nat) (l : list A) :
  length (Py.swap_at i l) = length l.
Proof. apply Permutation_length, swap_at_perm. Qed.

Lemma neighbour_swaps_trans (l1 l2 l3 : list A) :
  Spec.neighbour_swaps l1 l2 -> Spec.neighbour_swaps l2 l3 ->
  Spec.neighbour_swaps l1 l3.
Proof.
  induction 1; [trivial|]. intros H3. apply Spec.ns_step. auto.
Qed.

Lemma neighbour_swaps_swap_at (i : nat) (l : list A) :
  Spec.neighbour_swaps l (Py.swap_at i l).
Proof.
  destruct (swap_at_shape i l) as [(l1 & a & b & l2 & -> & _ & ->)|[_ ->]].
  - apply Spec.ns_step, Spec.ns_refl.
  - apply Spec.ns_refl.
Qed.

Lemma neighbour_swaps_perm (l l' : list A) :
  Spec.neighbour_swaps l l' -> Permutation l l'.
Proof.
  induction 1 as [|l1 a b l2 l' _ IH]; [reflexivity|].
  rewrite <- IH. apply Permutation_app_head, perm_swap.
Qed.

End Swaps.

(** ** The continuity pass and the hybrid engine (modules/ordering.py) *)

Section Hybrid.
Import Spec Ordering.
Variable embedding : Type.
Variable cosine_similarity : embedding -> embedding -> Q.
Variable round2 : Q -> Q.

Local Abbreviation step := (continuity_step cosine_similarity).
Local Abbreviation pass := (continuity_pass cosine_similarity).
Local Abbreviation optimize := (optimize_continuity cosine_similarity).
Local Abbreviation hybrid := (order_pages_hybrid cosine_similarity round2).
Local Abbreviation content_order := (order_content cosine_similarity).

Lemma continuity_step_cases (scores : list Q)
      (st : list page * list embedding) (i : nat) :
  step scores st i = st
  \/ step scores st i
     = (Py.swap_at (i + 1) (fst st), Py.swap_at (i + 1) (snd st)).
Proof.
  unfold continuity_step. destruct st as [ps es]. cbn [fst snd].
  destruct (nth_error scores i); [|now left].
  destruct (_ && _); [|now left].
  destruct (_ <? _); [|now left].
  destruct (nth_error es i); [|now left].
  destruct (nth_error es (i + 2)); [|now left].
  destruct (Py.Qltb _ _); [now right|now left].
Qed.

Lemma fold_steps_swaps (scores : list Q) (idxs : list nat)
      (st : list page * list embedding) :
  neighbour_swaps (fst st) (fst (fold_left (step scores) idxs st))
  /\ length (fst (fold_left (step scores) idxs st)) = length (fst st)
  /\ length (snd (fold_left (step scores) idxs st)) = length (snd st).
Proof.
  revert st. induction idxs as [|i r IH]; intros st; simpl.
  - repeat split. apply ns_refl.
  - destruct (IH (step scores st i)) as (Hs & Hl & Hl').
    destruct (continuity_step_cases scores st i) as [E|E]; rewrite E in *.
    + now repeat split.
    + simpl in *. rewrite swap_at_length in *. repeat split; trivial.
      eapply neighbour_swaps_trans; [apply neighbour_swaps_swap_at|exact Hs].
Qed.

Lemma pass_swaps (pages : list page) (embeddings : list embedding) :
  neighbour_swaps pages (fst (pass pages embeddings)).
Proof. apply (fold_steps_swaps _ _ (pages, embeddings)). Qed.

Lemma pass_length (pages : list page) (embeddings : list embedding) :
  length (fst (pass pages embeddings)) = length pages.
Proof. apply (fold_steps_swaps _ _ (pages, embeddings)). Qed.

(** C9.  When the two lists have the same length, [optimize_continuity]
    returns the page records of its input, rearranged by exchanges of
    neighbours only (hence a permutation) and renumbered in
    [new_position]; when the lengths differ it returns the page list as it
    is. *)
Theorem optimize_continuity_permutation
        (pages : list page) (embeddings : list embedding) :
  (length embeddings = length pages ->
   exists reordered,
     neighbour_swaps pages reordered
     /\ Permutation pages reordered
     /\ optimize pages embeddings = assign_positions reordered
     /\ Permutation (map erase_position (optimize pages embeddings))
                    (map erase_position pages))
  /\ (length embeddings <> length pages -> optimize pages embeddings = pages).
Proof.
  unfold optimize_continuity. split; intros H.
  - apply Nat.eqb_eq in H. rewrite H. simpl.
    exists (fst (pass pages embeddings)).
    pose proof (pass_swaps pages embeddings) as Hs.
    repeat split; trivial.
    + now apply neighbour_swaps_perm.
    + unfold assign_positions. rewrite erase_assign_from.
      apply Permutation_map. symmetry. now apply neighbour_swaps_perm.
  - apply Nat.eqb_neq in H. now rewrite H.
Qed.

Lemma optimize_erased (pages : list page) (embeddings : list embedding) :
  Permutation (map erase_position (optimize pages embeddings))
              (map erase_position pages).
Proof.
  unfold optimize_continuity.
  destruct (negb _); [reflexivity|].
  unfold assign_positions. rewrite erase_assign_from.
  apply Permutation_map. symmetry. apply neighbour_swaps_perm, pass_swaps.
Qed.

Lemma optimize_positions (pages : list page) (embeddings : list embedding) :
  length embeddings = length pages ->
  map new_position (optimize pages embeddings)
  = map Some (seq 0 (length pages)).
Proof.
  intros H. unfold optimize_continuity.
  apply Nat.eqb_eq in H. rewrite H. simpl.
  unfold assign_positions. now rewrite assign_from_positions, pass_length.
Qed.

Lemma embeddings_of_length (embeddings : list embedding) (l : list page)
      (es : list embedding) :
  embeddings_of embeddings l = Some es -> length es = length l.
Proof.
  revert es. induction l as [|p r IH]; simpl; intros es H.
  - now injection H as <-.
  - destruct (nth_error embeddings (page_index p)); [|discriminate].
    destruct (embeddings_of embeddings r) as [es'|]; [|discriminate].
    injection H as <-. simpl. now rewrite (IH es').
Qed.

Lemma embeddings_of_total (embeddings : list embedding) (l : list page) :
  Forall (fun p => page_index p < length embeddings) l ->
  exists es, embeddings_of embeddings l = Some es.
Proof.
  induction 1 as [|p r Hp Hr [es IH]]; simpl; [now exists []|].
  destruct (nth_error embeddings (page_index p)) eqn:E.
  - rewrite IH. now eexists.
  - apply nth_error_None in E. lia.
Qed.

Lemma by_numbers_erased (l : list page) :
  Permutation (map erase_position (order_pages_by_page_numbers l))
              (map erase_position l).
Proof.
  unfold order_pages_by_page_numbers, assign_positions.
  rewrite erase_assign_from. apply Permutation_map.
  rewrite !sorted_perm. apply filter_split_perm.
Qed.

Lemma by_numbers_length (l : list page) :
  length (order_pages_by_page_numbers l) = length l.
Proof.
  rewrite <- (length_map erase_position), (Permutation_length (by_numbers_erased l)).
  apply length_map.
Qed.

Lemma by_numbers_positions (l : list page) :
  map new_position (order_pages_by_page_numbers l)
  = map Some (seq 0 (length l)).
Proof.
  pose proof (by_numbers_length l) as H. revert H.
  unfold order_pages_by_page_numbers, assign_positions.
  rewrite assign_from_positions, assign_from_length. now intros ->.
Qed.

Lemma page_index_blind : position_blind page_index.
Proof. now intros p. Qed.

Lemma is_blank_blind : position_blind is_blank.
Proof. now intros p. Qed.

(** What [order_content] returns: the content pages, rearranged and
    numbered from 0. *)
Lemma order_content_spec (pages ordered : list page)
      (embeddings : list embedding) :
  content_order pages embeddings = Some ordered ->
  Permutation (map erase_position ordered)
              (map erase_position (content_pages pages))
  /\ map new_position ordered
     = map Some (seq 0 (length (content_pages pages))).
Proof.
  unfold order_content.
  destruct (use_page_numbers pages).
  - intros H. injection H as <-.
    split; [apply by_numbers_erased|apply by_numbers_positions].
  - destruct (section_listing_raises (content_pages pages)); [discriminate|].
    set (sorted := assign_positions
                     (Py.sorted content_key_ltb content_sort_key
                                (content_pages pages))).
    assert (Hperm : Permutation (map erase_position sorted)
                                (map erase_position (content_pages pages))).
    { unfold sorted, assign_positions. rewrite erase_assign_from.
      apply Permutation_map, sorted_perm. }
    assert (Hlen : length sorted = length (content_pages pages)).
    { rewrite <- (length_map erase_position), (Permutation_length Hperm).
      apply length_map. }
    destruct (3 <? _).
    + destruct (embeddings_of embeddings sorted) as [es|] eqn:E;
        [|discriminate].
      intros H. injection H as <-.
      apply embeddings_of_length in E. split.
      * rewrite optimize_erased. exact Hperm.
      * rewrite (optimize_positions _ _ E). now rewrite Hlen.
    + intros H. injection H as <-. split; [exact Hperm|].
      unfold sorted, assign_positions.
      now rewrite assign_from_positions, sorted_length.
Qed.

Lemma In_firstn (A : Type) (n : nat) (l : list A) (x : A) :
  In x (firstn n l) -> In x l.
Proof.
  intros H. rewrite <- (firstn_skipn n l). apply in_app_iff. now left.
Qed.

Lemma listing_does_not_raise (pages : list page) :
  titled_sections pages ->
  section_listing_raises (content_pages pages) = false.
Proof.
  intros Ht. unfold section_listing_raises.
  destruct (filter has_section_value (content_pages pages)) as [|q qs] eqn:E;
    [reflexivity|].
  rewrite <- E.
  match goal with |- _ && ?b = false => assert (X : b = false) end;
    [|now rewrite X, andb_false_r].
  destruct (existsb untitled _) eqn:Ex; [|reflexivity].
  apply existsb_exists in Ex as [p [Hp Hu]].
  apply In_firstn, sorted_In, filter_In in Hp as [Hp Hs].
  apply filter_In in Hp as [Hp _].
  unfold titled_sections in Ht. rewrite Forall_forall in Ht.
  specialize (Ht p Hp). unfold has_section_value in Hs. unfold untitled in Hu.
  destruct (section_numeric_value p); [|discriminate].
  destruct (title p); [discriminate|]. exfalso. now apply Ht.
Qed.

Lemma order_content_total (pages : list page) (embeddings : list embedding) :
  titled_sections pages ->
  Forall (fun p => page_index p < length embeddings) pages ->
  exists ordered, content_order pages embeddings = Some ordered.
Proof.
  intros Ht Hidx. unfold order_content.
  destruct (use_page_numbers pages); [now eexists|].
  rewrite (listing_does_not_raise pages Ht).
  destruct (3 <? _); [|now eexists].
  match goal with |- context [embeddings_of _ ?l] =>
    destruct (embeddings_of_total embeddings l) as [es E]
  end; [|rewrite E; now eexists].
  rewrite Forall_forall in *. intros p Hp.
  assert (Hin : In (page_index p) (map page_index (content_pages pages))).
  { unfold assign_positions in Hp.
    apply (in_map page_index) in Hp.
    rewrite (blind_assign _ _ _ _ page_index_blind) in Hp.
    eapply Permutation_in; [|exact Hp].
    apply Permutation_map, sorted_perm. }
  apply in_map_iff in Hin as [q [<- Hq]].
  apply Hidx. unfold content_pages in Hq. now apply filter_In in Hq.
Qed.

(** On a document with a content page the engine numbers the returned
    records 0, 1, ..., N-1 in order and returns every input page once. *)
Lemma hybrid_positions (pages out : list page) (meta : metadata)
      (embeddings : list embedding) :
  content_pages pages <> [] ->
  hybrid pages embeddings = Some (out, meta) ->
  map new_position out = map Some (seq 0 (length pages))
  /\ Permutation (map erase_position out) (map erase_position pages).
Proof.
  intros Hc. unfold order_pages_hybrid.
  destruct (content_pages pages) as [|c cs] eqn:Ec; [congruence|].
  destruct (content_order pages embeddings) as [ordered|] eqn:Eo;
    [|discriminate].
  intros H. injection H as <- _.
  apply order_content_spec in Eo as [Hperm Hpos].
  assert (HP : Permutation (map erase_position (ordered ++ blank_pages pages))
                           (map erase_position pages)).
  { rewrite map_app, Hperm, <- map_app. apply Permutation_map.
    rewrite (Permutation_app_comm _ _). apply filter_split_perm. }
  unfold assign_positions. rewrite assign_from_positions, erase_assign_from.
  split; [|exact HP].
  rewrite <- (length_map erase_position), (Permutation_length HP).
  now rewrite length_map.
Qed.

Lemma hybrid_total (pages : list page) (embeddings : list embedding) :
  titled_sections pages ->
  Forall (fun p => page_index p < length embeddings) pages ->
  exists out meta, hybrid pages embeddings = Some (out, meta).
Proof.
  intros Ht H. unfold order_pages_hybrid.
  destruct (order_content_total pages embeddings Ht H) as [ordered E].
  destruct (content_pages pages); [now do 2 eexists|].
  rewrite E. now do 2 eexists.
Qed.

End Hybrid.

Lemma filter_StronglySorted (A : Type) (R : A -> A -> Prop) (f : A -> bool)
      (l : list A) :
  StronglySorted R l -> StronglySorted R (filter f l).
Proof.
  induction 1 as [|x r Hr IH Hx]; simpl; [constructor|].
  destruct (f x); [|assumption].
  constructor; [assumption|].
  rewrite Forall_forall in *. intros y Hy. apply filter_In in Hy. now apply Hx.
Qed.

Lemma StronglySorted_impl (A : Type) (R S : A -> A -> Prop) (l : list A) :
  (forall x y, R x y -> S x y) -> StronglySorted R l -> StronglySorted S l.
Proof.
  intros H Hs. rewrite <- (map_id l).
  now apply StronglySorted_map_impl with (R := R).
Qed.

Section HybridClaims.
Import Spec Ordering.
Variable embedding : Type.
Variable cosine_similarity : embedding -> embedding -> Q.
Variable round2 : Q -> Q.

Local Abbreviation hybrid := (order_pages_hybrid cosine_similarity round2).

Lemma filter_all (A : Type) (f : A -> bool) (l : list A) :
  filter (fun x => negb (f x)) l = [] -> filter f l = l.
Proof.
  induction l as [|x r IH]; simpl; [reflexivity|].
  destruct (f x); simpl; [|discriminate].
  intros H. now rewrite IH.
Qed.

(** C1, on the documents where the code departs from it.  When every page
    of the document is blank the engine returns the pages as they are: no
    [new_position] is assigned, the records keep whatever value the key
    had, and the metadata names the method "blank_only".  (On every other
    document the positions are 0, ..., N-1: [hybrid_positions].) *)
Theorem hybrid_all_blank_unplaced (pages : list page)
        (embeddings : list embedding) :
  content_pages pages = [] ->
  hybrid pages embeddings
  = Some (pages, [ ("total_pages", MInt (Z.of_nat (length pages)));
                   ("ordering_method", MStr "blank_only") ]%string).
Proof.
  intros H. unfold order_pages_hybrid. rewrite H.
  unfold blank_pages. now rewrite (filter_all _ is_blank pages H).
Qed.

(** C2.  On a document with at least one content page, whatever the
    engine returns has the content pages first and all blank pages after
    them: the blank pages are the tail of the returned order, in positions
    [k, ..., N-1] where [k] is the number of content pages, and no blank
    page is among the first [k].  The engine does return on the pages that
    the feature extractor produces (a page with a section value has a
    title, every page index has an embedding). *)
Theorem hybrid_blank_pages_last (pages : list page)
        (embeddings : list embedding) :
  content_pages pages <> [] ->
  (forall out meta,
      hybrid pages embeddings = Some (out, meta) ->
      exists body,
        out = body ++ assign_from (length body) (blank_pages pages)
        /\ length body = length (content_pages pages)
        /\ Forall (fun p => is_blank p = false) body
        /\ Forall (fun p => is_blank p = true)
                  (assign_from (length body) (blank_pages pages))
        /\ map new_position out = map Some (seq 0 (length pages)))
  /\ (titled_sections pages ->
      Forall (fun p => page_index p < length embeddings) pages ->
      exists out meta, hybrid pages embeddings = Some (out, meta)).
Proof.
  intros Hc. split; [|apply hybrid_total].
  intros out meta E.
  pose proof (hybrid_positions _ _ _ pages _ _ embeddings Hc E) as [Hpos _].
  revert E Hpos. unfold order_pages_hybrid.
  destruct (content_pages pages) as [|c cs] eqn:Ec; [congruence|].
  destruct (order_content cosine_similarity pages embeddings)
    as [ordered|] eqn:Eo; [|discriminate].
  intros E Hpos. injection E as <- _.
  pose proof (order_content_spec _ _ _ _ _ Eo) as [Hperm Hp].
  rewrite Ec in Hperm.
  assert (Hlen : length ordered = length (c :: cs)).
  { rewrite <- (length_map erase_position), (Permutation_length Hperm).
    apply length_map. }
  exists (assign_positions ordered).
  unfold assign_positions in *.
  rewrite assign_from_app, assign_from_length in *.
  split; [reflexivity|]. split; [exact Hlen|].
  split; [|split; [|exact Hpos]].
  - apply blind_Forall_perm with (l' := c :: cs).
    + apply is_blank_blind.
    + now rewrite erase_assign_from.
    + rewrite <- Ec. apply Forall_forall. intros p Hp'.
      apply filter_In in Hp' as [_ Hb]. now apply negb_true_iff in Hb.
  - apply blind_Forall_perm with (l' := blank_pages pages).
    + apply is_blank_blind.
    + now rewrite erase_assign_from.
    + apply Forall_forall. intros p Hp'. now apply filter_In in Hp'.
Qed.

Lemma numbered_pages_length (pages : list page) :
  length (numbered_pages pages) = pages_with_numbers pages.
Proof. apply sorted_length. Qed.

Lemma use_page_numbers_iff (pages : list page) :
  use_page_numbers pages = true <->
  (7 # 10 <= page_number_coverage pages)%Q
  /\ (7 # 10 < sequential_score pages)%Q.
Proof.
  unfold use_page_numbers.
  now rewrite andb_true_iff, Qle_bool_iff, Qltb_lt.
Qed.

Lemma hybrid_method (pages out : list page) (meta : metadata)
      (embeddings : list embedding) :
  content_pages pages <> [] ->
  hybrid pages embeddings = Some (out, meta) ->
  dict_get "ordering_method" meta = Some (MStr (ordering_method pages)).
Proof.
  intros Hc. unfold order_pages_hybrid.
  destruct (content_pages pages); [congruence|].
  destruct (order_content _ pages embeddings); [|discriminate].
  intros H. now injection H as _ <-.
Qed.

(** C10.  With fewer than three content pages carrying a detected number
    the sequential score is 1.0 whatever the numbers are, and the engine
    orders by page numbers exactly when the coverage is at least 0.7. *)
Theorem few_numbers_sequential_score (pages : list page) :
  pages_with_numbers pages < 3 ->
  sequential_score pages = 1%Q
  /\ (use_page_numbers pages = true <->
      (7 # 10 <= page_number_coverage pages)%Q)
  /\ forall embeddings out meta,
      content_pages pages <> [] ->
      hybrid pages embeddings = Some (out, meta) ->
      (dict_get "ordering_method" meta = Some (MStr "page_numbers_primary")
       <-> (7 # 10 <= page_number_coverage pages)%Q).
Proof.
  intros H.
  assert (Hs : sequential_score pages = 1%Q).
  { unfold sequential_score. rewrite numbered_pages_length.
    destruct (2 <? pages_with_numbers pages) eqn:E; [|reflexivity].
    apply Nat.ltb_lt in E. lia. }
  assert (Hu : use_page_numbers pages = true <->
               (7 # 10 <= page_number_coverage pages)%Q).
  { rewrite use_page_numbers_iff, Hs. split; [tauto|].
    intros Hc. split; [exact Hc|reflexivity]. }
  repeat split; trivial; try apply Hu.
  - intros Hm. apply Hu.
    rewrite (hybrid_method pages out meta embeddings H0 H1) in Hm. unfold ordering_method in Hm.
    destruct (use_page_numbers pages); [reflexivity|discriminate].
  - intros Hcov. rewrite (hybrid_method pages out meta embeddings H0 H1). unfold ordering_method.
    apply Hu in Hcov. now rewrite Hcov.
Qed.

Lemma numbered_segment_sorted (content : list page) :
  in_original_order content ->
  StronglySorted by_number_then_index
    (Py.sorted Z.ltb number_of (filter high_confidence_number content)).
Proof.
  intros H.
  apply StronglySorted_impl
    with (R := stable_le Z.ltb number_of
                         (fun p q => page_index p < page_index q)).
  - intros p q [Hlt|[Hge Hidx]]; unfold by_number_then_index.
    + apply Z.ltb_lt in Hlt. now left.
    + apply Z.ltb_ge in Hge. lia.
  - apply sorted_stable; [apply Zltb_strict_weak|].
    now apply filter_StronglySorted.
Qed.

Lemma section_key_strict_weak : strict_weak section_key_ltb.
Proof.
  apply pair_ltb_strict_weak;
    [apply Zltb_strict_weak|apply Qltb_strict_weak].
Qed.

Lemma others_segment_sorted (content : list page) :
  in_original_order content ->
  StronglySorted by_section_then_index
    (Py.sorted section_key_ltb section_sort_key
               (filter (fun p => negb (high_confidence_number p)) content)).
Proof.
  intros H.
  apply StronglySorted_impl
    with (R := stable_le section_key_ltb section_sort_key
                         (fun p q => page_index p < page_index q)).
  - intros p q. unfold stable_le, by_section_then_index, section_sort_key,
                section_key_ltb, Py.pair_ltb.
    destruct (section_numeric_value p) as [v|],
             (section_numeric_value q) as [w|]; simpl.
    + intros [Hlt|[Hge Hidx]].
      * left. now apply Qltb_lt.
      * apply Qltb_ge in Hge. apply Qle_lt_or_eq in Hge. tauto.
    + trivial.
    + intros [Hlt|[Hge _]]; discriminate.
    + intros [Hlt|[_ Hidx]]; [|exact Hidx].
      apply Qltb_lt in Hlt. rewrite <- Zlt_Qlt in Hlt. lia.
  - apply sorted_stable; [apply section_key_strict_weak|].
    now apply filter_StronglySorted.
Qed.

(** C3, as amended.  With at least one content page, the engine orders by
    page numbers exactly when the coverage (the fraction of content pages
    with a detected number) is at least 0.7 and the sequential score
    exceeds 0.7.  On that path, for an input in original order, the content
    pages whose detected number has a confidence above 0.5 come first, in
    the order of their numbers and, for equal numbers, of their original
    index; all other content pages follow, those with a section value
    first in the order of that value (equal values by original index), then
    those without in the order of their original index; the blank pages
    end the list. *)
Theorem number_order_path (pages : list page) (embeddings : list embedding) :
  content_pages pages <> [] ->
  in_original_order pages ->
  (use_page_numbers pages = true <->
   (7 # 10 <= page_number_coverage pages)%Q
   /\ (7 # 10 < sequential_score pages)%Q)
  /\ (forall out meta,
         hybrid pages embeddings = Some (out, meta) ->
         (dict_get "ordering_method" meta
          = Some (MStr "page_numbers_primary")
          <-> use_page_numbers pages = true))
  /\ (use_page_numbers pages = true ->
      exists numbered others meta,
        hybrid pages embeddings
        = Some (assign_positions (numbered ++ others ++ blank_pages pages),
                meta)
        /\ Permutation numbered
                       (filter high_confidence_number (content_pages pages))
        /\ Permutation others
                       (filter (fun p => negb (high_confidence_number p))
                               (content_pages pages))
        /\ StronglySorted by_number_then_index numbered
        /\ StronglySorted by_section_then_index others).
Proof.
  intros Hc Horig. split; [apply use_page_numbers_iff|]. split.
  - intros out meta E.
    rewrite (hybrid_method pages out meta embeddings Hc E).
    unfold ordering_method.
    destruct (use_page_numbers pages); split; congruence.
  - intros Hu.
    exists (Py.sorted Z.ltb number_of
                      (filter high_confidence_number (content_pages pages))),
           (Py.sorted section_key_ltb section_sort_key
                      (filter (fun p => negb (high_confidence_number p))
                              (content_pages pages))),
           (hybrid_metadata round2 pages (ordering_method pages)).
    assert (Hcs : in_original_order (content_pages pages))
      by now apply filter_StronglySorted.
    split; [|split; [apply sorted_perm|split; [apply sorted_perm|split]]].
    + unfold order_pages_hybrid, order_content. rewrite Hu.
      destruct (content_pages pages) as [|c cs] eqn:Ec; [congruence|].
      do 2 f_equal. unfold assign_positions.
      apply assign_from_erased.
      unfold order_pages_by_page_numbers, assign_positions.
      rewrite !map_app, erase_assign_from, !map_app.
      now rewrite <- app_assoc.
    + now apply numbered_segment_sorted.
    + now apply others_segment_sorted.
Qed.

End HybridClaims.

(** ** The continuity refinement as a pass *)

Section RefinementPass.
Import Spec Ordering.
Variable embedding : Type.
Variable cosine_similarity : embedding -> embedding -> Q.

Local Abbreviation step := (continuity_step cosine_similarity).
Local Abbreviation test := (swap_test cosine_similarity).
Local Abbreviation run := (pass_from cosine_similarity).
Local Abbreviation adjacent := (adjacent_similarities cosine_similarity).

(** The loop body swaps exactly when the test holds. *)
Lemma continuity_step_test (scores : list Q)
      (st : list page * list embedding) (i : nat) :
  (test scores st i
   /\ step scores st i
      = (Py.swap_at (i + 1) (fst st), Py.swap_at (i + 1) (snd st)))
  \/ (~ test scores st i /\ step scores st i = st).
Proof.
  unfold continuity_step, swap_test, threshold. destruct st as [ps es].
  cbn [fst snd].
  destruct (nth_error scores i) as [score|] eqn:Es.
  2: { right. split; [|reflexivity]. intros (s & _ & _ & H & _). discriminate. }
  destruct (Py.Qltb score (Float.nearest (3 # 10))) eqn:E1; cbn [andb].
  2: { right. split; [|reflexivity].
       intros (s & _ & _ & H & Hs & _). injection H as <-.
       apply Qltb_lt in Hs. congruence. }
  destruct (i + 2 <? length ps) eqn:E2.
  2: { right. split; [|reflexivity].
       intros (s & _ & _ & _ & _ & H & _). apply Nat.ltb_ge in E2. lia. }
  destruct (i + 3 <? length ps) eqn:E3.
  2: { right. split; [|reflexivity].
       intros (s & _ & _ & _ & _ & H & _). apply Nat.ltb_ge in E3. lia. }
  destruct (nth_error es i) as [e|] eqn:Ee.
  2: { right. split; [|reflexivity].
       intros (s & e & _ & _ & _ & _ & H & _). discriminate. }
  destruct (nth_error es (i + 2)) as [e2|] eqn:Ee2.
  2: { right. split; [|reflexivity].
       intros (s & e' & e2 & _ & _ & _ & _ & H & _). discriminate. }
  destruct (Py.Qltb (Float.add score (Float.nearest (2 # 10)))
                    (compute_similarity cosine_similarity e e2)) eqn:E4.
  - left. split; [|reflexivity].
    exists score, e, e2. apply Qltb_lt in E1, E4. apply Nat.ltb_lt in E3.
    repeat split; trivial.
  - right. split; [|reflexivity].
    intros (s & e' & e2' & H & _ & _ & He & He2 & Hs).
    injection H as <-. injection He as <-. injection He2 as <-.
    apply Qltb_lt in Hs. congruence.
Qed.

Lemma pass_from_fold (scores : list Q) (i : nat)
      (st st' : list page * list embedding) :
  run scores i st st' ->
  st' = fold_left (step scores) (seq i (length scores - i)) st.
Proof.
  induction 1 as [i st Hi|i st st' Hi Ht _ IH|i st st' Hi Ht _ IH].
  - replace (length scores - i) with 0 by lia. reflexivity.
  - replace (length scores - i) with (S (length scores - S i)) by lia.
    simpl. destruct (continuity_step_test scores st i) as [[_ E]|[Hn _]];
      [now rewrite E|contradiction].
  - replace (length scores - i) with (S (length scores - S i)) by lia.
    simpl. destruct (continuity_step_test scores st i) as [[Hy _]|[_ E]];
      [contradiction|now rewrite E].
Qed.

Lemma fold_pass_from (scores : list Q) (k i : nat)
      (st : list page * list embedding) :
  i + k = length scores ->
  run scores i st (fold_left (step scores) (seq i k) st).
Proof.
  revert i st. induction k as [|k IH]; intros i st Hk; simpl.
  - apply pass_done. lia.
  - destruct (continuity_step_test scores st i) as [[Ht E]|[Ht E]]; rewrite E.
    + apply pass_swap; [lia|exact Ht|]. apply IH. lia.
    + apply pass_keep; [lia|exact Ht|]. apply IH. lia.
Qed.

(** The loop of [optimize_continuity] is the pass, and the pass has one
    result. *)
Lemma continuity_pass_is_pass (pages : list page)
      (embeddings : list embedding) (st' : list page * list embedding) :
  run (continuity_scores cosine_similarity embeddings) 0
      (pages, embeddings) st'
  <-> st' = continuity_pass cosine_similarity pages embeddings.
Proof.
  unfold continuity_pass. split.
  - intros H. apply pass_from_fold in H. now rewrite Nat.sub_0_r in H.
  - intros ->. now apply fold_pass_from.
Qed.

(** The list that the code computes before the loop holds the similarity
    of each adjacent pair, and no other list does. *)
Lemma continuity_scores_adjacent (es : list embedding) :
  adjacent es (continuity_scores cosine_similarity es).
Proof.
  split.
  - induction es as [|a [|b r] IH]; try reflexivity.
    change (continuity_scores cosine_similarity (a :: b :: r))
      with (compute_similarity cosine_similarity a b
            :: continuity_scores cosine_similarity (b :: r)).
    cbn [length] in *. rewrite IH. lia.
  - induction es as [|a [|b r] IH]; intros i x y Hx Hy.
    + destruct i; discriminate.
    + destruct i as [|[|i]]; discriminate.
    + change (continuity_scores cosine_similarity (a :: b :: r))
        with (compute_similarity cosine_similarity a b
              :: continuity_scores cosine_similarity (b :: r)).
      destruct i as [|i].
      * cbn in Hx, Hy. injection Hx as <-. injection Hy as <-. reflexivity.
      * cbn [nth_error] in *. now apply IH.
Qed.

Lemma adjacent_unique (es : list embedding) (scores scores' : list Q) :
  adjacent es scores -> adjacent es scores' -> scores = scores'.
Proof.
  intros [L H] [L' H']. apply nth_error_ext. intros i.
  destruct (Nat.lt_ge_cases (S i) (length es)) as [Hi|Hi].
  - destruct (nth_error es i) as [a|] eqn:Ea;
      [|apply nth_error_None in Ea; lia].
    destruct (nth_error es (S i)) as [b|] eqn:Eb;
      [|apply nth_error_None in Eb; lia].
    now rewrite (H i a b Ea Eb), (H' i a b Ea Eb).
  - transitivity (@None Q); [|symmetry]; apply nth_error_None; lia.
Qed.

(** C8, as amended.  The engine refines the order only on the
    structure-order path and only when there are more than 3 content
    pages (the pages being as the feature extractor produces them: a page
    with a section value has a title).  The refinement is one
    left-to-right pass over the adjacent pairs [(i, i+1)] whose
    similarities, all floats, are those measured before the pass: the
    pages at [i + 1] and [i + 2] are exchanged exactly when the similarity
    of the pair [(i, i+1)] is below the float 0.3, a page at index [i + 3]
    exists, and the similarity of the embeddings now at [i] and [i + 2]
    exceeds the float sum of that earlier similarity and 0.2.  The pass
    has exactly one result. *)
Theorem continuity_refinement_pass (pages : list page)
        (embeddings : list embedding) :
  let content := content_pages pages in
  let by_structure :=
    assign_positions (Py.sorted content_key_ltb content_sort_key content) in
  (use_page_numbers pages = true ->
   order_content cosine_similarity pages embeddings
   = Some (order_pages_by_page_numbers content))
  /\ (use_page_numbers pages = false -> length content <= 3 ->
      titled_sections pages ->
      order_content cosine_similarity pages embeddings = Some by_structure)
  /\ (use_page_numbers pages = false -> 3 < length content ->
      titled_sections pages ->
      Forall (fun p => page_index p < length embeddings) pages ->
      exists es scores refined es',
        embeddings_of embeddings by_structure = Some es
        /\ adjacent es scores
        /\ (forall scores', adjacent es scores' -> scores' = scores)
        /\ run scores 0 (by_structure, es) (refined, es')
        /\ (forall st, run scores 0 (by_structure, es) st ->
                       st = (refined, es'))
        /\ order_content cosine_similarity pages embeddings
           = Some (assign_positions refined)).
Proof.
  intros content by_structure. unfold order_content.
  fold content. fold by_structure.
  split; [intros ->; reflexivity|]. split.
  - intros -> H Ht. apply Nat.ltb_ge in H.
    unfold content. rewrite (listing_does_not_raise pages Ht).
    fold content. now rewrite H.
  - intros Hu H Ht Hidx.
    pose proof (order_content_total _ cosine_similarity pages embeddings
                                    Ht Hidx) as [ordered Eo].
    revert Eo. unfold order_content. fold content. fold by_structure.
    rewrite Hu. apply Nat.ltb_lt in H. rewrite H.
    unfold content. rewrite (listing_does_not_raise pages Ht). fold content.
    destruct (embeddings_of embeddings by_structure) as [es|] eqn:Ees;
      [|discriminate].
    intros _.
    exists es, (continuity_scores cosine_similarity es),
           (fst (continuity_pass cosine_similarity by_structure es)),
           (snd (continuity_pass cosine_similarity by_structure es)).
    rewrite <- surjective_pairing.
    split; [reflexivity|].
    split; [apply continuity_scores_adjacent|].
    split; [intros scores' H'; apply (adjacent_unique es); trivial;
            apply continuity_scores_adjacent|].
    split; [now apply continuity_pass_is_pass|].
    split; [intros st Hst; now apply continuity_pass_is_pass|].
    unfold optimize_continuity.
    rewrite (embeddings_of_length _ _ _ _ Ees), Nat.eqb_refl. reflexivity.
Qed.

End RefinementPass.

(** ** The ordering properties on concrete documents *)

Section OrderingExamples.
Import Spec Ordering Examples.

Local Abbreviation engine := (order_pages_hybrid no_similarity keep).

(** A document of one blank page comes back without a position. *)
Lemma hybrid_all_blank_unplaced_witness :
  content_pages [blank 0] = []
  /\ engine [blank 0] [tt]
     = Some ([blank 0], [ ("total_pages", MInt 1);
                          ("ordering_method", MStr "blank_only") ]%string)
  /\ map new_position [blank 0] = [None].
Proof.
  split; [reflexivity|]. split; [|reflexivity].
  apply (hybrid_all_blank_unplaced unit no_similarity keep [blank 0] [tt]).
  reflexivity.
Defined.

Lemma hybrid_blank_pages_last_witness :
  content_pages [blank 0; plain 1 "Introduction"] <> []
  /\ exists out meta body,
      engine [blank 0; plain 1 "Introduction"] [tt; tt] = Some (out, meta)
      /\ out = body ++ assign_from (length body)
                                   (blank_pages [blank 0; plain 1 "Introduction"])
      /\ map page_index out = [1; 0]
      /\ map is_blank out = [false; true].
Proof.
  assert (Hc : content_pages [blank 0; plain 1 "Introduction"] <> [])
    by (simpl; discriminate).
  split; [exact Hc|].
  destruct (hybrid_blank_pages_last unit no_similarity keep
              [blank 0; plain 1 "Introduction"] [tt; tt] Hc) as [Hany Hret].
  destruct Hret as (out & meta & E).
  - repeat constructor; simpl; congruence.
  - repeat constructor.
  - destruct (Hany out meta E) as (body & Hout & _).
    exists out, meta, body. split; [exact E|]. split; [exact Hout|].
    vm_compute in E. injection E as <- _. split; reflexivity.
Defined.

Lemma optimize_continuity_permutation_witness :
  length [tt; tt] = length [plain 0 "Alpha"; plain 1 "Beta"]
  /\ exists reordered,
      neighbour_swaps [plain 0 "Alpha"; plain 1 "Beta"] reordered
      /\ Permutation [plain 0 "Alpha"; plain 1 "Beta"] reordered
      /\ optimize_continuity no_similarity
                             [plain 0 "Alpha"; plain 1 "Beta"] [tt; tt]
         = assign_positions reordered
      /\ Permutation
           (map erase_position
                (optimize_continuity no_similarity
                                     [plain 0 "Alpha"; plain 1 "Beta"]
                                     [tt; tt]))
           (map erase_position [plain 0 "Alpha"; plain 1 "Beta"]).
Proof.
  split; [reflexivity|].
  apply (proj1 (optimize_continuity_permutation
                  unit no_similarity [plain 0 "Alpha"; plain 1 "Beta"] [tt; tt])).
  reflexivity.
Defined.

(** Two numbered pages 1 and 40 on a three-page document: the gap does
    not lower the score. *)
Lemma few_numbers_sequential_score_witness :
  pages_with_numbers
    [numbered 0 "Alpha" 1 1; numbered 1 "Beta" 40 1; plain 2 "Gamma"] < 3
  /\ sequential_score
       [numbered 0 "Alpha" 1 1; numbered 1 "Beta" 40 1; plain 2 "Gamma"]
     = 1%Q.
Proof.
  split; [vm_compute; lia|].
  apply (few_numbers_sequential_score unit no_similarity keep
           [numbered 0 "Alpha" 1 1; numbered 1 "Beta" 40 1; plain 2 "Gamma"]).
  vm_compute; lia.
Defined.

Lemma number_order_path_witness :
  content_pages [numbered 0 "Beta" 2 1; numbered 1 "Alpha" 1 1] <> []
  /\ in_original_order [numbered 0 "Beta" 2 1; numbered 1 "Alpha" 1 1]
  /\ use_page_numbers [numbered 0 "Beta" 2 1; numbered 1 "Alpha" 1 1] = true
  /\ exists numbered_part others meta,
      engine [numbered 0 "Beta" 2 1; numbered 1 "Alpha" 1 1] [tt; tt]
      = Some (assign_positions (numbered_part ++ others ++ []), meta)
      /\ StronglySorted by_number_then_index numbered_part
      /\ StronglySorted by_section_then_index others.
Proof.
  assert (Hc : content_pages [numbered 0 "Beta" 2 1; numbered 1 "Alpha" 1 1]
               <> []) by (simpl; discriminate).
  assert (Ho : in_original_order
                 [numbered 0 "Beta" 2 1; numbered 1 "Alpha" 1 1]).
  { repeat constructor. }
  assert (Hu : use_page_numbers [numbered 0 "Beta" 2 1; numbered 1 "Alpha" 1 1]
               = true) by reflexivity.
  split; [exact Hc|]. split; [exact Ho|]. split; [exact Hu|].
  destruct (proj2 (proj2 (number_order_path
                            unit no_similarity keep
                            [numbered 0 "Beta" 2 1; numbered 1 "Alpha" 1 1]
                            [tt; tt] Hc Ho)) Hu)
    as (numbered_part & others & meta & E & _ & _ & Hn & Hs).
  exists numbered_part, others, meta.
  split; [exact E|]. split; [exact Hn|exact Hs].
Defined.

(** C3, the claim as stated fails.  Both pages carry a detected number,
    so the coverage is 1 and the engine orders by page numbers; the number
    of the first page has confidence 0.5 only, the page is treated as
    un-numbered and placed after the page numbered 2. *)
Lemma number_order_ignores_low_confidence :
  let pages := [numbered 0 "Alpha" 1 (5 # 10); numbered 1 "Beta" 2 1] in
  in_original_order pages
  /\ use_page_numbers pages = true
  /\ Forall (fun p => has_number p = true) pages
  /\ exists out meta,
      engine pages [tt; tt] = Some (out, meta)
      /\ map page_index out = [1; 0]
      /\ ~ detected_number_order out.
Proof.
  cbv zeta. split; [repeat constructor|]. split; [reflexivity|].
  split; [repeat constructor|].
  eexists. eexists. split; [reflexivity|]. split; [reflexivity|].
  intros H. apply StronglySorted_inv in H as [_ H].
  inversion H as [|? ? H1 _]; subst.
  destruct (H1 eq_refl) as [_ [Hlt|[Heq _]]];
    [cbv in Hlt|cbv in Heq]; discriminate.
Defined.

(** Four content pages whose first two are dissimilar: the pass exchanges
    the second and the third page. *)
Lemma continuity_refinement_pass_witness :
  use_page_numbers four_pages = false
  /\ 3 < length (content_pages four_pages)
  /\ titled_sections four_pages
  /\ Forall (fun p => page_index p < length [0; 1; 2; 3]) four_pages
  /\ exists scores refined es',
      adjacent_similarities gap_between_0_and_1 [0; 1; 2; 3] scores
      /\ map Qred scores
         = [0; 8106479329266893 # 9007199254740992;
            8106479329266893 # 9007199254740992]%Q
      /\ swap_test gap_between_0_and_1 scores
                   (assign_positions four_pages, [0; 1; 2; 3]) 0
      /\ pass_from gap_between_0_and_1 scores 0
                   (assign_positions four_pages, [0; 1; 2; 3]) (refined, es')
      /\ map page_index refined = [0; 2; 1; 3]
      /\ es' = [0; 2; 1; 3]
      /\ order_content gap_between_0_and_1 four_pages [0; 1; 2; 3]
         = Some (assign_positions refined).
Proof.
  assert (Hu : use_page_numbers four_pages = false) by reflexivity.
  assert (Hn : 3 < length (content_pages four_pages)) by (simpl; lia).
  assert (Hi : Forall (fun p => page_index p < length [0; 1; 2; 3]) four_pages).
  { unfold four_pages. repeat constructor. }
  assert (Ht : titled_sections four_pages).
  { unfold four_pages. repeat constructor; simpl; congruence. }
  split; [exact Hu|]. split; [exact Hn|]. split; [exact Ht|].
  split; [exact Hi|].
  destruct (proj2 (proj2 (continuity_refinement_pass
                            nat gap_between_0_and_1 four_pages [0; 1; 2; 3]))
                  Hu Hn Ht Hi)
    as (es & scores & refined & es' & H1 & H2 & H3 & H4 & H5 & H6).
  vm_compute in H1. injection H1 as <-.
  assert (Es : continuity_scores gap_between_0_and_1 [0; 1; 2; 3] = scores).
  { apply H3. apply continuity_scores_adjacent. }
  assert (Ep : continuity_pass gap_between_0_and_1
                               (assign_positions four_pages) [0; 1; 2; 3]
               = (refined, es')).
  { apply H5. rewrite <- Es. now apply continuity_pass_is_pass. }
  exists scores, refined, es'.
  split; [exact H2|].
  split; [rewrite <- Es; vm_compute; reflexivity|].
  split.
  { rewrite <- Es. exists 0%Q, 0, 2.
    split; [reflexivity|]. split; [vm_compute; reflexivity|].
    split; [simpl; lia|]. split; [reflexivity|]. split; [reflexivity|].
    vm_compute. reflexivity. }
  split; [exact H4|].
  assert (Ec : map page_index
                   (fst (continuity_pass gap_between_0_and_1
                           (assign_positions four_pages) [0; 1; 2; 3]))
               = [0; 2; 1; 3]
               /\ snd (continuity_pass gap_between_0_and_1
                         (assign_positions four_pages) [0; 1; 2; 3])
                  = [0; 2; 1; 3]) by (vm_compute; split; reflexivity).
  rewrite Ep in Ec. cbn [fst snd] in Ec.
  split; [exact (proj1 Ec)|]. split; [exact (proj2 Ec)|exact H6].
Defined.

(** The comparison is with the float that the literal 0.3 denotes: a
    first pair whose similarity is that float, which is below the
    rational 3/10, is left alone, whatever the gain. *)
Example refinement_compares_with_the_float :
  (compute_similarity at_threshold 0%nat 1%nat < 3 # 10)%Q
  /\ (compute_similarity at_threshold 0%nat 1%nat == threshold)%Q
  /\ (Float.add (compute_similarity at_threshold 0%nat 1%nat) (Float.nearest (2 # 10))
      < compute_similarity at_threshold 0%nat 2%nat)%Q
  /\ optimize_continuity at_threshold four_pages [0; 1; 2; 3]
     = assign_positions four_pages.
Proof.
  split; [vm_compute; reflexivity|]. split; [vm_compute; reflexivity|].
  split; [vm_compute; reflexivity|]. vm_compute. reflexivity.
Qed.

(** C8, the claim as stated fails.  On four content pages without page
    numbers the pair (1, 2) has similarity 0, below 0.3, and exchanging
    the next two pages, 2 and 3, would raise it to 0.9; the pass leaves them
    in place because no page follows them. *)
Lemma continuity_refinement_skips_last_pair :
  continuity_scores gap_between_1_and_2 [0; 1; 2; 3]
  = [compute_similarity gap_between_1_and_2 0 1;
     compute_similarity gap_between_1_and_2 1 2;
     compute_similarity gap_between_1_and_2 2 3]
  /\ (compute_similarity gap_between_1_and_2 1%nat 2%nat < threshold)%Q
  /\ (Float.add (compute_similarity gap_between_1_and_2 1%nat 2%nat)
                (Float.nearest (2 # 10))
      < compute_similarity gap_between_1_and_2 1%nat 3%nat)%Q
  /\ optimize_continuity gap_between_1_and_2 four_pages [0; 1; 2; 3]
     = assign_positions four_pages
  /\ exists meta,
      order_pages_hybrid gap_between_1_and_2 keep four_pages [0; 1; 2; 3]
      = Some (assign_positions four_pages, meta)
      /\ dict_get "ordering_method" meta
         = Some (MStr "section_numbers_primary").
Proof.
  split; [reflexivity|].
  split; [vm_compute; reflexivity|]. split; [vm_compute; reflexivity|].
  split; [vm_compute; reflexivity|].
  eexists. split; vm_compute; reflexivity.
Defined.

End OrderingExamples.

(** ** The external ordering adapter (modules/llm_ordering.py, processor.py) *)

Section Adapter.
Import Spec LlmOrdering.

Lemma input_indices_NoDup (n : nat) : NoDup (input_indices n).
Proof.
  unfold input_indices. apply Finite.Injective_map_NoDup.
  - intros a b H. lia.
  - apply seq_NoDup.
Qed.

Lemma existsb_Zeqb (x : Z) (l : list Z) :
  existsb (Z.eqb x) l = true <-> In x l.
Proof.
  rewrite existsb_exists. split.
  - intros [y [Hy E]]. apply Z.eqb_eq in E. now subst.
  - intros H. exists x. split; [exact H|apply Z.eqb_refl].
Qed.

Lemma same_index_set_incl (order : list Z) (n : nat) :
  same_index_set order n = true <->
  incl order (input_indices n) /\ incl (input_indices n) order.
Proof.
  unfold same_index_set. fold (input_indices n).
  rewrite andb_true_iff, !forallb_forall. unfold incl.
  split; intros [H1 H2]; split; intros x Hx.
  - apply existsb_Zeqb. now apply H1.
  - apply existsb_Zeqb. now apply H2.
  - apply existsb_Zeqb. now apply H1.
  - apply existsb_Zeqb. now apply H2.
Qed.

(** The two checks of the source accept exactly the permutations of the
    input indices. *)
Lemma validation_accepts_permutations (order : list Z) (n : nat) :
  (length order =? n) && same_index_set order n = true <->
  Permutation order (input_indices n).
Proof.
  rewrite andb_true_iff, Nat.eqb_eq, same_index_set_incl. split.
  - intros [Hlen [_ Hincl]]. symmetry.
    apply NoDup_Permutation_bis; [apply input_indices_NoDup| |exact Hincl].
    unfold input_indices. rewrite length_map, length_seq. lia.
  - intros HP. split.
    + rewrite (Permutation_length HP).
      unfold input_indices. now rewrite length_map, length_seq.
    + split; intros x Hx.
      * now apply (Permutation_in x HP).
      * now apply (Permutation_in x (Permutation_sym HP)).
Qed.

Lemma validate_rejects (pages : list page) (result : response) :
  ~ valid_answer pages (Parsed result) ->
  exists message, validate_and_reorder pages result = (inl message, pages).
Proof.
  intros Hinv. unfold validate_and_reorder.
  destruct (correct_order result) as [order|] eqn:Eo; [|now eexists].
  destruct (length order =? length pages) eqn:El; simpl; [|now eexists].
  destruct (same_index_set order (length pages)) eqn:Es; simpl;
    [|now eexists].
  exfalso. apply Hinv. exists result, order. repeat split; trivial.
  apply validation_accepts_permutations. now rewrite El, Es.
Qed.

(** An answer that is not usable is rejected before any page is
    touched. *)
Lemma call_rejects (gemini_available configured : bool) (answer : reply)
      (pages : list page) (api_key : option string) :
  ~ valid_answer pages answer ->
  exists reason,
    call_gemini gemini_available configured answer pages api_key
    = ((None, error reason), pages).
Proof.
  intros Hinv. unfold call_gemini.
  destruct (negb gemini_available); [now eexists|].
  destruct (match api_key with Some _ => _ | None => _ end); [now eexists|].
  destruct (existsb _ pages); [now eexists|].
  destruct answer as [message| |result]; try now eexists.
  destruct (validate_rejects pages result Hinv) as [message ->].
  now eexists.
Qed.

Lemma gemini_rejects (gemini_available configured : bool) (answer : reply)
      (pages : list page) (api_key : option string) :
  ~ valid_answer pages answer ->
  (exists reason,
      order_pages_with_gemini gemini_available configured answer pages
                              api_key
      = (None, error reason))
  /\ pages_after_gemini gemini_available configured answer pages api_key
     = pages.
Proof.
  intros Hinv. unfold order_pages_with_gemini, pages_after_gemini.
  destruct (call_rejects gemini_available configured answer pages api_key
                         Hinv) as [reason ->].
  split; [now exists reason|reflexivity].
Qed.

Variable embedding : Type.
Variable cosine_similarity : embedding -> embedding -> Q.
Variable round2 : Q -> Q.

(** C4.  When the adapter's answer has no [correct_order], or an order
    that is not a permutation of exactly the input page indices (or did not
    parse at all), [order_pages_with_gemini] returns no pages and a
    metadata dictionary [{"error": reason}]; step 7 of the pipeline then
    returns what the hybrid engine returns on the same pages, and it
    returns a result on the pages that the feature extractor produces (a
    page with a section value has a title, every page index has an
    embedding). *)
Theorem adapter_failure_falls_back
        (use_gemini gemini_available configured : bool)
        (gemini_api_key : option string) (answer : reply)
        (pages : list page) (embeddings : list embedding) :
  ~ valid_answer pages answer ->
  (exists reason,
      order_pages_with_gemini gemini_available configured answer pages
                              gemini_api_key
      = (None, [("error"%string, MStr reason)]))
  /\ Processor.reorder_pages cosine_similarity round2
                             use_gemini gemini_available configured
                             gemini_api_key answer pages embeddings
     = Ordering.order_pages_hybrid cosine_similarity round2 pages embeddings
  /\ (titled_sections pages ->
      Forall (fun p => page_index p < length embeddings) pages ->
      exists out meta,
        Processor.reorder_pages cosine_similarity round2
                                use_gemini gemini_available configured
                                gemini_api_key answer pages embeddings
        = Some (out, meta)).
Proof.
  intros Hinv.
  destruct (gemini_rejects gemini_available configured answer pages
                           gemini_api_key Hinv) as [[reason E] Ep].
  assert (Hfb : Processor.reorder_pages cosine_similarity round2
                  use_gemini gemini_available configured
                  gemini_api_key answer pages embeddings
                = Ordering.order_pages_hybrid cosine_similarity round2
                                              pages embeddings).
  { unfold Processor.reorder_pages. rewrite E, Ep.
    now destruct (_ && _). }
  split; [now exists reason|]. split; [exact Hfb|].
  intros Ht Hidx. rewrite Hfb. now apply hybrid_total.
Qed.

End Adapter.

Section AdapterExamples.
Import Spec LlmOrdering Examples.

Lemma short_answer_invalid :
  ~ valid_answer [plain 0 "Alpha"; plain 1 "Beta"] short_answer.
Proof.
  intros (result & order & E & Eo & HP).
  injection E as <-. injection Eo as <-.
  apply Permutation_length in HP. discriminate.
Qed.

Lemma adapter_failure_falls_back_witness :
  (exists reason,
      order_pages_with_gemini true true short_answer
                              [plain 0 "Alpha"; plain 1 "Beta"] (Some "key"%string)
      = (None, [("error"%string, MStr reason)]))
  /\ Processor.reorder_pages no_similarity keep true true true
                             (Some "key"%string) short_answer
                             [plain 0 "Alpha"; plain 1 "Beta"] [tt; tt]
     = Ordering.order_pages_hybrid no_similarity keep
                                   [plain 0 "Alpha"; plain 1 "Beta"] [tt; tt].
Proof.
  destruct (adapter_failure_falls_back
              unit no_similarity keep true true true (Some "key"%string)
              short_answer [plain 0 "Alpha"; plain 1 "Beta"] [tt; tt]
              short_answer_invalid) as (H1 & H2 & _).
  split; [exact H1|exact H2].
Defined.

(** The reasons recorded for a short order, a repeated index and a
    missing field. *)
Example adapter_error_reasons :
  order_pages_with_gemini true true short_answer
                          [plain 0 "Alpha"; plain 1 "Beta"] (Some "key"%string)
  = (None, error "Order has 1 pages but document has 2")
  /\ order_pages_with_gemini true true repeating_answer
                             [plain 0 "Alpha"; plain 1 "Beta"] (Some "key"%string)
     = (None, error "Invalid page indices in order")
  /\ order_pages_with_gemini true true orderless_answer
                             [plain 0 "Alpha"; plain 1 "Beta"] (Some "key"%string)
     = (None, error "Response missing 'correct_order' field").
Proof. repeat split. Qed.

End AdapterExamples.

(** ** Section numbers (modules/headings.py) *)

Section SectionOrder.
Import Spec Str Headings.
Local Open Scope Z_scope.

Lemma compare_parts_nil_nil : compare_parts [] [] = 0.
Proof. reflexivity. Qed.

Lemma compare_parts_nil_cons (b : Z) (r : list Z) :
  compare_parts [] (b :: r) = -1.
Proof. reflexivity. Qed.

Lemma compare_parts_cons_nil (a : Z) (r : list Z) :
  compare_parts (a :: r) [] = 1.
Proof. reflexivity. Qed.

Lemma compare_parts_cons (a b : Z) (r1 r2 : list Z) :
  compare_parts (a :: r1) (b :: r2)
  = if a <? b then -1 else if b <? a then 1 else compare_parts r1 r2.
Proof.
  unfold compare_parts. simpl.
  destruct (a <? b); [reflexivity|]. destruct (b <? a); [reflexivity|].
  destruct (compare_common r1 r2); reflexivity.
Qed.

Lemma compare_parts_range (p q : list Z) :
  compare_parts p q = -1 \/ compare_parts p q = 0 \/ compare_parts p q = 1.
Proof.
  revert q. induction p as [|a r1 IH]; intros [|b r2].
  - now right; left.
  - now left.
  - now right; right.
  - rewrite compare_parts_cons.
    destruct (a <? b); [now left|].
    destruct (b <? a); [now right; right|apply IH].
Qed.

Lemma compare_parts_eq (p q : list Z) : compare_parts p q = 0 <-> p = q.
Proof.
  revert q. induction p as [|a r1 IH]; intros [|b r2].
  - split; reflexivity.
  - rewrite compare_parts_nil_cons. split; discriminate.
  - rewrite compare_parts_cons_nil. split; discriminate.
  - rewrite compare_parts_cons.
    destruct (a <? b) eqn:E1.
    { apply Z.ltb_lt in E1. split; [discriminate|].
      intros H. injection H as -> _. lia. }
    destruct (b <? a) eqn:E2.
    { apply Z.ltb_lt in E2. split; [discriminate|].
      intros H. injection H as -> _. lia. }
    apply Z.ltb_ge in E1, E2. rewrite IH. split.
    + intros ->. f_equal. lia.
    + intros H. now injection H.
Qed.

Lemma compare_parts_flip (p q : list Z) :
  compare_parts p q = -1 <-> compare_parts q p = 1.
Proof.
  revert q. induction p as [|a r1 IH]; intros [|b r2].
  - split; discriminate.
  - split; reflexivity.
  - split; discriminate.
  - rewrite !compare_parts_cons.
    destruct (a <? b) eqn:E1; destruct (b <? a) eqn:E2.
    + apply Z.ltb_lt in E1, E2. lia.
    + split; reflexivity.
    + split; discriminate.
    + apply IH.
Qed.

Lemma compare_parts_trans (p q r : list Z) :
  compare_parts p q = -1 -> compare_parts q r = -1 ->
  compare_parts p r = -1.
Proof.
  revert q r. induction p as [|a p IH]; intros [|b q] [|c r];
    rewrite ?compare_parts_nil_cons, ?compare_parts_cons_nil,
            ?compare_parts_nil_nil;
    try discriminate; try reflexivity.
  rewrite !compare_parts_cons.
  destruct (a <? b) eqn:Eab, (b <? a) eqn:Eba, (b <? c) eqn:Ebc,
           (c <? b) eqn:Ecb, (a <? c) eqn:Eac, (c <? a) eqn:Eca;
    rewrite ?Z.ltb_lt, ?Z.ltb_ge in *;
    try discriminate; try reflexivity; try lia.
  apply IH.
Qed.

Lemma section_parts_nonempty (s : string) (parts : list Z) :
  section_parts s = Some parts -> s <> EmptyString.
Proof. intros H ->. discriminate. Qed.

Lemma compare_section_numbers_parts (a b : string) (pa pb : list Z) :
  section_parts a = Some pa -> section_parts b = Some pb ->
  compare_section_numbers a b = Some (compare_parts pa pb).
Proof.
  intros Ha Hb. unfold compare_section_numbers.
  pose proof (section_parts_nonempty a pa Ha).
  pose proof (section_parts_nonempty b pb Hb).
  destruct a; [congruence|]. destruct b; [congruence|].
  now rewrite Ha, Hb.
Qed.

End SectionOrder.

(** ** The numeric encoding of a section number *)

Section Encoding.
Import Spec Str Headings.
Local Open Scope Q_scope.

(** the rounding errors of a sum below [2^20] and of a quotient below 1 *)
Local Abbreviation err_sum := (1 # 17179869184).
Local Abbreviation err_quotient := (1 # 18014398509481984).

Lemma nearest_error_sum (x : Q) :
  0 <= x -> x < 1048576 ->
  x - err_sum <= Float.nearest x /\ Float.nearest x <= x + err_sum.
Proof.
  intros H0 H1.
  assert (E20 : Float.pow2 20 == 1048576) by reflexivity.
  assert (E34 : Float.pow2 (20 - 54) == err_sum) by reflexivity.
  rewrite <- E20 in H1.
  destruct (nearest_error x 20 H0 H1) as [A B]; [lia|].
  rewrite E34 in A, B. now split.
Qed.

Lemma nearest_error_quotient (x : Q) :
  0 <= x -> x < 1 ->
  x - err_quotient <= Float.nearest x
  /\ Float.nearest x <= x + err_quotient.
Proof.
  intros H0 H1.
  assert (E0 : Float.pow2 0 == 1) by reflexivity.
  assert (E54 : Float.pow2 (0 - 54) == err_quotient) by reflexivity.
  rewrite <- E0 in H1.
  destruct (nearest_error x 0 H0 H1) as [A B]; [lia|].
  rewrite E54 in A, B. now split.
Qed.

Lemma quotient_bounds (a W : Z) :
  (0 <= a <= 999)%Z -> (1000 <= W)%Z ->
  0 <= inject_Z a / inject_Z W /\ inject_Z a / inject_Z W <= 999 # 1000.
Proof.
  intros [A0 A1] HW.
  assert (Wpos : 0 < inject_Z W)
    by (change 0 with (inject_Z 0); rewrite <- Zlt_Qlt; lia).
  split.
  - apply Qle_shift_div_l; [exact Wpos|]. rewrite Qmult_0_l.
    change 0 with (inject_Z 0). now rewrite <- Zle_Qle.
  - apply Qle_shift_div_r; [exact Wpos|].
    setoid_replace ((999 # 1000) * inject_Z W)
      with (inject_Z (999 * W) / 1000)
      by (rewrite inject_Z_mult; field).
    apply Qle_shift_div_l; [reflexivity|].
    change 1000 with (inject_Z 1000).
    rewrite <- inject_Z_mult, <- Zle_Qle. lia.
Qed.

(** One level: the float that [numeric_val += part / (1000 ** i)] leaves
    is within two roundings of a sum and two of a quotient of what the
    exact sum would be. *)
Lemma level_step (x xe eta : Q) (a W : Z) :
  0 <= x -> 0 <= xe -> xe <= 1000003 ->
  xe - eta <= x -> x <= xe + eta -> eta <= 1 ->
  (0 <= a <= 999)%Z -> (1000 <= W)%Z ->
  0 <= Float.add x (Float.div a W)
  /\ xe + inject_Z a / inject_Z W
     - (eta + 2 * err_sum + 2 * err_quotient)
     <= Float.add x (Float.div a W)
  /\ Float.add x (Float.div a W)
     <= xe + inject_Z a / inject_Z W
        + (eta + 2 * err_sum + 2 * err_quotient).
Proof.
  intros X0 Xe0 Xe1 L U Heta Ha HW.
  destruct (quotient_bounds a W Ha HW) as [Q0 Q1].
  unfold Float.add, Float.div.
  set (q := inject_Z a / inject_Z W) in *.
  destruct (nearest_error_quotient q Q0) as [D1 D2]; [lra|].
  pose proof (nearest_nonneg q Q0) as D0.
  set (d := Float.nearest q) in *.
  destruct (nearest_error_sum x X0) as [N1 N2]; [lra|].
  pose proof (nearest_nonneg x X0) as N0.
  set (x' := Float.nearest x) in *.
  destruct (nearest_error_quotient d D0) as [E1 E2]; [lra|].
  pose proof (nearest_nonneg d D0) as E0.
  set (d' := Float.nearest d) in *.
  assert (S0 : 0 <= x' + d') by lra.
  destruct (nearest_error_sum (x' + d') S0) as [F1 F2]; [lra|].
  pose proof (nearest_nonneg (x' + d') S0) as F0.
  set (s := Float.nearest (x' + d')) in *.
  split; [exact F0|]. split; lra.
Qed.

Lemma Forall_three (A : Type) (P : A -> Prop) (a b c : A) :
  Forall P [a; b; c] -> P a /\ P b /\ P c.
Proof.
  intros H. inversion H as [|? ? Ha H']; subst.
  inversion H' as [|? ? Hb H'']; subst.
  inversion H'' as [|? ? Hc _]; subst. now repeat split.
Qed.

(** The value returned for at most three levels below a main number of at
    most a million is within [4 * 10^-10] of the exact sum. *)
Lemma hierarchical_value_error (parts : list Z) :
  levels_bounded parts -> (length parts <= 4)%nat ->
  0 <= hierarchical_value parts
  /\ exact_value parts - (4 # 10000000000) <= hierarchical_value parts
  /\ hierarchical_value parts <= exact_value parts + (4 # 10000000000).
Proof.
  destruct parts as [|m sub]; [contradiction|].
  intros (Hm & Hsub & _) Hlen.
  assert (M0 : 0 <= inject_Z m)
    by (change 0 with (inject_Z 0); rewrite <- Zle_Qle; lia).
  assert (M1 : inject_Z m <= 1000000)
    by (change 1000000 with (inject_Z 1000000); rewrite <- Zle_Qle; lia).
  assert (W1 : (1000 <= 1000 ^ Z.of_nat 1)%Z) by (vm_compute; discriminate).
  assert (W2 : (1000 <= 1000 ^ Z.of_nat 2)%Z) by (vm_compute; discriminate).
  assert (W3 : (1000 <= 1000 ^ Z.of_nat 3)%Z) by (vm_compute; discriminate).
  unfold hierarchical_value, exact_value.
  set (x0 := inject_Z m) in *.
  destruct sub as [|a [|b [|c [|d r]]]]; cbn [length] in Hlen; [| | | |lia].
  - cbn [add_levels level_sum]. split; [exact M0|]. split; lra.
  - cbn [add_levels level_sum].
    inversion Hsub as [|? ? Ha _]; subst.
    destruct (level_step x0 x0 0 a (1000 ^ Z.of_nat 1))
      as (P0 & P1 & P2);
      [lra|lra|lra|lra|lra|lra|exact Ha|exact W1|].
    set (qa := inject_Z a / inject_Z (1000 ^ Z.of_nat 1)) in *.
    set (x1 := Float.add x0 (Float.div a (1000 ^ Z.of_nat 1))) in *.
    split; [exact P0|]. split; lra.
  - cbn [add_levels level_sum].
    inversion Hsub as [|? ? Ha Hsub']; subst.
    inversion Hsub' as [|? ? Hb _]; subst.
    destruct (quotient_bounds a (1000 ^ Z.of_nat 1) Ha W1) as [A0 A1].
    destruct (level_step x0 x0 0 a (1000 ^ Z.of_nat 1))
      as (P0 & P1 & P2);
      [lra|lra|lra|lra|lra|lra|exact Ha|exact W1|].
    set (qa := inject_Z a / inject_Z (1000 ^ Z.of_nat 1)) in *.
    set (x1 := Float.add x0 (Float.div a (1000 ^ Z.of_nat 1))) in *.
    destruct (level_step x1 (x0 + qa)
                         (0 + 2 * err_sum + 2 * err_quotient)
                         b (1000 ^ Z.of_nat 2))
      as (R0 & R1 & R2);
      [lra|lra|lra|lra|lra|lra|exact Hb|exact W2|].
    set (qb := inject_Z b / inject_Z (1000 ^ Z.of_nat 2)) in *.
    set (x2 := Float.add x1 (Float.div b (1000 ^ Z.of_nat 2))) in *.
    split; [exact R0|]. split; lra.
  - cbn [add_levels level_sum].
    apply Forall_three in Hsub as (Ha & Hb & Hc).
    destruct (quotient_bounds a (1000 ^ Z.of_nat 1) Ha W1) as [A0 A1].
    destruct (quotient_bounds b (1000 ^ Z.of_nat 2) Hb W2) as [B0 B1].
    destruct (level_step x0 x0 0 a (1000 ^ Z.of_nat 1))
      as (P0 & P1 & P2);
      [lra|lra|lra|lra|lra|lra|exact Ha|exact W1|].
    set (qa := inject_Z a / inject_Z (1000 ^ Z.of_nat 1)) in *.
    set (x1 := Float.add x0 (Float.div a (1000 ^ Z.of_nat 1))) in *.
    destruct (level_step x1 (x0 + qa)
                         (0 + 2 * err_sum + 2 * err_quotient)
                         b (1000 ^ Z.of_nat 2))
      as (R0 & R1 & R2);
      [lra|lra|lra|lra|lra|lra|exact Hb|exact W2|].
    set (qb := inject_Z b / inject_Z (1000 ^ Z.of_nat 2)) in *.
    set (x2 := Float.add x1 (Float.div b (1000 ^ Z.of_nat 2))) in *.
    destruct (level_step x2 (x0 + qa + qb)
                         (0 + 2 * err_sum + 2 * err_quotient
                          + 2 * err_sum + 2 * err_quotient)
                         c (1000 ^ Z.of_nat 3))
      as (S0 & S1 & S2);
      [lra|lra|lra|lra|lra|lra|exact Hc|exact W3|].
    set (qc := inject_Z c / inject_Z (1000 ^ Z.of_nat 3)) in *.
    set (x3 := Float.add x2 (Float.div c (1000 ^ Z.of_nat 3))) in *.
    split; [exact S0|]. split; lra.
Qed.

(** The exact sum in units of [10^-9]. *)
Lemma exact_value_code (m : Z) (sub : list Z) :
  (length sub <= 3)%nat ->
  exact_value (m :: sub)
  == inject_Z (m * 1000000000 + level_code 3 sub) / 1000000000.
Proof.
  intros Hlen. unfold exact_value.
  destruct sub as [|a [|b [|c [|d r]]]]; cbn [length] in Hlen; [| | | |lia];
    cbn [level_sum level_code];
    change (1000 ^ Z.of_nat 0)%Z with 1%Z;
    change (1000 ^ Z.of_nat 1)%Z with 1000%Z;
    change (1000 ^ Z.of_nat 2)%Z with 1000000%Z;
    change (1000 ^ Z.of_nat 3)%Z with 1000000000%Z;
    rewrite ?inject_Z_plus, ?inject_Z_mult;
    change (inject_Z 1) with 1; change (inject_Z 1000) with 1000;
    change (inject_Z 1000000) with 1000000;
    change (inject_Z 1000000000) with 1000000000; field.
Qed.

End Encoding.

Section EncodingOrder.
Import Spec Str Headings.
Local Open Scope Z_scope.

(** the parts with their comparison unfolded level by level *)
Ltac compare_levels :=
  repeat first
    [ rewrite compare_parts_nil_nil in *
    | rewrite compare_parts_nil_cons in *
    | rewrite compare_parts_cons_nil in *
    | rewrite compare_parts_cons in * ];
  repeat match goal with
         | H : context [if ?a <? ?b then _ else _] |- _ =>
             let E := fresh "E" in
             destruct (a <? b) eqn:E;
             [apply Z.ltb_lt in E|apply Z.ltb_ge in E]
         end.

(** On bounded levels the comparison of the parts is the comparison of
    the exact sums in units of [10^-9]. *)
Lemma code_compare (m1 m2 : Z) (s1 s2 : list Z) :
  levels_bounded (m1 :: s1) -> levels_bounded (m2 :: s2) ->
  (length s1 <= 3)%nat -> (length s2 <= 3)%nat ->
  compare_parts (m1 :: s1) (m2 :: s2) = -1 ->
  m1 * 1000000000 + level_code 3 s1 < m2 * 1000000000 + level_code 3 s2.
Proof.
  intros (M1 & B1 & L1) (M2 & B2 & L2) H1 H2 Hc.
  destruct s1 as [|a1 [|b1 [|c1 [|d1 r1]]]]; cbn [length] in H1;
    try lia;
    destruct s2 as [|a2 [|b2 [|c2 [|d2 r2]]]]; cbn [length] in H2;
    try lia;
    cbn [level_code last] in *;
    change (1000 ^ Z.of_nat 0) with 1;
    change (1000 ^ Z.of_nat 1) with 1000;
    change (1000 ^ Z.of_nat 2) with 1000000;
    repeat match goal with
           | H : Forall _ (_ :: _) |- _ =>
               let Ha := fresh "Ha" in
               let Hr := fresh "Hr" in
               inversion H as [|? ? Ha Hr]; subst; clear H
           | H : Forall _ [] |- _ => clear H
           end;
    compare_levels; try discriminate; lia.
Qed.

End EncodingOrder.

Section EncodingAgreement.
Import Spec Str Headings.
Local Open Scope Q_scope.

(** Two numbers of which the first is below the second are told apart
    by their exact sums, which differ by [10^-9] at least. *)
Lemma exact_gap (p q : list Z) :
  levels_bounded p -> levels_bounded q ->
  (length p <= 4)%nat -> (length q <= 4)%nat ->
  compare_parts p q = (-1)%Z ->
  exact_value p + (1 # 1000000000) <= exact_value q.
Proof.
  destruct p as [|m1 s1]; [contradiction|].
  destruct q as [|m2 s2]; [intros _ []|].
  intros B1 B2 H1 H2 Hc. cbn [length] in H1, H2.
  rewrite (exact_value_code m1 s1), (exact_value_code m2 s2) by lia.
  pose proof (code_compare m1 m2 s1 s2 B1 B2) as Hlt.
  assert (Hz : (m1 * 1000000000 + level_code 3 s1 + 1
                <= m2 * 1000000000 + level_code 3 s2)%Z)
    by (assert (H := Hlt ltac:(lia) ltac:(lia) Hc); lia).
  rewrite Zle_Qle, inject_Z_plus in Hz. change (inject_Z 1) with 1 in Hz.
  set (c1 := inject_Z (m1 * 1000000000 + level_code 3 s1)) in *.
  set (c2 := inject_Z (m2 * 1000000000 + level_code 3 s2)) in *.
  assert (E1 : 1000000000 * (c1 / 1000000000) == c1) by field.
  assert (E2 : 1000000000 * (c2 / 1000000000) == c2) by field.
  set (y1 := c1 / 1000000000) in *. set (y2 := c2 / 1000000000) in *.
  lra.
Qed.

(** On bounded levels the comparison of the parts decides the
    comparison of the returned values. *)
Lemma parts_compare (p q : list Z) :
  levels_bounded p -> levels_bounded q ->
  (length p <= 4)%nat -> (length q <= 4)%nat ->
  (compare_parts p q = (-1)%Z -> hierarchical_value p < hierarchical_value q)
  /\ (compare_parts p q = 0%Z -> hierarchical_value p == hierarchical_value q)
  /\ (compare_parts p q = 1%Z -> hierarchical_value q < hierarchical_value p).
Proof.
  intros Bp Bq Lp Lq.
  destruct (hierarchical_value_error p Bp Lp) as (_ & P1 & P2).
  destruct (hierarchical_value_error q Bq Lq) as (_ & Q1 & Q2).
  split; [|split]; intros Hc.
  - pose proof (exact_gap p q Bp Bq Lp Lq Hc). lra.
  - apply compare_parts_eq in Hc. subst q. reflexivity.
  - apply compare_parts_flip in Hc.
    pose proof (exact_gap q p Bq Bp Lq Lp Hc). lra.
Qed.

(** The comparison of the parts and the order of the values agree, in
    both directions. *)
Lemma parts_compare_iff (p q : list Z) :
  levels_bounded p -> levels_bounded q ->
  (length p <= 4)%nat -> (length q <= 4)%nat ->
  (compare_parts p q = (-1)%Z <-> hierarchical_value p < hierarchical_value q)
  /\ (compare_parts p q = 0%Z <-> hierarchical_value p == hierarchical_value q)
  /\ (compare_parts p q = 1%Z <-> hierarchical_value q < hierarchical_value p).
Proof.
  intros Bp Bq Lp Lq.
  destruct (parts_compare p q Bp Bq Lp Lq) as (I1 & I2 & I3).
  destruct (compare_parts_range p q) as [E|[E|E]]; rewrite E in *.
  - specialize (I1 eq_refl).
    split; [tauto|]. split; (split; [discriminate|]); intros H; exfalso; lra.
  - specialize (I2 eq_refl).
    split; [|split; [tauto|]]; (split; [discriminate|]);
      intros H; exfalso; lra.
  - specialize (I3 eq_refl).
    split; [|split; [|tauto]]; (split; [discriminate|]);
      intros H; exfalso; lra.
Qed.

End EncodingAgreement.

(** ** What the numeric-hierarchy patterns match *)

Section NumericHeadings.
Import Spec Str Headings.

Local Abbreviation digits ds := (forallb is_digit ds = true).

Lemma span_digits (l ds rest : list ascii) :
  span is_digit l = (ds, rest) -> digits ds.
Proof.
  revert ds rest. induction l as [|c r IH]; simpl; intros ds rest H.
  - now injection H as <- _.
  - destruct (is_digit c) eqn:Ec.
    + destruct (span is_digit r) as [run rest'].
      injection H as <- _. simpl. rewrite Ec. now apply (IH run rest').
    + now injection H as <- _.
Qed.

Lemma dot_groups_shape (k : nat) (l more rest : list ascii) :
  dot_groups k l = (more, rest) -> dot_digit_groups more.
Proof.
  revert l more rest. induction k as [|k IH]; simpl; intros l more rest H.
  - injection H as <- _. constructor.
  - destruct l as [|c r]; [injection H as <- _; constructor|].
    destruct (Ascii.eqb c ".") eqn:Ec.
    + apply Ascii.eqb_eq in Ec. subst c.
      destruct (span is_digit r) as [[|d ds] rest'] eqn:Es.
      * injection H as <- _. constructor.
      * destruct (dot_groups k rest') as [more' rest''] eqn:Eg.
        injection H as <- _.
        apply (@ddg_group (d :: ds)); [discriminate| |].
        -- now apply (span_digits r (d :: ds) rest').
        -- now apply (IH rest' more' rest'').
    + assert (E : (more, rest) = ([], c :: r)).
      { rewrite <- H. destruct c as [[] [] [] [] [] [] [] []];
          try reflexivity. discriminate. }
      injection E as -> _. constructor.
Qed.

Lemma digit_not_dot (c : ascii) :
  is_digit c = true -> Ascii.eqb c "." = false.
Proof.
  intros H. destruct (Ascii.eqb c ".") eqn:E; [|reflexivity].
  apply Ascii.eqb_eq in E. subst c. discriminate.
Qed.

Lemma split_dot_nonempty (l : list ascii) : split_dot l <> [].
Proof.
  induction l as [|c r IH]; simpl; [discriminate|].
  destruct (Ascii.eqb c "."); [discriminate|].
  destruct (split_dot r); discriminate.
Qed.

Lemma split_dot_digits_app (ds l : list ascii) :
  digits ds ->
  split_dot (ds ++ l)
  = match split_dot l with
    | w :: ws => (ds ++ w) :: ws
    | [] => [ds]
    end.
Proof.
  induction ds as [|c r IH]; simpl; intros H.
  - pose proof (split_dot_nonempty l).
    destruct (split_dot l); [congruence|reflexivity].
  - apply andb_true_iff in H as [Hc Hr].
    rewrite (digit_not_dot c Hc), (IH Hr).
    now destruct (split_dot l).
Qed.

Lemma split_dot_groups (more : list ascii) :
  dot_digit_groups more ->
  exists ws, split_dot more = [] :: ws /\ Forall (fun w => w <> [] /\ forallb is_digit w = true) ws.
Proof.
  induction 1 as [|ds more Hne Hd _ [ws [E Hws]]].
  - exists []. now split.
  - exists (ds :: ws). split; [|now constructor].
    simpl. rewrite (split_dot_digits_app ds more Hd), E.
    now rewrite app_nil_r.
Qed.

(** The numeric part has at most [k] groups after its first run of
    digits. *)
Lemma dot_groups_count (k : nat) (l more rest : list ascii) :
  dot_groups k l = (more, rest) ->
  exists ws, split_dot more = [] :: ws /\ length ws <= k.
Proof.
  revert l more rest. induction k as [|k IH]; simpl; intros l more rest H.
  - injection H as <- _. now exists [].
  - destruct l as [|c r]; [injection H as <- _; exists []; split;
                           [reflexivity|simpl; lia]|].
    destruct (Ascii.eqb c ".") eqn:Ec.
    + apply Ascii.eqb_eq in Ec. subst c.
      destruct (span is_digit r) as [[|d ds] rest'] eqn:Es.
      * injection H as <- _. exists []. split; [reflexivity|simpl; lia].
      * destruct (dot_groups k rest') as [more' rest''] eqn:Eg.
        injection H as <- _.
        destruct (IH rest' more' rest'' Eg) as (ws & E & Hl).
        exists ((d :: ds) :: ws). split; [|simpl; lia].
        change (split_dot _) with ([] :: split_dot ((d :: ds) ++ more')).
        rewrite (split_dot_digits_app (d :: ds) more'), E, app_nil_r;
          [reflexivity|].
        now apply (span_digits r (d :: ds) rest').
    + assert (E : (more, rest) = ([], c :: r)).
      { rewrite <- H. destruct c as [[] [] [] [] [] [] [] []];
          try reflexivity. discriminate. }
      injection E as -> _. exists []. split; [reflexivity|simpl; lia].
Qed.

Lemma ints_of_length (ws : list (list ascii)) (zs : list Z) :
  ints_of ws = Some zs -> length zs = length ws.
Proof.
  revert zs. induction ws as [|w r IH]; intros zs; simpl.
  - now intros [= <-].
  - destruct (int_of_chars w); [|discriminate].
    destruct (ints_of r) as [zs'|]; [|discriminate].
    intros [= <-]. simpl. now rewrite (IH zs').
Qed.

Lemma ints_of_good (ws : list (list ascii)) :
  Forall (fun w => w <> [] /\ forallb is_digit w = true) ws -> exists zs, ints_of ws = Some zs.
Proof.
  induction 1 as [|w r [Hne Hd] _ [zs IH]]; simpl; [now eexists|].
  unfold int_of_chars. destruct w as [|c w']; [congruence|].
  rewrite Hd, IH. now eexists.
Qed.

(** A number matched by the numeric part of the patterns splits into
    integer parts. *)
Lemma numeric_hierarchy_parts (l num rest : list ascii) :
  numeric_hierarchy l = Some (num, rest) ->
  exists parts, ints_of (split_dot num) = Some parts /\ parts <> []
                /\ length parts <= 4.
Proof.
  unfold numeric_hierarchy.
  destruct (span is_digit l) as [[|d ds] rest0] eqn:Es; [discriminate|].
  destruct (dot_groups 3 rest0) as [more rest'] eqn:Eg.
  intros H. injection H as <- _.
  pose proof (span_digits l (d :: ds) rest0 Es) as Hd.
  destruct (split_dot_groups more (dot_groups_shape 3 rest0 more rest' Eg))
    as [ws [E Hws]].
  destruct (dot_groups_count 3 rest0 more rest' Eg) as (ws' & E' & Hcount).
  assert (ws' = ws) by congruence. subst ws'.
  change (d :: ds ++ more) with ((d :: ds) ++ more).
  rewrite (split_dot_digits_app (d :: ds) more Hd), E, app_nil_r.
  destruct (ints_of_good ((d :: ds) :: ws)) as [zs Ez].
  - constructor; [|exact Hws]. split; [discriminate|exact Hd].
  - exists zs. split; [exact Ez|].
    split; [|rewrite (ints_of_length _ _ Ez); simpl; lia].
    intros ->. change (ints_of ((d :: ds) :: ws))
      with (match int_of_chars (d :: ds), ints_of ws with
            | Some z, Some zs => Some (z :: zs)
            | _, _ => None
            end) in Ez.
    destruct (int_of_chars (d :: ds)); [|discriminate].
    destruct (ints_of ws); discriminate.
Qed.

Lemma match_spaced_number_parts (t num : list ascii) :
  match_spaced_number t = Some num ->
  exists parts, ints_of (split_dot num) = Some parts /\ parts <> []
                /\ length parts <= 4.
Proof.
  unfold match_spaced_number.
  destruct (numeric_hierarchy t) as [[num' [|c rest]]|] eqn:E;
    try discriminate.
  destruct (is_space c); [|discriminate].
  destruct (drop_while is_space rest) as [|d r]; [discriminate|].
  destruct (is_upper d); [|discriminate].
  intros H. injection H as <-.
  now apply (numeric_hierarchy_parts t num' (c :: rest)).
Qed.

Lemma match_unspaced_number_parts (t num : list ascii) :
  match_unspaced_number t = Some num ->
  exists parts, ints_of (split_dot num) = Some parts /\ parts <> []
                /\ length parts <= 4.
Proof.
  unfold match_unspaced_number.
  destruct (numeric_hierarchy t) as [[num' [|c rest]]|] eqn:E;
    try discriminate.
  destruct (is_upper c); [|discriminate].
  intros H. injection H as <-.
  now apply (numeric_hierarchy_parts t num' (c :: rest)).
Qed.

Lemma chars_of_chars (l : list ascii) : chars (of_chars l) = l.
Proof. apply list_ascii_of_string_of_list_ascii. Qed.

(** A title with a numeric heading gets that number and the
    hierarchical value of its parts. *)
Lemma numeric_heading_extract (title n : string) :
  numeric_heading title = Some n ->
  exists parts,
    section_parts n = Some parts /\ parts <> [] /\ length parts <= 4
    /\ extract_section_number (Some title)
       = (Some n, Some (hierarchical_value parts)).
Proof.
  unfold numeric_heading, extract_section_number.
  destruct (String.eqb title "" || String.eqb title BLANK_PAGE);
    [discriminate|].
  destruct (match_spaced_number (strip_chars (chars title)))
    as [num|] eqn:E1.
  - intros H. injection H as <-.
    destruct (match_spaced_number_parts _ _ E1) as (parts & Ep & Hne & Hl).
    exists parts. unfold section_parts, numeric_result.
    rewrite chars_of_chars, Ep. now repeat split.
  - destruct (match_unspaced_number (strip_chars (chars title)))
      as [num|] eqn:E2; [|discriminate].
    intros H. injection H as <-.
    destruct (match_unspaced_number_parts _ _ E2) as (parts & Ep & Hne & Hl).
    exists parts. unfold section_parts, numeric_result.
    rewrite chars_of_chars, Ep. now repeat split.
Qed.

(** C5, as amended.  [compare_section_numbers] orders the dotted numeric
    strings by their integer parts: "3" < "3.1" < "3.2" < "3.2.1" < "4";
    it is irreflexive, transitive and total on the sequences of parts (two
    strings compare equal exactly when their parts are equal).  For two
    titles whose number is found by the numeric-hierarchy patterns of
    [extract_section_number] the number has at most four parts and the
    returned value is the float computed from the main part by adding the
    float [part / 1000^k] for each level [k] in turn.  When the main part
    is at most a million, every level below it is at most 999 and the last
    level below it is not 0, that float is within [4 * 10^-10] of the exact
    sum, and the order of the two values agrees with
    [compare_section_numbers] on the two number strings. *)
Theorem section_numbers_ordered :
  (compare_section_numbers "3" "3.1" = Some (-1)%Z
   /\ compare_section_numbers "3.1" "3.2" = Some (-1)%Z
   /\ compare_section_numbers "3.2" "3.2.1" = Some (-1)%Z
   /\ compare_section_numbers "3.2.1" "4" = Some (-1)%Z)
  /\ (forall a b c pa pb pc,
         section_parts a = Some pa ->
         section_parts b = Some pb ->
         section_parts c = Some pc ->
         compare_section_numbers a a = Some 0%Z
         /\ (compare_section_numbers a b = Some (-1)%Z
             \/ compare_section_numbers a b = Some 0%Z
             \/ compare_section_numbers a b = Some 1%Z)
         /\ (compare_section_numbers a b = Some 0%Z <-> pa = pb)
         /\ (compare_section_numbers a b = Some (-1)%Z
             <-> compare_section_numbers b a = Some 1%Z)
         /\ (compare_section_numbers a b = Some (-1)%Z ->
             compare_section_numbers b c = Some (-1)%Z ->
             compare_section_numbers a c = Some (-1)%Z))
  /\ (forall t1 t2 n1 n2,
         numeric_heading t1 = Some n1 ->
         numeric_heading t2 = Some n2 ->
         exists p1 p2,
           section_parts n1 = Some p1 /\ section_parts n2 = Some p2
           /\ length p1 <= 4 /\ length p2 <= 4
           /\ extract_section_number (Some t1)
              = (Some n1, Some (hierarchical_value p1))
           /\ extract_section_number (Some t2)
              = (Some n2, Some (hierarchical_value p2))
           /\ (levels_bounded p1 -> levels_bounded p2 ->
               (exact_value p1 - (4 # 10000000000) <= hierarchical_value p1
                /\ hierarchical_value p1
                   <= exact_value p1 + (4 # 10000000000))%Q
               /\ (compare_section_numbers n1 n2 = Some (-1)%Z
                   <-> (hierarchical_value p1 < hierarchical_value p2)%Q)
               /\ (compare_section_numbers n1 n2 = Some 0%Z
                   <-> (hierarchical_value p1 == hierarchical_value p2)%Q)
               /\ (compare_section_numbers n1 n2 = Some 1%Z
                   <-> (hierarchical_value p2 < hierarchical_value p1)%Q))).
Proof.
  split; [repeat split|]. split.
  - intros a b c pa pb pc Ha Hb Hc.
    rewrite (compare_section_numbers_parts a a pa pa Ha Ha),
            (compare_section_numbers_parts a b pa pb Ha Hb),
            (compare_section_numbers_parts b a pb pa Hb Ha),
            (compare_section_numbers_parts b c pb pc Hb Hc),
            (compare_section_numbers_parts a c pa pc Ha Hc).
    split; [f_equal; now apply compare_parts_eq|].
    split; [destruct (compare_parts_range pa pb) as [E|[E|E]]; rewrite E; auto|].
    split.
    { split; [intros H; injection H as H; now apply compare_parts_eq|].
      intros H. f_equal. now apply compare_parts_eq. }
    split.
    { split; intros H; injection H as H; f_equal;
        now apply (compare_parts_flip pa pb). }
    intros H1 H2. f_equal.
    apply (compare_parts_trans pa pb pc); congruence.
  - intros t1 t2 n1 n2 H1 H2.
    destruct (numeric_heading_extract t1 n1 H1) as (p1 & P1 & N1 & L1 & X1).
    destruct (numeric_heading_extract t2 n2 H2) as (p2 & P2 & N2 & L2 & X2).
    exists p1, p2. repeat (split; [assumption|]).
    intros B1 B2.
    rewrite (compare_section_numbers_parts n1 n2 p1 p2 P1 P2).
    destruct (parts_compare_iff p1 p2 B1 B2 L1 L2) as (I1 & I2 & I3).
    destruct (hierarchical_value_error p1 B1 L1) as (_ & V1 & V2).
    split; [now split|]. split; [|split].
    + split; [intros H; injection H as H; now apply I1|].
      intros H. f_equal. now apply I1.
    + split; [intros H; injection H as H; now apply I2|].
      intros H. f_equal. now apply I2.
    + split; [intros H; injection H as H; now apply I3|].
      intros H. f_equal. now apply I3.
Qed.

End NumericHeadings.

Section HeadingExamples.
Import Spec Headings.
Local Open Scope string_scope.

(** The six pattern families on sample titles. *)
Example extract_section_number_samples :
  map (fun t => let '(number, value) := extract_section_number (Some t) in
                (number, option_map Qred value))
      [ "3.2.1 Attention"; "12Results"; "IV. Methods"; "Section 12 scope";
        "article iv"; "(b) items"; "(12) items"; "Annexure II"; "annex 3";
        "Introduction"; "1.2.3.4.5 Deep"; "3. Methods"; "[BLANK PAGE]" ]
  = [ (Some "3.2.1", Some (422494080780183 # 140737488355328)%Q);
      (Some "12", Some 12%Q);
      (Some "IV", Some 4%Q);
      (Some "12", Some 12%Q);
      (Some "IV", Some 4%Q);
      (Some "(b)", Some 2%Q);
      (Some "(12)", Some 12%Q);
      (Some "II", Some 1002%Q);
      (Some "3", Some 1003%Q);
      (None, None);
      (None, None);
      (None, None);
      (None, None) ].
Proof. vm_compute. reflexivity. Qed.

Lemma section_numbers_ordered_witness :
  numeric_heading "3.0.2 Attention" = Some "3.0.2"
  /\ numeric_heading "3.2 Scaled Attention" = Some "3.2"
  /\ levels_bounded [3; 0; 2]%Z
  /\ levels_bounded [3; 2]%Z
  /\ extract_section_number (Some "3.0.2 Attention")
     = (Some "3.0.2", Some (hierarchical_value [3; 0; 2]%Z))
  /\ extract_section_number (Some "3.2 Scaled Attention")
     = (Some "3.2", Some (hierarchical_value [3; 2]%Z))
  /\ compare_section_numbers "3.0.2" "3.2" = Some (-1)%Z
  /\ (hierarchical_value [3; 0; 2]%Z < hierarchical_value [3; 2]%Z)%Q.
Proof.
  assert (H1 : numeric_heading "3.0.2 Attention" = Some "3.0.2")
    by reflexivity.
  assert (H2 : numeric_heading "3.2 Scaled Attention" = Some "3.2")
    by reflexivity.
  assert (B1 : levels_bounded [3; 0; 2]%Z).
  { simpl. split; [lia|]. split; [repeat constructor; lia|discriminate]. }
  assert (B2 : levels_bounded [3; 2]%Z).
  { simpl. split; [lia|]. split; [repeat constructor; lia|discriminate]. }
  split; [exact H1|]. split; [exact H2|].
  split; [exact B1|]. split; [exact B2|].
  destruct (proj2 (proj2 section_numbers_ordered)
                  "3.0.2 Attention" "3.2 Scaled Attention" "3.0.2" "3.2"
                  H1 H2) as (p1 & p2 & P1 & P2 & _ & _ & X1 & X2 & Hagree).
  vm_compute in P1. injection P1 as <-.
  vm_compute in P2. injection P2 as <-.
  split; [exact X1|]. split; [exact X2|]. split; [reflexivity|].
  apply (proj1 (proj1 (proj2 (Hagree B1 B2)))). reflexivity.
Defined.

(** C5, the claim as stated fails.  "1" is below "1.0" and "3.1000" is
    below "4" for [compare_section_numbers], while the titles that carry
    them get equal values, 1 and 4; "100000000.1.1.1" is below
    "100000000.1.1.2", every level below the main one between 1 and 999,
    and the two floats are equal; and the strings "03" and "3" are
    different but neither is below the other. *)
Lemma section_value_collisions :
  (exists v1 v2,
      extract_section_number (Some "1 Introduction") = (Some "1", Some v1)
      /\ extract_section_number (Some "1.0 Overview") = (Some "1.0", Some v2)
      /\ compare_section_numbers "1" "1.0" = Some (-1)%Z
      /\ ~ (v1 < v2)%Q)
  /\ (exists v1 v2,
         extract_section_number (Some "3.1000 Tables")
         = (Some "3.1000", Some v1)
         /\ extract_section_number (Some "4 Results") = (Some "4", Some v2)
         /\ compare_section_numbers "3.1000" "4" = Some (-1)%Z
         /\ ~ (v1 < v2)%Q)
  /\ (exists v1 v2,
         extract_section_number (Some "100000000.1.1.1 Alpha")
         = (Some "100000000.1.1.1", Some v1)
         /\ extract_section_number (Some "100000000.1.1.2 Alpha")
            = (Some "100000000.1.1.2", Some v2)
         /\ compare_section_numbers "100000000.1.1.1" "100000000.1.1.2"
            = Some (-1)%Z
         /\ ~ (v1 < v2)%Q)
  /\ (compare_section_numbers "03" "3" = Some 0%Z
      /\ compare_section_numbers "3" "03" = Some 0%Z
      /\ "03" <> "3").
Proof.
  split; [|split; [|split]].
  - eexists. eexists. split; [reflexivity|]. split; [reflexivity|].
    split; [reflexivity|]. intros H. vm_compute in H. discriminate.
  - eexists. eexists. split; [reflexivity|]. split; [reflexivity|].
    split; [reflexivity|]. intros H. vm_compute in H. discriminate.
  - eexists. eexists. split; [reflexivity|]. split; [reflexivity|].
    split; [reflexivity|]. intros H. vm_compute in H. discriminate.
  - split; [reflexivity|]. split; [reflexivity|]. discriminate.
Defined.

End HeadingExamples.

(** ** Exact duplicates (modules/duplicates.py): the hash table *)

Section HashTable.
Import Spec Duplicates.

Local Abbreviation mem x l := (existsb (String.eqb x) l).

Lemma mem_In (x : string) (l : list string) : mem x l = true <-> In x l.
Proof.
  rewrite existsb_exists. split.
  - intros [y [Hy E]]. apply String.eqb_eq in E. now subst.
  - intros H. exists x. split; [exact H|apply String.eqb_refl].
Qed.

Lemma mem_not_In (x : string) (l : list string) :
  mem x l = false <-> ~ In x l.
Proof.
  rewrite <- mem_In. destruct (mem x l); split; congruence.
Qed.

Lemma distinct_snoc (hs : list string) (x : string) :
  distinct (hs ++ [x])
  = if mem x (distinct hs) then distinct hs else distinct hs ++ [x].
Proof. unfold distinct. now rewrite fold_left_app. Qed.

Lemma distinct_In (hs : list string) (x : string) :
  In x (distinct hs) <-> In x hs.
Proof.
  induction hs as [|y r IH] using rev_ind; [reflexivity|].
  rewrite distinct_snoc, in_app_iff. simpl.
  destruct (mem y (distinct r)) eqn:E.
  - apply mem_In in E. rewrite IH in *. split; [tauto|].
    intros [H|[<-|[]]]; tauto.
  - rewrite in_app_iff, IH. simpl. tauto.
Qed.

Lemma distinct_NoDup (hs : list string) : NoDup (distinct hs).
Proof.
  induction hs as [|y r IH] using rev_ind; [constructor|].
  rewrite distinct_snoc.
  destruct (mem y (distinct r)) eqn:E; [exact IH|].
  apply mem_not_In in E.
  apply NoDup_rev in IH. rewrite <- (rev_involutive (distinct r ++ [y])).
  apply NoDup_rev. rewrite rev_app_distr. simpl.
  constructor; [|exact IH]. now rewrite <- in_rev.
Qed.

Lemma positions_snoc (hs : list string) (x h : string) :
  positions (hs ++ [x]) h
  = positions hs h ++ (if String.eqb x h then [length hs] else []).
Proof.
  unfold positions. rewrite length_app. simpl.
  rewrite Nat.add_1_r, seq_S, filter_app. simpl. f_equal.
  - apply filter_ext_in. intros i Hi. apply in_seq in Hi.
    now rewrite nth_error_app1 by lia.
  - rewrite nth_error_app2 by lia. rewrite Nat.sub_diag. simpl.
    now destruct (String.eqb x h).
Qed.

Lemma positions_nil_iff (hs : list string) (h : string) :
  positions hs h = [] <-> ~ In h hs.
Proof.
  induction hs as [|y r IH] using rev_ind.
  - split; [tauto|reflexivity].
  - rewrite positions_snoc, in_app_iff. simpl.
    destruct (String.eqb y h) eqn:E.
    + apply String.eqb_eq in E. subst y. split; [|tauto].
      intros H. apply app_eq_nil in H as [_ H]. discriminate.
    + apply String.eqb_neq in E. rewrite app_nil_r, IH. tauto.
Qed.

(** the table after the pages with hashes [hs] were entered *)
Local Abbreviation table hs :=
  (map (fun h => (h, positions hs h)) (distinct hs)).

Lemma hash_map_append_update (x : string) (k : nat) (ks : list string)
      (f : string -> list nat) :
  NoDup ks ->
  hash_map_append x k (map (fun h => (h, f h)) ks)
  = if mem x ks
    then map (fun h => (h, f h ++ (if String.eqb x h then [k] else []))) ks
    else map (fun h => (h, f h)) ks ++ [(x, [k])].
Proof.
  induction 1 as [|y r Hy Hr IH]; simpl; [reflexivity|].
  destruct (String.eqb x y) eqn:E; simpl.
  - apply String.eqb_eq in E. subst y. f_equal.
    apply map_ext_in. intros h Hh.
    destruct (String.eqb x h) eqn:E'; [|now rewrite app_nil_r].
    apply String.eqb_eq in E'. now subst.
  - rewrite IH, app_nil_r. now destruct (mem x r).
Qed.

Lemma table_step (hs : list string) (x : string) :
  hash_map_append x (length hs) (table hs) = table (hs ++ [x]).
Proof.
  rewrite (hash_map_append_update x (length hs) (distinct hs)
             (positions hs) (distinct_NoDup hs)).
  rewrite distinct_snoc.
  destruct (mem x (distinct hs)) eqn:E.
  - apply map_ext. intros h. now rewrite positions_snoc.
  - rewrite map_app. simpl. f_equal.
    + apply map_ext_in. intros h Hh. rewrite positions_snoc.
      destruct (String.eqb x h) eqn:E'; [|now rewrite app_nil_r].
      apply String.eqb_eq in E'. subst h.
      apply mem_not_In in E. contradiction.
    + rewrite positions_snoc, String.eqb_refl.
      apply mem_not_In in E. rewrite distinct_In in E.
      apply positions_nil_iff in E. now rewrite E.
Qed.

Variable sha256_hexdigest : string -> string.

Local Abbreviation hash_of p := (compute_page_hash sha256_hexdigest (text p)).

Lemma fill_hash_map_table (suffix : list page) (hs : list string) :
  fill_hash_map sha256_hexdigest (length hs) suffix (table hs)
  = table (hs ++ map (fun p => hash_of p) suffix).
Proof.
  revert hs. induction suffix as [|p r IH]; intros hs; simpl.
  - now rewrite app_nil_r.
  - rewrite table_step.
    replace (S (length hs)) with (length (hs ++ [hash_of p]))
      by (rewrite length_app; simpl; lia).
    rewrite IH, <- app_assoc. reflexivity.
Qed.

(** The groups are the position lists of the hashes that occur more than
    once, in the order in which the hashes first occur. *)
Lemma find_exact_duplicates_groups (pages : list page) :
  find_exact_duplicates sha256_hexdigest pages
  = filter (fun g => 1 <? length g)
           (map (positions (map (fun p => hash_of p) pages))
                (distinct (map (fun p => hash_of p) pages))).
Proof.
  unfold find_exact_duplicates.
  change (fill_hash_map sha256_hexdigest 0 pages [])
    with (fill_hash_map sha256_hexdigest (length (@nil string)) pages
                        (table [])).
  rewrite fill_hash_map_table. simpl app. now rewrite map_map.
Qed.

End HashTable.

(** ** Exact duplicates: marking *)

Section Marking.
Import Spec Duplicates.

Lemma update_position_spec (j : nat) (f : page -> page) (ps : list page) :
  j < length ps ->
  exists ps',
    update_position j f ps = Some ps'
    /\ length ps' = length ps
    /\ forall i, nth_error ps' i
                 = if i =? j then option_map f (nth_error ps i)
                   else nth_error ps i.
Proof.
  revert j. induction ps as [|p r IH]; intros j Hj; simpl in Hj; [lia|].
  destruct j as [|j]; simpl.
  - eexists. split; [reflexivity|]. split; [reflexivity|].
    intros [|i]; reflexivity.
  - destruct (IH j) as (r' & E & Hl & Hn); [lia|].
    rewrite E. eexists. split; [reflexivity|]. split; [simpl; lia|].
    intros [|i]; [reflexivity|]. simpl. apply Hn.
Qed.

Lemma update_position_inv (j : nat) (f : page -> page)
      (ps ps' : list page) :
  update_position j f ps = Some ps' -> j < length ps.
Proof.
  revert j ps'. induction ps as [|p r IH]; intros j ps';
    [destruct j; discriminate|].
  destruct j as [|j]; simpl; [lia|].
  destruct (update_position j f r) as [r'|] eqn:E; [|discriminate].
  intros _. specialize (IH j r' E). lia.
Qed.

Lemma update_position_map (A : Type) (g : page -> A) (j : nat)
      (f : page -> page) (ps ps' : list page) :
  (forall p, g (f p) = g p) ->
  update_position j f ps = Some ps' -> map g ps' = map g ps.
Proof.
  intros Hf. revert j ps'. induction ps as [|p r IH]; intros j ps';
    [destruct j; discriminate|].
  destruct j as [|j]; simpl.
  - intros [= <-]. simpl. now rewrite Hf.
  - destruct (update_position j f r) as [r'|] eqn:E; [|discriminate].
    intros [= <-]. simpl. now rewrite (IH j r' E).
Qed.

(** The index resolution of Python: the accepted indices of a list of
    length [n] are those from [-n] to [n - 1]. *)
Lemma index_cases (n : nat) (i : Z) :
  match Py.index n i with
  | Some k =>
      k < n
      /\ ((0 <= i)%Z /\ k = Z.to_nat i
          \/ (i < 0)%Z /\ Z.of_nat k = (i + Z.of_nat n)%Z)
  | None => (i < - Z.of_nat n)%Z \/ (Z.of_nat n <= i)%Z
  end.
Proof.
  unfold Py.index.
  destruct (i <? 0)%Z eqn:E0.
  - apply Z.ltb_lt in E0.
    destruct (i + Z.of_nat n <? 0)%Z eqn:E1.
    + apply Z.ltb_lt in E1. left. lia.
    + apply Z.ltb_ge in E1. split; [lia|]. right. split; [exact E0|lia].
  - apply Z.ltb_ge in E0.
    destruct (i <? Z.of_nat n)%Z eqn:E1.
    + apply Z.ltb_lt in E1. split; [lia|]. left. now split.
    + apply Z.ltb_ge in E1. now right.
Qed.

Lemma index_of_nat (n k : nat) :
  Py.index n (Z.of_nat k) = if k <? n then Some k else None.
Proof.
  unfold Py.index.
  destruct (Z.of_nat k <? 0)%Z eqn:E0; [apply Z.ltb_lt in E0; lia|].
  destruct (k <? n) eqn:E.
  - apply Nat.ltb_lt in E.
    destruct (Z.of_nat k <? Z.of_nat n)%Z eqn:E1;
      [|apply Z.ltb_ge in E1; lia].
    now rewrite Nat2Z.id.
  - apply Nat.ltb_ge in E.
    destruct (Z.of_nat k <? Z.of_nat n)%Z eqn:E1;
      [apply Z.ltb_lt in E1; lia|reflexivity].
Qed.

(** On an index that counts from the start, [pages[i]] is the position. *)
Lemma update_at_of_nat (k : nat) (f : page -> page) (ps : list page) :
  update_at (Z.of_nat k) f ps = update_position k f ps.
Proof.
  unfold update_at. rewrite index_of_nat.
  destruct (k <? length ps) eqn:E; [reflexivity|].
  apply Nat.ltb_ge in E.
  destruct (update_position k f ps) as [ps'|] eqn:E'; [|reflexivity].
  apply update_position_inv in E'. lia.
Qed.

Lemma update_at_spec (j : nat) (f : page -> page) (ps : list page) :
  j < length ps ->
  exists ps',
    update_at (Z.of_nat j) f ps = Some ps'
    /\ length ps' = length ps
    /\ forall i, nth_error ps' i
                 = if i =? j then option_map f (nth_error ps i)
                   else nth_error ps i.
Proof. rewrite update_at_of_nat. apply update_position_spec. Qed.

Lemma existsb_Neqb (i : nat) (l : list nat) :
  existsb (Nat.eqb i) l = true <-> In i l.
Proof.
  rewrite existsb_exists. split.
  - intros [y [Hy E]]. apply Nat.eqb_eq in E. now subst.
  - intros H. exists i. split; [exact H|apply Nat.eqb_refl].
Qed.

Lemma mark_group_spec (orig : Z) (dups : list nat) (ps : list page) :
  NoDup dups -> Forall (fun d => d < length ps) dups ->
  exists ps',
    mark_group orig (map Z.of_nat dups) ps = Some ps'
    /\ length ps' = length ps
    /\ forall i, nth_error ps' i
                 = option_map (fun p => if existsb (Nat.eqb i) dups
                                        then flag_exact orig p else p)
                              (nth_error ps i).
Proof.
  intros Hnd. revert ps.
  induction Hnd as [|d r Hd Hr IH]; intros ps Hall; simpl.
  - exists ps. repeat split. intros i. now destruct (nth_error ps i).
  - inversion Hall as [|? ? Hdl Hrl]; subst.
    destruct (update_at_spec d (flag_exact orig) ps Hdl) as (ps1 & E1 & L1 & N1).
    rewrite E1.
    destruct (IH ps1) as (ps' & E & L & N).
    { rewrite L1. exact Hrl. }
    exists ps'. split; [exact E|]. split; [lia|].
    intros i. rewrite N, N1.
    destruct (i =? d) eqn:Eid.
    + apply Nat.eqb_eq in Eid. subst i.
      assert (X : existsb (Nat.eqb d) r = false).
      { destruct (existsb (Nat.eqb d) r) eqn:X; [|reflexivity].
        apply existsb_Neqb in X. contradiction. }
      rewrite X. now destruct (nth_error ps d).
    + now destruct (nth_error ps i).
Qed.

Lemma duplicate_target_none (groups : list (list nat)) (i : nat) :
  (forall g, In g groups -> ~ In i (tl g)) ->
  duplicate_target groups i = None.
Proof.
  induction groups as [|g more IH]; intros H; simpl; [reflexivity|].
  destruct (existsb (Nat.eqb i) (tl g)) eqn:E.
  - apply existsb_Neqb in E. exfalso. apply (H g); [now left|exact E].
  - apply IH. intros g' Hg'. apply H. now right.
Qed.

Lemma duplicate_target_some (groups : list (list nat)) (i o : nat) :
  duplicate_target groups i = Some o ->
  exists g, In g groups /\ In i (tl g) /\ hd_error g = Some o.
Proof.
  induction groups as [|g more IH]; simpl; [discriminate|].
  destruct (existsb (Nat.eqb i) (tl g)) eqn:E.
  - intros H. exists g. apply existsb_Neqb in E. now repeat split; [left| |].
  - intros H. destruct (IH H) as (g' & Hg' & Hi & Hh).
    exists g'. repeat split; trivial. now right.
Qed.

Lemma duplicate_target_not_none (groups : list (list nat)) (i : nat) :
  duplicate_target groups i = None ->
  forall g, In g groups -> ~ In i (tl g).
Proof.
  induction groups as [|g more IH]; simpl; [tauto|].
  destruct (existsb (Nat.eqb i) (tl g)) eqn:E.
  - destruct g as [|o dups]; [discriminate|]. discriminate.
  - intros H g' [<-|Hg'].
    + intros Hi. apply existsb_Neqb in Hi. congruence.
    + now apply IH.
Qed.

Lemma mark_exact_spec (groups : list (list nat)) (ps : list page) :
  ForallOrdPairs disjoint_tails groups ->
  Forall (fun g => NoDup (tl g) /\ Forall (fun d => d < length ps) (tl g))
         groups ->
  exists ps',
    mark_exact (group_indices groups) ps = Some ps'
    /\ length ps' = length ps
    /\ forall i, nth_error ps' i
                 = option_map (fun p => match duplicate_target groups i with
                                        | Some o => flag_exact (Z.of_nat o) p
                                        | None => p
                                        end)
                              (nth_error ps i).
Proof.
  intros Hdis. revert ps.
  induction Hdis as [|g more Hg Hmore IH]; intros ps Hall.
  - exists ps. repeat split. intros i. now destruct (nth_error ps i).
  - inversion Hall as [|? ? [Hnd Hlt] Hrest]; subst.
    assert (Hstep : exists ps1,
               match map Z.of_nat g with
               | original_idx :: (_ :: _) as dups =>
                   mark_group original_idx dups ps
               | _ => Some ps
               end = Some ps1
               /\ length ps1 = length ps
               /\ forall i, nth_error ps1 i
                            = option_map
                                (fun p => if existsb (Nat.eqb i) (tl g)
                                          then match hd_error g with
                                               | Some o =>
                                                   flag_exact (Z.of_nat o) p
                                               | None => p
                                               end
                                          else p)
                                (nth_error ps i)).
    { destruct g as [|o [|d r]].
      - exists ps. repeat split. intros i. now destruct (nth_error ps i).
      - exists ps. repeat split. intros i. now destruct (nth_error ps i).
      - simpl tl in *.
        destruct (mark_group_spec (Z.of_nat o) (d :: r) ps Hnd Hlt)
          as (ps1 & E1 & L1 & N1).
        exists ps1. repeat split; trivial. }
    destruct Hstep as (ps1 & E1 & L1 & N1).
    destruct (IH ps1) as (ps' & E & L & N).
    { eapply Forall_impl; [|exact Hrest]. simpl. intros g' [H1 H2].
      split; [exact H1|]. now rewrite L1. }
    exists ps'. split.
    { change (mark_exact (group_indices (g :: more)) ps)
        with (match match map Z.of_nat g with
                    | original_idx :: (_ :: _) as dups =>
                        mark_group original_idx dups ps
                    | _ => Some ps
                    end with
              | Some pages' => mark_exact (group_indices more) pages'
              | None => None
              end).
      now rewrite E1. }
    split; [lia|].
    intros i. rewrite N, N1. simpl duplicate_target.
    destruct (existsb (Nat.eqb i) (tl g)) eqn:Ei.
    + apply existsb_Neqb in Ei.
      rewrite (duplicate_target_none more i).
      * destruct (nth_error ps i); [|reflexivity]. simpl.
        now destruct (hd_error g).
      * intros g' Hg'. rewrite Forall_forall in Hg. now apply (Hg g' Hg').
    + now destruct (nth_error ps i).
Qed.

Lemma mark_near_spec (near : list (nat * nat * Q)) (ps : list page) :
  Forall (fun t => snd (fst t) < length ps) near ->
  exists ps',
    mark_near (pair_indices near) ps = Some ps'
    /\ length ps' = length ps
    /\ forall i p, nth_error ps i = Some p ->
                   exists m, nth_error ps' i = Some m
                             /\ is_exact_duplicate m = is_exact_duplicate p
                             /\ duplicate_of m
                                = duplicate_of p
                                    ++ map Z.of_nat (near_targets near i).
Proof.
  revert ps. induction near as [|[[idx1 idx2] similarity] r IH];
    intros ps Hall; simpl.
  - exists ps. repeat split. intros i p Hp. exists p.
    unfold near_targets. simpl. now rewrite app_nil_r.
  - inversion Hall as [|? ? Hlt Hrest]; subst. simpl in Hlt.
    destruct (update_at_spec idx2 (flag_near (Z.of_nat idx1) similarity)
                             ps Hlt)
      as (ps1 & E1 & L1 & N1).
    rewrite E1.
    destruct (IH ps1) as (ps' & E & L & N).
    { eapply Forall_impl; [|exact Hrest]. simpl. intros t. now rewrite L1. }
    exists ps'. split; [exact E|]. split; [lia|].
    intros i p Hp. specialize (N1 i). rewrite Hp in N1.
    unfold near_targets. simpl.
    destruct (i =? idx2) eqn:Ei.
    + apply Nat.eqb_eq in Ei. subst i. simpl in N1.
      destruct (N idx2 _ N1) as (m & Hm & Hx & Hd).
      exists m. rewrite Nat.eqb_refl. simpl.
      repeat split; trivial.
      rewrite Hd. unfold near_targets. simpl. now rewrite <- app_assoc.
    + destruct (N i p N1) as (m & Hm & Hx & Hd).
      exists m. rewrite Nat.eqb_sym, Ei. now repeat split.
Qed.

End Marking.

(** ** Exact duplicates: groups and flags *)

Section ExactDuplicates.
Import Spec Duplicates.

Lemma positions_In (hs : list string) (h : string) (i : nat) :
  In i (positions hs h) <-> nth_error hs i = Some h.
Proof.
  unfold positions. rewrite filter_In, in_seq. split.
  - intros [_ H]. destruct (nth_error hs i) as [h'|]; [|discriminate].
    apply String.eqb_eq in H. now subst.
  - intros H. split.
    + assert (i < length hs) by (apply nth_error_Some; congruence). lia.
    + rewrite H. apply String.eqb_refl.
Qed.

Lemma seq_sorted (k n : nat) : StronglySorted lt (seq k n).
Proof.
  revert k. induction n as [|n IH]; intros k; simpl; constructor.
  - apply IH.
  - apply Forall_forall. intros x Hx. apply in_seq in Hx. lia.
Qed.

Lemma positions_sorted (hs : list string) (h : string) :
  StronglySorted lt (positions hs h).
Proof. apply filter_StronglySorted, seq_sorted. Qed.

Lemma sorted_NoDup (l : list nat) : StronglySorted lt l -> NoDup l.
Proof.
  induction 1 as [|x r Hr IH Hx]; constructor; [|exact IH].
  intros Hin. rewrite Forall_forall in Hx. specialize (Hx x Hin). lia.
Qed.

(** The first occurrence is an occurrence, and the lowest one. *)
Lemma first_occurrence_spec (hs : list string) (i : nat) (h : string) :
  nth_error hs i = Some h ->
  exists rest,
    positions hs h = first_occurrence hs i :: rest
    /\ first_occurrence hs i <= i
    /\ nth_error hs (first_occurrence hs i) = Some h
    /\ (forall j, nth_error hs j = Some h -> first_occurrence hs i <= j)
    /\ (first_occurrence hs i < i <-> In i rest).
Proof.
  intros Hi. unfold first_occurrence. rewrite Hi.
  pose proof (proj2 (positions_In hs h i) Hi) as Hin.
  pose proof (positions_sorted hs h) as Hs.
  destruct (positions hs h) as [|f rest] eqn:E; [contradiction|].
  simpl. exists rest.
  apply StronglySorted_inv in Hs as [Hs Hf]. rewrite Forall_forall in Hf.
  assert (Hle : forall j, In j (f :: rest) -> f <= j).
  { intros j [<-|Hj]; [lia|]. specialize (Hf j Hj). lia. }
  split; [reflexivity|]. split; [now apply Hle|].
  split; [apply positions_In; rewrite E; now left|].
  split.
  - intros j Hj. apply Hle. rewrite <- E. now apply positions_In.
  - split.
    + intros Hlt. destruct Hin as [->|Hin]; [lia|exact Hin].
    + intros Hr. now apply Hf.
Qed.

Lemma groups_disjoint (hs ks : list string) :
  NoDup ks ->
  ForallOrdPairs disjoint_tails
                 (filter (fun g => 1 <? length g) (map (positions hs) ks)).
Proof.
  induction 1 as [|h r Hh Hr IH]; simpl; [constructor|].
  destruct (1 <? length (positions hs h)); [|exact IH].
  constructor; [|exact IH].
  apply Forall_forall. intros g Hg.
  apply filter_In in Hg as [Hg _]. apply in_map_iff in Hg as [h' [<- Hh']].
  intros i Hi Hi'.
  assert (X : forall l : list nat, In i (tl l) -> In i l)
    by (intros [|? ?]; simpl; tauto).
  apply X, positions_In in Hi. apply X, positions_In in Hi'.
  congruence.
Qed.

Lemma two_members (A : Type) (i j : A) (l : list A) :
  i <> j -> In i l -> In j l -> 1 < length l.
Proof.
  intros Hij Hi Hj.
  destruct l as [|a [|b r]]; simpl in *; [contradiction| |lia].
  destruct Hi as [Hi|[]]. destruct Hj as [Hj|[]]. congruence.
Qed.

Variable sha256_hexdigest : string -> string.

Local Abbreviation hash_of p := (compute_page_hash sha256_hexdigest (text p)).
Local Abbreviation hashes pages := (map (fun p => hash_of p) pages).
Local Abbreviation groups_of pages :=
  (find_exact_duplicates sha256_hexdigest pages).
(** the digest of the normalized text of a page *)
Local Abbreviation digest p := (sha256_hexdigest (normalized (text p))).
Local Abbreviation digests pages := (map (fun p => digest p) pages).

Lemma groups_In (pages : list page) (g : list nat) :
  In g (groups_of pages) <->
  exists h, In h (hashes pages) /\ g = positions (hashes pages) h
            /\ 1 < length g.
Proof.
  rewrite find_exact_duplicates_groups, filter_In. split.
  - intros [Hg Hl]. apply in_map_iff in Hg as [h [<- Hh]].
    exists h. split; [now apply (distinct_In (hashes pages) h)|].
    split; [reflexivity|now apply Nat.ltb_lt].
  - intros (h & Hh & -> & Hl). split.
    + apply in_map_iff. exists h. split; [reflexivity|].
      now apply (distinct_In (hashes pages) h).
    + now apply Nat.ltb_lt.
Qed.

Lemma groups_target (pages : list page) (i : nat) (h : string) :
  nth_error (hashes pages) i = Some h ->
  duplicate_target (groups_of pages) i
  = if first_occurrence (hashes pages) i <? i
    then Some (first_occurrence (hashes pages) i) else None.
Proof.
  intros Hi.
  destruct (first_occurrence_spec (hashes pages) i h Hi)
    as (rest & E & Hle & Hf & Hmin & Hrest).
  assert (Hgroup : forall g, In g (groups_of pages) -> In i (tl g) ->
                             g = first_occurrence (hashes pages) i :: rest).
  { intros g Hg Hig. apply groups_In in Hg as (h' & _ & -> & _).
    assert (In i (positions (hashes pages) h'))
      by (destruct (positions (hashes pages) h'); simpl in *; tauto).
    apply positions_In in H. now replace h' with h by congruence. }
  destruct (first_occurrence (hashes pages) i <? i) eqn:Elt.
  - apply Nat.ltb_lt in Elt. apply Hrest in Elt.
    destruct (duplicate_target (groups_of pages) i) as [o|] eqn:Et.
    + destruct (duplicate_target_some _ _ _ Et) as (g & Hg & Hig & Hhd).
      rewrite (Hgroup g Hg Hig) in Hhd. simpl in Hhd. congruence.
    + exfalso.
      apply (duplicate_target_not_none _ _ Et
               (first_occurrence (hashes pages) i :: rest)); [|exact Elt].
      apply groups_In. exists h. rewrite E. repeat split.
      * apply nth_error_In with i. exact Hi.
      * destruct rest; [contradiction|simpl; lia].
  - apply Nat.ltb_ge in Elt.
    apply duplicate_target_none. intros g Hg Hig.
    rewrite (Hgroup g Hg Hig) in Hig. simpl in Hig.
    apply Hrest in Hig. lia.
Qed.

(** Two different pages are in one group exactly when their hashes are
    equal. *)
Lemma groups_pair (pages : list page) (i j : nat) (hi hj : string) :
  i <> j ->
  nth_error (hashes pages) i = Some hi ->
  nth_error (hashes pages) j = Some hj ->
  (exists g, In g (groups_of pages) /\ In i g /\ In j g) <-> hi = hj.
Proof.
  intros Hij Hi Hj. split.
  - intros (g & Hg & Hig & Hjg).
    apply groups_In in Hg as (h & _ & -> & _).
    apply positions_In in Hig, Hjg. congruence.
  - intros <-. exists (positions (hashes pages) hi).
    assert (Hig : In i (positions (hashes pages) hi))
      by now apply positions_In.
    assert (Hjg : In j (positions (hashes pages) hi))
      by now apply positions_In.
    split; [|now split].
    apply groups_In. exists hi. split; [now apply nth_error_In with i|].
    split; [reflexivity|]. now apply (two_members nat i j).
Qed.

(** The groups of four pages of which the third has the hash of the
    first and the other two have hashes of their own. *)
Lemma groups_of_ABAC (h0 h1 h3 : string) :
  h1 <> h0 -> h3 <> h0 -> h3 <> h1 ->
  filter (fun g => 1 <? length g)
         (map (positions [h0; h1; h0; h3]) (distinct [h0; h1; h0; h3]))
  = [[0; 2]].
Proof.
  intros H10 H30 H31.
  assert (E01 : String.eqb h0 h1 = false)
    by (apply String.eqb_neq; congruence).
  assert (E03 : String.eqb h0 h3 = false)
    by (apply String.eqb_neq; congruence).
  assert (E13 : String.eqb h1 h3 = false)
    by (apply String.eqb_neq; congruence).
  apply String.eqb_neq in H10, H30, H31.
  unfold distinct, positions.
  repeat first [ rewrite String.eqb_refl | rewrite H10 | rewrite H30
               | rewrite H31 | rewrite E01 | rewrite E03 | rewrite E13
               | progress cbn ].
  reflexivity.
Qed.

(** C7.  The hash of a page is the digest of its normalized text, the
    text without the white space at its ends and in lower case.  The
    groups returned by [find_exact_duplicates] are the lists of all page
    indices that share one such hash, for the hashes that occur on more
    than one page: two different pages are in one group exactly when the
    digests of their normalized texts are equal.  After [mark_duplicates]
    a page is flagged [is_exact_duplicate] exactly when a lower index has
    the same hash, and then the lowest such index is the first target
    recorded in [duplicate_of] (the targets of the near-duplicate pairs
    follow); the first occurrence of a hash is never flagged.  For pages
    A, B, A, C, the third with the normalized text of the first and the
    digest without collision among the normalized texts of the four, the
    only group is [0, 2] and only index 2 is flagged, with target 0. *)
Theorem exact_duplicates_flagged (pages : list page)
        (near_duplicates : list (nat * nat * Q)) :
  (forall g, In g (groups_of pages) <->
             exists h, In h (digests pages)
                       /\ g = positions (digests pages) h /\ 1 < length g)
  /\ (forall i j p q,
         i <> j -> nth_error pages i = Some p -> nth_error pages j = Some q ->
         ((exists g, In g (groups_of pages) /\ In i g /\ In j g)
          <-> digest p = digest q))
  /\ (Forall (fun t => snd (fst t) < length pages) near_duplicates ->
      exists marked,
        mark_duplicates pages (group_indices (groups_of pages))
                        (pair_indices near_duplicates) = Some marked
        /\ length marked = length pages
        /\ forall i h,
            nth_error (digests pages) i = Some h ->
            let first := first_occurrence (digests pages) i in
            first <= i
            /\ nth_error (digests pages) first = Some h
            /\ (forall j, nth_error (digests pages) j = Some h -> first <= j)
            /\ exists m,
                nth_error marked i = Some m
                /\ (is_exact_duplicate m = true <-> first < i)
                /\ duplicate_of m
                   = map Z.of_nat
                         ((if first <? i then [first] else [])
                            ++ near_targets near_duplicates i))
  /\ (forall p0 p1 p2 p3,
         (forall s t,
             In s (map (fun p => normalized (text p)) [p0; p1; p2; p3]) ->
             In t (map (fun p => normalized (text p)) [p0; p1; p2; p3]) ->
             sha256_hexdigest s = sha256_hexdigest t -> s = t) ->
         normalized (text p2) = normalized (text p0) ->
         normalized (text p1) <> normalized (text p0) ->
         normalized (text p3) <> normalized (text p0) ->
         normalized (text p3) <> normalized (text p1) ->
         find_exact_duplicates sha256_hexdigest [p0; p1; p2; p3] = [[0; 2]]
         /\ exists m0 m1 m2 m3,
             mark_duplicates
               [p0; p1; p2; p3]
               (group_indices
                  (find_exact_duplicates sha256_hexdigest [p0; p1; p2; p3]))
               []
             = Some [m0; m1; m2; m3]
             /\ map is_exact_duplicate [m0; m1; m2; m3]
                = [false; false; true; false]
             /\ map duplicate_of [m0; m1; m2; m3] = [[]; []; [0%Z]; []]).
Proof.
  split; [apply groups_In|]. split.
  { intros i j p q Hij Hp Hq.
    apply (groups_pair pages i j (hash_of p) (hash_of q) Hij).
    - now rewrite nth_error_map, Hp.
    - now rewrite nth_error_map, Hq. }
  split.
  - intros Hnear.
    destruct (mark_exact_spec (groups_of pages) (map init_flags pages))
      as (ps1 & E1 & L1 & N1).
    { rewrite find_exact_duplicates_groups.
      apply groups_disjoint, distinct_NoDup. }
    { apply Forall_forall. intros g Hg.
      apply groups_In in Hg as (h & _ & -> & _).
      pose proof (positions_sorted (hashes pages) h) as Hs.
      assert (Hall : Forall (fun d => d < length (map init_flags pages))
                            (positions (hashes pages) h)).
      { apply Forall_forall. intros d Hd. apply positions_In in Hd.
        rewrite length_map.
        rewrite <- (length_map (fun p => hash_of p) pages).
        apply nth_error_Some. congruence. }
      destruct (positions (hashes pages) h) as [|f r]; simpl.
      - split; constructor.
      - apply StronglySorted_inv in Hs as [Hs _].
        inversion Hall; subst. split; [now apply sorted_NoDup|assumption]. }
    rewrite length_map in L1.
    destruct (mark_near_spec near_duplicates ps1) as (ps2 & E2 & L2 & N2).
    { now rewrite L1. }
    exists ps2. unfold mark_duplicates. rewrite E1.
    split; [exact E2|]. split; [lia|].
    change (digests pages) with (hashes pages).
    intros i h Hi. cbv zeta.
    set (first := first_occurrence (hashes pages) i).
    destruct (first_occurrence_spec (hashes pages) i h Hi)
      as (rest & E & Hle & Hf & Hmin & Hrest).
    split; [exact Hle|]. split; [exact Hf|]. split; [exact Hmin|].
    assert (Hp : exists p, nth_error pages i = Some p).
    { rewrite nth_error_map in Hi.
      destruct (nth_error pages i) as [p|]; [now exists p|discriminate]. }
    destruct Hp as [p Hp].
    specialize (N1 i). rewrite nth_error_map, Hp in N1. simpl in N1.
    rewrite (groups_target pages i h Hi) in N1. fold first in N1.
    destruct (N2 i _ N1) as (m & Hm & Hx & Hd).
    exists m. split; [exact Hm|]. rewrite Hx, Hd, map_app.
    destruct (first <? i) eqn:Elt.
    + apply Nat.ltb_lt in Elt. simpl. now repeat split.
    + apply Nat.ltb_ge in Elt. simpl. split; [|reflexivity].
      split; [discriminate|lia].
  - intros p0 p1 p2 p3 Hfree H20 H10 H30 H31.
    assert (Hg : find_exact_duplicates sha256_hexdigest [p0; p1; p2; p3]
                 = [[0; 2]]).
    { rewrite find_exact_duplicates_groups.
      change (hashes [p0; p1; p2; p3])
        with [digest p0; digest p1; digest p2; digest p3].
      rewrite H20. apply groups_of_ABAC.
      - intros E. apply H10, Hfree; [simpl; tauto..|exact E].
      - intros E. apply H30, Hfree; [simpl; tauto..|exact E].
      - intros E. apply H31, Hfree; [simpl; tauto..|exact E]. }
    split; [exact Hg|]. rewrite Hg.
    do 4 eexists. split; [reflexivity|]. split; reflexivity.
Qed.

End ExactDuplicates.

Section DuplicateExamples.
Import Spec Duplicates Examples.
Local Open Scope string_scope.

Lemma exact_duplicates_flagged_witness :
  find_exact_duplicates identity_digest pages_ABAC = [[0; 2]]
  /\ (exists marked,
         mark_duplicates
           pages_ABAC
           (group_indices (find_exact_duplicates identity_digest pages_ABAC))
           [] = Some marked
         /\ map is_exact_duplicate marked = [false; false; true; false]
         /\ map duplicate_of marked = [[]; []; [0%Z]; []])
  /\ Forall (fun t => snd (fst t) < length pages_ABAC) [(1, 3, 1%Q)]
  /\ exists marked,
      mark_duplicates
        pages_ABAC
        (group_indices (find_exact_duplicates identity_digest pages_ABAC))
        (pair_indices [(1, 3, 1%Q)]) = Some marked
      /\ map is_exact_duplicate marked = [false; false; true; false]
      /\ map duplicate_of marked = [[]; []; [0%Z]; [1%Z]].
Proof.
  destruct (exact_duplicates_flagged identity_digest pages_ABAC
                                     [(1, 3, 1%Q)])
    as (_ & _ & Hmark & Habac).
  destruct (Habac (with_text 0 "Annual Report") (with_text 1 "Budget")
                  (with_text 2 "  ANNUAL report ") (with_text 3 "Contents"))
    as (Hg & m0 & m1 & m2 & m3 & E & Hx & Hd).
  { intros s t _ _ H. exact H. }
  { reflexivity. }
  { discriminate. }
  { discriminate. }
  { discriminate. }
  assert (H : Forall (fun t : nat * nat * Q => snd (fst t) < length pages_ABAC)
                     [(1, 3, 1%Q)]).
  { repeat constructor. }
  destruct (Hmark H) as (marked & E' & _).
  split; [exact Hg|]. split.
  { exists [m0; m1; m2; m3]. split; [exact E|]. split; [exact Hx|exact Hd]. }
  split; [exact H|].
  exists marked. split; [exact E'|].
  vm_compute in E'. injection E' as <-. split; reflexivity.
Defined.

End DuplicateExamples.


(** * Further properties of the code *)

(** ** Missing pages and their ranges *)

Section MissingPagesMore.
Import PageNumbers.
Local Open Scope Z_scope.

Lemma sorted_gap (nums : list Z) (a b x : Z) :
  StronglySorted Z.le nums ->
  In a nums -> In b nums -> a < x < b -> ~ In x nums ->
  exists a' b', Spec.adjacent a' b' nums /\ a' < x < b'.
Proof.
  revert a. induction nums as [|c [|n rest] IH]; intros a Hs Ha Hb Hx Hn.
  - contradiction.
  - destruct Ha as [<-|[]]. destruct Hb as [<-|[]]. lia.
  - pose proof (StronglySorted_inv Hs) as [Hs' Hc].
    rewrite Forall_forall in Hc.
    assert (Hcx : c < x).
    { destruct Ha as [<-|Ha]; [lia|]. specialize (Hc a Ha). lia. }
    destruct (Z_lt_le_dec x n) as [Hxn|Hxn].
    + exists c, n. split; [now exists [], rest|lia].
    + assert (n < x).
      { destruct (Z.eq_dec n x) as [<-|]; [|lia].
        exfalso. apply Hn. right. now left. }
      destruct (IH n Hs') as (a' & b' & (l1 & l2 & E) & Hab).
      * now left.
      * destruct Hb as [<-|Hb]; [lia|exact Hb].
      * split; [assumption|]. apply Hx.
      * intros H'. apply Hn. now right.
      * exists a', b'. split; [|exact Hab].
        exists (c :: l1), l2. simpl. now rewrite E.
Qed.

Lemma sorted_adjacent_excludes (nums : list Z) (a b x : Z) :
  StronglySorted Z.le nums -> Spec.adjacent a b nums -> a < x < b ->
  In a nums /\ In b nums /\ ~ In x nums.
Proof.
  intros Hs (l1 & l2 & ->) Hx.
  split; [apply in_app_iff; right; now left|].
  split; [apply in_app_iff; right; right; now left|].
  revert Hs. induction l1 as [|c l1 IH]; simpl; intros Hs.
  - apply StronglySorted_inv in Hs as [Hs Ha].
    apply StronglySorted_inv in Hs as [_ Hb].
    rewrite Forall_forall in Ha, Hb.
    intros [H|[H|H]]; try lia. specialize (Hb x H). lia.
  - apply StronglySorted_inv in Hs as [Hs Hc]. rewrite Forall_forall in Hc.
    intros [H|H]; [|now apply IH].
    subst c. assert (x <= a); [|lia].
    apply Hc. apply in_app_iff. right. now left.
Qed.

(** X1.  With two or more numbered pages, the reported numbers are exactly the
    integers that lie strictly between two detected numbers and are not
    detected themselves. *)
Theorem missing_pages_are_the_undetected (pages_with_numbers : list (nat * Z)) :
  (2 <= length pages_with_numbers)%nat ->
  forall x,
    In x (detect_missing_pages pages_with_numbers) <->
    ~ In x (map snd pages_with_numbers)
    /\ exists a b, In a (map snd pages_with_numbers)
                    /\ In b (map snd pages_with_numbers) /\ a < x < b.
Proof.
  intros Hlen x. unfold detect_missing_pages.
  apply Nat.ltb_ge in Hlen. rewrite Hlen.
  set (nums := map snd (Py.sorted Z.ltb (@snd nat Z) pages_with_numbers)).
  assert (HP : Permutation nums (map snd pages_with_numbers))
    by apply Permutation_map, sorted_perm.
  assert (Hin : forall y, In y nums <-> In y (map snd pages_with_numbers)).
  { intros y. split; apply Permutation_in; [|symmetry]; exact HP. }
  pose proof (sorted_numbers_le pages_with_numbers) as Hs. fold nums in Hs.
  rewrite In_missing_between. split.
  - intros (a & b & Hadj & Hx).
    destruct (sorted_adjacent_excludes nums a b x Hs Hadj Hx) as (Ha & Hb & Hn).
    split; [now rewrite <- Hin|]. exists a, b. now rewrite <- !Hin.
  - intros (Hn & a & b & Ha & Hb & Hx).
    apply (sorted_gap nums a b x Hs); try (now apply Hin); trivial.
    now rewrite Hin.
Qed.

Lemma missing_pages_are_the_undetected_witness :
  (2 <= length [(0%nat, 7); (1%nat, 3)])%nat
  /\ (In 5 (detect_missing_pages [(0%nat, 7); (1%nat, 3)])
      <-> ~ In 5 (map snd [(0%nat, 7); (1%nat, 3)])
          /\ exists a b, In a (map snd [(0%nat, 7); (1%nat, 3)])
                          /\ In b (map snd [(0%nat, 7); (1%nat, 3)])
                          /\ a < 5 < b).
Proof.
  split; [simpl; lia|].
  apply (missing_pages_are_the_undetected [(0%nat, 7); (1%nat, 3)]).
  simpl; lia.
Defined.

End MissingPagesMore.

Section PageRanges.
Import ExportPdf Spec2.
Local Open Scope Z_scope.

Lemma range_snoc (a b : Z) : a <= b -> Py.range a (b + 1) = Py.range a b ++ [b].
Proof.
  intros H. unfold Py.range.
  replace (Z.to_nat (b + 1 - a)) with (S (Z.to_nat (b - a))) by lia.
  rewrite seq_S, map_app. simpl. do 2 f_equal. lia.
Qed.

Lemma range_single (a : Z) : Py.range a (a + 1) = [a].
Proof.
  unfold Py.range. replace (Z.to_nat (a + 1 - a)) with 1%nat by lia.
  simpl. f_equal. lia.
Qed.

Lemma ranges_from_expand (rest : list Z) (start stop : Z) :
  start <= stop ->
  flat_map span (ranges_from start stop rest)
  = Py.range start (stop + 1) ++ rest
  /\ Forall (fun r => fst r <= snd r) (ranges_from start stop rest).
Proof.
  revert start stop.
  induction rest as [|p r IH]; intros start stop H; cbn [ranges_from].
  - split; [reflexivity|]. now repeat constructor.
  - destruct (p =? stop + 1) eqn:E.
    + apply Z.eqb_eq in E. subst p.
      destruct (IH start (stop + 1)) as [IH1 IH2]; [lia|].
      split; [|exact IH2].
      rewrite IH1, (range_snoc start (stop + 1)) by lia.
      now rewrite <- app_assoc.
    + destruct (IH p p) as [IH1 IH2]; [lia|].
      split; [|constructor; [exact H|exact IH2]].
      cbn [flat_map]. rewrite IH1, range_single.
      reflexivity.
Qed.

Lemma insert_sorted_head (x : Z) (l : list Z) :
  Forall (fun y => x < y) l -> Py.insert_by Z.ltb (fun p => p) x l = x :: l.
Proof.
  destruct l as [|y r]; simpl; [reflexivity|].
  intros H. inversion H as [|? ? Hy _]; subst.
  assert (E : (y <? x) = false) by (apply Z.ltb_ge; lia).
  now rewrite E.
Qed.

Lemma sorted_of_increasing (l : list Z) :
  StronglySorted Z.lt l -> Py.sorted Z.ltb (fun p => p) l = l.
Proof.
  induction 1 as [|x r Hr IH Hx]; simpl; [reflexivity|].
  rewrite IH. now apply insert_sorted_head.
Qed.

Lemma ranges_from_starts (rest : list Z) (start stop : Z) :
  start <= stop -> StronglySorted Z.lt (stop :: rest) ->
  Forall (fun r => start <= fst r) (ranges_from start stop rest).
Proof.
  revert start stop.
  induction rest as [|p r IH]; intros start stop H Hs; cbn [ranges_from].
  - repeat constructor. simpl. lia.
  - apply StronglySorted_inv in Hs as [Hs Hp].
    inversion Hp as [|? ? Hsp Hr]; subst.
    destruct (p =? stop + 1).
    + apply IH; [lia|exact Hs].
    + constructor; [simpl; lia|].
      eapply Forall_impl; [|apply (IH p p); [lia|exact Hs]].
      simpl. intros; lia.
Qed.

Lemma ranges_from_separated (rest : list Z) (start stop : Z) :
  StronglySorted Z.lt (stop :: rest) ->
  StronglySorted (fun r r' => snd r + 1 < fst r') (ranges_from start stop rest).
Proof.
  revert start stop.
  induction rest as [|p r IH]; intros start stop Hs; cbn [ranges_from].
  - repeat constructor.
  - pose proof (StronglySorted_inv Hs) as [Hs' Hp].
    inversion Hp as [|? ? Hsp Hr]; subst.
    destruct (p =? stop + 1) eqn:E.
    + apply IH. exact Hs'.
    + apply Z.eqb_neq in E. constructor; [apply IH; exact Hs'|].
      eapply Forall_impl; [|apply (ranges_from_starts r p p); [lia|exact Hs']].
      simpl. intros; lia.
Qed.

Lemma range_cons (a b : Z) : a < b -> Py.range a b = a :: Py.range (a + 1) b.
Proof.
  intros H. unfold Py.range.
  replace (Z.to_nat (b - a)) with (S (Z.to_nat (b - (a + 1)))) by lia.
  cbn [seq map]. f_equal; [lia|].
  rewrite <- seq_shift, map_map. apply map_ext. intros k. lia.
Qed.

Lemma range_increasing (n : nat) (a b : Z) :
  Z.to_nat (b - a) = n ->
  StronglySorted Z.lt (Py.range a b)
  /\ Forall (fun x => a <= x) (Py.range a b).
Proof.
  revert a. induction n as [|n IH]; intros a Hn.
  - unfold Py.range. rewrite Hn. split; constructor.
  - rewrite range_cons by lia.
    destruct (IH (a + 1)) as [I1 I2]; [lia|].
    split.
    + constructor; [exact I1|].
      eapply Forall_impl; [|exact I2]. simpl. intros; lia.
    + constructor; [lia|].
      eapply Forall_impl; [|exact I2]. simpl. intros; lia.
Qed.

Lemma ranges_from_run (n : nat) (start stop b : Z) :
  Z.to_nat (b - stop) = n -> stop <= b ->
  ranges_from start stop (Py.range (stop + 1) (b + 1)) = [(start, b)].
Proof.
  revert stop. induction n as [|n IH]; intros stop Hn Hle.
  - assert (stop = b) by lia. subst b.
    unfold Py.range. now replace (Z.to_nat (stop + 1 - (stop + 1))) with 0%nat
      by lia.
  - rewrite range_cons by lia. cbn [ranges_from].
    rewrite Z.eqb_refl. apply IH; lia.
Qed.

(** X2.  The ranges written for a list of page numbers cover exactly the sorted
    list: expanding every range to the integers from its start to its end
    gives the sorted input back, and no range is empty.  When the input is
    strictly increasing, as the list of missing pages is, consecutive
    ranges are separated by at least one absent number.  A run of
    consecutive numbers is written as one range. *)
Theorem page_ranges_round_trip (pages : list Z) :
  flat_map span (page_ranges pages) = Py.sorted Z.ltb (fun p => p) pages
  /\ Forall (fun r => fst r <= snd r) (page_ranges pages)
  /\ (StronglySorted Z.lt pages ->
      flat_map span (page_ranges pages) = pages
      /\ StronglySorted (fun r r' => snd r + 1 < fst r') (page_ranges pages))
  /\ (forall a b, a <= b ->
                  pages = Py.range a (b + 1) ->
                  format_page_ranges pages = show_range (a, b)).
Proof.
  unfold page_ranges.
  assert (G : flat_map span
                (match Py.sorted Z.ltb (fun p => p) pages with
                 | [] => []
                 | first :: rest => ranges_from first first rest
                 end) = Py.sorted Z.ltb (fun p => p) pages
              /\ Forall (fun r => fst r <= snd r)
                   (match Py.sorted Z.ltb (fun p => p) pages with
                    | [] => []
                    | first :: rest => ranges_from first first rest
                    end)).
  { destruct (Py.sorted Z.ltb (fun p => p) pages) as [|first rest];
      [now split|].
    destruct (ranges_from_expand rest first first) as [E F]; [lia|].
    split; [|exact F]. now rewrite E, range_single. }
  destruct G as [G1 G2]. split; [exact G1|]. split; [exact G2|].
  split.
  - intros Hs. rewrite G1. rewrite (sorted_of_increasing pages Hs).
    split; [reflexivity|].
    destruct pages as [|first rest]; [constructor|].
    now apply ranges_from_separated.
  - intros a b Hab ->. unfold format_page_ranges, page_ranges.
    rewrite sorted_of_increasing
      by (apply (range_increasing (Z.to_nat (b + 1 - a))); reflexivity).
    rewrite range_cons by lia.
    now rewrite (ranges_from_run (Z.to_nat (b - a)) a a b) by lia.
Qed.

Lemma page_ranges_round_trip_witness :
  StronglySorted Z.lt (PageNumbers.detect_missing_pages
                         [(0%nat, 1); (1%nat, 5); (2%nat, 8)])
  /\ page_ranges (PageNumbers.detect_missing_pages
                    [(0%nat, 1); (1%nat, 5); (2%nat, 8)])
     = [(2, 4); (6, 7)]
  /\ format_page_ranges (PageNumbers.detect_missing_pages
                           [(0%nat, 1); (1%nat, 5); (2%nat, 8)])
     = "2-4, 6-7"%string
  /\ flat_map span (page_ranges (PageNumbers.detect_missing_pages
                                   [(0%nat, 1); (1%nat, 5); (2%nat, 8)]))
     = [2; 3; 4; 6; 7].
Proof.
  assert (Hs : StronglySorted Z.lt (PageNumbers.detect_missing_pages
                                      [(0%nat, 1); (1%nat, 5); (2%nat, 8)])).
  { apply missing_between_sorted. apply sorted_numbers_le. }
  split; [exact Hs|]. split; [reflexivity|]. split; [reflexivity|].
  rewrite (proj1 (proj1 (proj2 (proj2 (page_ranges_round_trip _))) Hs)).
  reflexivity.
Defined.

End PageRanges.

(** ** Near duplicates (modules/duplicates.py) *)

Section SortedFlatMap.
Variables A B : Type.
Variable Q : A -> A -> Prop.
Variable R : B -> B -> Prop.
Variable f : A -> list B.

Lemma StronglySorted_app (l1 l2 : list B) :
  StronglySorted R l1 -> StronglySorted R l2 ->
  (forall a b, In a l1 -> In b l2 -> R a b) ->
  StronglySorted R (l1 ++ l2).
Proof.
  induction 1 as [|x r Hr IH Hx]; intros H2 Hc; simpl; [exact H2|].
  constructor.
  - apply IH; [exact H2|]. intros a b Ha Hb. apply Hc; [now right|exact Hb].
  - apply Forall_app. split; [exact Hx|].
    apply Forall_forall. intros b Hb. apply Hc; [now left|exact Hb].
Qed.

Lemma StronglySorted_flat_map (l : list A) :
  StronglySorted Q l ->
  (forall x, In x l -> StronglySorted R (f x)) ->
  (forall x y a b, Q x y -> In a (f x) -> In b (f y) -> R a b) ->
  StronglySorted R (flat_map f l).
Proof.
  induction 1 as [|x r Hr IH Hx]; intros Hf Hc; simpl; [constructor|].
  apply StronglySorted_app.
  - apply Hf. now left.
  - apply IH; [|exact Hc]. intros y Hy. apply Hf. now right.
  - intros a b Ha Hb. apply in_flat_map in Hb as (y & Hy & Hb).
    rewrite Forall_forall in Hx. exact (Hc x y a b (Hx y Hy) Ha Hb).
Qed.

Lemma filter_flat_map (P : B -> bool) (l : list A) :
  filter P (flat_map f l) = flat_map (fun x => filter P (f x)) l.
Proof.
  induction l as [|x r IH]; simpl; [reflexivity|].
  now rewrite filter_app, IH.
Qed.

End SortedFlatMap.

Section NearDuplicatePairs.
Import NearDuplicates Spec2.
Variable embedding : Type.
Variable compute_similarity : embedding -> embedding -> Q.

Lemma In_compare_pair (embeddings : list embedding) (threshold : Q)
      (i j : nat) (t : nat * nat * Q) :
  In t (compare_pair compute_similarity embeddings threshold i j) <->
  exists e_i e_j,
    nth_error embeddings i = Some e_i /\ nth_error embeddings j = Some e_j
    /\ (threshold <= compute_similarity e_i e_j)%Q
    /\ t = (i, j, compute_similarity e_i e_j).
Proof.
  unfold compare_pair.
  destruct (nth_error embeddings i) as [e_i|];
    [destruct (nth_error embeddings j) as [e_j|]|].
  - cbv zeta.
    destruct (Qle_bool threshold (compute_similarity e_i e_j)) eqn:E.
    + apply Qle_bool_iff in E. simpl. split.
      * intros [<-|[]]. exists e_i, e_j. auto.
      * intros (a & b & Ha & Hb & _ & ->).
        injection Ha as <-. injection Hb as <-. now left.
    + split; [intros []|]. intros (a & b & Ha & Hb & Hle & _).
      injection Ha as <-. injection Hb as <-.
      apply Qle_bool_iff in Hle. congruence.
  - split; [intros []|]. intros (a & b & _ & Hb & _). discriminate.
  - split; [intros []|]. intros (a & b & Ha & _). discriminate.
Qed.

Lemma In_find_near_duplicates (pages : list page)
      (embeddings : list embedding) (threshold : Q) (i j : nat) (s : Q) :
  In (i, j, s)
     (find_near_duplicates compute_similarity pages embeddings threshold)
  <-> i < j
      /\ exists e_i e_j,
          nth_error embeddings i = Some e_i
          /\ nth_error embeddings j = Some e_j
          /\ (threshold <= compute_similarity e_i e_j)%Q
          /\ s = compute_similarity e_i e_j.
Proof.
  unfold find_near_duplicates. cbv zeta. rewrite in_flat_map. split.
  - intros (i' & Hi' & H). apply in_flat_map in H as (j' & Hj' & H).
    apply In_compare_pair in H as (a & b & Ha & Hb & Hle & E).
    injection E as -> -> ->. apply in_seq in Hj'.
    split; [lia|]. exists a, b. auto.
  - intros (Hij & a & b & Ha & Hb & Hle & ->).
    assert (j < length embeddings) by (apply nth_error_Some; congruence).
    exists i. split; [apply in_seq; lia|].
    apply in_flat_map. exists j. split; [apply in_seq; lia|].
    apply In_compare_pair. exists a, b. auto.
Qed.

(** X3.  [find_near_duplicates] reports exactly the pairs of two different
    embedding positions, lower index first, whose similarity reaches the
    threshold, with that similarity; the pairs come in the order of the
    first index, then of the second, so no pair is reported twice. *)
Theorem near_duplicate_pairs (pages : list page)
        (embeddings : list embedding) (threshold : Q) :
  (forall i j s,
      In (i, j, s)
         (find_near_duplicates compute_similarity pages embeddings threshold)
      <-> i < j
          /\ exists e_i e_j,
              nth_error embeddings i = Some e_i
              /\ nth_error embeddings j = Some e_j
              /\ (threshold <= compute_similarity e_i e_j)%Q
              /\ s = compute_similarity e_i e_j)
  /\ StronglySorted pair_before
       (find_near_duplicates compute_similarity pages embeddings threshold).
Proof.
  split; [apply In_find_near_duplicates|].
  unfold find_near_duplicates. cbv zeta.
  apply (StronglySorted_flat_map _ _ lt); [apply seq_sorted| |].
  - intros i _.
    apply (StronglySorted_flat_map _ _ lt); [apply seq_sorted| |].
    + intros j _. unfold compare_pair.
      destruct (nth_error embeddings i); [|constructor].
      destruct (nth_error embeddings j); [|constructor].
      cbv zeta. destruct (Qle_bool _ _); repeat constructor.
    + intros j j' a b Hlt Ha Hb.
      apply In_compare_pair in Ha as (? & ? & _ & _ & _ & ->).
      apply In_compare_pair in Hb as (? & ? & _ & _ & _ & ->).
      right. simpl. split; [reflexivity|exact Hlt].
  - intros i i' a b Hlt Ha Hb.
    apply in_flat_map in Ha as (j & _ & Ha).
    apply in_flat_map in Hb as (j' & _ & Hb).
    apply In_compare_pair in Ha as (? & ? & _ & _ & _ & ->).
    apply In_compare_pair in Hb as (? & ? & _ & _ & _ & ->).
    left. exact Hlt.
Qed.

(** X4.  Raising the threshold only removes pairs: the result for the higher
    threshold is the result for the lower one without the pairs whose
    similarity is below the higher threshold. *)
Theorem near_duplicates_threshold_monotone (pages : list page)
        (embeddings : list embedding) (low high : Q) :
  (low <= high)%Q ->
  find_near_duplicates compute_similarity pages embeddings high
  = filter (fun t => Qle_bool high (snd t))
           (find_near_duplicates compute_similarity pages embeddings low)
  /\ length (find_near_duplicates compute_similarity pages embeddings high)
     <= length (find_near_duplicates compute_similarity pages embeddings low).
Proof.
  intros Hle.
  assert (E : find_near_duplicates compute_similarity pages embeddings high
              = filter (fun t => Qle_bool high (snd t))
                  (find_near_duplicates compute_similarity pages embeddings
                                        low)).
  { unfold find_near_duplicates. cbv zeta. rewrite filter_flat_map.
    apply flat_map_ext. intros i. rewrite filter_flat_map.
    apply flat_map_ext. intros j. unfold compare_pair.
    destruct (nth_error embeddings i) as [a|]; [|reflexivity].
    destruct (nth_error embeddings j) as [b|]; [|reflexivity].
    cbv zeta. destruct (Qle_bool low (compute_similarity a b)) eqn:El.
    - simpl. now destruct (Qle_bool high (compute_similarity a b)).
    - destruct (Qle_bool high (compute_similarity a b)) eqn:Eh;
        [|reflexivity].
      apply Qle_bool_iff in Eh.
      assert (X : Qle_bool low (compute_similarity a b) = true)
        by (apply Qle_bool_iff; now apply Qle_trans with high).
      congruence. }
  split; [exact E|]. rewrite E. apply filter_length_le.
Qed.

End NearDuplicatePairs.

Section NearDuplicateExamples.
Import NearDuplicates.

Lemma near_duplicates_threshold_monotone_witness :
  (1 # 2 <= 19 # 20)%Q
  /\ find_near_duplicates (fun a b : Q => Qmult a b) []
                          [1%Q; (3 # 4)%Q; 1%Q] (1 # 2)
     = [(0, 1, (1 * (3 # 4))%Q); (0, 2, (1 * 1)%Q); (1, 2, ((3 # 4) * 1)%Q)]
  /\ find_near_duplicates (fun a b : Q => Qmult a b) []
                          [1%Q; (3 # 4)%Q; 1%Q] (19 # 20)
     = filter (fun t => Qle_bool (19 # 20) (snd t))
              (find_near_duplicates (fun a b : Q => Qmult a b) []
                                    [1%Q; (3 # 4)%Q; 1%Q] (1 # 2)).
Proof.
  assert (H : (1 # 2 <= 19 # 20)%Q) by (unfold Qle; simpl; lia).
  split; [exact H|]. split; [reflexivity|].
  apply (near_duplicates_threshold_monotone
           Q (fun a b : Q => Qmult a b) [] [1%Q; (3 # 4)%Q; 1%Q]
           (1 # 2) (19 # 20) H).
Defined.

End NearDuplicateExamples.

(** ** Marking duplicates (modules/duplicates.py) *)

Section MarkingMore.
Import Spec Spec2 Duplicates.

(** [pages[i]] is defined exactly for the indices from [-len(pages)] to
    [len(pages) - 1]. *)
Lemma update_at_cases (i : Z) (f : page -> page) (ps : list page) :
  (forall p, content (f p) = content p) ->
  match update_at i f ps with
  | Some ps' => map content ps' = map content ps
                /\ accepted_index (length ps) i
  | None => ~ accepted_index (length ps) i
  end.
Proof.
  intros Hf. unfold update_at, accepted_index.
  pose proof (index_cases (length ps) i) as Hi.
  destruct (Py.index (length ps) i) as [k|].
  - destruct Hi as [Hk Hi].
    destruct (update_position_spec k f ps Hk) as (ps' & E & _).
    rewrite E. split; [now apply (update_position_map _ content k f)|lia].
  - lia.
Qed.

(** A negative index reads the page counted from the end. *)
Lemma update_at_negative (i : Z) (f : page -> page) (ps : list page) :
  (- Z.of_nat (length ps) <= i < 0)%Z ->
  update_at i f ps = update_at (i + Z.of_nat (length ps)) f ps.
Proof.
  intros Hi. unfold update_at, Py.index.
  destruct (i <? 0)%Z eqn:E0; [|apply Z.ltb_ge in E0; lia].
  destruct (i + Z.of_nat (length ps) <? 0)%Z eqn:E1;
    [apply Z.ltb_lt in E1; lia|].
  destruct (i + Z.of_nat (length ps) <? Z.of_nat (length ps))%Z eqn:E2;
    [reflexivity|apply Z.ltb_ge in E2; lia].
Qed.

Lemma content_length (ps ps' : list page) :
  map content ps' = map content ps -> length ps' = length ps.
Proof.
  intros H. rewrite <- (length_map content ps'), H. apply length_map.
Qed.

Lemma mark_group_cases (orig : Z) (dups : list Z) (ps : list page) :
  match mark_group orig dups ps with
  | Some ps' => map content ps' = map content ps
                /\ Forall (accepted_index (length ps)) dups
  | None => ~ Forall (accepted_index (length ps)) dups
  end.
Proof.
  revert ps. induction dups as [|d r IH]; intros ps; simpl.
  - split; [reflexivity|constructor].
  - pose proof (update_at_cases d (flag_exact orig) ps
                                (fun p => eq_refl)) as Hu.
    destruct (update_at d (flag_exact orig) ps) as [ps1|].
    + destruct Hu as [Hc Hd].
      pose proof (content_length _ _ Hc) as L.
      specialize (IH ps1). destruct (mark_group orig r ps1) as [ps'|].
      * destruct IH as [I1 I2]. split; [congruence|].
        constructor; [exact Hd|]. now rewrite <- L.
      * intros H. inversion H; subst. apply IH. now rewrite L.
    + intros H. inversion H; subst. contradiction.
Qed.

Lemma mark_exact_cases (groups : list (list Z)) (ps : list page) :
  match mark_exact groups ps with
  | Some ps' =>
      map content ps' = map content ps
      /\ Forall (fun g => Forall (accepted_index (length ps)) (tl g)) groups
  | None =>
      ~ Forall (fun g => Forall (accepted_index (length ps)) (tl g)) groups
  end.
Proof.
  revert ps. induction groups as [|g more IH]; intros ps.
  - simpl. split; [reflexivity|constructor].
  - assert (G : match (match g with
                       | o :: (_ :: _) as dups => mark_group o dups ps
                       | _ => Some ps
                       end) with
                | Some ps' => map content ps' = map content ps
                              /\ Forall (accepted_index (length ps)) (tl g)
                | None => ~ Forall (accepted_index (length ps)) (tl g)
                end).
    { destruct g as [|o [|d dups]]; simpl;
        [split; [reflexivity|constructor]..|].
      apply (mark_group_cases o (d :: dups) ps). }
    cbn [mark_exact].
    destruct (match g with
              | o :: (_ :: _) as dups => mark_group o dups ps
              | _ => Some ps
              end) as [ps1|].
    + destruct G as [Hc Hg]. pose proof (content_length _ _ Hc) as L.
      specialize (IH ps1). destruct (mark_exact more ps1) as [ps'|].
      * destruct IH as [I1 I2]. split; [congruence|].
        constructor; [exact Hg|]. now rewrite <- L.
      * intros H. inversion H; subst. apply IH. now rewrite L.
    + intros H. inversion H; subst. now apply G.
Qed.

Lemma mark_near_cases (near : list (Z * Z * Q)) (ps : list page) :
  match mark_near near ps with
  | Some ps' => map content ps' = map content ps
                /\ Forall (fun t => accepted_index (length ps) (snd (fst t)))
                          near
  | None => ~ Forall (fun t => accepted_index (length ps) (snd (fst t)))
                     near
  end.
Proof.
  revert ps. induction near as [|[[idx1 idx2] s] r IH]; intros ps; simpl.
  - split; [reflexivity|constructor].
  - pose proof (update_at_cases idx2 (flag_near idx1 s) ps
                                (fun p => eq_refl)) as Hu.
    destruct (update_at idx2 (flag_near idx1 s) ps) as [ps1|].
    + destruct Hu as [Hc Hd].
      pose proof (content_length _ _ Hc) as L.
      specialize (IH ps1). destruct (mark_near r ps1) as [ps'|].
      * destruct IH as [I1 I2]. split; [congruence|].
        constructor; [exact Hd|]. now rewrite <- L.
      * intros H. inversion H; subst. apply IH. now rewrite L.
    + intros H. inversion H; subst. contradiction.
Qed.

Lemma mark_duplicates_cases (pages : list page) (exact : list (list Z))
      (near : list (Z * Z * Q)) :
  match mark_duplicates pages exact near with
  | Some marked => map content marked = map content pages
                   /\ targets_in_range (length pages) exact near
  | None => ~ targets_in_range (length pages) exact near
  end.
Proof.
  unfold mark_duplicates, targets_in_range.
  assert (Hi : map content (map init_flags pages) = map content pages)
    by (rewrite map_map; now apply map_ext).
  pose proof (mark_exact_cases exact (map init_flags pages)) as H1.
  rewrite length_map in H1.
  destruct (mark_exact exact (map init_flags pages)) as [ps1|].
  - destruct H1 as [Hc1 He]. pose proof (content_length _ _ Hc1) as L.
    rewrite length_map in L.
    pose proof (mark_near_cases near ps1) as H2. rewrite L in H2.
    destruct (mark_near near ps1) as [ps2|].
    + destruct H2 as [Hc2 Hn]. split; [congruence|]. now split.
    + intros [_ Hn]. now apply H2.
  - intros [He _]. now apply H1.
Qed.

(** X5.  [mark_duplicates], given any lists of integers, raises IndexError
    exactly when a group lists, after its first index, an integer that the
    page list does not accept as an index, or a pair has such a second
    index; the accepted indices of [n] pages are those from [-n] to
    [n - 1], and a negative one marks the page counted from the end.
    First indices are never used as positions.  When [mark_duplicates]
    returns it has only annotated: the pages are the same in number and
    order and each keeps its index, text, title, detected page number,
    section value, position hint and position. *)
Theorem mark_duplicates_only_annotates (pages : list page)
        (exact_duplicates : list (list Z))
        (near_duplicates : list (Z * Z * Q)) :
  ((exists marked,
       mark_duplicates pages exact_duplicates near_duplicates = Some marked)
   <-> targets_in_range (length pages) exact_duplicates near_duplicates)
  /\ (forall marked,
         mark_duplicates pages exact_duplicates near_duplicates
         = Some marked ->
         map content marked = map content pages
         /\ length marked = length pages)
  /\ (forall original_idx dup_idx,
         (- Z.of_nat (length pages) <= dup_idx < 0)%Z ->
         mark_duplicates pages [[original_idx; dup_idx]] []
         = mark_duplicates
             pages
             [[original_idx; (dup_idx + Z.of_nat (length pages))%Z]] []).
Proof.
  pose proof (mark_duplicates_cases pages exact_duplicates near_duplicates)
    as H.
  split; [|split].
  - destruct (mark_duplicates pages exact_duplicates near_duplicates)
      as [marked|].
    + destruct H as [Hc Ht].
      split; [intros _; exact Ht|intros _; now exists marked].
    + split; [intros [? ?]; discriminate|intros Ht; contradiction].
  - intros marked E. rewrite E in H. destruct H as [Hc _].
    split; [exact Hc|now apply content_length].
  - intros o d Hd. unfold mark_duplicates. cbn [mark_exact mark_group].
    rewrite (update_at_negative d (flag_exact o) (map init_flags pages))
      by (now rewrite length_map).
    now rewrite length_map.
Qed.

Lemma last_similarity_none (near : list (nat * nat * Q)) (i : nat)
      (d : option Q) :
  existsb (fun t => snd (fst t) =? i) near = false ->
  last_similarity near i d = d.
Proof.
  unfold last_similarity. revert d.
  induction near as [|t r IH]; intros d; simpl; [reflexivity|].
  intros H. apply orb_false_iff in H as [H1 H2]. rewrite H1. now apply IH.
Qed.

Lemma last_similarity_some (near : list (nat * nat * Q)) (i : nat)
      (d : option Q) :
  existsb (fun t => snd (fst t) =? i) near = true ->
  exists k s, In (k, i, s) near /\ last_similarity near i d = Some s.
Proof.
  revert d. induction near as [|[[k j] s] r IH]; intros d; simpl;
    [discriminate|].
  destruct (existsb (fun t => snd (fst t) =? i) r) eqn:Er.
  - intros _. destruct (IH (if j =? i then Some s else d) eq_refl)
      as (k' & s' & Hin & E).
    exists k', s'. split; [now right|exact E].
  - rewrite orb_false_r. intros Ej. exists k, s.
    apply Nat.eqb_eq in Ej. subst j. split; [now left|].
    unfold last_similarity. simpl. rewrite Nat.eqb_refl.
    now apply last_similarity_none.
Qed.

Lemma mark_near_flags (near : list (nat * nat * Q)) (ps ps' : list page) :
  mark_near (pair_indices near) ps = Some ps' ->
  forall i p, nth_error ps i = Some p ->
    exists m, nth_error ps' i = Some m
              /\ is_near_duplicate m
                 = is_near_duplicate p
                   || existsb (fun t => snd (fst t) =? i) near
              /\ duplicate_similarity m
                 = last_similarity near i (duplicate_similarity p).
Proof.
  revert ps. induction near as [|[[idx1 idx2] s] r IH]; intros ps; simpl.
  - intros [= <-] i p Hp. exists p. now rewrite orb_false_r.
  - destruct (update_at (Z.of_nat idx2) (flag_near (Z.of_nat idx1) s) ps)
      as [ps1|] eqn:E; [|discriminate].
    intros Hr i p Hp.
    assert (Hd : idx2 < length ps).
    { rewrite update_at_of_nat in E.
      now apply update_position_inv in E. }
    destruct (update_at_spec idx2 (flag_near (Z.of_nat idx1) s) ps Hd)
      as (ps1' & E' & _ & N1).
    assert (ps1' = ps1) by congruence. subst ps1'.
    specialize (N1 i). rewrite Hp in N1. rewrite (Nat.eqb_sym idx2 i).
    unfold last_similarity. simpl. rewrite ?(Nat.eqb_sym idx2 i).
    destruct (i =? idx2).
    + destruct (IH ps1 Hr i _ N1) as (m & Hm & Hn & Hs).
      exists m. split; [exact Hm|]. split.
      * rewrite Hn. simpl. now rewrite orb_true_r.
      * rewrite Hs. reflexivity.
    + destruct (IH ps1 Hr i _ N1) as (m & Hm & Hn & Hs).
      exists m. split; [exact Hm|]. split; [exact Hn|exact Hs].
Qed.

End MarkingMore.

Section MarkingExamples.
Import Spec2 Duplicates Examples.

Lemma mark_duplicates_only_annotates_witness :
  (exists marked,
      mark_duplicates four_pages [[0; -1]; [3]]%Z [(0, 1, 1%Q)]%Z
      = Some marked
      /\ map content marked = map content four_pages
      /\ length marked = 4
      /\ map is_exact_duplicate marked = [false; false; false; true]
      /\ map is_near_duplicate marked = [false; true; false; false])
  /\ (- Z.of_nat (length four_pages) <= -1 < 0)%Z
  /\ mark_duplicates four_pages [[0; -1]]%Z []
     = mark_duplicates four_pages [[0; 3]]%Z []
  /\ mark_duplicates four_pages [[0; 4]]%Z [] = None
  /\ mark_duplicates four_pages [[0; -5]]%Z [] = None.
Proof.
  destruct (mark_duplicates_only_annotates
              four_pages [[0; -1]; [3]]%Z [(0, 1, 1%Q)]%Z)
    as (_ & Hkeep & _).
  destruct (mark_duplicates_only_annotates four_pages [] [])
    as (_ & _ & Hneg).
  assert (Hr : (- Z.of_nat (length four_pages) <= -1 < 0)%Z)
    by (simpl; lia).
  split.
  { eexists. split; [reflexivity|].
    destruct (Hkeep _ eq_refl) as [Hc Hl].
    split; [exact Hc|]. split; [exact Hl|]. split; reflexivity. }
  split; [exact Hr|].
  split; [exact (Hneg 0%Z (-1)%Z Hr)|]. split; reflexivity.
Defined.

End MarkingExamples.

(** ** The duplicate step of the pipeline: detectors, marks and report *)

Section Counting.
Import Spec Duplicates NearDuplicates.

Local Abbreviation mem x l := (existsb (String.eqb x) l).

Local Abbreviation occurrences hs ks :=
  (list_sum (map (fun h => length (positions hs h)) ks)).

Lemma occurrences_snoc (hs : list string) (x : string) (ks : list string) :
  NoDup ks ->
  occurrences (hs ++ [x]) ks
  = occurrences hs ks + (if mem x ks then 1 else 0).
Proof.
  induction 1 as [|k r Hk Hr IH]; simpl; [reflexivity|].
  rewrite positions_snoc, length_app, IH.
  destruct (String.eqb x k) eqn:E; simpl.
  - apply String.eqb_eq in E. subst k.
    apply mem_not_In in Hk. rewrite Hk. lia.
  - lia.
Qed.

Lemma occurrences_distinct (hs : list string) :
  occurrences hs (distinct hs) = length hs.
Proof.
  induction hs as [|x r IH] using rev_ind; [reflexivity|].
  rewrite distinct_snoc, length_app. simpl.
  destruct (mem x (distinct r)) eqn:E.
  - rewrite occurrences_snoc by apply distinct_NoDup. rewrite E, IH.
    reflexivity.
  - rewrite map_app, list_sum_app. simpl.
    rewrite occurrences_snoc by apply distinct_NoDup. rewrite E, IH.
    rewrite positions_snoc, String.eqb_refl, length_app.
    apply mem_not_In in E. rewrite distinct_In in E.
    apply positions_nil_iff in E. rewrite E. simpl. lia.
Qed.

Lemma count_exact_cons (g : list nat) (more : list (list nat)) :
  count_exact (g :: more) = (Z.of_nat (length g) - 1 + count_exact more)%Z.
Proof. reflexivity. Qed.

Lemma count_exact_groups (hs ks : list string) :
  (forall h, In h ks -> In h hs) ->
  count_exact (filter (fun g => 1 <? length g) (map (positions hs) ks))
  = (Z.of_nat (occurrences hs ks) - Z.of_nat (length ks))%Z.
Proof.
  induction ks as [|k r IH]; intros Hin; [reflexivity|].
  assert (Hk : 1 <= length (positions hs k)).
  { destruct (positions hs k) eqn:E; [|simpl; lia].
    apply positions_nil_iff in E. exfalso. apply E, Hin. now left. }
  assert (IH' := IH (fun h Hh => Hin h (or_intror Hh))).
  unfold list_sum in *. cbn [map filter fold_right length].
  destruct (1 <? length (positions hs k)) eqn:E.
  - rewrite count_exact_cons, IH'. lia.
  - apply Nat.ltb_ge in E. rewrite IH'. lia.
Qed.

Lemma first_occurrence_old (hs : list string) (x : string) (j : nat) :
  j < length hs ->
  first_occurrence (hs ++ [x]) j = first_occurrence hs j.
Proof.
  intros Hj. unfold first_occurrence. rewrite nth_error_app1 by exact Hj.
  destruct (nth_error hs j) as [h|] eqn:E; [|reflexivity].
  rewrite positions_snoc. apply positions_In in E.
  destruct (positions hs h); [contradiction|reflexivity].
Qed.

Lemma first_occurrence_new (hs : list string) (x : string) :
  (first_occurrence (hs ++ [x]) (length hs) <? length hs)
  = mem x (distinct hs).
Proof.
  unfold first_occurrence.
  rewrite nth_error_app2, Nat.sub_diag by lia. simpl.
  rewrite positions_snoc, String.eqb_refl.
  destruct (positions hs x) as [|f r] eqn:E; simpl.
  - rewrite Nat.ltb_irrefl. symmetry. apply mem_not_In.
    rewrite distinct_In. now apply positions_nil_iff.
  - assert (Hf : nth_error hs f = Some x)
      by (apply positions_In; rewrite E; now left).
    assert (f < length hs) by (apply nth_error_Some; congruence).
    transitivity true; [now apply Nat.ltb_lt|]. symmetry.
    apply mem_In, distinct_In. now apply nth_error_In with f.
Qed.

Lemma later_occurrences_count (hs : list string) :
  length (filter (fun j => first_occurrence hs j <? j) (seq 0 (length hs)))
  + length (distinct hs) = length hs.
Proof.
  induction hs as [|x r IH] using rev_ind; [reflexivity|].
  rewrite length_app. simpl. rewrite Nat.add_1_r, seq_S, filter_app.
  rewrite length_app. simpl.
  rewrite (filter_ext_in _ (fun j => first_occurrence r j <? j)).
  2:{ intros j Hj. apply in_seq in Hj.
      now rewrite first_occurrence_old by lia. }
  rewrite first_occurrence_new, distinct_snoc.
  destruct (mem x (distinct r)); simpl; [lia|].
  rewrite length_app. simpl. lia.
Qed.

Lemma filter_length_pointwise (A : Type) (P : A -> bool) (Q : nat -> bool)
      (l : list A) :
  (forall j m, nth_error l j = Some m -> P m = Q j) ->
  length (filter P l) = length (filter Q (seq 0 (length l))).
Proof.
  induction l as [|x r IH] using rev_ind; intros H; [reflexivity|].
  rewrite length_app. simpl. rewrite Nat.add_1_r, seq_S, !filter_app.
  rewrite !length_app. simpl. f_equal.
  - apply IH. intros j m Hj. apply H.
    rewrite nth_error_app1; [exact Hj|].
    apply nth_error_Some. congruence.
  - rewrite <- (H (length r) x).
    + now destruct (P x).
    + now rewrite nth_error_app2, Nat.sub_diag by lia.
Qed.

Lemma exact_entries_total (pages : list page) (exact : list (list nat)) :
  Forall (fun g => exists f r, g = f :: r /\ f < length pages) exact ->
  exists entries, exact_entries pages exact = Some entries
                  /\ length entries = length exact.
Proof.
  induction 1 as [|g more (f & r & -> & Hf) _ (entries & E & L)]; simpl.
  - now exists [].
  - destruct (nth_error pages f) as [p|] eqn:Ep.
    + rewrite E. eexists. split; [reflexivity|]. simpl. now rewrite L.
    + apply nth_error_None in Ep. lia.
Qed.

Lemma near_entries_total (round3 : Q -> Q) (pages : list page)
      (near : list (nat * nat * Q)) :
  Forall (fun t => fst (fst t) < length pages
                   /\ snd (fst t) < length pages) near ->
  exists entries, near_entries round3 pages near = Some entries
                  /\ length entries = length near.
Proof.
  induction 1 as [|[[i j] s] more [Hi Hj] _ (entries & E & L)]; simpl.
  - now exists [].
  - simpl in Hi, Hj.
    destruct (nth_error pages i) as [p|] eqn:Ep;
      [|apply nth_error_None in Ep; lia].
    destruct (nth_error pages j) as [q|] eqn:Eq;
      [|apply nth_error_None in Eq; lia].
    rewrite E. eexists. split; [reflexivity|]. simpl. now rewrite L.
Qed.

End Counting.

Section DetectedDuplicates.
Import Spec Spec2 Duplicates NearDuplicates.

Variable sha256_hexdigest : string -> string.
Variable embedding : Type.
Variable compute_similarity : embedding -> embedding -> Q.
Variable round3 : Q -> Q.

Local Abbreviation hash_of p := (compute_page_hash sha256_hexdigest (text p)).
Local Abbreviation hashes pages := (map (fun p => hash_of p) pages).
Local Abbreviation groups_of pages :=
  (find_exact_duplicates sha256_hexdigest pages).
Local Abbreviation near_of pages embeddings threshold :=
  (find_near_duplicates compute_similarity pages embeddings threshold).

Lemma mark_exact_detected (pages : list page) :
  exists ps1,
    mark_exact (group_indices (groups_of pages)) (map init_flags pages)
    = Some ps1
    /\ length ps1 = length pages
    /\ forall i p,
        nth_error pages i = Some p ->
        nth_error ps1 i
        = Some (if first_occurrence (hashes pages) i <? i
                then flag_exact (Z.of_nat (first_occurrence (hashes pages) i))
                                (init_flags p)
                else init_flags p).
Proof.
  destruct (mark_exact_spec (groups_of pages) (map init_flags pages))
    as (ps1 & E1 & L1 & N1).
  { rewrite find_exact_duplicates_groups.
    apply groups_disjoint, distinct_NoDup. }
  { apply Forall_forall. intros g Hg.
    apply (groups_In sha256_hexdigest) in Hg as (h & _ & -> & _).
    pose proof (positions_sorted (hashes pages) h) as Hs.
    assert (Hall : Forall (fun d => d < length (map init_flags pages))
                          (positions (hashes pages) h)).
    { apply Forall_forall. intros d Hd. apply positions_In in Hd.
      rewrite length_map.
      rewrite <- (length_map (fun p => hash_of p) pages).
      apply nth_error_Some. congruence. }
    destruct (positions (hashes pages) h) as [|f r]; simpl.
    - split; constructor.
    - apply StronglySorted_inv in Hs as [Hs _].
      inversion Hall; subst. split; [now apply sorted_NoDup|assumption]. }
  exists ps1. split; [exact E1|]. split; [now rewrite L1, length_map|].
  intros i p Hp. rewrite N1, nth_error_map, Hp. simpl.
  rewrite (groups_target sha256_hexdigest pages i (hash_of p))
    by (now rewrite nth_error_map, Hp).
  now destruct (first_occurrence (hashes pages) i <? i).
Qed.

Lemma near_targets_none (near : list (nat * nat * Q)) (j : nat) :
  existsb (fun t => snd (fst t) =? j) near = false ->
  near_targets near j = [].
Proof.
  unfold near_targets. induction near as [|t r IH]; simpl; [reflexivity|].
  intros H. apply orb_false_iff in H as [H1 H2]. rewrite H1. now apply IH.
Qed.

Lemma near_in_range (pages : list page) (embeddings : list embedding)
      (threshold : Q) :
  length embeddings <= length pages ->
  Forall (fun t => fst (fst t) < length pages /\ snd (fst t) < length pages)
         (near_of pages embeddings threshold).
Proof.
  intros Hlen. apply Forall_forall. intros [[i j] s] H.
  apply In_find_near_duplicates in H as (Hij & a & b & Ha & Hb & _).
  assert (j < length embeddings) by (apply nth_error_Some; congruence).
  simpl. lia.
Qed.

(** X6.  With no more embeddings than pages (the pipeline has one per
    page), marking the detected duplicates never raises.  A page is then
    flagged as a near duplicate exactly when a reported pair has it as
    second member, and the similarity kept is that of such a pair.  Every
    index recorded in [duplicate_of] is lower than the page's own, so the
    first page is never flagged; a page without a flag has no recorded
    target. *)
Theorem detected_duplicates_marked (pages : list page)
        (embeddings : list embedding) (threshold : Q) :
  length embeddings <= length pages ->
  exists marked,
    mark_duplicates pages (group_indices (groups_of pages))
                    (pair_indices (near_of pages embeddings threshold))
    = Some marked
    /\ length marked = length pages
    /\ forall j m,
        nth_error marked j = Some m ->
        (is_near_duplicate m = true
         <-> exists i s, In (i, j, s) (near_of pages embeddings threshold))
        /\ (is_near_duplicate m = true ->
            exists i s, In (i, j, s) (near_of pages embeddings threshold)
                        /\ duplicate_similarity m = Some s)
        /\ Forall (fun i => (0 <= i < Z.of_nat j)%Z) (duplicate_of m)
        /\ (is_exact_duplicate m = true \/ is_near_duplicate m = true ->
            0 < j)
        /\ (is_exact_duplicate m = false -> is_near_duplicate m = false ->
            duplicate_of m = []).
Proof.
  intros Hlen.
  destruct (mark_exact_detected pages) as (ps1 & E1 & L1 & N1).
  pose proof (near_in_range pages embeddings threshold Hlen) as Hr.
  destruct (mark_near_spec (near_of pages embeddings threshold) ps1)
    as (ps2 & E2 & L2 & N2).
  { eapply Forall_impl; [|exact Hr]. simpl. intros t [_ H]. now rewrite L1. }
  exists ps2. unfold mark_duplicates. rewrite E1.
  split; [exact E2|]. split; [lia|].
  intros j m Hm.
  assert (Hj : j < length pages).
  { rewrite <- L1, <- L2. apply nth_error_Some. congruence. }
  destruct (nth_error pages j) as [p|] eqn:Hp;
    [|apply nth_error_None in Hp; lia].
  specialize (N1 j p Hp).
  destruct (N2 j _ N1) as (m' & Hm' & Hx & Hd).
  destruct (mark_near_flags _ _ _ E2 j _ N1) as (m'' & Hm'' & Hn & Hs).
  assert (m' = m) by congruence. assert (m'' = m) by congruence.
  subst m' m''.
  set (first := first_occurrence (hashes pages) j) in *.
  assert (Hflag : is_near_duplicate m
                  = existsb (fun t => snd (fst t) =? j)
                            (near_of pages embeddings threshold)).
  { rewrite Hn. now destruct (first <? j). }
  assert (Hex : is_exact_duplicate m = (first <? j)).
  { rewrite Hx. now destruct (first <? j). }
  assert (Hof : duplicate_of m
                = map Z.of_nat
                      ((if first <? j then [first] else [])
                         ++ near_targets (near_of pages embeddings threshold)
                                         j)).
  { rewrite Hd, map_app. now destruct (first <? j). }
  assert (Hiff : is_near_duplicate m = true
                 <-> exists i s,
                      In (i, j, s) (near_of pages embeddings threshold)).
  { rewrite Hflag, existsb_exists. split.
    - intros ([[i j'] s] & Hin & E). simpl in E.
      apply Nat.eqb_eq in E. subst j'. now exists i, s.
    - intros (i & s & Hin). exists (i, j, s). split; [exact Hin|].
      simpl. apply Nat.eqb_refl. }
  assert (Htargets : Forall (fun i => i < j)
                       (near_targets (near_of pages embeddings threshold) j)).
  { apply Forall_forall. intros i Hi. unfold near_targets in Hi.
    apply in_map_iff in Hi as ([[i' j'] s] & <- & Hin).
    apply filter_In in Hin as [Hin E]. simpl in E.
    apply Nat.eqb_eq in E. subst j'.
    apply In_find_near_duplicates in Hin as [Hlt _]. exact Hlt. }
  split; [exact Hiff|]. split.
  { intros Ht. rewrite Hflag in Ht.
    destruct (last_similarity_some _ j (duplicate_similarity
                (if first <? j
                 then flag_exact (Z.of_nat first) (init_flags p)
                 else init_flags p)) Ht) as (i & s & Hin & E).
    exists i, s. split; [exact Hin|]. now rewrite Hs. }
  split.
  { rewrite Hof. apply Forall_forall. intros z Hz.
    apply in_map_iff in Hz as (i & <- & Hi).
    apply in_app_or in Hi as [Hi|Hi].
    - destruct (first <? j) eqn:E; [|contradiction].
      apply Nat.ltb_lt in E. destruct Hi as [<-|[]]. lia.
    - rewrite Forall_forall in Htargets. specialize (Htargets i Hi). lia. }
  split.
  { intros [H|H].
    - rewrite Hex in H. apply Nat.ltb_lt in H. lia.
    - apply Hiff in H as (i & s & Hin).
      apply In_find_near_duplicates in Hin as [Hlt _]. lia. }
  intros H1 H2. rewrite Hof. rewrite Hex in H1. rewrite H1. simpl.
  rewrite Hflag in H2. now rewrite near_targets_none.
Qed.

(** X7.  With no more embeddings than pages (the pipeline has one per
    page), the duplicate report of the detected duplicates is always
    produced.  Its count of exact duplicates is the
    number of pages less the number of different normalized texts (by
    hash), which is also the number of pages that [mark_duplicates] flags
    as exact duplicates; there is one report entry per group and per
    pair. *)
Theorem duplicate_report_counts (pages : list page)
        (embeddings : list embedding) (threshold : Q) :
  length embeddings <= length pages ->
  exists report marked,
    generate_duplicate_report round3 pages (groups_of pages)
                              (near_of pages embeddings threshold)
    = Some report
    /\ mark_duplicates pages (group_indices (groups_of pages))
                       (pair_indices (near_of pages embeddings threshold))
       = Some marked
    /\ total_pages report = length pages
    /\ exact_duplicate_count report
       = (Z.of_nat (length pages)
          - Z.of_nat (length (distinct (hashes pages))))%Z
    /\ exact_duplicate_count report
       = Z.of_nat (length (filter is_exact_duplicate marked))
    /\ length (exact_duplicates report) = length (groups_of pages)
    /\ length (near_duplicates report)
       = length (near_of pages embeddings threshold)
    /\ near_duplicate_count report
       = length (near_of pages embeddings threshold).
Proof.
  intros Hlen.
  pose proof (near_in_range pages embeddings threshold Hlen) as Hr.
  destruct (exact_entries_total pages (groups_of pages))
    as (ex & Eex & Lex).
  { apply Forall_forall. intros g Hg.
    apply (groups_In sha256_hexdigest) in Hg as (h & Hh & -> & Hl).
    destruct (positions (hashes pages) h) as [|f r] eqn:E;
      [simpl in Hl; lia|].
    exists f, r. split; [reflexivity|].
    assert (Hf : nth_error (hashes pages) f = Some h)
      by (apply positions_In; rewrite E; now left).
    rewrite <- (length_map (fun p => hash_of p) pages).
    apply nth_error_Some. congruence. }
  destruct (near_entries_total round3 pages
              (near_of pages embeddings threshold) Hr) as (ne & Ene & Lne).
  destruct (mark_exact_detected pages) as (ps1 & E1 & L1 & N1).
  destruct (mark_near_spec (near_of pages embeddings threshold) ps1)
    as (ps2 & E2 & L2 & N2).
  { eapply Forall_impl; [|exact Hr]. simpl. intros t [_ H]. now rewrite L1. }
  assert (Hcount : count_exact (groups_of pages)
                   = (Z.of_nat (length pages)
                      - Z.of_nat (length (distinct (hashes pages))))%Z).
  { rewrite find_exact_duplicates_groups, count_exact_groups.
    - now rewrite occurrences_distinct, length_map.
    - intros h. apply distinct_In. }
  eexists. exists ps2. unfold generate_duplicate_report, mark_duplicates.
  rewrite Eex, Ene, E1.
  split; [reflexivity|]. split; [exact E2|]. simpl.
  split; [reflexivity|]. split; [exact Hcount|].
  split; [|split; [exact Lex|split; [exact Lne|reflexivity]]].
  rewrite Hcount.
  rewrite (filter_length_pointwise page is_exact_duplicate
             (fun j => first_occurrence (hashes pages) j <? j) ps2).
  - rewrite L2, L1.
    pose proof (later_occurrences_count (hashes pages)) as Hc.
    rewrite length_map in Hc. lia.
  - intros j m Hm.
    assert (Hj : j < length pages).
    { rewrite <- L1, <- L2. apply nth_error_Some. congruence. }
    destruct (nth_error pages j) as [p|] eqn:Hp;
      [|apply nth_error_None in Hp; lia].
    destruct (N2 j _ (N1 j p Hp)) as (m' & Hm' & Hx & _).
    assert (m' = m) by congruence. subst m'. rewrite Hx.
    now destruct (first_occurrence (hashes pages) j <? j).
Qed.

End DetectedDuplicates.

Section DetectedExamples.
Import Spec2 Duplicates NearDuplicates Examples.
Local Open Scope string_scope.

Lemma detected_duplicates_marked_witness :
  exists marked,
    mark_duplicates
      [with_text 0 "a"; with_text 1 "b"; with_text 2 "A "]
      (group_indices
         (find_exact_duplicates identity_digest
            [with_text 0 "a"; with_text 1 "b"; with_text 2 "A "]))
      (pair_indices
         (find_near_duplicates no_similarity
            [with_text 0 "a"; with_text 1 "b"; with_text 2 "A "]
            [tt; tt; tt] (19 # 20))) = Some marked
    /\ length marked = 3
    /\ map is_exact_duplicate marked = [false; false; true]
    /\ map duplicate_of marked = [[]; []; [0%Z]].
Proof.
  destruct (detected_duplicates_marked
              identity_digest unit no_similarity
              [with_text 0 "a"; with_text 1 "b"; with_text 2 "A "]
              [tt; tt; tt] (19 # 20)) as (marked & E & L & _).
  { simpl. lia. }
  exists marked. split; [exact E|]. split; [exact L|].
  vm_compute in E. injection E as <-. split; reflexivity.
Defined.

Lemma duplicate_report_counts_witness :
  exists report,
    generate_duplicate_report
      keep [with_text 0 "a"; with_text 1 "b"; with_text 2 "A "]
      (find_exact_duplicates identity_digest
         [with_text 0 "a"; with_text 1 "b"; with_text 2 "A "])
      (find_near_duplicates no_similarity
         [with_text 0 "a"; with_text 1 "b"; with_text 2 "A "]
         [tt; tt; tt] (19 # 20)) = Some report
    /\ exact_duplicate_count report = 1%Z
    /\ near_duplicate_count report = 0.
Proof.
  destruct (duplicate_report_counts
              identity_digest unit no_similarity keep
              [with_text 0 "a"; with_text 1 "b"; with_text 2 "A "]
              [tt; tt; tt] (19 # 20)) as (report & marked & E & _).
  { simpl. lia. }
  exists report. split; [exact E|].
  vm_compute in E. injection E as <-. split; reflexivity.
Defined.

End DetectedExamples.

(** ** Roman numerals and section numbers (modules/headings.py) *)

Section RomanNumerals.
Import Str Headings Spec2.
Local Open Scope Z_scope.

Lemma roman_map_values (c : ascii) (v : Z) :
  roman_map c = Some v -> In v roman_values.
Proof.
  intros H. destruct c as [[] [] [] [] [] [] [] []]; simpl in H;
    try discriminate H; injection H as <-; simpl; tauto.
Qed.

Lemma roman_step_inv (c : ascii) (st : Z * Z) :
  in_roman_map c = true ->
  st = (0, 0)
  \/ (In (snd st) roman_values /\ smaller_values (snd st) < fst st) ->
  In (snd (roman_step st c)) roman_values
  /\ smaller_values (snd (roman_step st c)) < fst (roman_step st c).
Proof.
  unfold in_roman_map. destruct (roman_map c) as [v|] eqn:E; [|discriminate].
  intros _ H. pose proof (roman_map_values c v E) as Hv.
  unfold roman_step. destruct st as [result prev]. rewrite E.
  cbn [fst snd]. split; [exact Hv|].
  destruct H as [[= -> ->]|[Hp Hr]].
  - unfold roman_values in Hv. simpl in Hv.
    repeat (destruct Hv as [<-|Hv]; [vm_compute; reflexivity|]).
    contradiction.
  - cbn [fst snd] in Hp, Hr. unfold roman_values in Hv, Hp.
    simpl in Hv, Hp.
    repeat (destruct Hp as [<-|Hp];
            [repeat (destruct Hv as [<-|Hv];
                     [cbn in Hr |- *; lia|]); contradiction|]).
    contradiction.
Qed.

Lemma roman_fold_inv (l : list ascii) (st : Z * Z) :
  forallb in_roman_map l = true -> l <> [] ->
  st = (0, 0)
  \/ (In (snd st) roman_values /\ smaller_values (snd st) < fst st) ->
  In (snd (fold_left roman_step l st)) roman_values
  /\ smaller_values (snd (fold_left roman_step l st))
     < fst (fold_left roman_step l st).
Proof.
  revert st. induction l as [|c r IH]; intros st Hall Hne Hst;
    [congruence|].
  simpl in Hall. apply andb_true_iff in Hall as [Hc Hr]. simpl.
  pose proof (roman_step_inv c st Hc Hst) as Hs.
  destruct r as [|d r']; [exact Hs|].
  apply IH; [exact Hr|discriminate|now right].
Qed.

Lemma smaller_values_nonneg (v : Z) : In v roman_values -> 0 <= smaller_values v.
Proof.
  unfold roman_values. simpl.
  intros H. repeat (destruct H as [<-|H]; [vm_compute; discriminate|]).
  contradiction.
Qed.

Lemma forallb_rev (A : Type) (f : A -> bool) (l : list A) :
  forallb f (rev l) = forallb f l.
Proof.
  induction l as [|x r IH]; simpl; [reflexivity|].
  rewrite forallb_app, IH. simpl. now rewrite andb_true_r, andb_comm.
Qed.

Lemma roman_fold_additive (u : list ascii) :
  forallb in_roman_map u = true ->
  StronglySorted Z.ge (letter_values u) ->
  fold_left roman_step (rev u) (0, 0)
  = (Py.sum (letter_values u), hd 0 (letter_values u)).
Proof.
  induction u as [|c r IH]; intros Hall Hs; [reflexivity|].
  simpl in Hall. apply andb_true_iff in Hall as [Hc Hr].
  simpl in Hs. apply StronglySorted_inv in Hs as [Hs Hge].
  simpl rev. rewrite fold_left_app, (IH Hr Hs). simpl.
  unfold in_roman_map in Hc.
  destruct (roman_map c) as [v|] eqn:E; [|discriminate].
  pose proof (roman_map_values c v E) as Hv.
  assert (Hpos : 0 < v).
  { unfold roman_values in Hv. simpl in Hv.
    repeat (destruct Hv as [<-|Hv]; [lia|]). contradiction. }
  assert (Hhd : hd 0 (letter_values r) <= v).
  { destruct (letter_values r) as [|w ws]; simpl; [lia|].
    inversion Hge; subst. lia. }
  assert (X : (v <? hd 0 (letter_values r)) = false)
    by (apply Z.ltb_ge; exact Hhd).
  rewrite X. f_equal. apply Z.add_comm.
Qed.

(** X8.  [parse_roman_numeral] returns no value exactly when the string,
    upper-cased and stripped, is empty or has a character that is no Roman
    letter: the final test [result > 0] never rejects a string of Roman
    letters, however they are arranged.  A returned value is positive, and
    when the letter values do not increase from left to right it is their
    sum. *)
Theorem parse_roman_numeral_defined (s : list ascii) :
  (parse_roman_numeral s = None
   <-> strip_chars (map upper_char s) = []
       \/ forallb in_roman_map (strip_chars (map upper_char s)) = false)
  /\ (forall v, parse_roman_numeral s = Some v -> 0 < v)
  /\ (strip_chars (map upper_char s) <> [] ->
      forallb in_roman_map (strip_chars (map upper_char s)) = true ->
      StronglySorted Z.ge (letter_values (strip_chars (map upper_char s))) ->
      parse_roman_numeral s
      = Some (Py.sum (letter_values (strip_chars (map upper_char s))))).
Proof.
  unfold parse_roman_numeral.
  destruct (strip_chars (map upper_char s)) as [|c r] eqn:Eu.
  - split; [split; [now left|reflexivity]|].
    split; [discriminate|congruence].
  - destruct (forallb in_roman_map (c :: r)) eqn:Ea.
    + destruct (roman_fold_inv (rev (c :: r)) (0, 0)) as [Hin Hlt].
      { now rewrite forallb_rev. }
      { simpl. destruct (rev r); discriminate. }
      { now left. }
      pose proof (smaller_values_nonneg _ Hin) as H0.
      assert (Hpos : 0 < fst (fold_left roman_step (rev (c :: r)) (0, 0)))
        by lia.
      cbv zeta. rewrite (proj2 (Z.ltb_lt _ _) Hpos).
      split; [split; [discriminate|intros [|]; discriminate]|].
      split; [intros v [= <-]; exact Hpos|].
      intros _ _ Hs. now rewrite (roman_fold_additive (c :: r) Ea Hs).
    + split; [split; [now right|reflexivity]|].
      split; [discriminate|discriminate].
Qed.

Lemma parse_roman_numeral_defined_witness :
  strip_chars (map upper_char (chars "mdclxvi")) <> []
  /\ parse_roman_numeral (chars "mdclxvi") = Some 1666
  /\ parse_roman_numeral (chars "IIII") = Some 4.
Proof.
  split; [discriminate|]. split.
  - rewrite (proj2 (proj2 (parse_roman_numeral_defined (chars "mdclxvi"))));
      [reflexivity|discriminate|reflexivity|].
    vm_compute. repeat constructor; discriminate.
  - reflexivity.
Defined.

End RomanNumerals.

(** ** What [extract_section_number] returns *)

Section SectionResults.
Import Str Headings Spec Spec2.

Lemma int_of_chars_some (l : list ascii) (z : Z) :
  int_of_chars l = Some z -> l <> [] /\ (0 <= z)%Z.
Proof.
  unfold int_of_chars. destruct l as [|c r]; [discriminate|].
  destruct (forallb is_digit (c :: r)); [|discriminate].
  intros [= <-]. split; [discriminate|].
  assert (G : forall (l : list ascii) (acc : Z),
             (0 <= acc)%Z ->
             (0 <= fold_left (fun acc c => 10 * acc + digit_value c) l acc)%Z).
  { induction l as [|d l IH]; intros acc Hacc; cbn [fold_left];
      [exact Hacc|].
    apply IH. unfold digit_value. lia. }
  apply G. unfold digit_value. lia.
Qed.

Lemma ints_of_nonneg (ws : list (list ascii)) (zs : list Z) :
  ints_of ws = Some zs -> Forall (fun z => (0 <= z)%Z) zs.
Proof.
  revert zs. induction ws as [|w r IH]; simpl; intros zs H.
  - injection H as <-. constructor.
  - destruct (int_of_chars w) as [z|] eqn:Ez; [|discriminate].
    destruct (ints_of r) as [zs'|]; [|discriminate].
    injection H as <-. constructor; [|now apply IH].
    now apply (int_of_chars_some w z).
Qed.

Lemma add_levels_nonneg (sub : list Z) (i : nat) (acc : Q) :
  (0 <= acc)%Q -> Forall (fun z => (0 <= z)%Z) sub ->
  (0 <= add_levels i sub acc)%Q.
Proof.
  revert i acc. induction sub as [|part r IH]; intros i acc Hacc Hall;
    cbn [add_levels]; [exact Hacc|].
  inversion Hall as [|? ? Hp Hr]; subst.
  apply IH; [|exact Hr].
  assert (Hq : (0 <= inject_Z part / inject_Z (1000 ^ Z.of_nat i))%Q).
  { apply Qle_shift_div_l.
    - change 0%Q with (inject_Z 0). rewrite <- Zlt_Qlt.
      apply Z.pow_pos_nonneg; lia.
    - rewrite Qmult_0_l. change 0%Q with (inject_Z 0).
      now rewrite <- Zle_Qle. }
  unfold Float.add, Float.div. apply nearest_nonneg.
  pose proof (nearest_nonneg acc Hacc).
  pose proof (nearest_nonneg _ (nearest_nonneg _ Hq)). lra.
Qed.

Lemma hierarchical_value_nonneg (parts : list Z) :
  Forall (fun z => (0 <= z)%Z) parts -> (0 <= hierarchical_value parts)%Q.
Proof.
  destruct parts as [|main sub]; simpl; [intros _; apply Qle_refl|].
  intros H. inversion H; subst. apply add_levels_nonneg; [|assumption].
  change 0%Q with (inject_Z 0). now rewrite <- Zle_Qle.
Qed.

Lemma of_chars_nonempty (c : ascii) (l : list ascii) :
  of_chars (c :: l) <> ""%string.
Proof. discriminate. Qed.

Local Abbreviation good_title t :=
  (t <> ""%string /\ t <> BLANK_PAGE).

Lemma numeric_result_ok (t : string) (num : list ascii) :
  good_title t -> section_result_ok (Some t) (numeric_result num).
Proof.
  intros Ht. unfold numeric_result.
  destruct (ints_of (split_dot num)) as [parts|] eqn:E; [|exact I].
  destruct num as [|c r]; [discriminate E|].
  split; [apply of_chars_nonempty|]. split.
  - apply hierarchical_value_nonneg. now apply (ints_of_nonneg _ _ E).
  - now exists t.
Qed.

Lemma parse_roman_some (s : list ascii) (v : Z) :
  parse_roman_numeral s = Some v -> s <> [] /\ (0 < v)%Z.
Proof.
  intros H. split.
  - intros ->. discriminate H.
  - revert H. unfold parse_roman_numeral.
    destruct (strip_chars (map upper_char s)); [discriminate|].
    destruct (forallb in_roman_map _); [|discriminate].
    cbv zeta. destruct (0 <? _)%Z eqn:E; [|discriminate].
    intros [= <-]. now apply Z.ltb_lt.
Qed.

Lemma inject_Z_nonneg (z : Z) : (0 <= z)%Z -> (0 <= inject_Z z)%Q.
Proof. intros H. change 0%Q with (inject_Z 0). now rewrite <- Zle_Qle. Qed.

Lemma keyword_result_ok (t : string) (num_str : list ascii) (offset : Z)
      (r : option string * option Q) :
  good_title t -> (0 <= offset)%Z ->
  keyword_result num_str offset = Some r -> section_result_ok (Some t) r.
Proof.
  intros Ht Ho. unfold keyword_result.
  destruct (parse_roman_numeral num_str) as [v|] eqn:Ep.
  - apply parse_roman_some in Ep as [Hne Hv]. intros [= <-].
    destruct num_str as [|c l]; [congruence|].
    split; [apply of_chars_nonempty|].
    split; [apply inject_Z_nonneg; lia|now exists t].
  - destruct (int_of_chars num_str) as [n|] eqn:Ei; [|discriminate].
    apply int_of_chars_some in Ei as [Hne Hn]. intros [= <-].
    destruct num_str as [|c l]; [congruence|].
    split; [apply of_chars_nonempty|].
    split; [apply inject_Z_nonneg; lia|now exists t].
Qed.

Lemma letter_ordinal (c : ascii) :
  is_upper c || is_lower c = true ->
  (1 <= Z.of_nat (code (lower_char c)) - 97 + 1 <= 26)%Z.
Proof.
  destruct c as [[] [] [] [] [] [] [] []]; intros H;
    vm_compute in H; try discriminate H; vm_compute; split; discriminate.
Qed.

Lemma parenthetical_result_ok (t : string) (sub_num : list ascii)
      (r : option string * option Q) :
  good_title t ->
  parenthetical_result sub_num = Some r -> section_result_ok (Some t) r.
Proof.
  intros Ht. unfold parenthetical_result. cbv zeta.
  destruct (int_of_chars sub_num) as [n|] eqn:Ei.
  - apply int_of_chars_some in Ei as [_ Hn]. intros [= <-].
    split; [discriminate|].
    split; [now apply inject_Z_nonneg|now exists t].
  - destruct sub_num as [|c [|d l]]; try discriminate.
    destruct (is_upper c || is_lower c) eqn:Ec; [|discriminate].
    intros [= <-]. pose proof (letter_ordinal c Ec).
    split; [discriminate|].
    split; [apply inject_Z_nonneg; lia|now exists t].
Qed.

Lemma or_else_ok (t : string)
      (x : option (option string * option Q))
      (y : option string * option Q) :
  (forall r, x = Some r -> section_result_ok (Some t) r) ->
  section_result_ok (Some t) y ->
  section_result_ok (Some t) (or_else x y).
Proof. intros Hx Hy. destruct x as [r|]; simpl; [now apply Hx|exact Hy]. Qed.

Lemma extract_section_number_ok (title : option string) :
  section_result_ok title (extract_section_number title).
Proof.
  unfold extract_section_number. destruct title as [t|]; [|exact I].
  destruct (String.eqb t "" || String.eqb t BLANK_PAGE) eqn:E; [exact I|].
  apply orb_false_iff in E as [E1 E2].
  apply String.eqb_neq in E1, E2.
  assert (Ht : good_title t) by now split.
  cbv zeta.
  destruct (match_spaced_number _); [now apply numeric_result_ok|].
  destruct (match_unspaced_number _); [now apply numeric_result_ok|].
  set (tc := strip_chars (chars t)).
  assert (P6 : section_result_ok (Some t)
                 match match_keyword_number
                         ["schedule"; "annexure"; "annex"; "appendix"]%string
                         tc with
                 | Some num_str =>
                     or_else (keyword_result num_str 1000) (None, None)
                 | None => (None, None)
                 end).
  { destruct (match_keyword_number _ tc) as [n|]; [|exact I].
    apply or_else_ok; [|exact I].
    intros r. now apply keyword_result_ok. }
  revert P6.
  generalize (match match_keyword_number
                      ["schedule"; "annexure"; "annex"; "appendix"]%string
                      tc with
              | Some num_str =>
                  or_else (keyword_result num_str 1000) (None, None)
              | None => (None, None)
              end).
  intros p6 P6.
  assert (P5 : section_result_ok (Some t)
                 match match_parenthetical tc with
                 | Some sub_num => or_else (parenthetical_result sub_num) p6
                 | None => p6
                 end).
  { destruct (match_parenthetical tc) as [n|]; [|exact P6].
    apply or_else_ok; [|exact P6].
    intros r. now apply parenthetical_result_ok. }
  revert P5.
  generalize (match match_parenthetical tc with
              | Some sub_num => or_else (parenthetical_result sub_num) p6
              | None => p6
              end).
  intros p5 P5.
  assert (P4 : section_result_ok (Some t)
                 match match_keyword_number
                         ["article"; "section"; "chapter"; "part"]%string
                         tc with
                 | Some num_str => or_else (keyword_result num_str 0) p5
                 | None => p5
                 end).
  { destruct (match_keyword_number _ tc) as [n|]; [|exact P5].
    apply or_else_ok; [|exact P5].
    intros r. apply keyword_result_ok; [exact Ht|lia]. }
  revert P4.
  generalize (match match_keyword_number
                      ["article"; "section"; "chapter"; "part"]%string
                      tc with
              | Some num_str => or_else (keyword_result num_str 0) p5
              | None => p5
              end).
  intros p4 P4.
  destruct (match_roman tc) as [roman|] eqn:Er; [|exact P4].
  destruct (parse_roman_numeral roman) as [v|] eqn:Ep; [|exact P4].
  apply parse_roman_some in Ep as [Hne Hv].
  destruct roman as [|c l]; [congruence|].
  split; [apply of_chars_nonempty|].
  split; [apply inject_Z_nonneg; lia|now exists t].
Qed.

(** X9.  [extract_section_number] returns a number and a value together or
    neither.  A returned number is not empty and its value is not
    negative, and nothing is returned for a missing, empty or blank-page
    title. *)
Theorem extract_section_number_well_formed (title : option string) :
  section_result_ok title (extract_section_number title)
  /\ (fst (extract_section_number title) = None
      <-> snd (extract_section_number title) = None)
  /\ (title = None \/ title = Some ""%string \/ title = Some BLANK_PAGE ->
      extract_section_number title = (None, None)).
Proof.
  pose proof (extract_section_number_ok title) as H.
  split; [exact H|]. split.
  - destruct (extract_section_number title) as [[n|] [v|]]; simpl in *;
      try contradiction; split; congruence.
  - intros [->|[->| ->]]; reflexivity.
Qed.

End SectionResults.

Section SectionResultExamples.
Import Headings Spec2.
Local Open Scope string_scope.

Lemma extract_section_number_well_formed_witness :
  extract_section_number (Some "iv. Methods") = (Some "IV", Some (inject_Z 4))
  /\ section_result_ok (Some "iv. Methods")
                       (extract_section_number (Some "iv. Methods"))
  /\ extract_section_number (Some BLANK_PAGE) = (None, None).
Proof.
  split; [reflexivity|]. split.
  - apply (extract_section_number_well_formed (Some "iv. Methods")).
  - apply (extract_section_number_well_formed (Some BLANK_PAGE)).
    right. right. reflexivity.
Defined.

End SectionResultExamples.

(** ** Normalized text: the page hash and the blank-page test *)

Section Normalization.
Import Str Duplicates Keywords.

Lemma drop_while_spaces (ws l : list ascii) :
  forallb is_space ws = true ->
  drop_while is_space (ws ++ l) = drop_while is_space l.
Proof.
  induction ws as [|c r IH]; simpl; [reflexivity|].
  intros H. apply andb_true_iff in H as [Hc Hr]. rewrite Hc. now apply IH.
Qed.

Lemma drop_while_all (ws : list ascii) :
  forallb is_space ws = true -> drop_while is_space ws = [].
Proof.
  intros H. rewrite <- (app_nil_r ws). now rewrite drop_while_spaces.
Qed.

Lemma drop_while_app_spaces (l ws : list ascii) :
  forallb is_space ws = true ->
  drop_while is_space (l ++ ws)
  = match drop_while is_space l with
    | [] => []
    | c :: r => (c :: r) ++ ws
    end.
Proof.
  intros H. induction l as [|c r IH]; simpl.
  - now apply drop_while_all.
  - destruct (is_space c); [exact IH|reflexivity].
Qed.

Lemma strip_chars_margins (pre l post : list ascii) :
  forallb is_space pre = true -> forallb is_space post = true ->
  strip_chars (pre ++ l ++ post) = strip_chars l.
Proof.
  intros Hpre Hpost. unfold strip_chars.
  rewrite (drop_while_spaces pre _ Hpre).
  rewrite (drop_while_app_spaces l post Hpost).
  destruct (drop_while is_space l) as [|c r]; [reflexivity|].
  rewrite rev_app_distr. rewrite drop_while_spaces; [reflexivity|].
  now rewrite forallb_rev.
Qed.

Lemma drop_while_prefix (l : list ascii) :
  exists ws, l = ws ++ drop_while is_space l /\ forallb is_space ws = true.
Proof.
  induction l as [|c r (ws & E & H)]; simpl; [now exists []|].
  destruct (is_space c) eqn:Ec; [|now exists []].
  exists (c :: ws). simpl. rewrite Ec, H. split; [now f_equal|reflexivity].
Qed.

Lemma strip_chars_idempotent (l : list ascii) :
  strip_chars (strip_chars l) = strip_chars l.
Proof.
  destruct (drop_while_prefix l) as (pre & E1 & H1).
  destruct (drop_while_prefix (rev (drop_while is_space l)))
    as (ws & E2 & H2).
  assert (E : l = pre ++ strip_chars l ++ rev ws).
  { unfold strip_chars. rewrite <- rev_app_distr, <- E2, rev_involutive.
    exact E1. }
  rewrite E at 2. symmetry. apply strip_chars_margins; [exact H1|].
  now rewrite forallb_rev.
Qed.

Lemma lower_char_idempotent (c : ascii) :
  lower_char (lower_char c) = lower_char c.
Proof. destruct c as [[] [] [] [] [] [] [] []]; reflexivity. Qed.

Lemma lower_char_space (c : ascii) : is_space (lower_char c) = is_space c.
Proof. destruct c as [[] [] [] [] [] [] [] []]; reflexivity. Qed.

Lemma drop_while_lower (l : list ascii) :
  drop_while is_space (map lower_char l)
  = map lower_char (drop_while is_space l).
Proof.
  induction l as [|c r IH]; simpl; [reflexivity|].
  rewrite lower_char_space. now destruct (is_space c).
Qed.

Lemma strip_chars_lower (l : list ascii) :
  strip_chars (map lower_char l) = map lower_char (strip_chars l).
Proof.
  unfold strip_chars.
  now rewrite drop_while_lower, <- map_rev, drop_while_lower, <- map_rev.
Qed.

Lemma chars_append (a b : string) : chars (a ++ b) = chars a ++ chars b.
Proof.
  unfold chars. induction a as [|c a IH]; simpl; [reflexivity|].
  now rewrite IH.
Qed.

Lemma filter_drop_spaces (l : list ascii) :
  remove_spaces (drop_while is_space l) = remove_spaces l.
Proof.
  unfold remove_spaces. induction l as [|c r IH]; simpl; [reflexivity|].
  destruct (is_space c) eqn:E; simpl; [exact IH|]. now rewrite E.
Qed.

Lemma remove_spaces_rev (l : list ascii) :
  remove_spaces (rev l) = rev (remove_spaces l).
Proof.
  unfold remove_spaces. induction l as [|c r IH]; simpl; [reflexivity|].
  rewrite filter_app, IH. simpl.
  destruct (negb (is_space c)); simpl; [reflexivity|apply app_nil_r].
Qed.

Lemma remove_spaces_strip (l : list ascii) :
  remove_spaces (strip_chars l) = remove_spaces l.
Proof.
  unfold strip_chars.
  rewrite remove_spaces_rev, filter_drop_spaces, remove_spaces_rev.
  rewrite rev_involutive. apply filter_drop_spaces.
Qed.

Variable sha256_hexdigest : string -> string.

(** X10.  The page hash does not see white space around the text nor the case
    of its letters: a text, the same text in lower case, and the same text
    with white space before and after it have one hash, so such pages are
    exact duplicates of each other. *)
Theorem page_hash_ignores_case_and_margins (t pre post : string) :
  compute_page_hash sha256_hexdigest (lower t)
  = compute_page_hash sha256_hexdigest t
  /\ compute_page_hash sha256_hexdigest (strip t)
     = compute_page_hash sha256_hexdigest t
  /\ (forallb is_space (chars pre) = true ->
      forallb is_space (chars post) = true ->
      compute_page_hash sha256_hexdigest (pre ++ t ++ post)
      = compute_page_hash sha256_hexdigest t).
Proof.
  unfold compute_page_hash. cbv zeta. unfold lower, strip.
  rewrite !chars_of_chars. split; [|split].
  - now rewrite strip_chars_lower, map_map,
      (map_ext _ _ (fun c => lower_char_idempotent c)).
  - now rewrite strip_chars_idempotent.
  - intros Hpre Hpost. rewrite !chars_append.
    now rewrite (strip_chars_margins _ _ _ Hpre Hpost).
Qed.

(** X11.  The blank-page test counts the characters that are not white space,
    wherever the white space is: a text is blank exactly when it has
    fewer than 20 of them. *)
Theorem is_blank_page_counts (t : string) :
  is_blank_page t = (length (remove_spaces (chars t)) <? 20)
  /\ (forall pre post,
         is_blank_page (pre ++ t ++ post) = true -> is_blank_page t = true).
Proof.
  assert (E : forall s, is_blank_page s
                        = (length (remove_spaces (chars s)) <? 20)).
  { intros s. unfold is_blank_page. destruct s as [|c s]; [reflexivity|].
    cbv zeta. now rewrite remove_spaces_strip. }
  split; [apply E|].
  intros pre post. rewrite !E, !chars_append.
  unfold remove_spaces. rewrite !filter_app, !length_app.
  intros H. apply Nat.ltb_lt in H. apply Nat.ltb_lt. lia.
Qed.

End Normalization.

Section NormalizationExamples.
Import Str Duplicates Keywords Examples.
Local Open Scope string_scope.

Lemma page_hash_ignores_case_and_margins_witness :
  forallb is_space (chars "  ") = true
  /\ compute_page_hash identity_digest ("  " ++ "Total Due" ++ " ")
     = compute_page_hash identity_digest "Total Due"
  /\ compute_page_hash identity_digest "Total Due" = "total due".
Proof.
  split; [reflexivity|]. split; [|reflexivity].
  apply (page_hash_ignores_case_and_margins
           identity_digest "Total Due" "  " " "); reflexivity.
Defined.

Lemma is_blank_page_counts_witness :
  is_blank_page (" " ++ "page 3 of 12" ++ " ") = true
  /\ is_blank_page "page 3 of 12" = true.
Proof.
  split; [reflexivity|].
  apply (proj2 (is_blank_page_counts "page 3 of 12") " " " ").
  reflexivity.
Defined.

End NormalizationExamples.

(** ** Section keywords (modules/headings.py, classify_section) *)

Section KeywordSearch.
Import Str Keywords Spec2.
Local Open Scope Z_scope.

Lemma starts_with_iff (kw l : list ascii) :
  starts_with kw l = true <-> exists post, l = kw ++ post.
Proof.
  revert l. induction kw as [|k kw IH]; intros l; simpl.
  - split; [intros _; now exists l|reflexivity].
  - destruct l as [|c r].
    + split; [discriminate|]. intros [post E]. discriminate.
    + rewrite andb_true_iff, IH. split.
      * intros [E [post ->]]. apply Ascii.eqb_eq in E. subst c.
        now exists post.
      * intros [post [= -> ->]]. split; [apply Ascii.eqb_refl|].
        now exists post.
Qed.

Lemma contains_iff (kw l : list ascii) :
  contains kw l = true <-> exists pre post, l = pre ++ kw ++ post.
Proof.
  induction l as [|c r IH].
  - simpl. rewrite orb_false_r, starts_with_iff. split.
    + intros [post E]. now exists [], post.
    + intros (pre & post & E). destruct pre; [now exists post|discriminate].
  - cbn [contains]. rewrite orb_true_iff, starts_with_iff, IH. split.
    + intros [[post E]|(pre & post & E)].
      * now exists [], post.
      * exists (c :: pre), post. simpl. now rewrite E.
    + intros (pre & post & E). destruct pre as [|a pre].
      * left. now exists post.
      * right. injection E as _ E. now exists pre, post.
Qed.

Lemma contains_occurs (kw : string) (l : list ascii) :
  contains (chars kw) l = true <-> occurs kw l.
Proof. apply contains_iff. Qed.

Variable search_text : list ascii.
Variable title_lower : option (list ascii).

Local Abbreviation step := (keyword_step search_text title_lower).

(** the state is an entry of [all] whose keyword occurs *)
Local Abbreviation found all st :=
  (exists k s p, st = (Some k, s, p) /\ In (k, (s, p)) all
                 /\ contains (chars k) search_text = true).

Lemma step_found (all : list (string * (Z * Z))) (st : best)
      (e : string * (Z * Z)) :
  In e all -> found all st -> found all (step st e).
Proof.
  intros He (k & s & p & -> & Hin & Hc).
  destruct e as [kw [prio pos]]. unfold keyword_step.
  destruct (contains (chars kw) search_text) eqn:Ec;
    [|now exists k, s, p].
  destruct (s <? _); [now exists kw, prio, pos|now exists k, s, p].
Qed.

Lemma fold_found (all tbl : list (string * (Z * Z))) (st : best) :
  incl tbl all -> found all st -> found all (fold_left step tbl st).
Proof.
  revert st. induction tbl as [|e r IH]; intros st Hi Hst; simpl;
    [exact Hst|].
  apply IH; [intros x Hx; apply Hi; now right|].
  apply step_found; [apply Hi; now left|exact Hst].
Qed.

Lemma fold_from_start (all tbl : list (string * (Z * Z))) :
  incl tbl all ->
  Forall (fun e => 0 < fst (snd e)) tbl ->
  (Forall (fun e => contains (chars (fst e)) search_text = false) tbl
   /\ fold_left step tbl (None, 0, 500) = (None, 0, 500))
  \/ (Exists (fun e => contains (chars (fst e)) search_text = true) tbl
      /\ found all (fold_left step tbl (None, 0, 500))).
Proof.
  induction tbl as [|[kw [prio pos]] r IH]; intros Hi Hp.
  - left. split; [constructor|reflexivity].
  - inversion Hp as [|? ? Hprio Hr]; subst. simpl in Hprio.
    assert (Hi' : incl r all) by (intros x Hx; apply Hi; now right).
    cbn [fold_left].
    destruct (contains (chars kw) search_text) eqn:Ec.
    + right. split; [now left|].
      assert (X : (0 <? prio * match title_lower with
                               | Some t => if contains (chars kw) t
                                           then 2 else 1
                               | None => 1
                               end) = true).
      { apply Z.ltb_lt. destruct title_lower as [t|];
          [destruct (contains (chars kw) t)|]; lia. }
      assert (Hs : step (None, 0, 500) (kw, (prio, pos))
                   = (Some kw, prio, pos))
        by (unfold keyword_step; now rewrite Ec, X).
      rewrite Hs. apply fold_found; [exact Hi'|].
      exists kw, prio, pos. split; [reflexivity|].
      split; [apply Hi; now left|exact Ec].
    + assert (Hs : step (None, 0, 500) (kw, (prio, pos)) = (None, 0, 500))
        by (unfold keyword_step; now rewrite Ec).
      rewrite Hs.
      destruct (IH Hi' Hr) as [[Hn E]|[Hex Hf]].
      * left. split; [now constructor|exact E].
      * right. split; [now right|exact Hf].
Qed.

Lemma fold_unboosted (tbl : list (string * (Z * Z))) (st : best) :
  Forall (fun e => match title_lower with
                   | Some t => contains (chars (fst e)) t = false
                   | None => True
                   end) tbl ->
  snd (fst st) <= snd (fst (fold_left step tbl st))
  /\ Forall (fun e => contains (chars (fst e)) search_text = true ->
                      fst (snd e) <= snd (fst (fold_left step tbl st))) tbl.
Proof.
  revert st. induction tbl as [|[kw [prio pos]] r IH]; intros st Hb.
  - split; [apply Z.le_refl|constructor].
  - inversion Hb as [|? ? Hkw Hr]; subst. simpl in Hkw.
    cbn [fold_left].
    destruct (IH (step st (kw, (prio, pos))) Hr) as [I1 I2].
    assert (Hstep : snd (fst st) <= snd (fst (step st (kw, (prio, pos))))
                    /\ (contains (chars kw) search_text = true ->
                        prio <= snd (fst (step st (kw, (prio, pos)))))).
    { unfold keyword_step. destruct st as [[m s] p]. cbn [fst snd].
      destruct (contains (chars kw) search_text) eqn:Ec; cbn [fst snd];
        [|split; [lia|discriminate]].
      assert (X : match title_lower with
                  | Some t => if contains (chars kw) t then 2 else 1
                  | None => 1
                  end = 1).
      { destruct title_lower as [t|]; [now rewrite Hkw|reflexivity]. }
      rewrite X, Z.mul_1_r.
      destruct (s <? prio) eqn:El; cbn [fst snd].
      - apply Z.ltb_lt in El. split; [lia|intros _; lia].
      - apply Z.ltb_ge in El. split; [lia|intros _; exact El]. }
    destruct Hstep as [S1 S2]. split; [lia|].
    constructor; [cbn [fst snd]; intros Hc; specialize (S2 Hc); lia|exact I2].
Qed.

End KeywordSearch.

Section Classification.
Import Str Keywords Spec2.
Local Open Scope Z_scope.

Lemma keyword_priorities : Forall (fun e => 0 < fst (snd e)) SECTION_KEYWORDS.
Proof. unfold SECTION_KEYWORDS. repeat constructor. Qed.

Local Abbreviation title_lower_of title :=
  (match title with
   | Some EmptyString => None
   | Some t => Some (map lower_char (chars t))
   | None => None
   end).

Lemma classify_section_fold (text : string) (title : option string) :
  title <> Some BLANK_PAGE ->
  forall m s p,
    fold_left (keyword_step (searched text title) (title_lower_of title))
              SECTION_KEYWORDS (None, 0, 500) = (m, s, p) ->
    classify_section text title
    = (match m with Some k => k | None => "unknown"%string end, s, p).
Proof.
  intros Ht m s p E. unfold classify_section. cbv zeta.
  unfold searched in E. rewrite E.
  destruct title as [t|]; [|reflexivity].
  destruct (String.eqb t BLANK_PAGE) eqn:Eb; [|reflexivity].
  apply String.eqb_eq in Eb. congruence.
Qed.

Lemma keyword_not_unknown (k : string) (info : Z * Z) :
  In (k, info) SECTION_KEYWORDS -> (k, info) <> ("unknown"%string, (0, 500)).
Proof.
  intros H E. rewrite E in H. unfold SECTION_KEYWORDS in H. simpl in H.
  repeat (destruct H as [H|H]; [discriminate H|]). contradiction.
Qed.

(** X12.  [classify_section] answers "blank" for the blank-page title.  For any
    other title it answers "unknown" with score 0 and position 500 exactly
    when no keyword of the table occurs in the searched text (the title, a
    space and the first 500 characters of the text, in lower case);
    otherwise it answers a keyword that occurs there, with the priority
    and position of its table entry.  When no keyword occurs in the title,
    no keyword that occurs in the searched text has a higher priority than
    the answer. *)
Theorem classify_section_spec (text : string) (title : option string) :
  (title = Some BLANK_PAGE ->
   classify_section text title = ("blank"%string, 0, 9999))
  /\ (title <> Some BLANK_PAGE ->
      ((forall kw info, In (kw, info) SECTION_KEYWORDS ->
                        ~ occurs kw (searched text title))
       <-> classify_section text title = ("unknown"%string, 0, 500))
      /\ ((exists kw info, In (kw, info) SECTION_KEYWORDS
                           /\ occurs kw (searched text title)) ->
          exists k s p,
            classify_section text title = (k, s, p)
            /\ In (k, (s, p)) SECTION_KEYWORDS
            /\ occurs k (searched text title))
      /\ ((forall kw info, In (kw, info) SECTION_KEYWORDS ->
                           ~ occurs kw (title_text title)) ->
          forall kw prio p,
            In (kw, (prio, p)) SECTION_KEYWORDS ->
            occurs kw (searched text title) ->
            prio <= snd (fst (classify_section text title)))).
Proof.
  split.
  { intros ->. unfold classify_section. cbv zeta.
    destruct (fold_left _ _ _) as [[m s] p]. reflexivity. }
  intros Ht.
  pose proof (classify_section_fold text title Ht) as Hfold.
  destruct (fold_from_start (searched text title) (title_lower_of title)
              SECTION_KEYWORDS SECTION_KEYWORDS (incl_refl _)
              keyword_priorities) as [[Hn E]|[Hex Hf]].
  - pose proof (Hfold _ _ _ E) as Hc. rewrite Forall_forall in Hn.
    assert (Hno : forall kw info, In (kw, info) SECTION_KEYWORDS ->
                                  ~ occurs kw (searched text title)).
    { intros kw info Hin Ho. apply contains_occurs in Ho.
      specialize (Hn _ Hin). simpl in Hn. congruence. }
    split; [split; [intros _; exact Hc|intros _; exact Hno]|].
    split.
    + intros (kw & info & Hin & Ho). exfalso. now apply (Hno kw info).
    + intros _ kw prio p Hin Ho. exfalso. now apply (Hno kw (prio, p)).
  - destruct Hf as (k & s & p & E & Hin & Hc).
    pose proof (Hfold _ _ _ E) as Hcl.
    split; [|split].
    + split.
      * intros Hno. exfalso. apply (Hno k (s, p) Hin).
        now apply contains_occurs.
      * intros Hu. rewrite Hcl in Hu. exfalso.
        apply (keyword_not_unknown k (s, p) Hin). congruence.
    + intros _. exists k, s, p. split; [exact Hcl|].
      split; [exact Hin|now apply contains_occurs].
    + intros Hnt kw prio q Hkw Ho.
      destruct (fold_unboosted (searched text title) (title_lower_of title)
                  SECTION_KEYWORDS (None, 0, 500)) as [_ Hall].
      { apply Forall_forall. intros [kw' info'] Hin'.
        destruct title as [[|c t]|]; try exact I. cbn [fst].
        destruct (contains (chars kw') (map lower_char (chars (String c t))))
          eqn:Ec; [|reflexivity].
        exfalso. apply (Hnt kw' info' Hin').
        now apply contains_occurs in Ec. }
      rewrite Forall_forall in Hall. specialize (Hall _ Hkw).
      cbn [fst snd] in Hall. rewrite Hcl. rewrite E in Hall. cbn [fst snd].
      cbn [fst snd] in Hall. apply Hall. now apply contains_occurs.
Qed.

End Classification.

Section ClassificationExamples.
Import Keywords Spec2.
Local Open Scope string_scope.

Lemma classify_section_spec_witness :
  Some "Loan Agreement" <> Some BLANK_PAGE
  /\ classify_section "The parties agree as follows" (Some "Loan Agreement")
     = ("agreement", 7%Z, 300%Z)
  /\ exists k s p,
      classify_section "The parties agree as follows" (Some "Loan Agreement")
      = (k, s, p)
      /\ In (k, (s, p)) SECTION_KEYWORDS
      /\ occurs k (searched "The parties agree as follows"
                            (Some "Loan Agreement")).
Proof.
  assert (H : Some "Loan Agreement" <> Some BLANK_PAGE) by discriminate.
  split; [exact H|]. split; [reflexivity|].
  apply (proj1 (proj2 (proj2 (classify_section_spec
                                "The parties agree as follows"
                                (Some "Loan Agreement")) H))).
  exists "agreement", (7%Z, 300%Z). split.
  - unfold SECTION_KEYWORDS. simpl. tauto.
  - exists (Str.chars "loan "), (Str.chars " the parties agree as follows").
    reflexivity.
Defined.

End ClassificationExamples.

(** ** The hybrid engine: what it keeps, and the structure order *)

Section HybridMore.
Import Spec Spec2 Ordering.
Variable embedding : Type.
Variable cosine_similarity : embedding -> embedding -> Q.
Variable round2 : Q -> Q.

Local Abbreviation step := (continuity_step cosine_similarity).
Local Abbreviation pass := (continuity_pass cosine_similarity).
Local Abbreviation optimize := (optimize_continuity cosine_similarity).
Local Abbreviation hybrid := (order_pages_hybrid cosine_similarity round2).
Local Abbreviation content_order := (order_content cosine_similarity).

Lemma filter_split_counts (A : Type) (f : A -> bool) (l : list A) :
  length (filter (fun x => negb (f x)) l) + length (filter f l) = length l.
Proof.
  induction l as [|x r IH]; simpl; [reflexivity|].
  destruct (f x); simpl; lia.
Qed.

Lemma hybrid_erased (pages out : list page) (meta : metadata)
      (embeddings : list embedding) :
  hybrid pages embeddings = Some (out, meta) ->
  Permutation (map erase_position out) (map erase_position pages).
Proof.
  intros E. destruct (content_pages pages) as [|c cs] eqn:Ec.
  - revert E. unfold order_pages_hybrid. rewrite Ec. intros [= <- _].
    unfold blank_pages. now rewrite (filter_all _ is_blank pages Ec).
  - apply (hybrid_positions embedding cosine_similarity round2
             pages out meta embeddings); [congruence|exact E].
Qed.

(** X13.  Whatever the engine returns, it returns every page of the document
    once: the returned records are the input records rearranged, changed
    in [new_position] at most.  The metadata gives the number of pages,
    and on a document with a content page the numbers of content and blank
    pages it gives add up to it. *)
Theorem hybrid_keeps_every_page (pages out : list page) (meta : metadata)
        (embeddings : list embedding) :
  hybrid pages embeddings = Some (out, meta) ->
  Permutation (map erase_position out) (map erase_position pages)
  /\ length out = length pages
  /\ dict_get "total_pages" meta = Some (MInt (Z.of_nat (length pages)))
  /\ (content_pages pages <> [] ->
      exists c b,
        dict_get "content_pages" meta = Some (MInt (Z.of_nat c))
        /\ dict_get "blank_pages" meta = Some (MInt (Z.of_nat b))
        /\ c + b = length pages
        /\ c = length (filter (fun p => negb (is_blank p)) out)
        /\ b = length (filter is_blank out)).
Proof.
  intros E.
  pose proof (hybrid_erased pages out meta embeddings E) as HP.
  split; [exact HP|].
  split.
  { rewrite <- (length_map erase_position out), (Permutation_length HP).
    apply length_map. }
  split.
  { revert E. unfold order_pages_hybrid.
    destruct (content_pages pages); [now intros [= _ <-]|].
    destruct (order_content _ pages embeddings); [|discriminate].
    now intros [= _ <-]. }
  intros Hc. exists (length (content_pages pages)), (length (blank_pages pages)).
  assert (Hcount : forall f : page -> bool, position_blind f ->
             length (filter f out) = length (filter f pages)).
  { intros f Hf.
    assert (X : forall l, length (filter f l)
                          = length (filter f (map erase_position l))).
    { induction l as [|p r IH]; simpl; [reflexivity|].
      rewrite (Hf p). destruct (f p); simpl; now rewrite IH. }
    rewrite (X out), (X pages).
    assert (Y : forall l l' : list page, Permutation l l' ->
                length (filter f l) = length (filter f l')).
    { induction 1; simpl; try reflexivity.
      - destruct (f x); simpl; now rewrite IHPermutation.
      - destruct (f x), (f y); reflexivity.
      - congruence. }
    now apply Y. }
  revert E. unfold order_pages_hybrid.
  destruct (content_pages pages) as [|c cs] eqn:Ec; [congruence|].
  destruct (order_content _ pages embeddings); [|discriminate].
  intros [= _ <-]. rewrite <- Ec.
  split; [reflexivity|]. split; [reflexivity|].
  split; [apply filter_split_counts|].
  split; symmetry; apply Hcount; now intros p.
Qed.

Lemma content_key_strict_weak : strict_weak content_key_ltb.
Proof.
  repeat apply pair_ltb_strict_weak;
    [apply Zltb_strict_weak|apply Qltb_strict_weak|apply Zltb_strict_weak
    |apply Natltb_strict_weak].
Qed.

Lemma structure_sorted (content : list page) :
  in_original_order content ->
  StronglySorted by_structure_then_index
    (Py.sorted content_key_ltb content_sort_key content).
Proof.
  intros H.
  apply StronglySorted_impl
    with (R := stable_le content_key_ltb content_sort_key
                         (fun p q => page_index p < page_index q)).
  - intros p q. unfold stable_le, by_structure_then_index, content_sort_key,
                content_key_ltb, Py.pair_ltb, hint_of.
    destruct (section_numeric_value p) as [v|],
             (section_numeric_value q) as [w|]; cbn [fst snd].
    + change (0 <? 0)%Z with false. cbv iota.
      destruct (Py.Qltb v w) eqn:E1.
      * intros _. left. now apply Qltb_lt.
      * apply Qltb_ge in E1.
        destruct (Py.Qltb w v) eqn:E2.
        -- intros [Hlt|[Hge _]]; discriminate.
        -- apply Qltb_ge in E2. intros [Hlt|[_ Hidx]].
           ++ apply Nat.ltb_lt in Hlt. right. split; [|exact Hlt].
              now apply Qle_antisym.
           ++ right. split; [now apply Qle_antisym|exact Hidx].
    + trivial.
    + intros [Hlt|[Hge _]]; discriminate.
    + change (1 <? 1)%Z with false. cbv iota.
      change (Py.Qltb 0 0) with false. cbv iota.
      set (hp := match position_hint p with Some h => h | None => 500%Z end).
      set (hq := match position_hint q with Some h => h | None => 500%Z end).
      destruct (hp <? hq)%Z eqn:E1.
      * intros _. left. now apply Z.ltb_lt.
      * apply Z.ltb_ge in E1.
        destruct (hq <? hp)%Z eqn:E2.
        -- intros [Hlt|[Hge _]]; discriminate.
        -- apply Z.ltb_ge in E2. intros [Hlt|[_ Hidx]].
           ++ apply Nat.ltb_lt in Hlt. right. split; [lia|exact Hlt].
           ++ right. split; [lia|exact Hidx].
  - apply sorted_stable; [apply content_key_strict_weak|exact H].
Qed.

Lemma neighbour_swaps_map (A B : Type) (f : A -> B) (l l' : list A) :
  neighbour_swaps l l' -> neighbour_swaps (map f l) (map f l').
Proof.
  induction 1 as [|l1 a b l2 l' _ IH]; [apply ns_refl|].
  rewrite map_app in *. simpl in *. now apply ns_step.
Qed.

(** X14.  On the structure path (the number order not being chosen), for a
    document in original order with a content page: the content pages
    sorted by section value and then original index, those without a
    section value after them by position hint and then original index, are
    what the result starts from; the returned content differs from this
    order by exchanges of neighbours only, and not at all when there are
    at most 3 content pages; the blank pages follow, and the method is
    named "section_numbers_primary". *)
Theorem structure_order_path (pages out : list page) (meta : metadata)
        (embeddings : list embedding) :
  content_pages pages <> [] ->
  in_original_order pages ->
  use_page_numbers pages = false ->
  hybrid pages embeddings = Some (out, meta) ->
  exists sorted body,
    Permutation sorted (content_pages pages)
    /\ StronglySorted by_structure_then_index sorted
    /\ out = assign_positions (body ++ blank_pages pages)
    /\ neighbour_swaps (map erase_position sorted) (map erase_position body)
    /\ (length (content_pages pages) <= 3 ->
        map erase_position body = map erase_position sorted)
    /\ dict_get "ordering_method" meta
       = Some (MStr "section_numbers_primary").
Proof.
  intros Hc Horig Hu E.
  exists (Py.sorted content_key_ltb content_sort_key (content_pages pages)).
  revert E. unfold order_pages_hybrid, order_content, ordering_method.
  destruct (content_pages pages) as [|c cs] eqn:Ec; [congruence|].
  rewrite <- Ec. rewrite Hu.
  destruct (section_listing_raises (content_pages pages)); [discriminate|].
  assert (Hs : StronglySorted by_structure_then_index
                 (Py.sorted content_key_ltb content_sort_key
                            (content_pages pages))).
  { apply structure_sorted. now apply filter_StronglySorted. }
  destruct (3 <? length (content_pages pages)) eqn:E3.
  - destruct (embeddings_of embeddings _) as [es|] eqn:Ee; [|discriminate].
    intros [= <- <-].
    exists (optimize
              (assign_positions
                 (Py.sorted content_key_ltb content_sort_key
                            (content_pages pages))) es).
    split; [apply sorted_perm|]. split; [exact Hs|].
    split; [reflexivity|]. split.
    + unfold optimize_continuity.
      destruct (negb _).
      * unfold assign_positions. rewrite erase_assign_from. apply ns_refl.
      * unfold assign_positions at 1. rewrite erase_assign_from.
        rewrite <- (erase_assign_from 0 (Py.sorted _ _ _)).
        apply neighbour_swaps_map, pass_swaps.
    + split; [|reflexivity]. apply Nat.ltb_lt in E3. lia.
  - intros [= <- <-].
    exists (assign_positions
              (Py.sorted content_key_ltb content_sort_key
                         (content_pages pages))).
    split; [apply sorted_perm|]. split; [exact Hs|].
    split; [reflexivity|].
    unfold assign_positions. rewrite erase_assign_from.
    split; [apply ns_refl|]. split; reflexivity.
Qed.

End HybridMore.

(** ** The continuity refinement: when it is idle, what it never moves *)

Section RefinementMore.
Import Spec Spec2 Ordering.
Variable embedding : Type.
Variable cosine_similarity : embedding -> embedding -> Q.

Local Abbreviation step := (continuity_step cosine_similarity).
Local Abbreviation pass := (continuity_pass cosine_similarity).
Local Abbreviation optimize := (optimize_continuity cosine_similarity).

Lemma scores_are_similarities (embeddings : list embedding) (s : Q) :
  In s (continuity_scores cosine_similarity embeddings) ->
  exists a b, s = compute_similarity cosine_similarity a b.
Proof.
  induction embeddings as [|a [|b r] IH]; simpl; try contradiction.
  intros [<-|H]; [now exists a, b|now apply IH].
Qed.

Lemma step_idle (scores : list Q) (st : list page * list embedding)
      (i : nat) :
  (forall s, nth_error scores i = Some s ->
             (threshold <= s)%Q
             \/ forall a b,
                 (compute_similarity cosine_similarity a b
                  <= Float.add s (Float.nearest (2 # 10)))%Q) ->
  step scores st i = st.
Proof.
  intros H. unfold continuity_step. destruct st as [ps es].
  destruct (nth_error scores i) as [s|]; [|reflexivity].
  destruct (H s eq_refl) as [Hs|Hs].
  - apply Qltb_ge in Hs. now rewrite Hs.
  - destruct (_ && _); [|reflexivity].
    destruct (_ <? _); [|reflexivity].
    destruct (nth_error es i) as [a|]; [|reflexivity].
    destruct (nth_error es (i + 2)) as [b|]; [|reflexivity].
    specialize (Hs a b). apply Qltb_ge in Hs. now rewrite Hs.
Qed.

Lemma fold_idle (scores : list Q) (idxs : list nat)
      (st : list page * list embedding) :
  (forall i s, nth_error scores i = Some s ->
               (threshold <= s)%Q
               \/ forall a b,
                   (compute_similarity cosine_similarity a b
                    <= Float.add s (Float.nearest (2 # 10)))%Q) ->
  fold_left (step scores) idxs st = st.
Proof.
  intros H. induction idxs as [|i r IH]; simpl; [reflexivity|].
  rewrite step_idle; [exact IH|]. intros s. apply H.
Qed.

(** Adding the float 0.2 to a float does not make it smaller. *)
Lemma add_fifth_ge (x : Q) :
  (Float.nearest x <= Float.add (Float.nearest x) (Float.nearest (2 # 10)))%Q.
Proof.
  unfold Float.add.
  apply Qle_trans with (Float.nearest (Float.nearest x)).
  - apply Qle_lteq. right. apply Qeq_sym, nearest_idem.
  - apply nearest_mono.
    assert (H : (0 <= Float.nearest (Float.nearest (2 # 10)))%Q)
      by (apply nearest_nonneg, nearest_nonneg; discriminate).
    pose proof (nearest_idem x) as E.
    set (u := Float.nearest (Float.nearest x)) in *.
    set (v := Float.nearest (Float.nearest (2 # 10))) in *.
    set (w := Float.nearest x) in *. lra.
Qed.

(** X15.  The refinement changes nothing but the positions when no adjacent
    pair of the given order has a similarity below 0.3, and also when the
    similarity is the same for all pairs, as it is (0.0) when the
    embedding library is absent. *)
Theorem refinement_idle (pages : list page) (embeddings : list embedding) :
  length embeddings = length pages ->
  Forall (fun s => (threshold <= s)%Q)
         (continuity_scores cosine_similarity embeddings)
  \/ (exists c, forall a b, (cosine_similarity a b == c)%Q) ->
  optimize pages embeddings = assign_positions pages.
Proof.
  intros Hlen H. unfold optimize_continuity.
  apply Nat.eqb_eq in Hlen. rewrite Hlen. simpl.
  unfold continuity_pass. rewrite fold_idle; [reflexivity|].
  intros i s Hs. apply nth_error_In in Hs.
  destruct H as [H|[c Hc]].
  - left. rewrite Forall_forall in H. now apply H.
  - right. intros a b.
    apply scores_are_similarities in Hs as (a' & b' & ->).
    unfold compute_similarity.
    apply Qle_trans with (Float.nearest (cosine_similarity a' b')).
    + apply Qle_lteq. right. apply nearest_comp.
      now rewrite (Hc a b), (Hc a' b').
    + apply add_fifth_ge.
Qed.

Lemma nth_error_swap_at_other (A : Type) (i j : nat) (l : list A) :
  j < i \/ i + 1 < j -> nth_error (Py.swap_at i l) j = nth_error l j.
Proof.
  intros Hj.
  destruct (swap_at_shape A i l) as [(l1 & a & b & l2 & -> & Hl & ->)|[_ ->]];
    [|reflexivity].
  destruct Hj as [Hj|Hj].
  - now rewrite !nth_error_app1 by lia.
  - rewrite !nth_error_app2 by lia.
    destruct (j - length l1) as [|[|k]] eqn:E; try lia. reflexivity.
Qed.

Lemma step_keeps_ends (scores : list Q) (st : list page * list embedding)
      (i : nat) :
  length (fst (step scores st i)) = length (fst st)
  /\ nth_error (fst (step scores st i)) 0 = nth_error (fst st) 0
  /\ nth_error (fst (step scores st i)) (length (fst st) - 1)
     = nth_error (fst st) (length (fst st) - 1).
Proof.
  destruct (continuity_step_test embedding cosine_similarity scores st i)
    as [[Ht E]|[_ E]]; rewrite E; [|now repeat split].
  destruct Ht as (s & e & e2 & _ & _ & Hlen & _).
  cbn [fst]. split; [apply swap_at_length|].
  split; apply nth_error_swap_at_other; lia.
Qed.

Lemma fold_keeps_ends (scores : list Q) (idxs : list nat)
      (st : list page * list embedding) :
  length (fst (fold_left (step scores) idxs st)) = length (fst st)
  /\ nth_error (fst (fold_left (step scores) idxs st)) 0
     = nth_error (fst st) 0
  /\ nth_error (fst (fold_left (step scores) idxs st)) (length (fst st) - 1)
     = nth_error (fst st) (length (fst st) - 1).
Proof.
  revert st. induction idxs as [|i r IH]; intros st; cbn [fold_left];
    [now repeat split|].
  destruct (step_keeps_ends scores st i) as (L & H0 & Hl).
  destruct (IH (step scores st i)) as (L' & H0' & Hl').
  rewrite L in L', Hl'. split; [exact L'|].
  split; congruence.
Qed.

(** X16.  The refinement never moves the first page nor the last page of the
    order it is given. *)
Theorem refinement_keeps_ends (pages : list page)
        (embeddings : list embedding) :
  nth_error (map erase_position (optimize pages embeddings)) 0
  = nth_error (map erase_position pages) 0
  /\ nth_error (map erase_position (optimize pages embeddings))
               (length pages - 1)
     = nth_error (map erase_position pages) (length pages - 1)
  /\ length (optimize pages embeddings) = length pages.
Proof.
  unfold optimize_continuity.
  destruct (negb _); [now repeat split|].
  unfold assign_positions. rewrite erase_assign_from, assign_from_length.
  unfold continuity_pass.
  destruct (fold_keeps_ends
              (continuity_scores cosine_similarity embeddings)
              (seq 0 (length (continuity_scores cosine_similarity
                                                embeddings)))
              (pages, embeddings)) as (L & H0 & Hl).
  cbn [fst] in L, H0, Hl. rewrite !nth_error_map, H0, Hl.
  now repeat split.
Qed.

End RefinementMore.

Section ReliabilityOfNumbers.
Import Spec Ordering.
Local Open Scope Z_scope.

Lemma gaps_length (nums : list Z) :
  length (gaps nums) = (length nums - 1)%nat.
Proof.
  induction nums as [|a [|b r] IH]; try reflexivity.
  change (gaps (a :: b :: r)) with (Z.abs (b - a) :: gaps (b :: r)).
  cbn [length] in *. rewrite IH. lia.
Qed.

Lemma gaps_sum_sorted (nums : list Z) :
  StronglySorted Z.le nums ->
  Py.sum (gaps nums) = last nums 0 - hd 0 nums
  /\ Forall (fun n => hd 0 nums <= n <= last nums 0) nums.
Proof.
  induction nums as [|a [|b r] IH]; intros Hs.
  - split; [reflexivity|constructor].
  - split; [simpl; lia|]. repeat constructor; simpl; lia.
  - pose proof (StronglySorted_inv Hs) as [Hs' Ha].
    destruct (IH Hs') as [I1 I2].
    change (gaps (a :: b :: r)) with (Z.abs (b - a) :: gaps (b :: r)).
    change (last (a :: b :: r) 0) with (last (b :: r) 0).
    cbn [hd] in *.
    assert (Hab : a <= b) by (inversion Ha; assumption).
    split.
    + change (Py.sum (Z.abs (b - a) :: gaps (b :: r)))
        with (Z.abs (b - a) + Py.sum (gaps (b :: r))).
      rewrite I1. lia.
    + inversion I2 as [|? ? Hb Hr]; subst.
      constructor; [lia|]. constructor; [lia|].
      eapply Forall_impl; [|exact Hr]. simpl. intros; lia.
Qed.

Lemma numbered_sorted (pages : list page) :
  StronglySorted Z.le (map number_of (numbered_pages pages)).
Proof.
  unfold numbered_pages.
  apply StronglySorted_map_impl
    with (R := stable_le Z.ltb number_of (fun _ _ => True)).
  - intros p q [H|[H _]].
    + apply Z.ltb_lt in H. lia.
    + now apply Z.ltb_ge in H.
  - apply sorted_stable; [apply Zltb_strict_weak|apply StronglySorted_any].
Qed.

Lemma Zpos_of_nat (n : nat) : (0 < n)%nat -> Zpos (Pos.of_nat n) = Z.of_nat n.
Proof.
  intros H. rewrite <- positive_nat_Z. f_equal. apply Nat2Pos.id. lia.
Qed.

(** X17.  The page numbers count as sequential unless more than two content
    pages have a number and the numbers are spread too far: the average
    gap is the difference between the highest and the lowest number over
    the count less one, so only these two numbers and the count matter.
    The score is 0.5 exactly when, with [k > 2] numbers,
    [2 * (highest - lowest) > 3 * (k - 1)], and 1.0 otherwise.  The
    coverage lies between 0 and 1. *)
Theorem sequential_score_spread (pages : list page) :
  StronglySorted Z.le (map number_of (numbered_pages pages))
  /\ Permutation (map number_of (numbered_pages pages))
                 (map number_of (filter has_number (content_pages pages)))
  /\ Forall (fun n => hd 0 (map number_of (numbered_pages pages)) <= n
                      <= last (map number_of (numbered_pages pages)) 0)
            (map number_of (numbered_pages pages))
  /\ (sequential_score pages = (5 # 10)%Q \/ sequential_score pages = 1%Q)
  /\ (sequential_score pages = (5 # 10)%Q
      <-> (2 < pages_with_numbers pages)%nat
          /\ 3 * (Z.of_nat (pages_with_numbers pages) - 1)
             < 2 * (last (map number_of (numbered_pages pages)) 0
                    - hd 0 (map number_of (numbered_pages pages))))
  /\ (0 <= page_number_coverage pages)%Q
  /\ (page_number_coverage pages <= 1)%Q.
Proof.
  pose proof (numbered_sorted pages) as Hs.
  destruct (gaps_sum_sorted _ Hs) as [Hsum Hall].
  split; [exact Hs|].
  split; [apply Permutation_map, sorted_perm|].
  split; [exact Hall|].
  assert (Hscore :
            (sequential_score pages = (5 # 10)%Q
             /\ (2 < pages_with_numbers pages)%nat
             /\ 3 * (Z.of_nat (pages_with_numbers pages) - 1)
                < 2 * (last (map number_of (numbered_pages pages)) 0
                       - hd 0 (map number_of (numbered_pages pages))))
            \/ (sequential_score pages = 1%Q
                /\ ~ ((2 < pages_with_numbers pages)%nat
                      /\ 3 * (Z.of_nat (pages_with_numbers pages) - 1)
                         < 2 * (last (map number_of (numbered_pages pages)) 0
                                - hd 0 (map number_of
                                              (numbered_pages pages)))))).
  { unfold sequential_score. cbv zeta. rewrite numbered_pages_length.
    destruct (2 <? pages_with_numbers pages)%nat eqn:E.
    - apply Nat.ltb_lt in E.
      rewrite gaps_length, length_map, numbered_pages_length, Hsum.
      destruct (Py.Qltb (15 # 10) _) eqn:Eq.
      + left. split; [reflexivity|]. split; [exact E|].
        apply Qltb_lt in Eq. unfold Qlt in Eq. cbn [Qnum Qden] in Eq.
        rewrite Zpos_of_nat in Eq by lia. lia.
      + right. split; [reflexivity|]. intros [_ H].
        apply Qltb_ge in Eq. unfold Qle in Eq. cbn [Qnum Qden] in Eq.
        rewrite Zpos_of_nat in Eq by lia. lia.
    - right. split; [reflexivity|]. apply Nat.ltb_ge in E. lia. }
  split; [destruct Hscore as [[E _]|[E _]]; [now left|now right]|].
  split.
  { destruct Hscore as [[E H]|[E H]]; rewrite E.
    - split; [intros _; exact H|reflexivity].
    - split; [discriminate|intros H'; contradiction]. }
  unfold page_number_coverage, pages_with_numbers.
  destruct (content_pages pages) as [|c cs] eqn:Ec.
  - split; discriminate.
  - rewrite <- Ec.
    assert (Hle : (length (filter has_number (content_pages pages))
                   <= length (content_pages pages))%nat)
      by apply filter_length_le.
    assert (Hpos : (0 < length (content_pages pages))%nat)
      by (rewrite Ec; simpl; lia).
    split; unfold Qle; cbn [Qnum Qden]; rewrite ?Zpos_of_nat by lia; lia.
Qed.

End ReliabilityOfNumbers.

(** ** The adapter on a usable answer (modules/llm_ordering.py) *)

Section AdapterSuccess.
Import Spec Spec2 LlmOrdering.
Variable embedding : Type.
Variable cosine_similarity : embedding -> embedding -> Q.
Variable round2 : Q -> Q.

Lemma reorder_in_range (pages : list page) (order : list Z) :
  Forall (fun i => (0 <= i < Z.of_nat (length pages))%Z) order ->
  reorder pages order = Some (flat_map (page_at pages) order).
Proof.
  induction 1 as [|i r Hi _ IH]; simpl; [reflexivity|].
  assert (E : (i <? 0)%Z = false) by (apply Z.ltb_ge; lia).
  rewrite E, E, IH. unfold page_at.
  destruct (nth_error pages (Z.to_nat i)) eqn:En; [reflexivity|].
  apply nth_error_None in En. lia.
Qed.

Lemma pages_by_index (pages : list page) :
  flat_map (page_at pages) (input_indices (length pages)) = pages.
Proof.
  unfold input_indices.
  assert (G : forall (l : list page) (k : nat) (pre : list page),
             length pre = k ->
             flat_map (page_at (pre ++ l))
                      (map Z.of_nat (seq k (length l))) = l).
  { induction l as [|p r IH]; intros k pre Hk; simpl; [reflexivity|].
    unfold page_at at 1. rewrite Nat2Z.id, nth_error_app2 by lia.
    replace (k - length pre) with 0 by lia. simpl. f_equal.
    change (pre ++ p :: r) with (pre ++ [p] ++ r). rewrite app_assoc.
    apply IH. rewrite length_app. simpl. lia. }
  apply (G pages 0 []). reflexivity.
Qed.

Lemma report_error_printable (result : response) :
  report_error
    (match resp_confidence result with Some v => v | None => JFloat 0 end)
    (match detected_sections result with Some v => v | None => JArray [] end)
    (match reasoning result with Some v => v | None => JString "" end)
  = None
  <-> printable result.
Proof.
  unfold report_error, printable.
  destruct (resp_confidence result) as [[| | z | | | | |]|];
    destruct (detected_sections result) as [[]|];
    destruct (reasoning result) as [[]|];
    cbn [percent_error len_error slice_error];
    try (split; [intros E; try discriminate E; now repeat split
                |intros (H1 & H2 & H3); try contradiction; reflexivity]);
    destruct (Z.abs z <? 2 ^ 1024 - 2 ^ 970)%Z eqn:Ez;
    try (apply Z.ltb_lt in Ez); try (apply Z.ltb_ge in Ez);
    (split; [intros E; try discriminate E; now repeat split
            |intros (H1 & H2 & H3); try contradiction; try lia;
             reflexivity]).
Qed.

Lemma update_at_erased (i : Z) (k : nat) (ps ps' : list page) :
  Duplicates.update_at i (set_new_position k) ps = Some ps' ->
  map erase_position ps' = map erase_position ps.
Proof.
  unfold Duplicates.update_at.
  destruct (Py.index (length ps) i) as [j|]; [|discriminate].
  now apply update_position_map.
Qed.

(** The loop that writes the positions changes nothing else. *)
Lemma place_erased (k : nat) (order : list Z) (ps : list page) :
  map erase_position (place k order ps) = map erase_position ps.
Proof.
  revert k ps. induction order as [|i r IH]; intros k ps; simpl;
    [reflexivity|].
  rewrite IH.
  destruct (Duplicates.update_at i (set_new_position k) ps) as [ps'|] eqn:E;
    [now apply update_at_erased in E|reflexivity].
Qed.

Lemma place_untouched (k : nat) (order : list Z) (ps : list page) (j : nat) :
  Forall (fun i => (0 <= i < Z.of_nat (length ps))%Z) order ->
  ~ In (Z.of_nat j) order ->
  nth_error (place k order ps) j = nth_error ps j.
Proof.
  revert k ps. induction order as [|i r IH]; intros k ps Hr Hj; simpl;
    [reflexivity|].
  inversion Hr as [|? ? Hi Hr']; subst.
  destruct (update_at_spec (Z.to_nat i) (set_new_position k) ps)
    as (ps' & E & L & N); [lia|].
  rewrite Z2Nat.id in E by lia. rewrite E.
  rewrite IH.
  - rewrite N. destruct (j =? Z.to_nat i) eqn:Ej; [|reflexivity].
    apply Nat.eqb_eq in Ej. exfalso. apply Hj. left. lia.
  - now rewrite L.
  - intros H. apply Hj. now right.
Qed.

(** After the loop the page whose index is the [k]-th of the order has
    position [k]. *)
Lemma place_positions (k0 : nat) (order : list Z) (ps : list page) :
  NoDup order ->
  Forall (fun i => (0 <= i < Z.of_nat (length ps))%Z) order ->
  forall k idx,
    nth_error order k = Some idx ->
    exists p, nth_error (place k0 order ps) (Z.to_nat idx) = Some p
              /\ new_position p = Some (k0 + k).
Proof.
  intros Hnd. revert k0 ps.
  induction Hnd as [|i r Hi Hnd IH]; intros k0 ps Hr k idx Hk;
    [destruct k; discriminate|].
  inversion Hr as [|? ? Hir Hr']; subst.
  destruct (update_at_spec (Z.to_nat i) (set_new_position k0) ps)
    as (ps' & E & L & N); [lia|].
  rewrite Z2Nat.id in E by lia. simpl. rewrite E.
  destruct k as [|k]; simpl in Hk.
  - injection Hk as ->.
    rewrite place_untouched.
    + rewrite N, Nat.eqb_refl.
      destruct (nth_error ps (Z.to_nat idx)) as [p|] eqn:Ep.
      * exists (set_new_position k0 p). split; [reflexivity|].
        simpl. f_equal. lia.
      * apply nth_error_None in Ep. lia.
    + now rewrite L.
    + now rewrite Z2Nat.id by lia.
  - destruct (IH (S k0) ps') with (k := k) (idx := idx) as (p & Hp & Hpos);
      [now rewrite L|exact Hk|].
    exists p. split; [exact Hp|]. rewrite Hpos. f_equal. lia.
Qed.

Lemma Forall_erased (P : page -> Prop) (l l' : list page) :
  (forall p q, erase_position p = erase_position q -> P q -> P p) ->
  map erase_position l = map erase_position l' -> Forall P l' -> Forall P l.
Proof.
  intros HP. revert l'. induction l as [|p r IH]; intros [|q s] E H;
    try discriminate; [constructor|].
  pose proof (f_equal (hd (erase_position p)) E) as Ep.
  pose proof (f_equal (@tl _) E) as Er. cbn [map hd tl] in Ep, Er.
  inversion H; subst.
  constructor; [now apply (HP p q)|now apply (IH s)].
Qed.

(** X18.  On an answer whose [correct_order] is a permutation of the page
    indices, with the service available, configured when a key is given,
    and every page having a title, the adapter writes the positions of the
    answer into the page dictionaries: the caller's pages are the same
    pages, and the page whose index is the [k]-th of the answer has
    position [k].  What it returns then depends on the report it prints.
    When the report can be formatted (the confidence, if the answer has
    one, is a number that [float] accepts, the detected sections have a
    length, the reasoning can be sliced) it returns the pages in the order
    of the answer, every page once, positions numbered from 0, with
    metadata that names the method "gemini_ai_structured" and counts no
    blank pages, whatever the titles are, and the processor returns this
    result when the adapter is requested with a key.  When the report
    cannot be formatted the exception is caught: the adapter returns no
    pages and [{"error": reason}], and the processor runs the hybrid engine
    on the pages that carry the positions of the answer; on the pages that
    the feature extractor produces the engine returns, and returns every
    page. *)
Theorem adapter_orders_as_told (configured : bool) (api_key : option string)
        (answer : reply) (pages : list page) (embeddings : list embedding) :
  valid_answer pages answer ->
  Forall (fun p => title p <> None) pages ->
  (forall k, api_key = Some k -> k <> ""%string -> configured = true) ->
  exists result order,
    answer = Parsed result
    /\ correct_order result = Some order
    /\ Permutation (flat_map (page_at pages) order) pages
    /\ map erase_position
           (pages_after_gemini true configured answer pages api_key)
       = map erase_position pages
    /\ (forall k idx,
           nth_error order k = Some idx ->
           exists p,
             nth_error (pages_after_gemini true configured answer pages
                                           api_key) (Z.to_nat idx)
             = Some p
             /\ new_position p = Some k)
    /\ (printable result ->
        exists meta,
          order_pages_with_gemini true configured answer pages api_key
          = (Some (assign_positions (flat_map (page_at pages) order)), meta)
          /\ map new_position
                 (assign_positions (flat_map (page_at pages) order))
             = map Some (seq 0 (length pages))
          /\ dict_get "ordering_method" meta
             = Some (MStr "gemini_ai_structured")
          /\ dict_get "blank_pages" meta = Some (MInt 0)
          /\ (forall k, api_key = Some k -> k <> ""%string ->
                        Processor.reorder_pages
                          cosine_similarity round2 true true configured
                          api_key answer pages embeddings
                        = Some (assign_positions
                                  (flat_map (page_at pages) order), meta)))
    /\ (~ printable result ->
        (exists reason,
            order_pages_with_gemini true configured answer pages api_key
            = (None, [("error"%string, MStr reason)]))
        /\ forall k,
            api_key = Some k -> k <> ""%string ->
            Processor.reorder_pages
              cosine_similarity round2 true true configured api_key
              answer pages embeddings
            = Ordering.order_pages_hybrid
                cosine_similarity round2
                (pages_after_gemini true configured answer pages api_key)
                embeddings
            /\ (titled_sections pages ->
                Forall (fun p => page_index p < length embeddings) pages ->
                exists out meta,
                  Processor.reorder_pages
                    cosine_similarity round2 true true configured api_key
                    answer pages embeddings
                  = Some (out, meta)
                  /\ Permutation (map erase_position out)
                                 (map erase_position pages))).
Proof.
  intros (result & order & -> & Eo & HP) Ht Hk.
  assert (Hperm : Permutation (flat_map (page_at pages) order) pages).
  { rewrite <- (pages_by_index pages) at 2.
    now apply Permutation_flat_map. }
  assert (Hrange : Forall (fun i => (0 <= i < Z.of_nat (length pages))%Z)
                          order).
  { apply Forall_forall. intros i Hi.
    apply (Permutation_in i HP) in Hi. unfold input_indices in Hi.
    apply in_map_iff in Hi as (k & <- & Hk'). apply in_seq in Hk'. lia. }
  assert (Hnd : NoDup order).
  { apply (Permutation_NoDup (Permutation_sym HP)), input_indices_NoDup. }
  assert (Hv : (length order =? length pages)
               && same_index_set order (length pages) = true)
    by now apply validation_accepts_permutations.
  apply andb_true_iff in Hv as [Hl Hs].
  assert (Hcfg : match api_key with
                 | Some k => negb (String.eqb k "") && negb configured
                 | None => false
                 end = false).
  { destruct api_key as [k|]; [|reflexivity].
    destruct (String.eqb k "") eqn:E; [reflexivity|].
    apply String.eqb_neq in E. now rewrite (Hk k eq_refl E). }
  assert (Htitles : existsb (fun p => match title p with
                                      | None => true
                                      | Some _ => false
                                      end) pages = false).
  { destruct (existsb _ pages) eqn:E; [|reflexivity].
    apply existsb_exists in E as (p & Hp & E).
    rewrite Forall_forall in Ht. specialize (Ht p Hp).
    destruct (title p); [discriminate|congruence]. }
  pose proof (report_error_printable result) as Hprint.
  assert (Hcall : exists outcome,
             call_gemini true configured (Parsed result) pages api_key
             = (outcome, place 0 order pages)
             /\ match report_error
                        (match resp_confidence result with
                         | Some v => v | None => JFloat 0 end)
                        (match detected_sections result with
                         | Some v => v | None => JArray [] end)
                        (match reasoning result with
                         | Some v => v | None => JString "" end) with
                | Some message => outcome = (None, error message)
                | None =>
                    exists meta,
                    outcome
                    = (Some (assign_positions
                               (flat_map (page_at pages) order)), meta)
                    /\ dict_get "ordering_method" meta
                       = Some (MStr "gemini_ai_structured")
                    /\ dict_get "blank_pages" meta = Some (MInt 0)
                end).
  { unfold call_gemini, validate_and_reorder.
    cbn [negb]. rewrite Hcfg, Htitles, Eo, Hl, Hs. cbn [negb].
    rewrite (reorder_in_range pages order Hrange). cbv zeta.
    destruct (report_error _ _ _) as [message|].
    - eexists. split; reflexivity.
    - eexists. split; [reflexivity|]. eexists.
      split; [reflexivity|]. split; reflexivity. }
  destruct Hcall as (outcome & Ecall & Hout).
  assert (Eafter : pages_after_gemini true configured (Parsed result) pages
                                      api_key = place 0 order pages)
    by (unfold pages_after_gemini; now rewrite Ecall).
  assert (Eret : order_pages_with_gemini true configured (Parsed result)
                                         pages api_key = outcome)
    by (unfold order_pages_with_gemini; now rewrite Ecall).
  exists result, order.
  split; [reflexivity|]. split; [exact Eo|]. split; [exact Hperm|].
  split; [rewrite Eafter; apply place_erased|].
  split.
  { intros k idx Hidx. rewrite Eafter.
    now apply (place_positions 0 order pages Hnd Hrange k idx). }
  split.
  - intros Hp. apply Hprint in Hp. rewrite Hp in Hout.
    destruct Hout as (meta & -> & Hm & Hb).
    exists meta. split; [exact Eret|]. split.
    { unfold assign_positions. rewrite assign_from_positions.
      now rewrite (Permutation_length Hperm). }
    split; [exact Hm|]. split; [exact Hb|].
    intros k -> Hne. unfold Processor.reorder_pages.
    apply String.eqb_neq in Hne. rewrite Hne. cbn [andb negb].
    now rewrite Eret.
  - intros Hnp.
    destruct (report_error _ _ _) as [message|] eqn:Er;
      [|exfalso; now apply Hnp, Hprint].
    subst outcome.
    split; [now exists message|].
    intros k -> Hne.
    assert (Efb : Processor.reorder_pages
                    cosine_similarity round2 true true configured (Some k)
                    (Parsed result) pages embeddings
                  = Ordering.order_pages_hybrid
                      cosine_similarity round2
                      (pages_after_gemini true configured (Parsed result)
                                          pages (Some k))
                      embeddings).
    { unfold Processor.reorder_pages.
      apply String.eqb_neq in Hne. rewrite Hne. cbn [andb negb].
      now rewrite Eret. }
    split; [exact Efb|].
    intros Hts Hidx. rewrite Efb.
    assert (Hera : map erase_position
                       (pages_after_gemini true configured (Parsed result)
                                           pages (Some k))
                   = map erase_position pages)
      by (rewrite Eafter; apply place_erased).
    destruct (hybrid_total embedding cosine_similarity round2
                (pages_after_gemini true configured (Parsed result) pages
                                    (Some k)) embeddings)
      as (out & meta & E).
    { apply (Forall_erased _ _ pages); [|exact Hera|exact Hts].
      intros p q Epq. unfold erase_position in Epq.
      injection Epq as _ _ Et _ Es _ _ _ _ _. now rewrite Et, Es. }
    { apply (Forall_erased _ _ pages); [|exact Hera|exact Hidx].
      intros p q Epq. unfold erase_position in Epq.
      injection Epq as Ei _ _ _ _ _ _ _ _ _. now rewrite Ei. }
    exists out, meta. split; [exact E|].
    rewrite <- Hera.
    exact (hybrid_erased embedding cosine_similarity round2 _ out meta
                         embeddings E).
Qed.

End AdapterSuccess.

Section AdapterExamples.
Import Spec Spec2 LlmOrdering Examples Examples2.
Local Open Scope string_scope.

Lemma adapter_orders_as_told_witness :
  valid_answer [plain 0 "Alpha"; blank 1] reversed_answer
  /\ valid_answer [plain 0 "Alpha"; blank 1] wordy_answer
  /\ (exists meta,
         order_pages_with_gemini true true reversed_answer
                                 [plain 0 "Alpha"; blank 1] (Some "key")
         = (Some (assign_positions [blank 1; plain 0 "Alpha"]), meta)
         /\ dict_get "blank_pages" meta = Some (MInt 0))
  /\ order_pages_with_gemini true true wordy_answer
                             [plain 0 "Alpha"; blank 1] (Some "key")
     = (None, error "Unknown format code '%' for object of type 'str'")
  /\ map new_position
         (pages_after_gemini true true wordy_answer
                             [plain 0 "Alpha"; blank 1] (Some "key"))
     = [Some 1; Some 0]
  /\ Processor.reorder_pages no_similarity keep true true true (Some "key")
                             wordy_answer [plain 0 "Alpha"; blank 1] [tt; tt]
     = Ordering.order_pages_hybrid
         no_similarity keep
         (pages_after_gemini true true wordy_answer
                             [plain 0 "Alpha"; blank 1] (Some "key"))
         [tt; tt].
Proof.
  assert (Hv : valid_answer [plain 0 "Alpha"; blank 1] reversed_answer).
  { exists (mkResponse None None None None (Some [1; 0]%Z)), [1; 0]%Z.
    split; [reflexivity|]. split; [reflexivity|]. apply perm_swap. }
  assert (Hw : valid_answer [plain 0 "Alpha"; blank 1] wordy_answer).
  { exists (mkResponse None (Some (JString "high")) None None
                       (Some [1; 0]%Z)), [1; 0]%Z.
    split; [reflexivity|]. split; [reflexivity|]. apply perm_swap. }
  assert (Ht : Forall (fun p => title p <> None) [plain 0 "Alpha"; blank 1])
    by (repeat constructor; discriminate).
  split; [exact Hv|]. split; [exact Hw|].
  destruct (adapter_orders_as_told
              unit no_similarity keep true (Some "key") reversed_answer
              [plain 0 "Alpha"; blank 1] [tt; tt] Hv Ht (fun _ _ _ => eq_refl))
    as (result & order & E & Eo & _ & _ & _ & Hok & _).
  injection E as <-. injection Eo as <-.
  destruct Hok as (meta & Eg & _ & _ & Hb & _).
  { repeat split. }
  destruct (adapter_orders_as_told
              unit no_similarity keep true (Some "key") wordy_answer
              [plain 0 "Alpha"; blank 1] [tt; tt] Hw Ht (fun _ _ _ => eq_refl))
    as (result & order & E & Eo & _ & _ & _ & _ & Hbad).
  injection E as <-. injection Eo as <-.
  destruct Hbad as (_ & Hfb).
  { intros (H & _). exact H. }
  destruct (Hfb "key" eq_refl) as (Efb & _); [discriminate|].
  split; [exists meta; split; [exact Eg|exact Hb]|].
  split; [reflexivity|]. split; [reflexivity|exact Efb].
Defined.

End AdapterExamples.

(** ** The table of contents and the outline (modules/export_pdf.py) *)

Section TableOfContents.
Import ExportPdf Spec2.
Local Open Scope string_scope.

Lemma string_app_nonempty (a b : string) : a <> "" -> (a ++ b) <> "".
Proof. destruct a; [congruence|discriminate]. Qed.

Lemma toc_entry_none (idx : nat) (p : toc_page) :
  toc_entry idx p = None <-> marked_blank p = true.
Proof.
  unfold toc_entry, marked_blank.
  destruct (toc_title p) as [[|c t]|]; cbv zeta.
  - change (String.eqb ("Page " ++ LlmOrdering.show_nat (idx + 1)) BLANK_PAGE)
      with false.
    cbv iota. split; [|discriminate].
    destruct (toc_section_number p) as [[|? ?]|]; discriminate.
  - destruct (String.eqb (String c t) BLANK_PAGE); [now split|].
    split; [|discriminate].
    destruct (toc_section_number p) as [[|? ?]|]; discriminate.
  - change (String.eqb ("Page " ++ LlmOrdering.show_nat (idx + 1)) BLANK_PAGE)
      with false.
    cbv iota. split; [|discriminate].
    destruct (toc_section_number p) as [[|? ?]|]; discriminate.
Qed.

Lemma toc_entry_some (idx : nat) (p : toc_page) (e : nat * string * nat) :
  toc_entry idx p = Some e ->
  snd e = idx + 1
  /\ 1 <= fst (fst e) <= 4
  /\ snd (fst e) <> ""
  /\ (match toc_section_number p with
      | Some (String _ _) => False
      | _ => True
      end -> fst (fst e) <= 2).
Proof.
  unfold toc_entry. cbv zeta.
  destruct (toc_title p) as [[|c t]|];
    match goal with
    | |- context [String.eqb ?x BLANK_PAGE] =>
        destruct (String.eqb x BLANK_PAGE); [discriminate|]
    end;
    (destruct (toc_section_number p) as [[|a s]|];
     intros [= <-]; cbn [fst snd];
     (split; [reflexivity|]);
     (split;
      [first [lia
             |repeat match goal with
                     | |- context [if ?b then _ else _] => destruct b
                     end; lia]|]);
     (split;
      [repeat match goal with
              | |- context [if ?b then _ else _] => destruct b
              end; discriminate
      |first [contradiction
             |intros _;
              repeat match goal with
                     | |- context [if ?b then _ else _] => destruct b
                     end; lia]])).
Qed.

Lemma toc_from_numbers (pages : list toc_page) (idx : nat) :
  map (fun e => snd e) (toc_from idx pages)
  = map S (content_indices idx pages)
  /\ Forall (fun e => 1 <= fst (fst e) <= 4 /\ snd (fst e) <> "")
            (toc_from idx pages).
Proof.
  revert idx. induction pages as [|p r IH]; intros idx; simpl.
  - split; [reflexivity|constructor].
  - destruct (IH (S idx)) as [I1 I2].
    destruct (toc_entry idx p) as [e|] eqn:E.
    + assert (Hb : marked_blank p = false).
      { destruct (marked_blank p) eqn:Hb; [|reflexivity].
        apply toc_entry_none with (idx := idx) in Hb. congruence. }
      rewrite Hb. destruct (toc_entry_some idx p e E) as (H1 & H2 & H3 & _).
      split.
      * simpl. rewrite I1, H1. f_equal. lia.
      * constructor; [now split|exact I2].
    + apply toc_entry_none in E. rewrite E. now split.
Qed.

Lemma content_indices_sorted (pages : list toc_page) (idx : nat) :
  StronglySorted lt (content_indices idx pages)
  /\ Forall (fun k => idx <= k < idx + length pages)
            (content_indices idx pages).
Proof.
  revert idx. induction pages as [|p r IH]; intros idx; simpl.
  - split; constructor.
  - destruct (IH (S idx)) as [I1 I2].
    assert (I3 : Forall (fun k => idx <= k < idx + S (length r))
                        (content_indices (S idx) r))
      by (eapply Forall_impl; [|exact I2]; simpl; intros; lia).
    destruct (marked_blank p); [now split|].
    split.
    + constructor; [exact I1|].
      eapply Forall_impl; [|exact I2]. simpl. intros; lia.
    + constructor; [lia|exact I3].
Qed.

Lemma content_indices_In (pages : list toc_page) (idx k : nat) :
  In k (content_indices idx pages)
  <-> exists p, nth_error pages (k - idx) = Some p /\ idx <= k
                /\ marked_blank p = false.
Proof.
  revert idx. induction pages as [|p r IH]; intros idx; simpl.
  - split; [contradiction|]. intros (p & H & _).
    destruct (k - idx); discriminate.
  - destruct (marked_blank p) eqn:Hb.
    + rewrite IH. split.
      * intros (q & Hq & Hle & Hq'). exists q.
        replace (k - idx) with (S (k - S idx)) by lia. simpl.
        repeat split; trivial. lia.
      * intros (q & Hq & Hle & Hq').
        destruct (k - idx) as [|j] eqn:Ej.
        -- simpl in Hq. injection Hq as <-. congruence.
        -- simpl in Hq. exists q.
           replace (k - S idx) with j by lia. repeat split; trivial. lia.
    + simpl. rewrite IH. split.
      * intros [<-|(q & Hq & Hle & Hq')].
        -- exists p. rewrite Nat.sub_diag. now repeat split.
        -- exists q. replace (k - idx) with (S (k - S idx)) by lia.
           simpl. repeat split; trivial. lia.
      * intros (q & Hq & Hle & Hq').
        destruct (k - idx) as [|j] eqn:Ej.
        -- left. lia.
        -- right. simpl in Hq. exists q.
           replace (k - S idx) with j by lia. repeat split; trivial. lia.
Qed.

(** X19.  The table of contents has one entry for each page that is not marked
    blank, in page order, with the page's position counted from 1; a page
    without a title is listed as "Page n".  Levels lie between 1 and 4 and
    no entry title is empty. *)
Theorem create_toc_entries (pages : list toc_page) :
  map (fun e => snd e) (create_toc pages)
  = map S (content_indices 0 pages)
  /\ StronglySorted lt (map (fun e => snd e) (create_toc pages))
  /\ Forall (fun e => 1 <= fst (fst e) <= 4 /\ snd (fst e) <> ""
                      /\ 1 <= snd e <= length pages)
            (create_toc pages)
  /\ length (create_toc pages)
     = length (filter (fun p => negb (marked_blank p)) pages)
  /\ (forall k p,
         nth_error pages k = Some p ->
         (marked_blank p = false
          <-> exists level title, In (level, title, k + 1) (create_toc pages))).
Proof.
  unfold create_toc.
  destruct (toc_from_numbers pages 0) as [Hn Hall].
  destruct (content_indices_sorted pages 0) as [Hs Hr].
  split; [exact Hn|]. split.
  { rewrite Hn. apply StronglySorted_map_impl with (R := lt); [|exact Hs].
    intros; lia. }
  split.
  { apply Forall_forall. intros e He.
    rewrite Forall_forall in Hall. destruct (Hall e He) as [H1 H2].
    split; [exact H1|]. split; [exact H2|].
    assert (Hin : In (snd e) (map S (content_indices 0 pages)))
      by (rewrite <- Hn; now apply in_map).
    apply in_map_iff in Hin as (k & <- & Hk).
    rewrite Forall_forall in Hr. specialize (Hr k Hk). lia. }
  split.
  { rewrite <- (length_map (fun e => snd e)), Hn, length_map.
    clear. generalize 0. induction pages as [|p r IH]; intros idx; simpl;
      [reflexivity|].
    destruct (marked_blank p); simpl; now rewrite IH. }
  intros k p Hp. split.
  - intros Hb.
    assert (Hin : In (S k) (map (fun e => snd e) (toc_from 0 pages))).
    { rewrite Hn. apply in_map. apply content_indices_In.
      exists p. rewrite Nat.sub_0_r. repeat split; trivial. lia. }
    apply in_map_iff in Hin as ([[level title] n] & E & Hin).
    simpl in E. subst n. exists level, title.
    now replace (k + 1) with (S k) by lia.
  - intros (level & title & Hin).
    apply (in_map (fun e => snd e)) in Hin. rewrite Hn in Hin.
    simpl in Hin. apply in_map_iff in Hin as (j & Ej & Hj).
    assert (j = k) by lia. subst j.
    apply content_indices_In in Hj as (q & Hq & _ & Hb).
    rewrite Nat.sub_0_r in Hq. congruence.
Qed.

Lemma outline_from_spec (toc : list (Z * string * Z)) (prev : Z) :
  (1 <= prev)%Z ->
  length (outline_from prev toc) = length toc
  /\ map (fun e => snd e) (outline_from prev toc)
     = map (fun e => (snd e - 1)%Z) toc
  /\ Forall (fun e => (1 <= fst (fst e))%Z /\ snd (fst e) <> ""
                      /\ snd (fst e) <> BLANK_PAGE)
            (outline_from prev toc)
  /\ climbs_by_one prev (map (fun e => fst (fst e)) (outline_from prev toc))
  /\ (Forall (fun e => (1 <= fst (fst e))%Z) toc ->
      climbs_by_one prev (map (fun e => fst (fst e)) toc) ->
      map (fun e => fst (fst e)) (outline_from prev toc)
      = map (fun e => fst (fst e)) toc).
Proof.
  revert prev. induction toc as [|[[level title] page_num] r IH];
    intros prev Hprev.
  - simpl. repeat split; constructor.
  - cbn [outline_from]. cbv zeta.
    set (level' := Z.max 1 (if (prev + 1 <? level)%Z then (prev + 1)%Z
                            else level)).
    assert (H1 : (1 <= level')%Z) by (unfold level'; lia).
    assert (H2 : (level' <= prev + 1)%Z).
    { unfold level'. destruct (prev + 1 <? level)%Z eqn:E; [lia|].
      apply Z.ltb_ge in E. lia. }
    destruct (IH level' H1) as (I1 & I2 & I3 & I4 & I5).
    cbn [length map fst snd climbs_by_one].
    split; [now rewrite I1|]. split; [now rewrite I2|].
    split.
    { constructor; [|exact I3]. cbn [fst snd]. split; [exact H1|].
      destruct (String.eqb title "" || String.eqb title BLANK_PAGE) eqn:E;
        [split; discriminate|].
      apply orb_false_iff in E as [E1 E2].
      apply String.eqb_neq in E1, E2. now split. }
    split; [now split|].
    intros Hall [Hc1 Hc2]. inversion Hall as [|? ? Hl Hr]; subst.
    cbn [fst snd] in Hl.
    assert (El : level' = level).
    { unfold level'. destruct (prev + 1 <? level)%Z eqn:E; [|lia].
      apply Z.ltb_lt in E. lia. }
    rewrite El in *. f_equal. now apply I5.
Qed.

(** X20.  The outline built from a table of contents has an entry for each of
    its entries, pointing at the page counted from 0; no outline title is
    empty or the blank-page mark; every level is at least 1 and at most
    one more than the level before it (1 before the first).  A table whose
    levels already obey this keeps its levels.  For the table of contents
    of a page list the outline points at exactly the pages that are not
    marked blank, in page order. *)
Theorem outline_of_toc (toc : list (Z * string * Z))
        (pages : list toc_page) :
  length (outline toc) = length toc
  /\ map (fun e => snd e) (outline toc) = map (fun e => (snd e - 1)%Z) toc
  /\ Forall (fun e => (1 <= fst (fst e))%Z /\ snd (fst e) <> ""
                      /\ snd (fst e) <> BLANK_PAGE)
            (outline toc)
  /\ climbs_by_one 1 (map (fun e => fst (fst e)) (outline toc))
  /\ (Forall (fun e => (1 <= fst (fst e))%Z) toc ->
      climbs_by_one 1 (map (fun e => fst (fst e)) toc) ->
      map (fun e => fst (fst e)) (outline toc)
      = map (fun e => fst (fst e)) toc)
  /\ map (fun e => snd e) (outline (as_integers (create_toc pages)))
     = map Z.of_nat (content_indices 0 pages).
Proof.
  unfold outline.
  destruct (outline_from_spec toc 1) as (H1 & H2 & H3 & H4 & H5); [lia|].
  repeat (split; [assumption|]).
  destruct (outline_from_spec (as_integers (create_toc pages)) 1)
    as (_ & G & _); [lia|].
  rewrite G. unfold as_integers. rewrite map_map. cbn [snd].
  rewrite <- (map_map (fun e => snd e) (fun n => (Z.of_nat n - 1)%Z)).
  unfold create_toc. rewrite (proj1 (toc_from_numbers pages 0)), map_map.
  apply map_ext. intros k. lia.
Qed.

End TableOfContents.

Section TocExamples.
Import ExportPdf Spec2.
Local Open Scope string_scope.

Lemma outline_of_toc_witness :
  Forall (fun e => (1 <= fst (fst e))%Z) [(1, "A", 1); (2, "B", 2)]%Z
  /\ map (fun e => fst (fst e)) (outline [(1, "A", 1); (2, "B", 2)]%Z)
     = [1; 2]%Z
  /\ outline [(3, "", 1)]%Z = [(2, "(Untitled Page)", 0)]%Z.
Proof.
  assert (H : Forall (fun e : Z * string * Z => (1 <= fst (fst e))%Z)
                     [(1, "A", 1); (2, "B", 2)]%Z)
    by (repeat constructor; simpl; lia).
  split; [exact H|]. split; [|reflexivity].
  apply (proj1 (proj2 (proj2 (proj2 (proj2
           (outline_of_toc [(1, "A", 1); (2, "B", 2)]%Z [])))))).
  - exact H.
  - simpl. lia.
Defined.

Lemma create_toc_entries_witness :
  nth_error [mkTocPage (Some "Scope") (Some "2.1") None;
             mkTocPage (Some BLANK_PAGE) None None;
             mkTocPage None None (Some "appendix")] 2
  = Some (mkTocPage None None (Some "appendix"))
  /\ create_toc [mkTocPage (Some "Scope") (Some "2.1") None;
                 mkTocPage (Some BLANK_PAGE) None None;
                 mkTocPage None None (Some "appendix")]
     = [(2, "2.1 Scope", 1); (2, "Page 3", 3)]
  /\ exists level title,
      In (level, title, 2 + 1)
         (create_toc [mkTocPage (Some "Scope") (Some "2.1") None;
                      mkTocPage (Some BLANK_PAGE) None None;
                      mkTocPage None None (Some "appendix")]).
Proof.
  split; [reflexivity|]. split; [reflexivity|].
  apply (proj2 (proj2 (proj2 (proj2 (create_toc_entries
           [mkTocPage (Some "Scope") (Some "2.1") None;
            mkTocPage (Some BLANK_PAGE) None None;
            mkTocPage None None (Some "appendix")])))) 2
           (mkTocPage None None (Some "appendix")) eq_refl).
  reflexivity.
Defined.

End TocExamples.

(** ** The records that the pipeline hands to the engine (processor.py) *)

Section PipelinePages.
Import Spec Spec2 Ordering Duplicates Pipeline.
Variable embedding : Type.
Variable cosine_similarity : embedding -> embedding -> Q.
Variable round2 : Q -> Q.

Local Abbreviation hybrid := (order_pages_hybrid cosine_similarity round2).

Lemma Forall_same_content (P : page -> Prop) (l l' : list page) :
  (forall p q, content p = content q -> P q -> P p) ->
  map content l' = map content l -> Forall P l -> Forall P l'.
Proof.
  intros HP. revert l. induction l' as [|p r IH]; intros [|q s] E H;
    try discriminate; [constructor|].
  pose proof (f_equal (hd (content p)) E) as Ep.
  pose proof (f_equal (@tl _) E) as Er. cbn [map hd tl] in Ep, Er.
  inversion H; subst.
  constructor; [now apply (HP p q)|now apply (IH s)].
Qed.

Lemma prepared_pages (raw : list page) :
  Forall (fun p =>
            (section_numeric_value p <> None -> title p <> None)
            /\ position_hint p <> None
            /\ (is_blank p = true ->
                section_numeric_value p = None
                /\ position_hint p = Some 9999%Z))
         (classify_sections (extract_sections raw)).
Proof.
  unfold classify_sections, extract_sections. rewrite map_map.
  apply Forall_forall. intros p Hp.
  apply in_map_iff in Hp as (q & <- & _).
  unfold set_position_hint, set_section_value, is_blank.
  cbn [section_numeric_value title position_hint text].
  pose proof (extract_section_number_ok (title q)) as Hok.
  split; [|split; [discriminate|]].
  - intros Hv Ht. rewrite Ht in Hv. now apply Hv.
  - destruct (title q) as [t|]; [|discriminate].
    intros Hb. apply String.eqb_eq in Hb. subst t.
    split; [reflexivity|].
    unfold Keywords.classify_section. cbv zeta.
    destruct (fold_left _ _ _) as [[m s] h]. reflexivity.
Qed.

(** X21.  The records that the pipeline prepares (section values taken from the
    titles, position hints from the keyword classification, duplicate
    marks) are records the engine accepts: a page with a section value has
    a title, every page has a position hint, and a blank page has no
    section value and the hint 9999.  With an embedding for every page
    index the engine therefore returns on them, and returns every page. *)
Theorem pipeline_pages_are_orderable (raw marked : list page)
        (embeddings : list embedding)
        (exact_duplicates : list (list Z))
        (near_duplicates : list (Z * Z * Q)) :
  Forall (fun p => page_index p < length embeddings) raw ->
  mark_duplicates (classify_sections (extract_sections raw))
                  exact_duplicates near_duplicates = Some marked ->
  titled_sections marked
  /\ Forall (fun p => position_hint p <> None) marked
  /\ Forall (fun p => is_blank p = true ->
                      section_numeric_value p = None
                      /\ position_hint p = Some 9999%Z) marked
  /\ exists out meta,
      hybrid marked embeddings = Some (out, meta)
      /\ Permutation (map erase_position out) (map erase_position marked).
Proof.
  intros Hidx Hm.
  pose proof (mark_duplicates_cases
                (classify_sections (extract_sections raw))
                exact_duplicates near_duplicates) as Hc.
  rewrite Hm in Hc. destruct Hc as [Hc _].
  assert (Hall : Forall (fun p =>
                   (section_numeric_value p <> None -> title p <> None)
                   /\ position_hint p <> None
                   /\ (is_blank p = true ->
                       section_numeric_value p = None
                       /\ position_hint p = Some 9999%Z)) marked).
  { apply (Forall_same_content _ (classify_sections (extract_sections raw))
                                 marked); [|exact Hc|apply prepared_pages].
    intros p q E. unfold content in E. unfold is_blank.
    injection E as _ _ Et _ Es Eh _. now rewrite Et, Es, Eh. }
  assert (Hi : Forall (fun p => page_index p < length embeddings) marked).
  { apply (Forall_same_content _ (classify_sections (extract_sections raw))
                                 marked); [|exact Hc|].
    - intros p q E. unfold content in E. injection E as Ei _ _ _ _ _ _.
      now rewrite Ei.
    - unfold classify_sections, extract_sections. rewrite map_map.
      apply Forall_forall. intros p Hp.
      apply in_map_iff in Hp as (q & <- & Hq).
      rewrite Forall_forall in Hidx. exact (Hidx q Hq). }
  assert (Ht : titled_sections marked)
    by (eapply Forall_impl; [|exact Hall]; simpl; tauto).
  split; [exact Ht|].
  split; [eapply Forall_impl; [|exact Hall]; simpl; tauto|].
  split; [eapply Forall_impl; [|exact Hall]; simpl; tauto|].
  destruct (hybrid_total embedding cosine_similarity round2
              marked embeddings Ht Hi) as (out & meta & E).
  exists out, meta. split; [exact E|].
  exact (hybrid_erased embedding cosine_similarity round2
           marked out meta embeddings E).
Qed.

End PipelinePages.

(** ** The further ordering properties on concrete documents *)

Section OrderingExamplesMore.
Import Spec Spec2 Ordering Duplicates Pipeline Examples.
Local Open Scope string_scope.

Local Abbreviation engine := (order_pages_hybrid no_similarity keep).

Lemma hybrid_keeps_every_page_witness :
  exists out meta,
    engine [blank 0; plain 1 "Introduction"] [tt; tt] = Some (out, meta)
    /\ length out = 2
    /\ map page_index out = [1; 0].
Proof.
  destruct (engine [blank 0; plain 1 "Introduction"] [tt; tt])
    as [[out meta]|] eqn:E; [|vm_compute in E; discriminate E].
  exists out, meta. split; [reflexivity|].
  destruct (hybrid_keeps_every_page
              unit no_similarity keep [blank 0; plain 1 "Introduction"]
              out meta [tt; tt] E) as (_ & Hl & _).
  split; [exact Hl|]. vm_compute in E. injection E as <- _. reflexivity.
Defined.

Lemma structure_order_path_witness :
  content_pages [plain 0 "Closing"; numbered 1 "Opening" 7 1] <> []
  /\ in_original_order [plain 0 "Closing"; numbered 1 "Opening" 7 1]
  /\ use_page_numbers [plain 0 "Closing"; numbered 1 "Opening" 7 1] = false
  /\ exists out meta,
      engine [plain 0 "Closing"; numbered 1 "Opening" 7 1] [tt; tt]
      = Some (out, meta)
      /\ dict_get "ordering_method" meta
         = Some (MStr "section_numbers_primary")
      /\ map page_index out = [0; 1].
Proof.
  assert (Hc : content_pages [plain 0 "Closing"; numbered 1 "Opening" 7 1]
               <> []) by discriminate.
  assert (Ho : in_original_order
                 [plain 0 "Closing"; numbered 1 "Opening" 7 1])
    by (repeat constructor; simpl; lia).
  assert (Hu : use_page_numbers
                 [plain 0 "Closing"; numbered 1 "Opening" 7 1] = false)
    by reflexivity.
  split; [exact Hc|]. split; [exact Ho|]. split; [exact Hu|].
  destruct (engine [plain 0 "Closing"; numbered 1 "Opening" 7 1] [tt; tt])
    as [[out meta]|] eqn:E; [|vm_compute in E; discriminate E].
  exists out, meta. split; [reflexivity|].
  destruct (structure_order_path
              unit no_similarity keep
              [plain 0 "Closing"; numbered 1 "Opening" 7 1]
              out meta [tt; tt] Hc Ho Hu E)
    as (sorted & body & _ & _ & _ & _ & _ & Hm).
  split; [exact Hm|]. vm_compute in E. injection E as <- _. reflexivity.
Defined.

Lemma refinement_idle_witness :
  length [tt; tt; tt; tt] = length four_pages
  /\ optimize_continuity no_similarity four_pages [tt; tt; tt; tt]
     = assign_positions four_pages.
Proof.
  split; [reflexivity|].
  apply (refinement_idle unit no_similarity four_pages [tt; tt; tt; tt]).
  - reflexivity.
  - right. exists 0%Q. intros a b. reflexivity.
Defined.

Lemma pipeline_pages_are_orderable_witness :
  exists marked out meta,
    mark_duplicates
      (classify_sections
         (extract_sections [plain 0 "2 Scope"; blank 1; plain 2 "1 Purpose"]))
      [] [] = Some marked
    /\ map section_numeric_value marked
       = [Some (inject_Z 2); None; Some (inject_Z 1)]
    /\ engine marked [tt; tt; tt] = Some (out, meta)
    /\ titled_sections marked.
Proof.
  destruct (mark_duplicates
              (classify_sections
                 (extract_sections
                    [plain 0 "2 Scope"; blank 1; plain 2 "1 Purpose"]))
              [] []) as [marked|] eqn:E; [|vm_compute in E; discriminate E].
  destruct (pipeline_pages_are_orderable
              unit no_similarity keep
              [plain 0 "2 Scope"; blank 1; plain 2 "1 Purpose"] marked
              [tt; tt; tt] [] []) as (Ht & _ & _ & out & meta & Eo & _).
  { repeat constructor. }
  { exact E. }
  exists marked, out, meta. split; [reflexivity|].
  split; [|split; [exact Eo|exact Ht]].
  vm_compute in E. injection E as <-. reflexivity.
Defined.

End OrderingExamplesMore.

(** ** The explanation of the engine's result (modules/ordering.py,
       processor.py) *)

Section ExplanationOfResult.
Import Spec Spec2 Ordering Explanation.
Variable embedding : Type.
Variable cosine_similarity : embedding -> embedding -> Q.
Variable round2 : Q -> Q.
Variable show : meta_value -> string.
Variable percent : meta_value -> option string.

Local Abbreviation hybrid := (order_pages_hybrid cosine_similarity round2).
Local Abbreviation explain := (generate_ordering_explanation show percent).

Lemma major_moves_none (pages : list page) :
  major_moves pages = None
  <-> exists p, In p pages /\ new_position p = None.
Proof.
  induction pages as [|p r IH]; simpl.
  - split; [discriminate|]. intros (p & [] & _).
  - destruct (new_position p) as [k|] eqn:Ek.
    + destruct (major_moves r) as [moves|].
      * split.
        -- destruct (moved_far _ _); discriminate.
        -- intros (q & [<-|Hq] & Hn); [congruence|].
           assert (X : Some moves = None) by (apply IH; now exists q).
           discriminate X.
      * split; [|reflexivity]. intros _.
        destruct (proj1 IH eq_refl) as (q & Hq & Hn).
        exists q. split; [now right|exact Hn].
    + split; [|reflexivity]. intros _. exists p. split; [now left|exact Ek].
Qed.

Lemma major_moves_some (pages : list page)
      (moves : list (nat * nat * option string)) :
  major_moves pages = Some moves ->
  map (fun m => snd m) moves = map title (filter far_moved pages).
Proof.
  revert moves. induction pages as [|p r IH]; simpl; intros moves.
  - now intros [= <-].
  - unfold far_moved at 1.
    destruct (new_position p) as [k|]; [|discriminate].
    destruct (major_moves r) as [ms|]; [|discriminate].
    destruct (moved_far (page_index p) k); intros [= <-]; simpl;
      now rewrite (IH ms).
Qed.

Lemma move_lines_none (moves : list (nat * nat * option string)) :
  move_lines moves = None <-> In None (map (fun m => snd m) moves).
Proof.
  induction moves as [|[[orig new] [t|]] r IH]; simpl.
  - split; [discriminate|contradiction].
  - destruct (move_lines r) as [lines|].
    + split; [discriminate|]. intros [H|H]; [discriminate|].
      apply IH in H. discriminate.
    + split; [|reflexivity]. intros _. right. now apply IH.
  - split; [|reflexivity]. intros _. now left.
Qed.

Lemma reordered_count_some (pages : list page) :
  Forall (fun p => new_position p <> None) pages ->
  reordered_count pages <> None.
Proof.
  induction 1 as [|p r Hp _ IH]; simpl; [discriminate|].
  destruct (new_position p); [|congruence].
  destruct (reordered_count r); [discriminate|congruence].
Qed.

Lemma explanation_cases (pages : list page) (meta : metadata)
      (first strategy : list string)
      (moves : list (nat * nat * option string)) :
  method_lines show percent meta = inr first ->
  strategy_lines meta = inr strategy ->
  major_moves pages = Some moves ->
  (move_lines (firstn 5 moves) = None -> explain pages meta = inl TypeError)
  /\ (move_lines (firstn 5 moves) <> None ->
      exists text, explain pages meta = inr text).
Proof.
  intros H1 H2 H3. unfold generate_ordering_explanation.
  rewrite H1, H2, H3. destruct moves as [|m ms].
  - split; [discriminate|]. intros _. now eexists.
  - destruct (move_lines (firstn 5 (m :: ms))) as [lines|].
    + split; [discriminate|]. intros _. now eexists.
    + split; [reflexivity|congruence].
Qed.

Lemma lines_of_metadata (a b c d e f : meta_value) (method : string) :
  method = "page_numbers_primary"%string
  \/ method = "section_numbers_primary"%string ->
  percent e <> None ->
  exists first strategy,
    method_lines show percent
      [ ("total_pages", a); ("content_pages", b); ("blank_pages", c);
        ("pages_with_numbers", d); ("page_number_coverage", e);
        ("sequential_score", f); ("ordering_method", MStr method) ]%string
    = inr first
    /\ strategy_lines
         [ ("total_pages", a); ("content_pages", b); ("blank_pages", c);
           ("pages_with_numbers", d); ("page_number_coverage", e);
           ("sequential_score", f); ("ordering_method", MStr method) ]%string
       = inr strategy.
Proof.
  intros Hm He. destruct (percent e) as [coverage|] eqn:Ec; [|congruence].
  unfold method_lines, strategy_lines, get.
  destruct Hm as [-> | ->]; simpl; rewrite Ec; do 2 eexists; split;
    reflexivity.
Qed.

(** X22.  The explanation of what the engine returns.  On a document with
    a content page the explanation never misses a key and the count of
    reordered pages is defined; the explanation raises TypeError exactly
    when one of the first five pages moved by more than 3 places has no
    title, and returns a text otherwise.  On a document of blank pages
    only, whose pages have no position yet, the engine's result makes the
    explanation, and the count of reordered pages, raise KeyError on
    [new_position]. *)
Theorem explanation_of_engine_result (pages out : list page)
        (meta : metadata) (embeddings : list embedding) :
  (forall z, percent (MInt z) <> None) ->
  (forall q, percent (MFloat q) <> None) ->
  hybrid pages embeddings = Some (out, meta) ->
  (content_pages pages <> [] ->
   reordered_count out <> None
   /\ (explain out meta = inl TypeError
       <-> exists p, In p (firstn 5 (filter far_moved out))
                     /\ title p = None)
   /\ (explain out meta = inl TypeError
       \/ exists text, explain out meta = inr text))
  /\ (content_pages pages = [] -> pages <> [] ->
      Forall (fun p => new_position p = None) pages ->
      explain out meta = inl (KeyError "new_position")
      /\ reordered_count out = None).
Proof.
  intros Hint Hfloat E. split.
  - intros Hc.
    destruct (hybrid_positions embedding cosine_similarity round2
                pages out meta embeddings Hc E) as [Hpos _].
    assert (Hall : Forall (fun p => new_position p <> None) out).
    { apply Forall_forall. intros p Hp.
      apply (in_map new_position) in Hp. rewrite Hpos in Hp.
      apply in_map_iff in Hp as (k & <- & _). discriminate. }
    split; [now apply reordered_count_some|].
    assert (Hm : meta = hybrid_metadata round2 pages (ordering_method pages)).
    { revert E. unfold order_pages_hybrid.
      destruct (content_pages pages); [congruence|].
      destruct (order_content _ pages embeddings); [|discriminate].
      now intros [= _ <-]. }
    destruct (major_moves out) as [moves|] eqn:Emoves.
    2:{ apply major_moves_none in Emoves as (p & Hp & Hn).
        rewrite Forall_forall in Hall. now elim (Hall p Hp). }
    pose proof (major_moves_some out moves Emoves) as Htitles.
    destruct (lines_of_metadata
                (MInt (Z.of_nat (length pages)))
                (MInt (Z.of_nat (length (content_pages pages))))
                (MInt (Z.of_nat (length (blank_pages pages))))
                (MInt (Z.of_nat (pages_with_numbers pages)))
                (MFloat (round2 (page_number_coverage pages)))
                (MFloat (round2 (sequential_score pages)))
                (ordering_method pages))
      as (first & strategy & H1 & H2).
    { unfold ordering_method. destruct (use_page_numbers pages); tauto. }
    { apply Hfloat. }
    fold (hybrid_metadata round2 pages (ordering_method pages)) in H1, H2.
    rewrite <- Hm in H1, H2.
    destruct (explanation_cases out meta first strategy moves H1 H2 Emoves)
      as [Hraise Hret].
    assert (Hfirst : map (fun m => snd m) (firstn 5 moves)
                     = map title (firstn 5 (filter far_moved out)))
      by (rewrite <- !firstn_map; now f_equal).
    assert (Hiff : move_lines (firstn 5 moves) = None
                   <-> exists p, In p (firstn 5 (filter far_moved out))
                                 /\ title p = None).
    { rewrite move_lines_none, Hfirst, in_map_iff.
      split; intros (p & H & H'); exists p; now split. }
    destruct (move_lines (firstn 5 moves)) as [lines|] eqn:El.
    + destruct Hret as [text Et]; [discriminate|].
      split; [|right; now exists text].
      rewrite Et, <- Hiff. split; discriminate.
    + rewrite (Hraise eq_refl). split; [|now left].
      rewrite <- Hiff. split; reflexivity.
  - intros Hc Hne Hnone.
    revert E. unfold order_pages_hybrid. rewrite Hc. intros [= <- <-].
    unfold blank_pages. rewrite (filter_all _ is_blank pages Hc).
    destruct pages as [|p r]; [congruence|].
    inversion Hnone as [|? ? Hp _]; subst.
    split.
    + unfold generate_ordering_explanation, method_lines, strategy_lines, get.
      destruct (percent (MInt 0)) as [c|] eqn:Ec; [|now elim (Hint _ Ec)].
      simpl. rewrite Ec. simpl. now rewrite Hp.
    + simpl. now rewrite Hp.
Qed.

End ExplanationOfResult.

Section ExplanationExamples.
Import Spec Spec2 Ordering Explanation Examples Examples2.
Local Open Scope string_scope.

Lemma explanation_of_engine_result_witness :
  (forall z, plain_percent (MInt z) <> None)
  /\ (exists meta,
         order_pages_hybrid no_similarity keep [blank 0] [tt]
         = Some ([blank 0], meta)
         /\ generate_ordering_explanation plain_show plain_percent
                                          [blank 0] meta
            = inl (KeyError "new_position"))
  /\ generate_ordering_explanation
       plain_show plain_percent [displaced_untitled]
       [("total_pages", MInt 1);
        ("ordering_method", MStr "section_numbers_primary")]
     = inl TypeError.
Proof.
  assert (Hz : forall z, plain_percent (MInt z) <> None) by discriminate.
  assert (Hq : forall q, plain_percent (MFloat q) <> None) by discriminate.
  split; [exact Hz|]. split; [|reflexivity].
  destruct (order_pages_hybrid no_similarity keep [blank 0] [tt])
    as [[out meta]|] eqn:E; [|vm_compute in E; discriminate E].
  destruct (explanation_of_engine_result
              unit no_similarity keep plain_show plain_percent
              [blank 0] out meta [tt] Hz Hq E) as [_ Hblank].
  destruct Hblank as [Hk _];
    [reflexivity|discriminate|repeat constructor|].
  vm_compute in E. injection E as <- <-.
  eexists. split; [reflexivity|exact Hk].
Defined.

End ExplanationExamples.

(** ** Detected page numbers (modules/page_numbers.py, detect_page_number) *)

Section DetectedNumbers.
Import Str PageNumberDetection Ordering.
Variable re_search : string -> list ascii -> option (list ascii).

Local Abbreviation first_of := (first_page_number re_search).

Lemma first_page_number_cases (scope : list ascii)
      (pats : list (string * Q)) :
  (forall pat g, re_search pat scope = Some g -> int_of_chars g <> None) ->
  (first_of scope pats = Some (None, 0%Q)
   /\ forall pat c, In (pat, c) pats ->
        match re_search pat scope with
        | Some g => forall n, int_of_chars g = Some n ->
                              ~ (1 <= n <= 9999)%Z
        | None => True
        end)
  \/ (exists pat c g n,
         first_of scope pats = Some (Some n, c)
         /\ In (pat, c) pats
         /\ re_search pat scope = Some g
         /\ int_of_chars g = Some n
         /\ (1 <= n <= 9999)%Z).
Proof.
  intros Hd. induction pats as [|[pat c] r IH]; simpl.
  - left. split; [reflexivity|]. intros ? ? [].
  - destruct (re_search pat scope) as [g|] eqn:Eg.
    + destruct (int_of_chars g) as [n|] eqn:En; [|now elim (Hd pat g Eg)].
      destruct ((1 <=? n)%Z && (n <=? 9999)%Z) eqn:Er.
      * right. exists pat, c, g, n.
        apply andb_true_iff in Er as [E1 E2].
        apply Z.leb_le in E1, E2. repeat split; trivial. now left.
      * destruct IH as [[E Hall]|(pat' & c' & g' & n' & E & Hin & H)].
        -- left. split; [exact E|]. intros pat' c' [[= <- <-]|Hin].
           ++ rewrite Eg. intros m Hm. rewrite En in Hm.
              injection Hm as <-. intros [H1 H2].
              apply Z.leb_le in H1, H2. rewrite H1, H2 in Er. discriminate.
           ++ now apply (Hall pat' c').
        -- right. exists pat', c', g', n'. split; [exact E|].
           split; [now right|exact H].
    + destruct IH as [[E Hall]|(pat' & c' & g' & n' & E & Hin & H)].
      * left. split; [exact E|]. intros pat' c' [[= <- <-]|Hin].
        -- now rewrite Eg.
        -- now apply (Hall pat' c').
      * right. exists pat', c', g', n'. split; [exact E|].
        split; [now right|exact H].
Qed.


End DetectedNumbers.

Section DetectionExamples.
Import Str PageNumberDetection Examples2.
Local Open Scope string_scope.


End DetectionExamples.
